(* ===== verification/_CoqProject ===== *)
-Q . S2P
Prelude.v
GoStd.v
Json.v
JsonDecode.v
GoTime.v
Proto.v
Float64.v
Utils.v
UtilsProps.v
HealthProbe.v
DataStore.v
DataStoreInv.v
DataStoreSpec.v
DataStoreProps.v
Interfaces.v
Ipamd.v
IpamdInv.v
IpamdFrame.v
IpamdQuiet.v
IpamdProps.v
RpcHandler.v
AwsLimits.v
AwsUtils.v
AwsUtilsProps.v
AwsService.v
PoolGrowth.v
Netlink.v
NetworkUtils.v
NetworkUtilsProps.v
HostNetworkProps.v
Driver.v
DriverProps.v
Cni.v
CniProps.v
Rpc.v
RpcProps.v
PodLifecycle.v
PluginMain.v
PluginProps.v
K8sDiscovery.v
PodInformer.v
EniConfig.v
DeepCopy.v
EniConfigCache.v
Setup.v
NodeStart.v
Introspect.v
IntrospectProps.v
Publisher.v
Metrics.v
MetricsProps.v
MetricsHelper.v
Main.v
