(* ===== verification/Prelude.v ===== *)
(** * Verification of the Amazon VPC CNI plugin for Kubernetes

    The program gives every pod of a node an address of the VPC.  Its parts, and
    how they work together:

    - the daemon [ipamd] (src/ipamd) keeps a pool of addresses of the network
      interfaces (ENIs) attached to the instance.  Its data store
      (datastore/data_store.go) records ENIs, addresses and pods; the address
      manager (ipamd.go) grows, shrinks and reconciles the pool through the EC2
      client; the RPC handlers (rpc_handler.go) serve the plugin over gRPC
      (src/rpc); an HTTP server (introspect.go) shows the state of the daemon;
    - the EC2 client (src/pkg/awsutils) caches what the instance metadata says and
      calls EC2 with retries and clean-up;
    - the node's network (src/pkg/networkutils): routes, policy rules and iptables
      of the host and of each ENI;
    - the CNI plugin (src/plugins/routed-eni): asks the daemon for an address and
      wires the pod with the driver (driver/driver.go);
    - pod discovery (src/pkg/k8sapi) and the ENIConfig controller
      (src/pkg/eniconfig) follow the API server;
    - the metrics helper (src/cni-metrics-helper) polls the metrics of all nodes
      and gives them to the CloudWatch publisher (src/pkg/publisher);
    - the health probe (src/client/health-check) asks the daemon whether it serves;
    - retries and helpers (src/pkg/utils).

    ** How code becomes definitions

    A Go function that touches state is a value of the monad [M S A] below: state
    passing with three ways to end, a value, a Go panic, or (only in loops run on
    fuel) not enough fuel.  Pointers that may be nil are options and dereferencing
    nil is [panic]; an [error] is a value of type [error] (GoStd.v), wrapped as
    errors.Wrap does.  Interfaces of Go are type classes whose methods act on an
    abstract world [W] and may answer anything, or not at all ([ext]); what the
    program relies on of the code behind them is a class of laws ([WorldOk],
    [ServicesOk], [RulesOk], [Answers], ...), each with a concrete instance on
    which the witnesses run.  The clock and the order of map iteration belong to
    the world.  Goroutines: each operation of the data store is one step (it holds
    the lock), before every step of the address manager any number of RPC requests
    may be served ([serve]); the informer and the worker of pod discovery are a step
    relation; while the introspection server marshals its answer, operations of other
    goroutines may change the maps it shares with the store.  Integers are unbounded except where the width shows ([int32],
    [int64]); an IP address is a number of 32 bits or of 128 with a mark for its
    family; [float64] is IEEE 754 binary64 as in Stdlib's
    SpecFloat.  Logging is left out.  Some error texts print whole Go values; these
    appear as the values' names.

    ** Files

    - Prelude: the monad, weakest preconditions, frames, loops, sums over maps;
      GoStd: errors, strings, IP addresses, metrics, time, maps of the Go runtime;
      Float64: binary64, exact on integers below 2^53; Json: encoding/json, a decoder
      and the round trip between them; JsonDecode: json.Unmarshal into structs of
      strings and json.MarshalIndent; GoTime: calendar and format of time.Time;
      Proto: the wire format of the vendored protobuf library.
    - Utils, UtilsProps: src/pkg/utils (backoff.go, errors.go, utils.go).
    - HealthProbe: src/client/health-check/grpc_health_probe.go with the flag package
      and time.ParseDuration, and Check of rpc_handler.go.
    - DataStore (src/ipamd/datastore/data_store.go), DataStoreInv (the invariant and
      what each operation does), DataStoreSpec (the abstract store and the
      refinement), DataStoreProps.
    - Interfaces: the interfaces between ipamd and its services.
    - Ipamd (src/ipamd/ipamd.go), IpamdInv (soundness under concurrent requests),
      IpamdFrame (what the daemon leaves alone of the world),
      IpamdQuiet (rules for runs without requests), IpamdProps.
    - RpcHandler: src/ipamd/rpc_handler.go and the messages of src/rpc/rpc.pb.go.
    - AwsLimits (vpc_ip_resource_limit.go), AwsUtils (awsutils.go), AwsUtilsProps,
      AwsService (the client as the service of Ipamd), PoolGrowth (the growth of the
      pool over that client and what EC2 documents of its calls).
    - Netlink (the interface of src/pkg/netlinkwrapper and the kernel's policy
      rules), NetworkUtils (src/pkg/networkutils/network.go), NetworkUtilsProps,
      HostNetworkProps.
    - Driver, DriverProps (driver.go); Cni, CniProps (cni.go); Rpc, RpcProps
      (src/rpc/rpc.pb.go: the messages on the wire, stubs, handlers and the way of a
      call); PodLifecycle: plugin, handlers, store and driver composed;
      PluginMain, PluginProps: the plugin as a process, with the vendored CNI library
      between the runtime and add and del.
    - K8sDiscovery, PodInformer (src/pkg/k8sapi/discovery.go with the work queue of
      the vendored client-go); EniConfig (src/pkg/eniconfig/eniconfig.go);
      DeepCopy (src/pkg/apis/crd/v1alpha1 in a heap), EniConfigCache (the controller's
      cache as pointers into it); Setup: registration of metrics, the log
      (src/pkg/utils/logger), CreateKubeClient and Start of the ENIConfig controller;
      NodeStart: nodeInit over the node's network, pod discovery and ENIConfig code.
    - Introspect, IntrospectProps: introspect.go and metrics.go of src/ipamd, with
      the multiplexer of net/http.
    - Publisher (publisher.go and ec2wrapper.go of src/pkg/ec2wrapper), Metrics,
      MetricsProps (src/cni-metrics-helper/metrics), MetricsHelper
      (cni-metrics-helper.go).
    - Main: src/main.go and RunRPCHandler, the start-up of the daemon.

    Definitions have the names of the functions they translate; a part of a
    function (a loop body, the code after a guard) has a name of its own and a
    comment that says which part.

    ** What is proved

    Each theorem's comment states its conditions; the main ones are repeated here.

    - The store refines an abstract store of addresses and pods, in every history in
      which no pod names an address another pod has and no address is added to a
      second ENI; its counters agree with its maps in all histories.  From the start
      of the daemon, when the pods it recovers name different addresses and those it
      serves name none, no two pods share an address.  A release frees one address,
      which is not given out before it has cooled down; an error changes nothing; an
      address in use is taken away only by the release of a pod recorded with it.
    - The address manager, with requests served in between, keeps the store sound for
      any number of turns and always ends them, also over the EC2 client (here the
      owner of an address is the same for the whole run, see [ServicesOk]).  Without
      requests in between ([Quiet]), warm targets are respected when the pool shrinks
      and an extra ENI is freed, the recovery loop records the running pods, and the
      pool grows until the target is met or the ENIs are full, over the real EC2
      client and an EC2 that has addresses to give.  Limits and cooldowns are always
      respected.
    - The handlers answer an available address exactly when there is one.
    - The EC2 client finds the least free device number, reports the deletion of an
      ENI only when EC2 does not have it any more, lists exactly what the metadata
      say, and never asks for more than the ENI's capacity.
    - The host's iptables rules that the daemon knows are in line with the settings,
      for the interface of the primary ENI, if none was there twice before; they send
      to SNAT exactly the packets that leave all CIDRs, are not for the host itself,
      and only without external SNAT.  The packet semantics covers the matches the
      rules use (HostNetworkProps, [spec_matches]).
    - Wiring a pod touches no other pod's rules; tearing it down restores the rules,
      save for the rule to the pod when the kernel refuses to delete it; plugin,
      daemon and driver together restore record and kernel, from the environment and
      input of the plugin's process to its exit code, when the daemon answers and
      stdout can be written; the documents it prints can be read back.
    - The messages of the service decode to what was encoded, also with fields of a
      newer version; over a working connection a call of the plugin is a call of the
      handler; when the connection fails at any point, one later del restores the
      record.
    - The start of the daemon, with its real network code, leaves the iptables rules
      in line with the settings and with what EC2 reports.
    - The answers of the introspection server are JSON documents of the type of their
      endpoint, from which ENIs, addresses, times and pods can be read back; without
      other calls meanwhile they are the store's.
    - The list of local pods converges however informer and worker interleave;
      MyENIConfig is the current one, also when others change the objects it was told
      about (not during the copy itself, which is one step); deep copies share
      nothing; registering metrics never panics; the publisher, with at most 100
      points waiting, is a queue that sends every data point once and in order; gauges
      are totals and counters are increments.
    - The daemon installs the plugin only after it was initialised in the same run;
      the health probe's exit code is determined for everything it can find.

    Theorems marked C<n> are the properties; other theorems show defects of the code
    (for example [named_address_is_shared], [huge_target_wraps],
    [device_index_128_panics], [counters_of_two_pods], [moved_pod_stays]).

    ** Fuel and bounds

    Loops with a counter in the source run on fuel one above it, and the theorems
    show that it never runs out: LinkByMac and addRoute 6 (5 retries), deleteENI 21
    and detach 22 (20 retries), waitENIAttached 6 turns, getLocalPods 5.  Endless
    loops take the number of turns as an argument: StartNodeIPPoolManager, runWorker,
    metric_loop; monitor takes the events that wake it.  RetryWithBackoffCtx runs on
    any fuel of at least n; push on the length of the data and one; the protobuf decoder, time.ParseDuration and
    json.Unmarshal on the length of their input, of which every turn takes at least
    one byte ([go_value_fuel], [duration_loop_fuel]).

    ** Not modelled

    The command line of the metrics helper, which a library parses; log lines; the
    wrappers that only forward to libraries (netlinkwrapper, nswrapper, the clients of
    the AWS SDK, httpwrapper, ttime, ...), whose interfaces are type classes here;
    generated code (mocks, the file descriptor of the protobuf messages); register.go
    of the custom resource; the script mockgen.go; and ZeroOrNil, which works by
    reflection on any type and is used by tests only.  The kernel, EC2, the metadata
    service, the API server and CloudWatch are worlds behind interfaces. *)
From stdpp Require Export base tactics list gmap strings sets fin_maps sorting.
From Stdlib Require Export ZArith Lia.

Open Scope Z_scope.

(** ** The effect monad

    A Go function that reads or writes state is a value of [M S A]: it takes
    the state and gives back a result and the new state.  The result says how
    the call ended: it returned a value, the Go runtime panicked, or (only for
    loops that the model runs on fuel) the fuel was not enough. *)
Inductive res (A : Type) : Type :=
| Ret (a : A)
| Panic (why : string)
| NoFuel.
Arguments Ret {A} a.
Arguments Panic {A} why.
Arguments NoFuel {A}.

Definition M (S A : Type) : Type := S → res A * S.

#[global] Instance M_ret {S} : MRet (M S) := λ A a s, (Ret a, s).
#[global] Instance M_bind {S} : MBind (M S) := λ A B f m s,
  match m s with
  | (Ret a, s') => f a s'
  | (Panic w, s') => (Panic w, s')
  | (NoFuel, s') => (NoFuel, s')
  end.

Section primitives.
Context {S : Type}.

Definition gets {A} (f : S → A) : M S A := λ s, (Ret (f s), s).
Definition modify (f : S → S) : M S unit := λ s, (Ret tt, f s).
Definition panic {A} (why : string) : M S A := λ s, (Panic why, s).
Definition nofuel {A} : M S A := λ s, (NoFuel, s).

(** A call that works on a part [T] of the state [S]. *)
Definition zoom {T A} (get : S → T) (set : T → S → S) (m : M T A) : M S A :=
  λ s, let '(r, t) := m (get s) in (r, set t s).

(** [for _, x := range l { ... }] whose body may [return] ([Some r]) or go on
    to the next element ([None]). *)
Fixpoint find_loop {A R} (f : A → M S (option R)) (l : list A) : M S (option R) :=
  match l with
  | [] => mret None
  | x :: l => o ← f x; match o with Some r => mret (Some r) | None => find_loop f l end
  end.

(** [for _, x := range l { ... }] whose body never returns. *)
Fixpoint for_loop {A} (f : A → M S unit) (l : list A) : M S unit :=
  match l with
  | [] => mret tt
  | x :: l => f x ;; for_loop f l
  end.

(** [for _, x := range l { acc = ... }] with a local variable [acc]. *)
Fixpoint fold_loop {A B} (f : B → A → M S B) (b : B) (l : list A) : M S B :=
  match l with
  | [] => mret b
  | x :: l => b' ← f b x; fold_loop f b' l
  end.

End primitives.

(** ** Weakest preconditions

    [wp E m Q s]: run from [s], [m] ends, and with a value and a state that
    satisfy [Q], or with a Go panic, which is allowed when [E] holds.  So
    [wp False] is total correctness without panics, and [wp True] says what
    holds whenever the call returns to its caller; running out of fuel is a
    failure in both. *)
Definition wp {S A} (E : Prop) (m : M S A) (Q : A → S → Prop) (s : S) : Prop :=
  match m s with
  | (Ret a, s') => Q a s'
  | (Panic _, _) => E
  | (NoFuel, _) => False
  end.

Section wp.
Context {S : Type} (E : Prop).
Implicit Types s : S.

Lemma wp_ret {A} (a : A) (Q : A → S → Prop) s : Q a s → wp E (mret a) Q s.
Proof. done. Qed.

Lemma wp_bind {A B} (m : M S A) (f : A → M S B) Q s :
  wp E m (λ a s', wp E (f a) Q s') s → wp E (mbind f m) Q s.
Proof. unfold wp, mbind, M_bind. destruct (m s) as [[] ?]; done. Qed.

Lemma wp_bind_assoc {A B C} (m : M S A) (f : A → M S B) (g : B → M S C) Q s :
  wp E (mbind g (mbind f m)) Q s → wp E (mbind (λ a, mbind g (f a)) m) Q s.
Proof. unfold wp, mbind, M_bind. by destruct (m s) as [[] ?]. Qed.

Lemma wp_bind_inv {A B} (m : M S A) (f : A → M S B) Q s :
  wp E (mbind f m) Q s → wp E m (λ a s', wp E (f a) Q s') s.
Proof. unfold wp, mbind, M_bind. destruct (m s) as [[] ?]; done. Qed.

Lemma wp_mono {A} (m : M S A) (Q Q' : A → S → Prop) s :
  wp E m Q s → (∀ a s', Q a s' → Q' a s') → wp E m Q' s.
Proof. unfold wp. destruct (m s) as [[] ?]; eauto. Qed.

Lemma wp_and {A} (m : M S A) (Q Q' : A → S → Prop) s :
  wp E m Q s → wp E m Q' s → wp E m (λ a s', Q a s' ∧ Q' a s') s.
Proof. unfold wp. destruct (m s) as [[] ?]; eauto. Qed.

Lemma wp_gets {A} (f : S → A) Q s : Q (f s) s → wp E (gets f) Q s.
Proof. done. Qed.

Lemma wp_modify f (Q : unit → S → Prop) s : Q tt (f s) → wp E (modify f) Q s.
Proof. done. Qed.

Lemma wp_panic {A} why (Q : A → S → Prop) s : E → wp E (panic why) Q s.
Proof. done. Qed.

Lemma wp_zoom {T A} get set (m : M T A) (Q : A → S → Prop) s :
  wp E m (λ a t, Q a (set t s)) (get s) → wp E (zoom get set m) Q s.
Proof. unfold wp, zoom. destruct (m (get s)) as [[] ?]; done. Qed.

Lemma wp_zoom_inv {T A} get set (m : M T A) (Q : A → S → Prop) s :
  wp E (zoom get set m) Q s → wp E m (λ a t, Q a (set t s)) (get s).
Proof. unfold wp, zoom. destruct (m (get s)) as [[] ?]; done. Qed.

(** The loop rules: [I done s] holds after the iterations for [done]. *)
Lemma wp_find_loop {A R} (f : A → M S (option R)) l (I : list A → S → Prop)
    (Q : option R → S → Prop) s :
  I [] s →
  (∀ done x rest s, l = done ++ x :: rest → I done s →
     wp E (f x) (λ o s', match o with
                         | Some r => Q (Some r) s'
                         | None => I (done ++ [x]) s'
                         end) s) →
  (∀ s, I l s → Q None s) →
  wp E (find_loop f l) Q s.
Proof.
  intros H0 Hstep Hend.
  assert (∀ rest dn s, l = dn ++ rest → I dn s → wp E (find_loop f rest) Q s) as Hgen.
  { intros rest. induction rest as [|x rest IH]; intros dn s' Heq HI.
    - rewrite app_nil_r in Heq. subst. by apply wp_ret, Hend.
    - apply wp_bind. eapply wp_mono; [by eapply Hstep|].
      intros [r|] s'' H; [done|]. apply (IH (dn ++ [x])); [|done].
      by rewrite <-app_assoc. }
  by apply (Hgen l []).
Qed.

Lemma wp_fold_loop {A B} (f : B → A → M S B) l b0 (I : list A → B → S → Prop)
    (Q : B → S → Prop) s :
  I [] b0 s →
  (∀ done x rest b s, l = done ++ x :: rest → I done b s →
     wp E (f b x) (λ b' s', I (done ++ [x]) b' s') s) →
  (∀ b s, I l b s → Q b s) →
  wp E (fold_loop f b0 l) Q s.
Proof.
  intros H0 Hstep Hend.
  assert (∀ rest dn b s, l = dn ++ rest → I dn b s → wp E (fold_loop f b rest) Q s) as Hgen.
  { intros rest. induction rest as [|x rest IH]; intros dn b s' Heq HI.
    - rewrite app_nil_r in Heq. subst. by apply wp_ret, Hend.
    - apply wp_bind. eapply wp_mono; [by eapply Hstep|].
      intros b' s'' H. apply (IH (dn ++ [x])); [|done].
      by rewrite <-app_assoc. }
  by apply (Hgen l []).
Qed.

Lemma wp_for_loop {A} (f : A → M S unit) l (I : list A → S → Prop)
    (Q : unit → S → Prop) s :
  I [] s →
  (∀ done x rest s, l = done ++ x :: rest → I done s →
     wp E (f x) (λ _ s', I (done ++ [x]) s') s) →
  (∀ s, I l s → Q tt s) →
  wp E (for_loop f l) Q s.
Proof.
  intros H0 Hstep Hend.
  assert (∀ rest dn s, l = dn ++ rest → I dn s → wp E (for_loop f rest) Q s) as Hgen.
  { intros rest. induction rest as [|x rest IH]; intros dn s' Heq HI.
    - rewrite app_nil_r in Heq. subst. by apply wp_ret, Hend.
    - apply wp_bind. eapply wp_mono; [by eapply Hstep|].
      intros [] s'' H. apply (IH (dn ++ [x])); [|done].
      by rewrite <-app_assoc. }
  by apply (Hgen l []).
Qed.

End wp.

Lemma wp_weaken {S A} (E E' : Prop) (m : M S A) Q s :
  (E → E') → wp E m Q s → wp E' m Q s.
Proof. unfold wp. destruct (m s) as [[] ?]; eauto. Qed.

(** From a weakest precondition back to the result of the run. *)
Lemma wp_run {S A} (m : M S A) (Q : A → S → Prop) s :
  wp False m Q s → ∃ a s', m s = (Ret a, s') ∧ Q a s'.
Proof. unfold wp. destruct (m s) as [[] ?]; naive_solver. Qed.

Lemma wp_elim {S A} E (m : M S A) (Q : A → S → Prop) s a s' :
  wp E m Q s → m s = (Ret a, s') → Q a s'.
Proof. unfold wp. intros H Heq. by rewrite Heq in H. Qed.

(** The run itself as part of the postcondition. *)
Lemma wp_trace {S A} E (m : M S A) (Q : A → S → Prop) s :
  wp E m Q s → wp E m (λ a s', Q a s' ∧ m s = (Ret a, s')) s.
Proof. unfold wp. by destruct (m s) as [[] ?]. Qed.

(** Running a sequence: what the first command does decides. *)
Lemma run_bind {S A B} (m : M S A) (f : A → M S B) s a s' :
  m s = (Ret a, s') → mbind f m s = f a s'.
Proof. intros H. unfold mbind, M_bind. by rewrite H. Qed.

Lemma run_bind_inv {S A B} (m : M S A) (f : A → M S B) s b s' :
  mbind f m s = (Ret b, s') → ∃ a s1, m s = (Ret a, s1) ∧ f a s1 = (Ret b, s').
Proof. unfold mbind, M_bind. destruct (m s) as [[a| |] s1]; [|done..]. eauto. Qed.

Lemma run_bind_panic {S A B} (m : M S A) (f : A → M S B) s why s' :
  m s = (Panic why, s') → mbind f m s = (Panic why, s').
Proof. intros H. unfold mbind, M_bind. by rewrite H. Qed.

(** [s ⊢ m ⇓ a ⊣ s']: run from [s], [m] returns [a] and leaves [s']. *)
Declare Scope go_scope.
Delimit Scope go_scope with go.
Notation "s ⊢ m ⇓ a ⊣ s'" := (m s = (Ret a, s'))
  (at level 70, m at level 69, a at level 69, s' at level 69) : go_scope.
Open Scope go_scope.

(** ** Proof automation

    [wp_step] applies the rule for the command at the head of the program;
    components extend it through [wp_hook] with rules of their own commands.
    [wp_steps] runs straight-line code. *)
Ltac wp_hook := fail.

Ltac wp_step :=
  lazymatch goal with
  | |- wp _ (mbind _ _) _ _ => apply wp_bind
  | |- wp _ (mret _) _ _ => apply wp_ret
  | |- wp _ (gets _) _ _ => apply wp_gets
  | |- wp _ (modify _) _ _ => apply wp_modify
  | |- wp _ (let '(_, _) := ?x in _) _ _ => destruct x
  | |- _ => wp_hook
  end; cbn beta iota.

Ltac wp_steps := repeat wp_step.

(** Case analysis on the test the program is about to branch on. *)
Ltac wp_case H :=
  lazymatch goal with
  | |- wp _ (match ?x with _ => _ end) _ _ => destruct x eqn:H
  end.

(** ** Frames

    [keeps R m]: every run of [m], however it ends, relates the state before to
    the state after by the preorder [R].  The hint database [keeps] holds the
    rules, and what each component proves of its own operations. *)
Definition keeps {S A} (R : relation S) (m : M S A) : Prop := ∀ s, R s (m s).2.

Create HintDb keeps.
Create HintDb safe.

Section keeps.
Context {S : Type} (R : relation S) `{!PreOrder R}.

Lemma keeps_ret {A} (a : A) : keeps R (mret a).
Proof. intros s. reflexivity. Qed.

Lemma keeps_gets {A} (f : S → A) : keeps R (gets f).
Proof. intros s. reflexivity. Qed.

Lemma keeps_panic {A} why : keeps R (panic (A:=A) why).
Proof. intros s. reflexivity. Qed.

Lemma keeps_nofuel {A} : keeps R (nofuel (A:=A)).
Proof. intros s. reflexivity. Qed.

Lemma keeps_bind {A B} (m : M S A) (f : A → M S B) :
  keeps R m → (∀ a, keeps R (f a)) → keeps R (mbind f m).
Proof.
  intros Hm Hf s. unfold mbind, M_bind. specialize (Hm s).
  destruct (m s) as [[a| |] s']; [|done..]. simpl in Hm. etransitivity; [exact Hm|apply Hf].
Qed.

Lemma keeps_find_loop {A T} (f : A → M S (option T)) l :
  (∀ x, x ∈ l → keeps R (f x)) → keeps R (find_loop f l).
Proof.
  induction l as [|x l IH]; intros Hf; [apply keeps_ret|].
  apply keeps_bind; [apply Hf; set_solver|]. intros [r|]; [apply keeps_ret|].
  apply IH. set_solver.
Qed.

Lemma keeps_fold_loop {A B} (f : B → A → M S B) b l :
  (∀ b x, x ∈ l → keeps R (f b x)) → keeps R (fold_loop f b l).
Proof.
  revert b. induction l as [|x l IH]; intros b Hf; [apply keeps_ret|].
  apply keeps_bind; [apply Hf; set_solver|]. intros b'. apply IH. set_solver.
Qed.

Lemma keeps_for_loop {A} (f : A → M S unit) l :
  (∀ x, x ∈ l → keeps R (f x)) → keeps R (for_loop f l).
Proof.
  induction l as [|x l IH]; intros Hf; [apply keeps_ret|].
  apply keeps_bind; [apply Hf; set_solver|]. intros _. apply IH. set_solver.
Qed.

End keeps.

Lemma keeps_zoom {S T A} (R : relation S) (RT : relation T) get set (m : M T A) :
  keeps RT m → (∀ s t, RT (get s) t → R s (set t s)) → keeps R (zoom get set m).
Proof.
  intros Hm HR s. unfold zoom. specialize (Hm (get s)).
  destruct (m (get s)) as [r t]. apply HR, Hm.
Qed.

(** A weakest precondition extended by what the program keeps. *)
Lemma wp_keeps {S A} E (R : relation S) (m : M S A) Q s :
  keeps R m → wp E m Q s → wp E m (λ a s', Q a s' ∧ R s s') s.
Proof. intros Hm. specialize (Hm s). unfold wp. destruct (m s) as [[] ?]; done. Qed.

#[export] Hint Resolve keeps_ret keeps_gets keeps_panic keeps_nofuel : keeps.

(** [keeps_steps] walks through a program: binds, branches and loops. *)
Ltac keeps_step :=
  match goal with
  | |- keeps _ (mbind _ _) => apply keeps_bind; [..|intros ?]
  | |- keeps _ (find_loop _ _) => apply keeps_find_loop; [..|intros ? _]
  | |- keeps _ (fold_loop _ _ _) => apply keeps_fold_loop; [..|intros ? ? _]
  | |- keeps _ (for_loop _ _) => apply keeps_for_loop; [..|intros ? _]
  | |- keeps _ _ => solve [eauto 4 with keeps typeclass_instances]
  | |- keeps _ (match ?x with _ => _ end) => destruct x
  | |- PreOrder _ => typeclasses eauto
  end.
Ltac keeps_steps := repeat (cbn beta iota zeta; keeps_step).

(** ** Strings *)

Lemma string_app_assoc (a b c : string) : ((a +:+ b) +:+ c = a +:+ (b +:+ c))%string.
Proof. induction a as [|x a IH]; [done|]. exact (f_equal (String x) IH). Qed.

Lemma string_app_cons c (a b : string) : (String c a +:+ b = String c (a +:+ b))%string.
Proof. done. Qed.

Lemma string_app_nil (a : string) : (a +:+ "" = a)%string.
Proof. induction a as [|x a IH]; [done|]. exact (f_equal (String x) IH). Qed.

Lemma string_length_app (a b : string) :
  (String.length (a +:+ b)%string = String.length a + String.length b)%nat.
Proof. induction a as [|c a IH]; [done|]. exact (f_equal S IH). Qed.

(** ** Sums over the values of a finite map *)
Definition map_sum {K A} `{Countable K} (f : A → Z) (m : gmap K A) : Z :=
  map_fold (λ _ x acc, f x + acc) 0 m.

Section map_sum.
Context {K A : Type} `{Countable K}.
Implicit Types (f g : A → Z) (m : gmap K A).

Lemma map_sum_empty f : map_sum f (∅ : gmap K A) = 0.
Proof. apply map_fold_empty. Qed.

Lemma map_sum_insert_new f m i x :
  m !! i = None → map_sum f (<[i := x]> m) = f x + map_sum f m.
Proof. intros Hi. unfold map_sum. rewrite map_fold_insert_L; [done| |done]. intros. lia. Qed.

Lemma map_sum_delete f m i x :
  m !! i = Some x → map_sum f (delete i m) = map_sum f m - f x.
Proof.
  intros Hi. unfold map_sum. rewrite (map_fold_delete_L _ _ i x m); [lia| |done].
  intros. lia.
Qed.

Lemma map_sum_insert f m i x y :
  m !! i = Some y → map_sum f (<[i := x]> m) = map_sum f m - f y + f x.
Proof.
  intros Hi. rewrite <-insert_delete_eq, map_sum_insert_new by apply lookup_delete_eq.
  rewrite (map_sum_delete _ _ _ y) by done. lia.
Qed.

Lemma map_sum_ext f g m :
  (∀ i x, m !! i = Some x → f x = g x) → map_sum f m = map_sum g m.
Proof.
  induction m as [|i x m Hi IH] using map_ind; intros Hfg.
  - by rewrite !map_sum_empty.
  - rewrite !map_sum_insert_new by done. f_equal.
    + apply (Hfg i). apply lookup_insert_eq.
    + apply IH. intros j y Hj. apply (Hfg j). rewrite lookup_insert_ne; congruence.
Qed.

Lemma map_sum_le f g m :
  (∀ i x, m !! i = Some x → f x ≤ g x) → map_sum f m ≤ map_sum g m.
Proof.
  induction m as [|i x m Hi IH] using map_ind; intros Hfg.
  - by rewrite !map_sum_empty.
  - rewrite !map_sum_insert_new by done.
    pose proof (Hfg i x (lookup_insert_eq _ _ _)).
    enough (map_sum f m ≤ map_sum g m) by lia.
    apply IH. intros j y Hj. apply (Hfg j). rewrite lookup_insert_ne; congruence.
Qed.

Lemma map_sum_sub f g m : map_sum (λ x, f x - g x) m = map_sum f m - map_sum g m.
Proof.
  induction m as [|i x m Hi IH] using map_ind.
  - by rewrite !map_sum_empty.
  - rewrite !map_sum_insert_new by done. lia.
Qed.

Lemma map_sum_const c m : map_sum (λ _, c) m = c * Z.of_nat (size m).
Proof.
  induction m as [|i x m Hi IH] using map_ind.
  - rewrite map_sum_empty, map_size_empty. lia.
  - rewrite map_sum_insert_new, map_size_insert_None by done. lia.
Qed.

Lemma map_sum_nonneg f m : (∀ i x, m !! i = Some x → 0 ≤ f x) → 0 ≤ map_sum f m.
Proof.
  intros Hf. pose proof (map_sum_const 0 m). pose proof (map_sum_le (λ _, 0) f m Hf). lia.
Qed.

Lemma map_sum_ge_one f m i x :
  m !! i = Some x → (∀ j y, m !! j = Some y → 0 ≤ f y) → f x ≤ map_sum f m.
Proof.
  intros Hi Hf. pose proof (map_sum_delete f m i x Hi) as Hd.
  enough (0 ≤ map_sum f (delete i m)) by lia.
  apply map_sum_nonneg. intros j y [_ Hj]%lookup_delete_Some. eauto.
Qed.

Lemma map_sum_zero f m i x :
  map_sum f m = 0 → (∀ j y, m !! j = Some y → 0 ≤ f y) → m !! i = Some x → f x = 0.
Proof.
  intros Hz Hf Hi. pose proof (map_sum_ge_one f m i x Hi Hf). specialize (Hf i x Hi). lia.
Qed.

(** The sum a loop computes over the entries in any order. *)
Lemma map_sum_list f m (l : list (K * A)) :
  l ≡ₚ map_to_list m → foldr (λ kx acc, f kx.2 + acc) 0 l = map_sum f m.
Proof.
  intros Hl. transitivity (foldr (λ kx acc, f kx.2 + acc) 0 (map_to_list m)).
  - induction Hl; simpl; lia.
  - clear Hl. unfold map_sum. rewrite map_fold_foldr. induction (map_to_list m) as [|[] ? IH]; simpl; [done|].
    lia.
Qed.

End map_sum.
