(* ===== verification/GoStd.v ===== *)
(** * The Go language and library, as far as the sources use them

    Error values ([errors.New], [errors.Wrap] of github.com/pkg/errors, the
    package level error variables, [awserr.Error] and [syscall.Errno]), clock
    arithmetic, [strconv] and [strings] of Go 1.12 (the version of go.mod),
    integer conversions, the prometheus metrics store, and the [World]: what a
    process sees of the clock and of the order of a [range] over a map. *)
From stdpp Require Export pretty.
From Stdlib Require Export Ascii.
From S2P Require Import Prelude.

Open Scope Z_scope.

(** ** Errors *)

(** [EStr] is [errors.New]/[errors.Errorf]/[fmt.Errorf]; [EWrap] is
    [errors.Wrap]; [EVar] is a package level variable, compared by identity
    (its name); [EAws] an [awserr.Error] with its code, [EErrno] a
    [syscall.Errno]. *)
Inductive error : Type :=
| EStr (msg : string)
| EWrap (cause : error) (msg : string)
| EVar (name msg : string)
| EAws (code msg : string)
| EErrno (errno : Z) (msg : string).

#[global] Instance error_eq_dec : EqDecision error.
Proof. solve_decision. Defined.

(** The [Error()] method. *)
Fixpoint Error (e : error) : string :=
  match e with
  | EStr m | EVar _ m | EAws _ m | EErrno _ m => m
  | EWrap c m => m +:+ ": " +:+ Error c
  end.

(** [errors.Wrap(err, msg)]: a nil error stays nil. *)
Definition Wrap (err : option error) (msg : string) : option error :=
  match err with
  | None => None
  | Some e => Some (EWrap e msg)
  end.

Definition is_nil {A} (o : option A) : bool :=
  match o with None => true | Some _ => false end.

(** [err == v] for a package level error variable [v]. *)
Definition err_is (err : option error) (v : error) : bool :=
  match err with Some e => bool_decide (e = v) | None => false end.

(** [err.(awserr.Error).Code()], [err.(syscall.Errno)]. *)
Definition aws_code (e : error) : option string :=
  match e with EAws c _ => Some c | _ => None end.

Definition errno_of (e : error) : option Z :=
  match e with EErrno n _ => Some n | _ => None end.

(** Linux [syscall.ENOENT], [ESRCH], [EEXIST], [ENETUNREACH]. *)
Definition ENOENT : Z := 2.
Definition ESRCH : Z := 3.
Definition EEXIST : Z := 17.
Definition ENETUNREACH : Z := 101.

(** ** Clock

    A [time.Time] is the number of nanoseconds since the zero [time.Time]
    (January 1, year 1), so [time.Time{}] is 0; a [time.Duration] is an int64
    of nanoseconds. *)
Definition zeroTime : Z := 0.
Definition maxDuration : Z := 2 ^ 63 - 1.
Definition minDuration : Z := - 2 ^ 63.
Definition Second : Z := 1000000000.
Definition Minute : Z := 60 * Second.

(** [t.Sub(u)] saturates at the bounds of a Duration. *)
Definition Sub (t u : Z) : Z := Z.max minDuration (Z.min maxDuration (t - u)).

Lemma Sub_exact t u : minDuration ≤ t - u ≤ maxDuration → Sub t u = t - u.
Proof. unfold Sub. lia. Qed.

(** A comparison of [t.Sub(u)] with a duration inside the range is the exact
    comparison: saturation does not change its outcome. *)
Lemma Sub_lt t u d : minDuration < d ≤ maxDuration → (Sub t u < d ↔ t - u < d).
Proof. unfold Sub, minDuration, maxDuration. lia. Qed.

Lemma Sub_lt_false t u : ¬ Sub t u < 0 → u ≤ t.
Proof. unfold Sub, minDuration, maxDuration. lia. Qed.

Lemma Sub_gt t u d : minDuration ≤ d < maxDuration → (Sub t u > d ↔ t - u > d).
Proof. unfold Sub, minDuration, maxDuration. lia. Qed.

(** ** Integer conversions *)

(** [int32(x)] keeps the low 32 bits, as a signed integer. *)
Definition int32 (x : Z) : Z := (x + 2 ^ 31) `mod` 2 ^ 32 - 2 ^ 31.

Lemma int32_small x : - 2 ^ 31 ≤ x < 2 ^ 31 → int32 x = x.
Proof. intros. unfold int32. rewrite Z.mod_small; lia. Qed.

Lemma int32_range x : - 2 ^ 31 ≤ int32 x < 2 ^ 31.
Proof.
  unfold int32. pose proof (Z.mod_pos_bound (x + 2 ^ 31) (2 ^ 32)). lia.
Qed.

(** Arithmetic on [int] and [int64] keeps the low 64 bits. *)
Definition int64 (x : Z) : Z := (x + 2 ^ 63) `mod` 2 ^ 64 - 2 ^ 63.

Lemma int64_small n : - 2 ^ 63 ≤ n < 2 ^ 63 → int64 n = n.
Proof. intros Hn. unfold int64. rewrite Z.mod_small; lia. Qed.

(** ** strings *)

Definition is_space (c : Ascii.ascii) : bool :=
  let n := Ascii.nat_of_ascii c in
  (n =? 32)%nat || ((9 <=? n)%nat && (n <=? 13)%nat).

(** The characters up to the next separator, and what follows it. *)
Fixpoint split_aux (sep : Ascii.ascii → bool) (s : string) : string * list string :=
  match s with
  | EmptyString => (EmptyString, [])
  | String c s' =>
      let '(w, ws) := split_aux sep s' in
      if sep c then (EmptyString, w :: ws) else (String c w, ws)
  end.

(** [strings.Split(s, sep)] for a separator of one character. *)
Definition Split (s : string) (sep : Ascii.ascii) : list string :=
  let '(w, ws) := split_aux (Ascii.eqb sep) s in w :: ws.

(** [strings.Fields(s)]: the non-empty runs of characters that are not white
    space (of a string of ASCII characters). *)
Definition Fields (s : string) : list string :=
  let '(w, ws) := split_aux is_space s in
  filter (λ x, x ≠ EmptyString) (w :: ws).

Definition HasPrefix (s p : string) : bool := String.prefix p s.

Fixpoint Contains (s sub : string) : bool :=
  String.prefix sub s ||
  match s with EmptyString => false | String _ s' => Contains s' sub end.

(** ** strconv *)

Definition digit_val (c : Ascii.ascii) : option Z :=
  let n := Z.of_nat (Ascii.nat_of_ascii c) in
  if bool_decide (48 ≤ n ≤ 57) then Some (n - 48)
  else if bool_decide (97 ≤ n ≤ 122) then Some (n - 97 + 10)
  else if bool_decide (65 ≤ n ≤ 90) then Some (n - 65 + 10)
  else None.

Fixpoint parse_digits (base acc : Z) (s : string) : option Z :=
  match s with
  | EmptyString => Some acc
  | String c s' =>
      match digit_val c with
      | Some d => if bool_decide (d < base) then parse_digits base (acc * base + d) s' else None
      | None => None
      end
  end.

(** The magnitude of an integer literal: with base 0 the prefix chooses the
    base (0x, 0, or decimal), as in Go 1.12. *)
Definition parse_magnitude (base : Z) (s : string) : option Z :=
  match s with
  | EmptyString => None
  | String c s' =>
      if bool_decide (base = 0) then
        if Ascii.eqb c "0"%char then
          match s' with
          | String x s'' =>
              if Ascii.eqb x "x"%char || Ascii.eqb x "X"%char then
                match s'' with EmptyString => None | _ => parse_digits 16 0 s'' end
              else parse_digits 8 0 s'
          | EmptyString => Some 0
          end
        else parse_digits 10 0 s
      else parse_digits base 0 s
  end.

(** [strconv.ParseInt(s, base, bits)]; [None] stands for a non-nil error. *)
Definition ParseInt (s : string) (base bits : Z) : option Z :=
  let go neg s' :=
    match parse_magnitude base s' with
    | Some n =>
        let v := if neg : bool then - n else n in
        if bool_decide (- 2 ^ (bits - 1) ≤ v < 2 ^ (bits - 1)) then Some v else None
    | None => None
    end in
  match s with
  | EmptyString => None
  | String c s' =>
      if Ascii.eqb c "+"%char then go false s'
      else if Ascii.eqb c "-"%char then go true s'
      else go false s
  end.

(** [strconv.Atoi(s)] on a 64 bit machine. *)
Definition Atoi (s : string) : option Z := ParseInt s 10 64.

Definition ParseBool (s : string) : option bool :=
  if bool_decide (s ∈ ["1"; "t"; "T"; "true"; "TRUE"; "True"]%string) then Some true
  else if bool_decide (s ∈ ["0"; "f"; "F"; "false"; "FALSE"; "False"]%string) then Some false
  else None.

Lemma ParseInt_range s base bits v :
  ParseInt s base bits = Some v → - 2 ^ (bits - 1) ≤ v < 2 ^ (bits - 1).
Proof. unfold ParseInt. intros H. repeat case_match; simplify_eq; case_bool_decide; simplify_eq; done. Qed.

Example Atoi_ex : Atoi "-42" = Some (-42) ∧ Atoi "1x" = None ∧ Atoi "" = None ∧
  ParseInt "0x80" 0 64 = Some 128 ∧ ParseInt "010" 0 32 = Some 8 ∧ ParseInt "0" 0 32 = Some 0.
Proof. repeat split. Qed.

Example Fields_ex : Fields "02:aa/ 02:bb/" = ["02:aa/"; "02:bb/"]%string ∧
  Split "02:aa/" "/" = ["02:aa"; ""]%string ∧ Contains "xabc" "ab" = true.
Proof. repeat split. Qed.

(** ** net

    An IP address is a number: an IPv4 address one of 32 bits (also when Go
    holds it in sixteen bytes), any other IPv6 address its 128 bits with bit
    128 set above them, so that the two families do not meet. *)
Definition v6_bit : Z := 2 ^ 128.

(** [ip.To4() != nil]. *)
Definition is_v4 (ip : Z) : bool := bool_decide (ip < 2 ^ 32).

(** The address of sixteen bytes: ::ffff:a.b.c.d is an IPv4 address. *)
Definition of_bytes (x : Z) : Z :=
  if bool_decide (Z.shiftr x 32 = 65535) then Z.land x (Z.ones 32) else v6_bit + x.

(** One decimal octet, as [parseIPv4] reads it ([dtoi], at most 255). *)
Definition parse_octet (s : string) : option Z :=
  match s with
  | EmptyString => None
  | _ => n ← parse_digits 10 0 s; if bool_decide (n ≤ 255) then Some n else None
  end.

(** [net.ParseIP] of an IPv4 literal; [None] is the nil IP. *)
Definition ParseIP (s : string) : option Z :=
  match Split s "." with
  | [a; b; c; d] =>
      a ← parse_octet a; b ← parse_octet b; c ← parse_octet c; d ← parse_octet d;
      Some (((a * 256 + b) * 256 + c) * 256 + d)
  | _ => None
  end.

(** [xtoi]: the hexadecimal number at the start of a text, and the rest. *)
Fixpoint hex_span (acc : Z) (s : string) : Z * string :=
  match s with
  | EmptyString => (acc, s)
  | String c s' =>
      match digit_val c with
      | Some d => if bool_decide (d < 16) then hex_span (acc * 16 + d) s' else (acc, s)
      | None => (acc, s)
      end
  end.

Definition xtoi (s : string) : option (Z * string) :=
  let '(n, rest) := hex_span 0 s in
  if bool_decide (rest = s) then None else Some (n, rest).

(** The loop of [parseIPv6] over the groups of 16 bits: [acc] are those read,
    [ellipsis] the place of the two colons; the last two may be written as an
    IPv4 address. *)
Fixpoint ipv6_groups (fuel : nat) (ellipsis : option nat) (acc : list Z) (s : string) :
    option (list Z * option nat) :=
  match fuel with
  | O => if bool_decide (s = ""%string) then Some (acc, ellipsis) else None
  | S fuel =>
      '(n, rest) ← xtoi s;
      if bool_decide (n > 65535) then None
      else
        let acc' := acc ++ [n] in
        match rest with
        | EmptyString => Some (acc', ellipsis)
        | String c s1 =>
            if bool_decide (c = "."%char) then
              if (is_nil ellipsis && negb (length acc =? 6)%nat) || (6 <? length acc)%nat then None
              else ip4 ← ParseIP s; Some (acc ++ [ip4 `div` 65536; ip4 `mod` 65536], ellipsis)
            else if bool_decide (c = ":"%char) then
              match s1 with
              | EmptyString => None
              | String c2 s2 =>
                  if bool_decide (c2 = ":"%char) then
                    if is_nil ellipsis then
                      match s2 with
                      | EmptyString => Some (acc', Some (length acc'))
                      | _ => ipv6_groups fuel (Some (length acc')) acc' s2
                      end
                    else None
                  else ipv6_groups fuel ellipsis acc' s1
              end
            else None
        end
  end.

(** The ellipsis stands for at least one group. *)
Definition ipv6_expand (r : list Z * option nat) : option (list Z) :=
  let '(l, ellipsis) := r in
  match ellipsis with
  | None => if (length l =? 8)%nat then Some l else None
  | Some e =>
      if (length l <? 8)%nat then Some (take e l ++ replicate (8 - length l) 0 ++ drop e l) else None
  end.

(** [parseIPv6]: the sixteen bytes, as a number. *)
Definition parseIPv6 (s : string) : option Z :=
  r ← (match s with
       | String c1 (String c2 rest) =>
           if bool_decide (c1 = ":"%char ∧ c2 = ":"%char) then
             if bool_decide (rest = ""%string) then Some ([], Some 0%nat)
             else ipv6_groups 8 (Some 0%nat) [] rest
           else ipv6_groups 8 None [] s
       | _ => ipv6_groups 8 None [] s
       end);
  l ← ipv6_expand r;
  Some (foldl (λ x g, x * 65536 + g) 0 l).

(** [net.ParseIP] of either family: the first dot or colon decides, and
    [parseIPv4] takes no text with a colon. *)
Definition ParseIP_any (s : string) : option Z :=
  match ParseIP s with
  | Some ip => Some ip
  | None => of_bytes <$> parseIPv6 s
  end.

(** [net.IPNet]: the masked address and the length of the prefix. *)
Record IPNet := mkIPNet { net_IP : Z; net_Ones : Z }.

(** [net.CIDRMask(ones, bits)], and an address under it. *)
Definition CIDRMask (ones bits : Z) : Z := Z.shiftl (Z.ones ones) (bits - ones).
Definition Mask (ip ones : Z) : Z :=
  if is_v4 ip then Z.land ip (CIDRMask ones 32)
  else v6_bit + Z.land (ip - v6_bit) (CIDRMask ones 128).

(** The network of sixteen bytes under a mask of [n] of 128 bits; for an IPv4
    address in sixteen bytes what is left of the mask are its last 32 bits
    ([networkNumberAndMask]). *)
Definition net_of_bytes (x n : Z) : IPNet :=
  let m := Z.land x (CIDRMask n 128) in
  mkIPNet (of_bytes m) (if is_v4 (of_bytes m) then n - 96 else n).

(** [net.ParseCIDR]: the address and its network. *)
Definition ParseCIDR (s : string) : option (Z * IPNet) :=
  match Split s "/" with
  | [addr; mask] =>
      match mask with
      | EmptyString => None
      | _ =>
          n ← parse_digits 10 0 mask;
          match ParseIP addr with
          | Some ip => if bool_decide (n ≤ 32) then Some (ip, mkIPNet (Mask ip n) n) else None
          | None =>
              x ← parseIPv6 addr;
              if bool_decide (n ≤ 128) then Some (of_bytes x, net_of_bytes x n) else None
          end
      end
  | _ => None
  end.

(** [(n *IPNet) Contains(ip)]: an address of the other family is not in it. *)
Definition net_Contains (n : IPNet) (ip : Z) : bool := bool_decide (Mask ip (net_Ones n) = net_IP n).

Example ParseCIDR_ex : ParseCIDR "10.1.2.3/16" = Some (167838211, mkIPNet 167837696 16) ∧
  ParseIP "10.1.0.0" = Some 167837696 ∧ ParseIP "10.1.256.0" = None ∧ ParseCIDR "10.1.0.0" = None ∧
  ParseCIDR "10.1.0.0/33" = None ∧ ParseCIDR "::ffff:10.1.2.3/112" = Some (167838211, mkIPNet 167837696 16) ∧
  ParseCIDR "fd00::1/129" = None ∧ ParseCIDR "1::2::3/64" = None ∧ ParseCIDR "1:2:3:4:5:6:7/64" = None.
Proof. vm_compute. repeat split. Qed.

(** The eight groups of sixteen bits, and the longest run of zero groups, the
    leftmost of them: its start and its end. *)
Definition v6_group (x i : Z) : Z := Z.land (Z.shiftr x (16 * (7 - i))) 65535.

Fixpoint zero_run (fuel : nat) (x i : Z) : Z :=
  match fuel with
  | O => i
  | S fuel => if bool_decide (i < 8) && bool_decide (v6_group x i = 0) then zero_run fuel x (i + 1) else i
  end.

Fixpoint longest_run (fuel : nat) (x i e0 e1 : Z) : Z * Z :=
  match fuel with
  | O => (e0, e1)
  | S fuel =>
      if bool_decide (i < 8) then
        let j := zero_run 8 x i in
        if bool_decide (j > i) && bool_decide (j - i > e1 - e0) then longest_run fuel x (j + 1) i j
        else longest_run fuel x (i + 1) e0 e1
      else (e0, e1)
  end.

(** ** Hexadecimal text *)

Definition hex_digit (d : Z) : string :=
  default "?"%string (["0"; "1"; "2"; "3"; "4"; "5"; "6"; "7"; "8"; "9"; "a"; "b"; "c"; "d"; "e"; "f"]%string !! Z.to_nat d).

(** [hex.EncodeToString]. *)
Fixpoint EncodeToString (l : list Z) : string :=
  match l with
  | [] => ""
  | b :: l => (hex_digit (b `div` 16) +:+ hex_digit (b `mod` 16) +:+ EncodeToString l)%string
  end.

(** The hexadecimal digits of a number, without leading zeros. *)
Fixpoint hex_digits (fuel : nat) (n : Z) (acc : string) : string :=
  match fuel with
  | O => acc
  | S fuel =>
      let acc := (hex_digit (n `mod` 16) +:+ acc)%string in
      if bool_decide (n < 16) then acc else hex_digits fuel (n `div` 16) acc
  end.

Fixpoint v6_text (fuel : nat) (x i e0 e1 : Z) : string :=
  match fuel with
  | O => ""
  | S fuel =>
      let from i := (hex_digits 4 (v6_group x i) "" +:+ v6_text fuel x (i + 1) e0 e1)%string in
      if bool_decide (i < 8) then
        if bool_decide (i = e0) then ("::" +:+ (if bool_decide (e1 < 8) then from e1 else ""))%string
        else if bool_decide (i > 0) then (":" +:+ from i)%string
        else from i
      else ""
  end.

(** [(ip net.IP) String()] of sixteen bytes; one group alone is not shortened. *)
Definition v6_String (x : Z) : string :=
  let '(e0, e1) := longest_run 8 x 0 (-1) (-1) in
  let '(e0, e1) := if bool_decide (e1 - e0 ≤ 1) then (-1, -1) else (e0, e1) in
  v6_text 8 x 0 e0 e1.

Example v6_String_ex :
  v6_String <$> parseIPv6 "2001:DB8:0:0:1::" = Some "2001:db8:0:0:1::"%string ∧
  v6_String <$> parseIPv6 "fd00::1:0:0:1" = Some "fd00::1:0:0:1"%string ∧
  v6_String <$> parseIPv6 "::" = Some "::"%string ∧ v6_String <$> parseIPv6 "::1.2.3.4" = Some "::102:304"%string ∧
  v6_String <$> parseIPv6 "1:0:2:3:4:5:6:7" = Some "1:0:2:3:4:5:6:7"%string.
Proof. vm_compute. repeat split. Qed.

(** ** Metrics: the prometheus registry, as label pair to value *)

Abbreviation Prom := (gmap (string * string) Z).

Definition prom_get (name label : string) (p : Prom) : Z := default 0 (p !! (name, label)).
Definition prom_set (name label : string) (v : Z) (p : Prom) : Prom := <[(name, label) := v]> p.
Definition prom_add (name label : string) (d : Z) (p : Prom) : Prom :=
  prom_set name label (prom_get name label p + d) p.

Lemma prom_get_set n l n' l' v p :
  prom_get n l (prom_set n' l' v p) =
  if decide ((n', l') = (n, l)) then v else prom_get n l p.
Proof.
  unfold prom_get, prom_set. destruct (decide _) as [Heq|Hne].
  - by rewrite Heq, lookup_insert_eq.
  - by rewrite lookup_insert_ne.
Qed.

(** ** The world of a process

    The clock, sleeping, and the order in which a [range] over a map visits its
    entries.  The Go specification leaves this order open: it promises that
    every entry is visited once ([range_perm]).  The times compared by the
    sources carry a monotonic clock reading, so readings do not go back. *)
Class World (W : Type) : Type := {
  w_now : W → Z * W;
  w_sleep : Z → W → W;
  w_range : ∀ {A : Type}, list A → W → list A * W;
}.

(** The reading [time.Now()] would give now. *)
Definition clock {W} `{!World W} (w : W) : Z := (w_now w).1.

Class WorldOk (W : Type) `{!World W} : Prop := {
  range_perm : ∀ A (l : list A) (w : W), (w_range l w).1 ≡ₚ l;
  now_mono : ∀ w : W, clock w ≤ clock (w_now w).2;
  range_mono : ∀ A (l : list A) (w : W), clock w ≤ clock (w_range l w).2;
  sleep_mono : ∀ d (w : W), 0 ≤ d → clock w ≤ clock (w_sleep d w);
}.

Section world.
Context {W : Type} `{!World W}.

(** [time.Now()], [time.Sleep(d)], [range m] as effects on the world. *)
Definition time_Now : M W Z := λ w, let '(t, w') := w_now w in (Ret t, w').
Definition time_Sleep (d : Z) : M W unit := λ w, (Ret tt, w_sleep d w).
Definition range_list {A} (l : list A) : M W (list A) :=
  λ w, let '(l', w') := w_range l w in (Ret l', w').
Definition range {K A} `{Countable K} (m : gmap K A) : M W (list (K * A)) :=
  range_list (map_to_list m).

Lemma wp_time_Sleep E d (Q : unit → W → Prop) w : Q tt (w_sleep d w) → wp E (time_Sleep d) Q w.
Proof. done. Qed.

Context `{!WorldOk W}.

Lemma wp_time_Now E Q w :
  (∀ w', clock w ≤ clock w' → Q (clock w) w') → wp E time_Now Q w.
Proof.
  unfold wp, time_Now. pose proof (now_mono w) as Hm. intros HQ. specialize (HQ _ Hm).
  unfold clock in HQ. by destruct (w_now w).
Qed.

Lemma wp_range_list {A} E (l : list A) Q w :
  (∀ l' w', l' ≡ₚ l → clock w ≤ clock w' → Q l' w') → wp E (range_list l) Q w.
Proof.
  unfold wp, range_list. pose proof (range_perm _ l w) as Hp. pose proof (range_mono _ l w).
  destruct (w_range l w); simpl in *; eauto.
Qed.

Lemma wp_range {K A} `{Countable K} E (m : gmap K A) Q w :
  (∀ l w', l ≡ₚ map_to_list m → clock w ≤ clock w' → Q l w') → wp E (range m) Q w.
Proof. apply wp_range_list. Qed.

End world.

(** A concrete world for witnesses: a clock that advances by one second at
    every reading, and maps visited in the reverse of their canonical order. *)
Record TestWorld := mkTestWorld { tw_clock : Z; tw_slept : Z }.

#[global] Instance TestWorld_World : World TestWorld := {
  w_now w := (tw_clock w, mkTestWorld (tw_clock w + Second) (tw_slept w));
  w_sleep d w := mkTestWorld (tw_clock w + d) (tw_slept w + d);
  w_range A l w := (reverse l, w);
}.

#[global] Instance TestWorld_ok : WorldOk TestWorld.
Proof.
  split; unfold clock; simpl; intros; try lia; [by rewrite reverse_Permutation|].
  unfold Second. lia.
Qed.

(** ** Calls to services outside the process

    A method of an interface whose implementation is not modelled: it works on
    the world, and it may not return at all (a panic, [None]). *)
Abbreviation ext W A := (W → option A * W).

Definition call {W A} (f : ext W A) : M W A := λ w,
  match f w with
  | (Some a, w') => (Ret a, w')
  | (None, w') => (Panic "call", w')
  end.

Lemma wp_call {W A} (E : Prop) (f : ext W A) (Q : A → W → Prop) w :
  E → (∀ a w', f w = (Some a, w') → Q a w') → wp E (call f) Q w.
Proof. unfold wp, call. intros ? H. destruct (f w) as [[a|] w']; eauto. Qed.
