(* ===== verification/Json.v ===== *)
(** * JSON as encoding/json of Go 1.12 writes it

    The values the daemon's introspection prints, the text [json.Marshal] makes of
    them (compact, keys of maps sorted, strings escaped for HTML, bytes that are not
    UTF-8 replaced), and a reader of such text after RFC 8259, against which the
    text is judged: what was written reads back ([json_read_encode]). *)
From S2P Require Import Prelude GoStd.

Open Scope Z_scope.

Inductive json : Type :=
| JNull
| JBool (b : bool)
| JNum (n : Z)
| JStr (s : string)
| JArr (l : list json)
| JObj (l : list (string * json)).

Section json_ind.
Variable P : json → Prop.
Hypothesis Hnull : P JNull.
Hypothesis Hbool : ∀ b, P (JBool b).
Hypothesis Hnum : ∀ n, P (JNum n).
Hypothesis Hstr : ∀ s, P (JStr s).
Hypothesis Harr : ∀ l, Forall P l → P (JArr l).
Hypothesis Hobj : ∀ l, Forall (λ kv, P kv.2) l → P (JObj l).

Fixpoint json_ind' (j : json) : P j :=
  match j with
  | JNull => Hnull
  | JBool b => Hbool b
  | JNum n => Hnum n
  | JStr s => Hstr s
  | JArr l => Harr l ((fix go l := match l return Forall P l with
      | [] => Forall_nil_2 _ | x :: l => Forall_cons_2 _ _ _ (json_ind' x) (go l) end) l)
  | JObj l => Hobj l ((fix go l := match l return Forall (λ kv, P kv.2) l with
      | [] => Forall_nil_2 _ | x :: l => Forall_cons_2 _ _ _ (json_ind' x.2) (go l) end) l)
  end.
End json_ind.

(** ** Characters *)

Definition byte (c : ascii) : Z := Z.of_nat (nat_of_ascii c).
Definition chr (n : Z) : ascii := ascii_of_nat (Z.to_nat n).
Definition in_range (lo hi : Z) (c : ascii) : bool := bool_decide (lo ≤ byte c ≤ hi).

Definition quote : ascii := "034"%char.
Definition backslash : ascii := "\"%char.
Definition quoted (s : string) : string := String quote (s +:+ String quote "")%string.

(** The sequences of bytes that are one UTF-8 character ([unicode/utf8], with its
    ranges for the second byte). *)
Definition utf8_2 (a b : ascii) : bool := in_range 194 223 a && in_range 128 191 b.
Definition utf8_3 (a b c : ascii) : bool :=
  in_range 224 239 a &&
  in_range (if bool_decide (byte a = 224) then 160 else 128) (if bool_decide (byte a = 237) then 159 else 191) b &&
  in_range 128 191 c.
Definition utf8_4 (a b c d : ascii) : bool :=
  in_range 240 244 a &&
  in_range (if bool_decide (byte a = 240) then 144 else 128) (if bool_decide (byte a = 244) then 143 else 191) b &&
  in_range 128 191 c && in_range 128 191 d.

Definition is_ascii (c : ascii) : bool := bool_decide (byte c < 128).

(** A string of whole characters. *)
Fixpoint utf8_valid (s : string) : bool :=
  match s with
  | EmptyString => true
  | String a r =>
      if is_ascii a then utf8_valid r
      else match r with
      | String b r1 =>
          if utf8_2 a b then utf8_valid r1
          else match r1 with
          | String c r2 =>
              if utf8_3 a b c then utf8_valid r2
              else match r2 with
              | String d r3 => if utf8_4 a b c d then utf8_valid r3 else false
              | EmptyString => false
              end
          | EmptyString => false
          end
      | EmptyString => false
      end
  end.

(** What a reader of the escaped text gets: bytes that are not part of a character
    are U+FFFD. *)
Definition replacement : string := String (chr 239) (String (chr 191) (String (chr 189) "")).
Fixpoint sanitize (s : string) : string :=
  match s with
  | EmptyString => ""
  | String a r =>
      if is_ascii a then String a (sanitize r)
      else match r with
      | String b r1 =>
          if utf8_2 a b then String a (String b (sanitize r1))
          else match r1 with
          | String c r2 =>
              if utf8_3 a b c then String a (String b (String c (sanitize r2)))
              else match r2 with
              | String d r3 =>
                  if utf8_4 a b c d then String a (String b (String c (String d (sanitize r3))))
                  else replacement +:+ sanitize r
              | EmptyString => replacement +:+ sanitize r
              end
          | EmptyString => replacement +:+ sanitize r
          end
      | EmptyString => replacement +:+ sanitize r
      end
  end.

(** ** Writing *)

Definition hex_char (d : Z) : ascii := chr (if bool_decide (d < 10) then 48 + d else 87 + d).

(** [\u00xx]. *)
Definition u00 (c : ascii) : string :=
  String backslash (String "u" (String "0" (String "0"
    (String (hex_char (byte c `div` 16)) (String (hex_char (byte c `mod` 16)) "")))))%char.
Definition ufffd : string := String backslash "ufffd".

(** An ASCII character of a string. *)
Definition escape_ascii (c : ascii) : string :=
  if bool_decide (c = quote ∨ c = backslash) then String backslash (String c "")
  else if bool_decide (byte c = 10) then String backslash "n"
  else if bool_decide (byte c = 13) then String backslash "r"
  else if bool_decide (byte c = 9) then String backslash "t"
  else if bool_decide (byte c < 32 ∨ c = "<"%char ∨ c = ">"%char ∨ c = "&"%char) then u00 c
  else String c "".

(** A character of three bytes: the separators U+2028 and U+2029 are escaped. *)
Definition escape_3 (a b c : ascii) : string :=
  if bool_decide (byte a = 226 ∧ byte b = 128 ∧ (byte c = 168 ∨ byte c = 169)) then
    String backslash ("u202" +:+ String (if bool_decide (byte c = 168) then "8" else "9")%char "")%string
  else String a (String b (String c "")).

(** [encodeState.string] between the quotes. *)
Fixpoint escape (s : string) : string :=
  match s with
  | EmptyString => ""
  | String a r =>
      if is_ascii a then (escape_ascii a +:+ escape r)%string
      else match r with
      | String b r1 =>
          if utf8_2 a b then String a (String b (escape r1))
          else match r1 with
          | String c r2 =>
              if utf8_3 a b c then (escape_3 a b c +:+ escape r2)%string
              else match r2 with
              | String d r3 =>
                  if utf8_4 a b c d then String a (String b (String c (String d (escape r3))))
                  else (ufffd +:+ escape r)%string
              | EmptyString => (ufffd +:+ escape r)%string
              end
          | EmptyString => (ufffd +:+ escape r)%string
          end
      | EmptyString => (ufffd +:+ escape r)%string
      end
  end.

(** The elements of an array or of an object, with commas between them. *)
Fixpoint commas (l : list string) : string :=
  match l with
  | [] => ""
  | [x] => x
  | x :: l => (x +:+ "," +:+ commas l)%string
  end.

Fixpoint json_encode (j : json) : string :=
  match j with
  | JNull => "null"
  | JBool b => if b then "true" else "false"
  | JNum n => pretty n
  | JStr s => quoted (escape s)
  | JArr l => ("[" +:+ commas (json_encode <$> l) +:+ "]")%string
  | JObj l => ("{" +:+ commas ((λ kv, quoted (escape kv.1) +:+ ":" +:+ json_encode kv.2) <$> l) +:+ "}")%string
  end%string.

(** ** Reading *)

Definition hex_val (c : ascii) : option Z :=
  d ← digit_val c; if bool_decide (d < 16) then Some d else None.

(** The UTF-8 bytes of a character of the basic plane; surrogates are refused. *)
Definition utf8_encode (cp : Z) : option string :=
  if bool_decide (cp < 128) then Some (String (chr cp) "")
  else if bool_decide (cp < 2048) then Some (String (chr (192 + cp `div` 64)) (String (chr (128 + cp `mod` 64)) ""))
  else if bool_decide (55296 ≤ cp ≤ 57343) then None
  else Some (String (chr (224 + cp `div` 4096)) (String (chr (128 + cp `div` 64 `mod` 64))
         (String (chr (128 + cp `mod` 64)) ""))).

(** What follows a backslash, one character: quote, backslash, /, b, f, n, r, t. *)
Definition short_escape (c : ascii) : option ascii :=
  if bool_decide (c = quote ∨ c = backslash ∨ c = "/"%char) then Some c
  else if bool_decide (c = "b"%char) then Some "008"%char
  else if bool_decide (c = "f"%char) then Some "012"%char
  else if bool_decide (c = "n"%char) then Some "010"%char
  else if bool_decide (c = "r"%char) then Some "013"%char
  else if bool_decide (c = "t"%char) then Some "009"%char
  else None.

(** A string after its opening quote: its characters and what follows. *)
Fixpoint read_str (s : string) : option (string * string) :=
  match s with
  | EmptyString => None
  | String c r =>
      if bool_decide (c = quote) then Some (""%string, r)
      else if bool_decide (c = backslash) then
        match r with
        | EmptyString => None
        | String e r1 =>
            if bool_decide (e = "u"%char) then
              match r1 with
              | String h1 (String h2 (String h3 (String h4 r2))) =>
                  h1 ← hex_val h1; h2 ← hex_val h2; h3 ← hex_val h3; h4 ← hex_val h4;
                  u ← utf8_encode (((h1 * 16 + h2) * 16 + h3) * 16 + h4);
                  '(t, rest) ← read_str r2; Some ((u +:+ t)%string, rest)
              | _ => None
              end
            else
              x ← short_escape e; '(t, rest) ← read_str r1; Some (String x t, rest)
        end
      else if bool_decide (byte c < 32) then None
      else '(t, rest) ← read_str r; Some (String c t, rest)
  end.

Definition dec_digit (c : ascii) : bool := in_range 48 57 c.

Fixpoint read_digits (acc : Z) (s : string) : Z * string :=
  match s with
  | String c r => if dec_digit c then read_digits (acc * 10 + (byte c - 48)) r else (acc, s)
  | EmptyString => (acc, s)
  end.

(** An integer; other numbers are not read. *)
Definition read_num (s : string) : option (Z * string) :=
  match s with
  | String c r =>
      if dec_digit c then Some (read_digits 0 s)
      else if bool_decide (c = "-"%char) then
        match r with
        | String c _ => if dec_digit c then let '(n, rest) := read_digits 0 r in Some (- n, rest) else None
        | EmptyString => None
        end
      else None
  | EmptyString => None
  end.

(** [p] at the head of [s]. *)
Fixpoint expect (p s : string) : option string :=
  match p, s with
  | EmptyString, _ => Some s
  | String a p, String b s => if bool_decide (a = b) then expect p s else None
  | _, _ => None
  end.

(** Items up to the closing character [close], after the first one. *)
Fixpoint read_items {A} (item : string → option (A * string)) (close : ascii) (fuel : nat) (s : string) :
    option (list A * string) :=
  match fuel with
  | O => None
  | S fuel =>
      '(x, r) ← item s;
      match r with
      | String c r =>
          if bool_decide (c = close) then Some ([x], r)
          else if bool_decide (c = ","%char) then '(l, r) ← read_items item close fuel r; Some (x :: l, r)
          else None
      | EmptyString => None
      end
  end.

Definition read_list {A} (item : string → option (A * string)) (close : ascii) (fuel : nat) (s : string) :
    option (list A * string) :=
  match s with
  | String c r => if bool_decide (c = close) then Some ([], r) else read_items item close fuel s
  | EmptyString => None
  end.

Definition read_member (value : string → option (json * string)) (s : string) : option ((string * json) * string) :=
  s ← expect (String quote "") s; '(k, s) ← read_str s; s ← expect ":" s; '(v, s) ← value s; Some ((k, v), s).

Fixpoint read_value (fuel : nat) (s : string) : option (json * string) :=
  match fuel with
  | O => None
  | S fuel =>
      match s with
      | EmptyString => None
      | String c r =>
          if bool_decide (c = "n"%char) then r ← expect "ull" r; Some (JNull, r)
          else if bool_decide (c = "t"%char) then r ← expect "rue" r; Some (JBool true, r)
          else if bool_decide (c = "f"%char) then r ← expect "alse" r; Some (JBool false, r)
          else if bool_decide (c = quote) then '(t, r) ← read_str r; Some (JStr t, r)
          else if bool_decide (c = "["%char) then '(l, r) ← read_list (read_value fuel) "]" fuel r; Some (JArr l, r)
          else if bool_decide (c = "{"%char) then
            '(l, r) ← read_list (read_member (read_value fuel)) "}" fuel r; Some (JObj l, r)
          else '(n, r) ← read_num s; Some (JNum n, r)
      end
  end.

(** A whole text: nesting and number of items are at most its length. *)
Definition json_read (s : string) : option json :=
  match read_value (S (String.length s)) s with
  | Some (j, EmptyString) => Some j
  | _ => None
  end.

Example json_ex :
  let j := JObj [("a<b"%string, JArr [JNum (-12); JNum 0; JNull]);
                 (String (chr 226) (String (chr 128) (String (chr 168) "")), JStr (String (chr 10) "x"));
                 (""%string, JBool true)] in
  json_read (json_encode j) = Some j ∧ escape "a&b" = (String "a" (u00 "&"%char +:+ "b"))%string ∧
  escape (String (chr 200) "z") = (ufffd +:+ "z")%string.
Proof. vm_compute. done. Qed.

(** ** Strings read back *)

(** Every ASCII character one by one: a statement about bytes by cases. *)
Ltac by_bits c := destruct c as [[] [] [] [] [] [] [] []].

Definition cons_str (u : string) (o : option (string * string)) : option (string * string) :=
  '(t, rest) ← o; Some ((u +:+ t)%string, rest).

Lemma read_escape_ascii c t :
  is_ascii c = true → read_str (escape_ascii c +:+ t) = cons_str (String c "") (read_str t).
Proof. by_bits c; try discriminate; intros _; reflexivity. Qed.

Lemma read_high c t :
  is_ascii c = false → read_str (String c t) = cons_str (String c "") (read_str t).
Proof. by_bits c; try discriminate; intros _; reflexivity. Qed.

Lemma cons_str_app u v o : cons_str u (cons_str v o) = cons_str (u +:+ v)%string o.
Proof.
  destruct o as [[t r]|]; [|done]. unfold cons_str. simpl. by rewrite string_app_assoc.
Qed.

Lemma in_range_high lo hi c : 128 ≤ lo → in_range lo hi c = true → is_ascii c = false.
Proof. unfold in_range, is_ascii. rewrite bool_decide_eq_true, bool_decide_eq_false. lia. Qed.

Lemma utf8_3_high a b c :
  utf8_3 a b c = true → is_ascii a = false ∧ is_ascii b = false ∧ is_ascii c = false.
Proof.
  unfold utf8_3. rewrite !andb_true_iff. intros [[Ha Hb] Hc].
  split_and!; eapply in_range_high; [|done| |done| |done]; [lia|case_bool_decide; lia|lia].
Qed.

Lemma utf8_4_high a b c d :
  utf8_4 a b c d = true → is_ascii a = false ∧ is_ascii b = false ∧ is_ascii c = false ∧ is_ascii d = false.
Proof.
  unfold utf8_4. rewrite !andb_true_iff. intros [[[Ha Hb] Hc] Hd].
  split_and!; eapply in_range_high; [|done| |done| |done| |done]; [lia|case_bool_decide; lia|lia|lia].
Qed.

Lemma byte_inj a b : byte a = byte b → a = b.
Proof.
  unfold byte. intros H%Nat2Z.inj.
  rewrite <-(ascii_nat_embedding a), <-(ascii_nat_embedding b). by f_equal.
Qed.

Lemma read_escape_3 a b c t :
  is_ascii a = false → is_ascii b = false → is_ascii c = false →
  read_str (escape_3 a b c +:+ t) = cons_str (String a (String b (String c ""))) (read_str t).
Proof.
  intros Ha Hb Hc. unfold escape_3. case_bool_decide as He.
  - destruct He as (Hea & Heb & Hec). apply (byte_inj _ "226"%char) in Hea. apply (byte_inj _ "128"%char) in Heb.
    subst. destruct Hec as [Hec|Hec]; [apply (byte_inj _ "168"%char) in Hec|apply (byte_inj _ "169"%char) in Hec];
      subst; reflexivity.
  - simpl. change (String a (String b (String c ""))) with (String a "" +:+ (String b "" +:+ String c ""))%string.
    by rewrite <-!cons_str_app, <-!read_high.
Qed.

Lemma read_ufffd t : read_str (ufffd +:+ t) = cons_str replacement (read_str t).
Proof. reflexivity. Qed.

(** What was escaped reads back, up to the closing quote. *)
Lemma read_escape s rest : read_str (escape s +:+ String quote rest) = Some (sanitize s, rest).
Proof.
  remember (String.length s) as n eqn:Hn. revert s Hn.
  induction n as [n IH] using lt_wf_ind. intros s ->.
  destruct s as [|a r]; [done|]. cbn [escape sanitize].
  assert (∀ u t, (String.length t < S (String.length r))%nat →
    cons_str u (read_str (escape t +:+ String quote rest)) = Some ((u +:+ sanitize t)%string, rest)) as Ht
    by (intros u t Hl; by rewrite (IH _ Hl t eq_refl)).
  destruct (is_ascii a) eqn:Ea.
  { rewrite string_app_assoc, read_escape_ascii by done. apply (Ht (String a "")). lia. }
  assert (read_str ((ufffd +:+ escape r) +:+ String quote rest) = Some ((replacement +:+ sanitize r)%string, rest)) as Hbad
    by (rewrite string_app_assoc, read_ufffd; apply Ht; lia).
  destruct r as [|b r1]; [done|]. simpl in Ht. destruct (utf8_2 a b) eqn:E2.
  { unfold utf8_2 in E2. apply andb_true_iff in E2 as [_ Eb%in_range_high]; [|lia].
    rewrite !string_app_cons, !read_high, cons_str_app by done. apply (Ht (String a (String b ""))). lia. }
  destruct r1 as [|c r2]; [done|]. simpl in Ht. destruct (utf8_3 a b c) eqn:E3.
  { apply utf8_3_high in E3 as (? & ? & ?). rewrite string_app_assoc, read_escape_3 by done.
    apply (Ht (String a (String b (String c "")))). lia. }
  destruct r2 as [|d r3]; [done|]. simpl in Ht. destruct (utf8_4 a b c d) eqn:E4; [|done].
  apply utf8_4_high in E4 as (? & ? & ? & ?). rewrite !string_app_cons, !read_high, !cons_str_app by done.
  apply (Ht (String a (String b (String c (String d ""))))). lia.
Qed.

(** Text that is UTF-8 is not changed. *)
Lemma sanitize_valid s : utf8_valid s = true → sanitize s = s.
Proof.
  remember (String.length s) as n eqn:Hn. revert s Hn.
  induction n as [n IH] using lt_wf_ind. intros s ->. destruct s as [|a r]; [done|]. simpl.
  destruct (is_ascii a); [intros H; by rewrite (IH (String.length r)) by (simpl; lia || done)|].
  destruct r as [|b r1]; [done|]. destruct (utf8_2 a b);
    [intros H; by rewrite (IH (String.length r1)) by (simpl; lia || done)|].
  destruct r1 as [|c r2]; [done|]. destruct (utf8_3 a b c);
    [intros H; by rewrite (IH (String.length r2)) by (simpl; lia || done)|].
  destruct r2 as [|d r3]; [done|]. destruct (utf8_4 a b c d); [|done].
  intros H. by rewrite (IH (String.length r3)) by (simpl; lia || done).
Qed.

Lemma expect_app p s : expect p (p +:+ s) = Some s.
Proof. induction p as [|c p IH]; [done|]. rewrite string_app_cons. simpl. by rewrite bool_decide_true. Qed.

(** ** Numbers read back *)

(** A number ends before [rest]. *)
Definition stop (rest : string) : bool :=
  match rest with String c _ => negb (dec_digit c) | EmptyString => true end.

Lemma read_digits_stop acc rest : stop rest = true → read_digits acc rest = (acc, rest).
Proof. destruct rest as [|c r]; [done|]. simpl. by destruct (dec_digit c). Qed.

Lemma pretty_digit (d : N) : (d < 10)%N →
  dec_digit (pretty_N_char d) = true ∧ byte (pretty_N_char d) = 48 + Z.of_N d.
Proof.
  intros H. assert (d ∈ [0;1;2;3;4;5;6;7;8;9]%N) as Hd.
  { rewrite !elem_of_cons. lia. }
  repeat (apply elem_of_cons in Hd as [->|Hd]; [done|]). by apply not_elem_of_nil in Hd.
Qed.

(** [pretty_N_go] puts the digits of a number in front of a text. *)
Lemma pretty_go_app x s t : (pretty_N_go x s +:+ t = pretty_N_go x (s +:+ t))%string.
Proof.
  revert s. induction x as [x IH] using (well_founded_induction N.lt_wf_0). intros s.
  destruct (decide (x = 0%N)) as [->|Hx]; [done|].
  rewrite (pretty_N_go_step x s), (pretty_N_go_step x (s +:+ t)) by lia. by rewrite (IH (x `div` 10)%N) by (apply N.div_lt; lia).
Qed.

Lemma read_pretty_go x s acc :
  ∃ k, 0 ≤ k ∧ read_digits acc (pretty_N_go x s) = read_digits (acc * 10 ^ k + Z.of_N x) s.
Proof.
  revert s acc. induction x as [x IH] using (well_founded_induction N.lt_wf_0). intros s acc.
  destruct (decide (x = 0%N)) as [->|Hx].
  { exists 0. split; [lia|]. rewrite pretty_N_go_0. f_equal. lia. }
  rewrite pretty_N_go_step by lia.
  destruct (IH (x / 10)%N ltac:(apply N.div_lt; lia) (String (pretty_N_char (x mod 10)) s) acc) as (k & Hk & ->).
  exists (k + 1). split; [lia|]. simpl.
  destruct (pretty_digit (x mod 10)) as [-> ->]; [apply N.mod_lt; lia|]. f_equal.
  rewrite Z.pow_add_r by lia. rewrite N2Z.inj_mod, N2Z.inj_div.
  pose proof (Z.div_mod (Z.of_N x) 10). lia.
Qed.

Lemma pretty_go_head x s : (0 < x)%N → ∃ c r, pretty_N_go x s = String c r ∧ dec_digit c = true.
Proof.
  revert s. induction x as [x IH] using (well_founded_induction N.lt_wf_0). intros s Hx.
  rewrite pretty_N_go_step by lia. destruct (decide (x / 10 = 0)%N) as [->|Hd].
  - rewrite pretty_N_go_0. do 2 eexists. split; [done|]. apply pretty_digit, N.mod_lt. lia.
  - apply IH; [apply N.div_lt; lia|by apply N.neq_0_lt_0].
Qed.

Lemma pretty_pos_go p : pretty (Z.pos p) = pretty_N_go (N.pos p) "".
Proof. done. Qed.

Lemma read_pos p rest :
  stop rest = true → ∃ c r, (pretty (Z.pos p) +:+ rest)%string = String c r ∧ dec_digit c = true ∧
    read_digits 0 (String c r) = (Z.pos p, rest).
Proof.
  intros Hs. rewrite pretty_pos_go, pretty_go_app. change ("" +:+ rest)%string with rest.
  destruct (pretty_go_head (N.pos p) rest) as (c & r & Hc & Hd); [lia|].
  destruct (read_pretty_go (N.pos p) rest 0) as (k & Hk & He).
  exists c, r. split; [done|]. split; [done|]. rewrite <-Hc, He, read_digits_stop by done. done.
Qed.

Lemma read_pretty n rest :
  stop rest = true → read_num (pretty n +:+ rest) = Some (n, rest).
Proof.
  intros Hs. destruct n as [|p|p].
  - simpl. by rewrite read_digits_stop.
  - destruct (read_pos p rest Hs) as (c & r & -> & Hd & He). unfold read_num. rewrite Hd. by f_equal.
  - destruct (read_pos p rest Hs) as (c & r & Hc & Hd & He).
    change (pretty (Z.neg p) +:+ rest)%string with (String "-"%char (pretty (Z.pos p) +:+ rest))%string.
    rewrite Hc. unfold read_num. change (dec_digit "-"%char) with false. cbv iota. rewrite bool_decide_true by done.
    rewrite Hd, He. done.
Qed.

(** ** Values read back *)

Fixpoint json_size (j : json) : nat :=
  match j with
  | JArr l => S (list_sum (json_size <$> l))
  | JObj l => S (list_sum ((λ kv, json_size kv.2) <$> l))
  | _ => 1
  end.

(** All strings are UTF-8. *)
Fixpoint json_ok (j : json) : bool :=
  match j with
  | JStr s => utf8_valid s
  | JArr l => forallb json_ok l
  | JObj l => forallb (λ kv, utf8_valid kv.1 && json_ok kv.2) l
  | _ => true
  end.

(** The value with its strings as they read back. *)
Fixpoint json_clean (j : json) : json :=
  match j with
  | JStr s => JStr (sanitize s)
  | JArr l => JArr (json_clean <$> l)
  | JObj l => JObj ((λ kv, (sanitize kv.1, json_clean kv.2)) <$> l)
  | _ => j
  end.

Lemma json_clean_ok j : json_ok j = true → json_clean j = j.
Proof.
  induction j as [|b|k|s|l IH|l IH] using json_ind'; simpl; intros Hok; try done.
  - by rewrite sanitize_valid.
  - f_equal. induction IH as [|x l Hx Hl IH]; [done|]. simpl in Hok. apply andb_true_iff in Hok as [? ?].
    csimpl. by rewrite Hx, IH.
  - f_equal. induction IH as [|[k x] l Hx Hl IH]; [done|]. simpl in Hok, Hx.
    rewrite !andb_true_iff in Hok. destruct Hok as [[? ?] ?]. csimpl. by rewrite sanitize_valid, Hx, IH.
Qed.

(** [item] reads [f x] from what [enc] writes of [x]. *)
Definition reads {A} (item : string → option (A * string)) (enc : A → string) (f : A → A) (x : A) : Prop :=
  ∀ rest, stop rest = true → item (enc x +:+ rest)%string = Some (f x, rest).

Lemma read_items_commas {A} (item : string → option (A * string)) enc f close (x : A) l fuel rest :
  dec_digit close = false → close ≠ ","%char → Forall (reads item enc f) (x :: l) →
  (length l < fuel)%nat →
  read_items item close fuel (commas (enc <$> x :: l) +:+ String close rest) = Some (f <$> x :: l, rest).
Proof.
  intros Hd Hc. revert x fuel. induction l as [|y l IH]; intros x fuel [Hx Hl]%Forall_cons Hf;
    (destruct fuel as [|fuel]; [simpl in Hf; lia|]).
  - simpl. rewrite Hx by (simpl; by rewrite Hd). simpl. by rewrite bool_decide_true.
  - change (commas (enc <$> x :: y :: l)) with (enc x +:+ "," +:+ commas (enc <$> y :: l))%string.
    rewrite string_app_assoc. cbn [read_items]. rewrite Hx by done. cbn [mbind option_bind].
    change (("," +:+ commas (enc <$> y :: l)) +:+ String close rest)%string
      with (String ","%char (commas (enc <$> y :: l) +:+ String close rest))%string.
    cbv beta iota. rewrite bool_decide_false by congruence. rewrite bool_decide_true by done.
    rewrite (IH y fuel) by (done || (simpl in Hf; lia)). done.
Qed.

Lemma read_list_commas {A} (item : string → option (A * string)) enc f close (l : list A) fuel rest :
  dec_digit close = false → close ≠ ","%char → Forall (reads item enc f) l →
  Forall (λ x, ∃ c r, enc x = String c r ∧ c ≠ close) l → (length l ≤ fuel)%nat →
  read_list item close fuel (commas (enc <$> l) +:+ String close rest) = Some (f <$> l, rest).
Proof.
  intros Hd Hc Hl Hh Hf. destruct l as [|x l]; [simpl; by rewrite bool_decide_true|].
  rewrite <-(read_items_commas item enc f close x l fuel rest) by done.
  apply Forall_cons in Hh as [(c & r & He & Hne) _].
  assert (∃ t, (commas (enc <$> x :: l) +:+ String close rest)%string = String c t) as [t ->];
    [|unfold read_list; by rewrite bool_decide_false].
  destruct l; simpl; rewrite He; by eexists.
Qed.

Lemma encode_head j : ∃ c r, json_encode j = String c r ∧ c ≠ "]"%char ∧ c ≠ "}"%char.
Proof.
  destruct j as [|[]|n| | |]; try (do 2 eexists; split; [reflexivity|done]).
  destruct n as [|p|p]; [by do 2 eexists| |by do 2 eexists].
  destruct (read_pos p "" eq_refl) as (c & r & Hc & Hd & _). exists c, r. split.
  - by rewrite string_app_nil in Hc.
  - split; intros ->; done.
Qed.

Lemma read_member_ok fuel kv :
  reads (read_value fuel) json_encode json_clean kv.2 →
  reads (read_member (read_value fuel)) (λ kv, quoted (escape kv.1) +:+ ":" +:+ json_encode kv.2)%string
    (λ kv, (sanitize kv.1, json_clean kv.2)) kv.
Proof.
  destruct kv as [k v]. simpl. intros Hv rest Hr. unfold read_member, quoted.
  rewrite string_app_cons. simpl. rewrite !string_app_assoc, string_app_cons, read_escape by done.
  change ("" +:+ (":" +:+ json_encode v) +:+ rest)%string with (String ":"%char (json_encode v +:+ rest))%string.
  simpl. change ("" +:+ json_encode v +:+ rest)%string with (json_encode v +:+ rest)%string. by rewrite Hv.
Qed.

Lemma size_elem {A} (f : A → nat) l x : x ∈ l → (f x ≤ list_sum (f <$> l))%nat.
Proof. induction 1; csimpl; lia. Qed.

Lemma size_length {A} (f : A → nat) l : (∀ x, 1 ≤ f x)%nat → (length l ≤ list_sum (f <$> l))%nat.
Proof. intros H. induction l as [|x l IH]; csimpl; [lia|]. specialize (H x). lia. Qed.

Lemma json_size_pos j : (1 ≤ json_size j)%nat.
Proof. destruct j; csimpl; lia. Qed.

(** A value reads back, whatever follows it. *)
Lemma read_encode j n :
  (json_size j ≤ n)%nat → reads (read_value n) json_encode json_clean j.
Proof.
  revert n. induction j as [|b|k|s|l IH|l IH] using json_ind'; intros n Hn rest Hr;
    (destruct n as [|n]; [simpl in Hn; lia|]).
  - done.
  - by destruct b.
  - assert (∃ c r, (pretty k +:+ rest)%string = String c r ∧ (dec_digit c = true ∨ c = "-"%char)) as (c & r & Hc & Hd).
    { destruct k as [|p|p]; [by do 2 eexists; split; [done|left]| |by do 2 eexists; split; [done|right]].
      destruct (read_pos p rest Hr) as (c & r & ? & ? & _). eauto. }
    pose proof (read_pretty k rest Hr) as Hread. simpl. rewrite Hc in *. cbn [read_value].
    repeat (rewrite bool_decide_false by (intros ->; by destruct Hd)). by rewrite Hread.
  - change (json_encode (JStr s)) with (quoted (escape s)). unfold quoted.
    rewrite string_app_cons, string_app_assoc, string_app_cons.
    cbn [read_value]. repeat (rewrite bool_decide_false by done). rewrite bool_decide_true by done.
    by rewrite read_escape.
  - change (json_encode (JArr l)) with (String "["%char (commas (json_encode <$> l) +:+ "]"))%string.
    rewrite string_app_cons, string_app_assoc. cbn [read_value].
    repeat (rewrite bool_decide_false by done). rewrite bool_decide_true by done.
    rewrite string_app_cons, (read_list_commas _ json_encode json_clean); [done|done|done| | |].
    + rewrite Forall_forall in IH |- *. intros x Hx. apply IH; [done|].
      pose proof (size_elem json_size l x Hx). simpl in Hn. lia.
    + apply Forall_true. intros x. destruct (encode_head x) as (c & r & ? & ? & ?). eauto.
    + pose proof (size_length json_size l json_size_pos). simpl in Hn. lia.
  - set (mem := λ kv : string * json, (quoted (escape kv.1) +:+ ":" +:+ json_encode kv.2)%string).
    change (json_encode (JObj l)) with (String "{"%char (commas (mem <$> l) +:+ "}"))%string.
    rewrite string_app_cons, string_app_assoc. cbn [read_value].
    repeat (rewrite bool_decide_false by done). rewrite bool_decide_true by done.
    rewrite string_app_cons, (read_list_commas _ mem (λ kv, (sanitize kv.1, json_clean kv.2))); [done|done|done| | |].
    + rewrite Forall_forall in IH |- *. intros x Hx. apply read_member_ok, IH; [done|].
      pose proof (size_elem (λ kv, json_size kv.2) l x Hx). simpl in *. lia.
    + apply Forall_true. intros x. do 2 eexists. split; [reflexivity|done].
    + pose proof (size_length (λ kv, json_size kv.2) l (λ kv, json_size_pos kv.2)). simpl in Hn. lia.
Qed.

Lemma commas_length {A} (f : A → string) (sz : A → nat) l :
  Forall (λ x, sz x ≤ String.length (f x))%nat l →
  (list_sum (sz <$> l) ≤ String.length (commas (f <$> l)))%nat.
Proof.
  induction 1 as [|x l Hx Hl IH]; [done|]. destruct l as [|y l]; csimpl; [lia|].
  rewrite !string_length_app. csimpl in IH. simpl in *. lia.
Qed.

Lemma json_size_length j : (json_size j ≤ String.length (json_encode j))%nat.
Proof.
  induction j as [|[]|k|s|l IH|l IH] using json_ind'; try (simpl; lia).
  - destruct (encode_head (JNum k)) as (c & r & -> & _). simpl. lia.
  - apply (commas_length json_encode json_size) in IH.
    change (json_encode (JArr l)) with ("[" +:+ commas (json_encode <$> l) +:+ "]")%string.
    rewrite !string_length_app. simpl. lia.
  - set (mem := λ kv : string * json, (quoted (escape kv.1) +:+ ":" +:+ json_encode kv.2)%string).
    assert (list_sum ((λ kv, json_size kv.2) <$> l) ≤ String.length (commas (mem <$> l)))%nat.
    { apply commas_length. eapply Forall_impl; [exact IH|]. intros kv H. unfold mem. simpl in H.
      rewrite !string_length_app. lia. }
    change (json_encode (JObj l)) with ("{" +:+ commas (mem <$> l) +:+ "}")%string.
    rewrite !string_length_app. simpl. lia.
Qed.

(** What [json.Marshal] wrote is JSON and reads back as the value, with what is not
    UTF-8 in its strings replaced. *)
Lemma json_read_clean j : json_read (json_encode j) = Some (json_clean j).
Proof.
  unfold json_read. pose proof (json_size_length j) as Hl.
  pose proof (read_encode j (S (String.length (json_encode j))) ltac:(lia) "" eq_refl) as H.
  rewrite string_app_nil in H. by rewrite H.
Qed.

Lemma json_read_encode j : json_ok j = true → json_read (json_encode j) = Some j.
Proof. intros Hok. by rewrite json_read_clean, json_clean_ok. Qed.

(** ** Go values as JSON

    [toJson] is what [json.Marshal] makes of a value ([None]: an error); [fromJson]
    reads it back; [view] is what is left of a value (fields that are not exported are
    not written), and [good] are the values for which that is exact. *)
Class Marshal (A : Type) : Type := {
  toJson : A → option json;
  fromJson : json → option A;
  view : A → A;
  good : A → Prop;
}.

Class MarshalOk (A : Type) `{!Marshal A} : Prop := {
  toJson_ok : ∀ (a : A) j, good a → toJson a = Some j → json_ok j = true;
  fromJson_toJson : ∀ (a : A) j, good a → toJson a = Some j → fromJson j = Some (view a);
}.

#[global] Instance bool_Marshal : Marshal bool := {|
  toJson b := Some (JBool b);
  fromJson j := match j with JBool b => Some b | _ => None end;
  view a := a;
  good _ := True;
|}.
#[global] Instance bool_MarshalOk : MarshalOk bool.
Proof. split; by intros a j _ [= <-]. Qed.

#[global] Instance Z_Marshal : Marshal Z := {|
  toJson n := Some (JNum n);
  fromJson j := match j with JNum n => Some n | _ => None end;
  view a := a;
  good _ := True;
|}.
#[global] Instance Z_MarshalOk : MarshalOk Z.
Proof. split; by intros a j _ [= <-]. Qed.

#[global] Instance string_Marshal : Marshal string := {|
  toJson s := Some (JStr s);
  fromJson j := match j with JStr s => Some s | _ => None end;
  view s := s;
  good s := utf8_valid s = true;
|}.
#[global] Instance string_MarshalOk : MarshalOk string.
Proof. split; by intros a j Hg [= <-]. Qed.

(** A slice that is not nil. *)
#[global] Instance list_Marshal {A} `{!Marshal A} : Marshal (list A) := {|
  toJson l := JArr <$> mapM toJson l;
  fromJson j := match j with JArr l => mapM fromJson l | _ => None end;
  view l := view <$> l;
  good l := Forall good l;
|}.
#[global] Instance list_MarshalOk {A} `{!Marshal A} `{!MarshalOk A} : MarshalOk (list A).
Proof.
  split; intros l j Hg; simpl; intros (k & Hk%mapM_Some & ->)%fmap_Some_1.
  - simpl. apply forallb_forall. intros x Hx%list_elem_of_In.
    induction Hk as [|y z l k Hy Hk IH]; [by apply not_elem_of_nil in Hx|].
    apply Forall_cons in Hg as [Hg1 Hg]. apply elem_of_cons in Hx as [->|Hx]; [by eapply toJson_ok|by apply IH].
  - apply mapM_Some. induction Hk as [|y z l k Hy Hk IH]; [constructor|].
    apply Forall_cons in Hg as [Hg1 Hg]. constructor; [by apply fromJson_toJson|by apply IH].
Qed.

(** A map: an object with sorted keys. *)
Definition key_le {A} (x y : string * A) : Prop := String.leb x.1 y.1 = true.
#[global] Instance key_le_dec {A} (x y : string * A) : Decision (key_le x y).
Proof. unfold key_le; apply _. Defined.

Definition sorted_entries {A} (m : gmap string A) : list (string * A) := merge_sort key_le (map_to_list m).

#[global] Instance gmap_Marshal {A} `{!Marshal A} : Marshal (gmap string A) := {|
  toJson m := JObj <$> mapM (λ kv, pair kv.1 <$> toJson kv.2) (sorted_entries m);
  fromJson j := match j with
                | JObj l => list_to_map <$> mapM (λ kv, pair kv.1 <$> fromJson kv.2) l
                | _ => None
                end;
  view m := view <$> m;
  good m := map_Forall (λ k v, utf8_valid k = true ∧ good v) m;
|}.

Lemma sorted_entries_perm {A} (m : gmap string A) : sorted_entries m ≡ₚ map_to_list m.
Proof. apply merge_sort_Permutation. Qed.

Lemma sorted_entries_map {A} (m : gmap string A) : list_to_map (sorted_entries m) = m.
Proof.
  rewrite <-(list_to_map_to_list m) at 2. apply list_to_map_proper; [|apply sorted_entries_perm].
  rewrite sorted_entries_perm. apply NoDup_fst_map_to_list.
Qed.

Lemma elem_of_sorted_entries {A} (m : gmap string A) k v : (k, v) ∈ sorted_entries m ↔ m !! k = Some v.
Proof. rewrite sorted_entries_perm. apply elem_of_map_to_list. Qed.

#[global] Instance gmap_MarshalOk {A} `{!Marshal A} `{!MarshalOk A} : MarshalOk (gmap string A).
Proof.
  split; intros m j Hg; simpl; intros (k & Hk%mapM_Some & ->)%fmap_Some_1;
    assert (Forall (λ kv, utf8_valid kv.1 = true ∧ good kv.2) (sorted_entries m)) as HF
      by (apply Forall_forall; intros [x v] Hx%elem_of_sorted_entries; by apply (Hg x v)).
  - simpl. apply forallb_forall. intros x Hx%list_elem_of_In.
    induction Hk as [|[a v] z l k (y & Hy & ->)%fmap_Some_1 Hk IH]; [by apply not_elem_of_nil in Hx|].
    apply Forall_cons in HF as [[Hu Hv] HF]. apply elem_of_cons in Hx as [->|Hx]; [|by apply IH].
    simpl in *. rewrite Hu. by eapply toJson_ok.
  - apply fmap_Some. exists (prod_map id view <$> sorted_entries m).
    split; [|by rewrite list_to_map_fmap, sorted_entries_map]. apply mapM_Some.
    induction Hk as [|[a v] z l k (y & Hy & ->)%fmap_Some_1 Hk IH]; [constructor|].
    apply Forall_cons in HF as [[Hu Hv] HF]. constructor; [|by apply IH]. simpl in *.
    by rewrite (fromJson_toJson v y Hv Hy).
Qed.

(** A member of an object, and a field of a structure read from it. *)
Fixpoint member (name : string) (l : list (string * json)) : option json :=
  match l with
  | [] => None
  | (k, v) :: l => if bool_decide (k = name) then Some v else member name l
  end.
Definition field {A} `{!Marshal A} (name : string) (l : list (string * json)) : option A :=
  j ← member name l; fromJson j.

(** The text of a value, and the value of a text. *)
Definition json_Marshal {A} `{!Marshal A} (a : A) : option string := json_encode <$> toJson a.
Definition json_Unmarshal {A} `{!Marshal A} (s : string) : option A := j ← json_read s; fromJson j.

Lemma marshal_round {A} `{!Marshal A} `{!MarshalOk A} (a : A) s :
  good a → json_Marshal a = Some s → json_Unmarshal s = Some (view a).
Proof.
  intros Hg (j & Hj & ->)%fmap_Some_1. unfold json_Unmarshal.
  rewrite json_read_encode by (by eapply toJson_ok). simpl. by apply fromJson_toJson.
Qed.

(** ** Types of JSON values *)

Inductive jtype : Type :=
| TBool
| TNum
| TStr
| TOpt (t : jtype)
| TArr (t : jtype)
| TMap (t : jtype)
| TRec (fields : list (string * jtype)).

(** [TOpt]: or null; [TRec]: exactly these members, in this order. *)
Fixpoint has_type (t : jtype) (j : json) {struct t} : bool :=
  match t with
  | TBool => match j with JBool _ => true | _ => false end
  | TNum => match j with JNum _ => true | _ => false end
  | TStr => match j with JStr _ => true | _ => false end
  | TOpt t => match j with JNull => true | _ => has_type t j end
  | TArr t => match j with JArr l => forallb (has_type t) l | _ => false end
  | TMap t => match j with JObj l => forallb (λ kv, has_type t kv.2) l | _ => false end
  | TRec fs =>
      match j with
      | JObj l =>
          (fix go fs l {struct fs} :=
             match fs, l with
             | [], [] => true
             | (n, t) :: fs, (k, v) :: l => bool_decide (n = k) && has_type t v && go fs l
             | _, _ => false
             end) fs l
      | _ => false
      end
  end.

(** The type of what a client reads. *)
Class Typed (A : Type) `{!Marshal A} : Type := {
  jtype_of : jtype;
  typed : ∀ (a : A) j, toJson a = Some j → has_type jtype_of (json_clean j) = true;
}.
Arguments jtype_of A {_ _}.

#[global] Instance bool_Typed : Typed bool.
Proof. refine {| jtype_of := TBool |}. by intros a j [= <-]. Defined.
#[global] Instance Z_Typed : Typed Z.
Proof. refine {| jtype_of := TNum |}. by intros a j [= <-]. Defined.
#[global] Instance string_Typed : Typed string.
Proof. refine {| jtype_of := TStr |}. by intros a j [= <-]. Defined.

#[global] Instance list_Typed {A} `{!Marshal A} `{!Typed A} : Typed (list A).
Proof.
  refine {| jtype_of := TArr (jtype_of A) |}. simpl. intros l j (k & Hk%mapM_Some & ->)%fmap_Some_1. simpl.
  induction Hk as [|x y l k Hx Hk IH]; [done|]. csimpl. by rewrite (typed x y), IH.
Defined.

#[global] Instance gmap_Typed {A} `{!Marshal A} `{!Typed A} : Typed (gmap string A).
Proof.
  refine {| jtype_of := TMap (jtype_of A) |}. simpl. intros m j (k & Hk%mapM_Some & ->)%fmap_Some_1. simpl.
  induction Hk as [|x y l k (z & Hx & ->)%fmap_Some_1 Hk IH]; [done|]. csimpl. by rewrite (typed x.2 z), IH.
Defined.

(** A response body of the right type. *)
Definition body_typed (t : jtype) (body : string) : Prop :=
  ∃ j, json_read body = Some j ∧ has_type t j = true.

Lemma marshal_typed {A} `{!Marshal A} `{!Typed A} (a : A) s :
  json_Marshal a = Some s → body_typed (jtype_of A) s.
Proof.
  intros (j & Hj & ->)%fmap_Some_1. exists (json_clean j). split; [apply json_read_clean|by eapply typed].
Qed.
