(* ===== verification/JsonDecode.v ===== *)
(** * json.Unmarshal into a struct of strings, and json.MarshalIndent

    How encoding/json of Go 1.12 reads a text: the grammar with white space, numbers
    as literals, strings with surrogate pairs and bytes that are not UTF-8 replaced,
    and the assignment of the members of an object to the fields of a struct, whose
    names are compared exactly first and without case otherwise.  The texts of
    syntax errors are not modelled: there is one.  What [json_indent] writes reads back
    ([go_parse_indent]). *)
From S2P Require Import Prelude GoStd Json.

Open Scope Z_scope.

Inductive jvalue : Type :=
| VNull
| VBool (b : bool)
| VNum (literal : string)
| VStr (s : string)
| VArr (l : list jvalue)
| VObj (l : list (string * jvalue)).

Definition json_space (c : ascii) : bool :=
  bool_decide (byte c = 32 ∨ byte c = 9 ∨ byte c = 10 ∨ byte c = 13).

Fixpoint skip_ws (s : string) : string :=
  match s with
  | String c r => if json_space c then skip_ws r else s
  | EmptyString => s
  end.

(** ** Strings *)

(** [getu4] after the [\u]. *)
Definition u4 (a b c d : ascii) : option Z :=
  a ← hex_val a; b ← hex_val b; c ← hex_val c; d ← hex_val d;
  Some (((a * 16 + b) * 16 + c) * 16 + d).

(** [utf8.EncodeRune]; a surrogate is U+FFFD. *)
Definition EncodeRune (r : Z) : string :=
  if bool_decide (r < 65536) then default replacement (utf8_encode r)
  else String (chr (240 + r `div` 262144)) (String (chr (128 + r `div` 4096 `mod` 64))
         (String (chr (128 + r `div` 64 `mod` 64)) (String (chr (128 + r `mod` 64)) ""))).

(** [utf16.DecodeRune]: [None] is U+FFFD. *)
Definition DecodeRune (r1 r2 : Z) : option Z :=
  if bool_decide (55296 ≤ r1 < 56320) && bool_decide (56320 ≤ r2 < 57344)
  then Some ((r1 - 55296) * 1024 + (r2 - 56320) + 65536) else None.

Definition with_prefix (u : string) (o : option (string * string)) : option (string * string) :=
  '(t, rest) ← o; Some ((u +:+ t)%string, rest).

(** A string after its opening quote, with its escapes replaced. *)
Fixpoint raw_str (s : string) : option (string * string) :=
  match s with
  | EmptyString => None
  | String c r =>
      if bool_decide (c = quote) then Some (""%string, r)
      else if bool_decide (c = backslash) then
        match r with
        | EmptyString => None
        | String e r1 =>
            if bool_decide (e = "u"%char) then
              match r1 with
              | String h1 (String h2 (String h3 (String h4 r2))) =>
                  match u4 h1 h2 h3 h4 with
                  | None => None
                  | Some rr =>
                      match r2 with
                      | String b (String u (String g1 (String g2 (String g3 (String g4 r3))))) =>
                          match (if bool_decide (b = backslash ∧ u = "u"%char) then u4 g1 g2 g3 g4 else None) ≫= DecodeRune rr with
                          | Some dec => with_prefix (EncodeRune dec) (raw_str r3)
                          | None => with_prefix (EncodeRune rr) (raw_str r2)
                          end
                      | _ => with_prefix (EncodeRune rr) (raw_str r2)
                      end
                  end
              | _ => None
              end
            else match short_escape e with
                 | Some x => with_prefix (String x "") (raw_str r1)
                 | None => None
                 end
        end
      else if bool_decide (byte c < 32) then None
      else with_prefix (String c "") (raw_str r)
  end.

(** [unquote]: an escape never ends a character that began outside of it, so that the
    bytes that are not UTF-8 can be replaced at the end. *)
Definition go_str (s : string) : option (string * string) :=
  '(t, rest) ← raw_str s; Some (sanitize t, rest).

(** ** Numbers *)

Fixpoint span_digits (s : string) : string * string :=
  match s with
  | String c r => if dec_digit c then let '(ds, rest) := span_digits r in (String c ds, rest) else (""%string, s)
  | EmptyString => (""%string, s)
  end.

(** At least one digit. *)
Definition digits1 (s : string) : option (string * string) :=
  let '(ds, rest) := span_digits s in
  if bool_decide (ds = ""%string) then None else Some (ds, rest).

(** The parts of a number, each with what follows it. *)
Definition num_sign (s : string) : string * string :=
  match s with
  | String c r => if bool_decide (c = "-"%char) then ("-"%string, r) else (""%string, s)
  | EmptyString => (""%string, s)
  end.

Definition num_int (s : string) : option (string * string) :=
  match s with
  | String c r => if bool_decide (c = "0"%char) then Some ("0"%string, r) else digits1 s
  | EmptyString => None
  end.

Definition num_frac (s : string) : option (string * string) :=
  match s with
  | String c r => if bool_decide (c = "."%char) then with_prefix "." (digits1 r) else Some (""%string, s)
  | EmptyString => Some (""%string, s)
  end.

Definition num_exp (s : string) : option (string * string) :=
  match s with
  | String c r =>
      if bool_decide (c = "e"%char ∨ c = "E"%char) then
        match r with
        | String g r' =>
            if bool_decide (g = "+"%char ∨ g = "-"%char) then with_prefix (String c (String g "")) (digits1 r')
            else with_prefix (String c "") (digits1 r)
        | EmptyString => None
        end
      else Some (""%string, s)
  | EmptyString => Some (""%string, s)
  end.

Definition go_num (s : string) : option (string * string) :=
  let '(sg, s) := num_sign s in
  '(i, s) ← num_int s; '(f, s) ← num_frac s; '(e, s) ← num_exp s;
  Some ((sg +:+ i +:+ f +:+ e)%string, s).

(** ** Values *)

(** The items of an array or an object up to [close]. *)
Fixpoint go_items {A} (item : string → option (A * string)) (close : ascii) (fuel : nat) (s : string) :
    option (list A * string) :=
  match fuel with
  | O => None
  | S fuel =>
      match item s with
      | None => None
      | Some (x, r) =>
          match skip_ws r with
          | String c r =>
              if bool_decide (c = close) then Some ([x], r)
              else if bool_decide (c = ","%char) then
                '(l, r) ← go_items item close fuel (skip_ws r); Some (x :: l, r)
              else None
          | EmptyString => None
          end
      end
  end.

Definition go_list {A} (item : string → option (A * string)) (close : ascii) (fuel : nat) (s : string) :
    option (list A * string) :=
  match skip_ws s with
  | String c r => if bool_decide (c = close) then Some ([], r) else go_items item close fuel (String c r)
  | EmptyString => None
  end.

Definition go_member (value : string → option (jvalue * string)) (s : string) : option ((string * jvalue) * string) :=
  s ← expect (String quote "") s; '(k, s) ← go_str s; s ← expect ":" (skip_ws s);
  '(v, s) ← value (skip_ws s); Some ((k, v), s).

Fixpoint go_value (fuel : nat) (s : string) : option (jvalue * string) :=
  match fuel with
  | O => None
  | S fuel =>
      match s with
      | EmptyString => None
      | String c r =>
          if bool_decide (c = "n"%char) then r ← expect "ull" r; Some (VNull, r)
          else if bool_decide (c = "t"%char) then r ← expect "rue" r; Some (VBool true, r)
          else if bool_decide (c = "f"%char) then r ← expect "alse" r; Some (VBool false, r)
          else if bool_decide (c = quote) then '(t, r) ← go_str r; Some (VStr t, r)
          else if bool_decide (c = "["%char) then '(l, r) ← go_list (go_value fuel) "]" fuel r; Some (VArr l, r)
          else if bool_decide (c = "{"%char) then
            '(l, r) ← go_list (go_member (go_value fuel)) "}" fuel r; Some (VObj l, r)
          else '(n, r) ← go_num s; Some (VNum n, r)
      end
  end.

(** A whole text, with white space around the value. *)
Definition go_parse (s : string) : option jvalue :=
  match go_value (S (String.length s)) (skip_ws s) with
  | Some (v, r) => if bool_decide (skip_ws r = ""%string) then Some v else None
  | None => None
  end.

Example go_parse_ex :
  go_parse (String (chr 10) " [ 1.5e+3 , -0, {}, [ ] ] ") = Some (VArr [VNum "1.5e+3"; VNum "-0"; VObj []; VArr []]) ∧
  go_parse "[01]" = None ∧ go_parse "[1,]" = None ∧ go_parse "" = None ∧ go_parse "1 2" = None ∧ go_parse ".5" = None ∧
  go_parse (Json.quoted (String backslash "ud83d" +:+ String backslash "ude00")) =
    Some (VStr (String (chr 240) (String (chr 159) (String (chr 152) (String (chr 128) ""))))) ∧
  go_parse (Json.quoted (String backslash "ud83dx")) = Some (VStr (replacement +:+ "x")).
Proof. vm_compute. repeat split; reflexivity. Qed.

(** ** Structs *)

(** The bytes of a key are compared with those of a field up to the case of ASCII
    letters; the long s and the Kelvin sign count as s and k ([equalFoldRight]). *)
Definition upper (c : ascii) : Z := Z.land (byte c) 223.
Definition is_letter (c : ascii) : bool := bool_decide (65 ≤ upper c ≤ 90).

Fixpoint equalFold (field key : string) : bool :=
  match field, key with
  | EmptyString, EmptyString => true
  | String a f, String b k =>
      if is_ascii b then
        (bool_decide (a = b) || (is_letter a && bool_decide (upper a = upper b))) && equalFold f k
      else
        match k with
        | String b2 k2 =>
            if bool_decide (upper a = 83 ∧ byte b = 197 ∧ byte b2 = 191) then equalFold f k2
            else match k2 with
                 | String b3 k3 =>
                     bool_decide (upper a = 75 ∧ byte b = 226 ∧ byte b2 = 132 ∧ byte b3 = 170) && equalFold f k3
                 | EmptyString => false
                 end
        | EmptyString => false
        end
  | _, _ => false
  end.

(** The field a key is for, among the names of a struct. *)
Definition find_field (names : list string) (key : string) : option string :=
  if bool_decide (key ∈ names) then Some key else snd <$> list_find (λ f, equalFold f key) names.

(** The members one after the other: the fields set so far and whether a value had
    the wrong type, after which the others are still read. *)
Definition set_member (names : list string) (acc : gmap string string * bool) (kv : string * jvalue) :
    gmap string string * bool :=
  match find_field names kv.1, kv.2 with
  | None, _ | _, VNull => acc
  | Some f, VStr t => (<[f := t]> acc.1, acc.2)
  | Some _, _ => (acc.1, true)
  end.

Definition type_error : error := EStr "json: cannot unmarshal into Go value".
Definition syntax_error : error := EStr "invalid JSON".

(** [json.Unmarshal] into a struct of string fields: what was set. *)
Definition Unmarshal_strings (names : list string) (data : string) : gmap string string + error :=
  match go_parse data with
  | None => inr syntax_error
  | Some VNull => inl ∅
  | Some (VObj l) =>
      let '(m, bad) := foldl (set_member names) (∅, false) l in
      if bad : bool then inr type_error else inl m
  | Some _ => inr type_error
  end.

(** ** Writing with indentation *)

Definition nl : string := String (chr 10) "".

(** The items, each on a line of its own behind [pad]. *)
Definition lines (pad : string) (l : list string) : string :=
  commas ((λ x, (nl +:+ pad +:+ x)%string) <$> l).

(** [json.MarshalIndent(v, "", "    ")]. *)
Fixpoint json_indent (pad : string) (j : json) : string :=
  let pad' := (pad +:+ "    ")%string in
  match j with
  | JArr ((_ :: _) as l) => ("[" +:+ lines pad' (json_indent pad' <$> l) +:+ nl +:+ pad +:+ "]")%string
  | JObj ((_ :: _) as l) =>
      ("{" +:+ lines pad' ((λ kv, Json.quoted (escape kv.1) +:+ ": " +:+ json_indent pad' kv.2) <$> l)
         +:+ nl +:+ pad +:+ "}")%string
  | _ => json_encode j
  end.

(** ** The fuel

    Every part of a text that is read is shorter than the text, so that its length
    bounds both the nesting and the number of items. *)

Lemma skip_ws_le s : (String.length (skip_ws s) ≤ String.length s)%nat.
Proof. induction s as [|c s IH]; simpl; [done|]. destruct (json_space c); simpl; lia. Qed.

Lemma expect_length p s r : expect p s = Some r → String.length s = (String.length p + String.length r)%nat.
Proof.
  revert s. induction p as [|a p IH]; intros [|b s]; simpl; try done; try (by intros [= <-]).
  case_bool_decide; [|done]. intros ->%IH. done.
Qed.

Lemma with_prefix_inv u o t r : with_prefix u o = Some (t, r) → ∃ t', o = Some (t', r).
Proof. destruct o as [[t' r']|]; [|done]. simpl. intros [= _ ->]. eauto. Qed.

Lemma raw_str_shorter s t r : raw_str s = Some (t, r) → (String.length r < String.length s)%nat.
Proof.
  remember (String.length s) as n eqn:Hn. revert s t r Hn. induction n as [n IH] using lt_wf_ind. intros s t r ->.
  assert (∀ u x t r, (String.length x < String.length s)%nat → with_prefix u (raw_str x) = Some (t, r) →
    (String.length r < String.length s)%nat) as Hp.
  { intros u x t' r' Hx (t2 & H2)%with_prefix_inv. pose proof (IH _ Hx x _ _ eq_refl H2). lia. }
  destruct s as [|c s]; [done|]. cbn [raw_str]. case_bool_decide; [intros [= _ <-]; simpl; lia|].
  case_bool_decide.
  - destruct s as [|e s]; [done|]. case_bool_decide.
    + destruct s as [|h1 [|h2 [|h3 [|h4 s]]]]; try done. destruct (u4 h1 h2 h3 h4) as [rr|]; [|done].
      destruct s as [|b [|u [|g1 [|g2 [|g3 [|g4 s]]]]]]; try (apply Hp; simpl; lia).
      destruct (_ ≫= _); apply Hp; simpl; lia.
    + destruct (short_escape e); [|done]. apply Hp. simpl. lia.
  - case_bool_decide; [done|]. apply Hp. simpl. lia.
Qed.

Lemma go_str_shorter s t r : go_str s = Some (t, r) → (String.length r < String.length s)%nat.
Proof.
  unfold go_str. destruct (raw_str s) as [[t' r']|] eqn:H; [|done]. simpl. intros [= _ <-]. by eapply raw_str_shorter.
Qed.

Lemma span_digits_length s : (String.length (span_digits s).1 + String.length (span_digits s).2 = String.length s)%nat.
Proof.
  induction s as [|c s IH]; simpl; [done|]. destruct (dec_digit c); [|done].
  destruct (span_digits s) as [ds rest]. simpl in *. lia.
Qed.

Lemma digits1_shorter s t r : digits1 s = Some (t, r) → (String.length r < String.length s)%nat.
Proof.
  unfold digits1. pose proof (span_digits_length s) as Hl. destruct (span_digits s) as [ds rest]. simpl in Hl.
  case_bool_decide as Hd; [done|]. intros [= _ <-]. destruct ds; [done|]. simpl in Hl. lia.
Qed.

Lemma go_num_shorter s t r : go_num s = Some (t, r) → (String.length r < String.length s)%nat.
Proof.
  unfold go_num. destruct (num_sign s) as [sg s0] eqn:E0.
  assert (String.length s0 ≤ String.length s)%nat as H0.
  { destruct s as [|c s]; simpl in E0; [by injection E0 as <- <-|]. case_bool_decide; injection E0 as <- <-; simpl; lia. }
  destruct (num_int s0) as [[i s1]|] eqn:E1; [|done]. cbn [mbind option_bind].
  assert (String.length s1 < String.length s0)%nat as H1.
  { destruct s0 as [|c s0]; simpl in E1; [done|].
    case_bool_decide; [injection E1 as _ <-; simpl; lia|by eapply digits1_shorter in E1]. }
  destruct (num_frac s1) as [[f s2]|] eqn:E2; [|done]. cbn [mbind option_bind].
  assert (String.length s2 ≤ String.length s1)%nat as H2.
  { destruct s1 as [|c s1]; simpl in E2; [by injection E2 as _ <-|].
    case_bool_decide; [|by injection E2 as _ <-].
    apply with_prefix_inv in E2 as (? & E2%digits1_shorter). simpl. lia. }
  destruct (num_exp s2) as [[e s3]|] eqn:E3; [|done]. cbn [mbind option_bind]. intros [= _ <-].
  assert (String.length s3 ≤ String.length s2)%nat; [|lia].
  destruct s2 as [|c s2]; simpl in E3; [by injection E3 as _ <-|].
  case_bool_decide; [|by injection E3 as _ <-]. destruct s2 as [|g s2]; [done|].
  case_bool_decide; apply with_prefix_inv in E3 as (? & E3%digits1_shorter); simpl in *; lia.
Qed.

(** An item that takes at least one character. *)
Definition eats {A} (item : string → option (A * string)) : Prop :=
  ∀ s x r, item s = Some (x, r) → (String.length r < String.length s)%nat.

Lemma go_items_shorter {A} (item : string → option (A * string)) close fuel : eats item → eats (go_items item close fuel).
Proof.
  intros Hi. induction fuel as [|fuel IH]; intros s l r; cbn [go_items]; [done|].
  destruct (item s) as [[x r1]|] eqn:Hx; [|done]. apply Hi in Hx. pose proof (skip_ws_le r1) as Hw.
  destruct (skip_ws r1) as [|c r2]; [done|]. simpl in Hw. case_bool_decide; [intros [= _ <-]; lia|].
  case_bool_decide; [|done]. destruct (go_items item close fuel (skip_ws r2)) as [[l' r']|] eqn:Hl; [|done].
  apply IH in Hl. pose proof (skip_ws_le r2). simpl. intros [= _ <-]. lia.
Qed.

Lemma go_list_shorter {A} (item : string → option (A * string)) close fuel s l r :
  eats item → go_list item close fuel s = Some (l, r) → (String.length r ≤ String.length s)%nat.
Proof.
  intros Hi. unfold go_list. pose proof (skip_ws_le s) as Hw. destruct (skip_ws s) as [|c r1]; [done|].
  case_bool_decide; [intros [= _ <-]; simpl in Hw; lia|]. intros Hl%go_items_shorter; [lia|done].
Qed.

Lemma go_member_shorter value : eats value → eats (go_member value).
Proof.
  intros Hv s [k v] r. unfold go_member. destruct (expect _ s) as [s1|] eqn:E1; [|done]. cbn [mbind option_bind].
  destruct (go_str s1) as [[k' s2]|] eqn:E2; [|done]. cbn [mbind option_bind].
  destruct (expect _ (skip_ws s2)) as [s3|] eqn:E3; [|done]. cbn [mbind option_bind].
  destruct (value (skip_ws s3)) as [[v' s4]|] eqn:E4; [|done]. cbn [mbind option_bind]. intros [= _ _ <-].
  apply expect_length in E1, E3. apply go_str_shorter in E2. apply Hv in E4.
  pose proof (skip_ws_le s2). pose proof (skip_ws_le s3). simpl in *. lia.
Qed.

Lemma go_value_shorter fuel : eats (go_value fuel).
Proof.
  induction fuel as [|fuel IH]; intros s v r; cbn [go_value]; [done|]. destruct s as [|c s]; [done|].
  assert (∀ p o, expect p s = Some o → (String.length o < String.length (String c s))%nat) as He
    by (intros p o H%expect_length; simpl; lia).
  do 3 (case_bool_decide; [destruct (expect _ s) eqn:Hx; [|done]; intros [= _ <-]; by eapply He|]).
  case_bool_decide.
  { destruct (go_str s) as [[t r']|] eqn:Hx; [|done]. apply go_str_shorter in Hx. intros [= _ <-]. simpl. lia. }
  case_bool_decide.
  { destruct (go_list _ _ _ s) as [[l r']|] eqn:Hx; [|done]. apply go_list_shorter in Hx; [|done].
    intros [= _ <-]. simpl. lia. }
  case_bool_decide.
  { destruct (go_list _ _ _ s) as [[l r']|] eqn:Hx; [|done]. apply go_list_shorter in Hx; [|by apply go_member_shorter].
    intros [= _ <-]. simpl. lia. }
  destruct (go_num _) as [[t r']|] eqn:Hx; [|done]. apply go_num_shorter in Hx. by intros [= _ <-].
Qed.

(** Two items that agree below a length, read with enough fuel. *)
Definition agree {A} (n : nat) (item item' : string → option (A * string)) : Prop :=
  ∀ s, (String.length s < n)%nat → item s = item' s.

Lemma go_items_agree {A} n (item item' : string → option (A * string)) close fuel fuel' s :
  agree n item item' → eats item → (String.length s < n)%nat → (String.length s < fuel)%nat → (String.length s < fuel')%nat →
  go_items item close fuel s = go_items item' close fuel' s.
Proof.
  intros Ha He. revert fuel' s. induction fuel as [|fuel IH]; intros [|fuel'] s Hs Hf Hf'; try lia.
  cbn [go_items]. rewrite <-(Ha s) by done. destruct (item s) as [[x r]|] eqn:Hx; [|done]. apply He in Hx.
  pose proof (skip_ws_le r) as Hw. destruct (skip_ws r) as [|c r2]; [done|]. simpl in Hw.
  case_bool_decide; [done|]. case_bool_decide; [|done]. pose proof (skip_ws_le r2). by rewrite (IH fuel') by lia.
Qed.

Lemma go_list_agree {A} n (item item' : string → option (A * string)) close fuel fuel' s :
  agree n item item' → eats item → (String.length s < n)%nat → (String.length s < fuel)%nat → (String.length s < fuel')%nat →
  go_list item close fuel s = go_list item' close fuel' s.
Proof.
  intros Ha He Hs Hf Hf'. unfold go_list. pose proof (skip_ws_le s) as Hw. destruct (skip_ws s) as [|c r]; [done|].
  case_bool_decide; [done|]. apply go_items_agree with n; try done; lia.
Qed.

Lemma go_member_agree n value value' : agree n value value' → agree n (go_member value) (go_member value').
Proof.
  intros Ha s Hs. unfold go_member. destruct (expect _ s) as [s1|] eqn:E1; [|done]. cbn [mbind option_bind].
  destruct (go_str s1) as [[k s2]|] eqn:E2; [|done]. cbn [mbind option_bind].
  destruct (expect _ (skip_ws s2)) as [s3|] eqn:E3; [|done]. cbn [mbind option_bind].
  apply expect_length in E1, E3. apply go_str_shorter in E2.
  pose proof (skip_ws_le s2). pose proof (skip_ws_le s3). simpl in *. by rewrite Ha by lia.
Qed.

(** More fuel than characters changes nothing. *)
Lemma go_value_fuel fuel fuel' s :
  (String.length s < fuel)%nat → (String.length s < fuel')%nat → go_value fuel s = go_value fuel' s.
Proof.
  revert fuel' s. induction fuel as [|fuel IH]; intros [|fuel'] s Hf Hf'; try lia. cbn [go_value].
  destruct s as [|c s]; [done|]. simpl in Hf, Hf'.
  assert (agree (S (String.length s)) (go_value fuel) (go_value fuel')) as Ha by (intros x Hx; apply IH; lia).
  rewrite (go_list_agree (S (String.length s)) (go_value fuel) (go_value fuel') _ _ fuel')
    by (done || lia || apply go_value_shorter).
  by rewrite (go_list_agree (S (String.length s)) (go_member (go_value fuel)) (go_member (go_value fuel')) _ _ fuel')
    by (apply go_member_agree, Ha || lia || apply go_member_shorter, go_value_shorter).
Qed.

(** ** What is written reads back *)

(** A value as the reader gives it. *)
Fixpoint jv (j : json) : jvalue :=
  match j with
  | JNull => VNull
  | JBool b => VBool b
  | JNum n => VNum (pretty n)
  | JStr s => VStr s
  | JArr l => VArr (jv <$> l)
  | JObj l => VObj ((λ kv, (kv.1, jv kv.2)) <$> l)
  end.

(** *** Strings *)

Lemma hex_val_range c d : hex_val c = Some d → 0 ≤ d < 16.
Proof. by_bits c; vm_compute; intros [= <-]; split; discriminate || reflexivity. Qed.

Lemma read_raw s t r : read_str s = Some (t, r) → raw_str s = Some (t, r).
Proof.
  remember (String.length s) as n eqn:Hn. revert s t r Hn. induction n as [n IH] using lt_wf_ind. intros s t r ->.
  assert (∀ u x t r, (String.length x < String.length s)%nat →
    ('(t, rest) ← read_str x; Some ((u +:+ t)%string, rest)) = Some (t, r) → with_prefix u (raw_str x) = Some (t, r)) as Hp.
  { intros u x t' r' Hx He. destruct (read_str x) as [[t2 r2]|] eqn:Hr; [|done].
    by rewrite (IH _ Hx x t2 r2 eq_refl Hr). }
  destruct s as [|c s]; [done|]. cbn [read_str raw_str]. case_bool_decide; [done|]. case_bool_decide.
  - destruct s as [|e s]; [done|]. case_bool_decide.
    + destruct s as [|h1 [|h2 [|h3 [|h4 s]]]]; try done. unfold u4.
      destruct (hex_val h1) as [d1|] eqn:E1; [|done]. destruct (hex_val h2) as [d2|] eqn:E2; [|done].
      destruct (hex_val h3) as [d3|] eqn:E3; [|done]. destruct (hex_val h4) as [d4|] eqn:E4; [|done].
      apply hex_val_range in E1, E2, E3, E4. cbn [mbind option_bind].
      set (rr := ((d1 * 16 + d2) * 16 + d3) * 16 + d4). destruct (utf8_encode rr) as [u|] eqn:Eu; [|done].
      assert (EncodeRune rr = u) as Hu by (unfold EncodeRune; rewrite bool_decide_true by lia; by rewrite Eu).
      assert (∀ x, DecodeRune rr x = None) as Hd.
      { intros x. unfold DecodeRune. destruct (bool_decide_reflect (55296 ≤ rr < 56320)) as [Hs|]; [|done].
        exfalso. unfold utf8_encode in Eu. rewrite !bool_decide_false in Eu by lia. by rewrite bool_decide_true in Eu by lia. }
      intros He. apply Hp in He; [|simpl; lia]. rewrite <-Hu in He.
      destruct s as [|b [|v [|g1 [|g2 [|g3 [|g4 s]]]]]]; try exact He.
      match goal with |- match ?o ≫= _ with _ => _ end = _ => destruct o as [x|] end; cbn [mbind option_bind];
        rewrite ?Hd; exact He.
    + destruct (short_escape e) as [x|]; [|done]. cbn [mbind option_bind]. apply (Hp (String x "")). simpl. lia.
  - case_bool_decide; [done|]. apply (Hp (String c "")). simpl. lia.
Qed.

Lemma go_str_escape s rest : utf8_valid s = true → go_str (escape s +:+ String quote rest) = Some (s, rest).
Proof.
  intros Hs. unfold go_str. rewrite (read_raw _ _ _ (read_escape s rest)). cbn [mbind option_bind].
  by rewrite !sanitize_valid by (rewrite ?sanitize_valid; done).
Qed.

(** *** Numbers *)

(** What may follow a value. *)
Definition ends (rest : string) : bool :=
  match rest with
  | EmptyString => true
  | String c _ => bool_decide (c = ","%char ∨ byte c = 10)
  end.

Lemma ends_stop rest : ends rest = true → stop rest = true.
Proof. destruct rest as [|c r]; [done|]. by_bits c; vm_compute; done. Qed.

Lemma span_pretty x s :
  span_digits (pretty_N_go x s) = (pretty_N_go x (span_digits s).1, (span_digits s).2).
Proof.
  revert s. induction x as [x IH] using (well_founded_induction N.lt_wf_0). intros s.
  destruct (decide (x = 0%N)) as [->|Hx]; [rewrite !pretty_N_go_0; by destruct (span_digits s)|].
  rewrite !(pretty_N_go_step x) by lia. rewrite (IH (x `div` 10)%N) by (apply N.div_lt; lia). cbn [span_digits].
  destruct (pretty_digit (x mod 10)) as [-> _]; [apply N.mod_lt; lia|]. by destruct (span_digits s).
Qed.

Lemma pretty_go_nonzero x s : (0 < x)%N → ∃ c r, pretty_N_go x s = String c r ∧ dec_digit c = true ∧ c ≠ "0"%char.
Proof.
  revert s. induction x as [x IH] using (well_founded_induction N.lt_wf_0). intros s Hx.
  rewrite pretty_N_go_step by lia. destruct (decide (x / 10 = 0)%N) as [Hd|Hd].
  - rewrite Hd, pretty_N_go_0. do 2 eexists. split; [done|].
    destruct (pretty_digit (x mod 10)) as [H1 H2]; [apply N.mod_lt; lia|]. split; [done|].
    intros Hc. rewrite Hc in H2. change (byte "0") with 48 in H2.
    pose proof (N.div_mod x 10 ltac:(lia)) as Hm. rewrite Hd in Hm. lia.
  - apply IH; [apply N.div_lt; lia|by apply N.neq_0_lt_0].
Qed.

Lemma num_tail rest : ends rest = true → num_frac rest = Some (""%string, rest) ∧ num_exp rest = Some (""%string, rest).
Proof. destruct rest as [|c r]; [done|]. by_bits c; vm_compute; done. Qed.

Lemma num_int_pos p rest : ends rest = true → num_int (pretty (Z.pos p) +:+ rest) = Some (pretty (Z.pos p), rest).
Proof.
  intros Hr. rewrite pretty_pos_go, pretty_go_app. change ("" +:+ rest)%string with rest.
  destruct (pretty_go_nonzero (N.pos p) rest) as (c & r & Hc & Hd & Hz); [lia|]. rewrite Hc. unfold num_int.
  rewrite bool_decide_false by done. rewrite <-Hc. unfold digits1. rewrite span_pretty.
  assert (span_digits rest = (""%string, rest)) as ->.
  { apply ends_stop in Hr. destruct rest as [|c' r']; [done|]. simpl in *. by destruct (dec_digit c'). }
  cbn [fst snd]. destruct (pretty_go_nonzero (N.pos p) "") as (c2 & r2 & Hc2 & _); [lia|].
  by rewrite bool_decide_false by (rewrite Hc2; done).
Qed.

Lemma go_num_pretty (n : Z) rest : ends rest = true → go_num (pretty n +:+ rest) = Some (pretty n, rest).
Proof.
  intros Hr. destruct (num_tail rest Hr) as [Hf He]. destruct n as [|p|p].
  - unfold go_num. change (pretty 0 +:+ rest)%string with (String "0" rest). cbn [num_sign]. rewrite bool_decide_false by done.
    cbn [num_int]. rewrite bool_decide_true by done. cbn [mbind option_bind]. rewrite Hf. cbn [mbind option_bind]. by rewrite He.
  - unfold go_num. assert (num_sign (pretty (Z.pos p) +:+ rest) = (""%string, (pretty (Z.pos p) +:+ rest)%string)) as ->.
    { rewrite pretty_pos_go, pretty_go_app. change ("" +:+ rest)%string with rest.
      destruct (pretty_go_nonzero (N.pos p) rest) as (c & r & -> & Hd & _); [lia|]. unfold num_sign.
      by rewrite bool_decide_false by (by intros ->). }
    rewrite num_int_pos by done. cbn [mbind option_bind]. rewrite Hf. cbn [mbind option_bind]. rewrite He.
    cbn [mbind option_bind]. by rewrite !string_app_nil.
  - change (pretty (Z.neg p) +:+ rest)%string with (String "-"%char (pretty (Z.pos p) +:+ rest))%string. unfold go_num.
    cbn [num_sign]. rewrite bool_decide_true by done. rewrite num_int_pos by done. cbn [mbind option_bind].
    rewrite Hf. cbn [mbind option_bind]. rewrite He. cbn [mbind option_bind]. by rewrite !string_app_nil.
Qed.

(** *** Values *)

Fixpoint blanks (s : string) : bool :=
  match s with EmptyString => true | String c r => json_space c && blanks r end.

Lemma skip_blanks pad s : blanks pad = true → skip_ws (pad +:+ s) = skip_ws s.
Proof.
  induction pad as [|c pad IH]; [done|]. rewrite string_app_cons. simpl. rewrite andb_true_iff. intros [Hc Hp].
  rewrite Hc. by apply IH.
Qed.

Lemma blanks_more pad : blanks pad = true → blanks (pad +:+ "    ") = true.
Proof.
  induction pad as [|c pad IH]; [done|]. rewrite string_app_cons. simpl. rewrite !andb_true_iff. intros [? ?]. auto.
Qed.

Lemma skip_line pad s : blanks pad = true → skip_ws (nl +:+ pad +:+ s) = skip_ws s.
Proof. intros Hp. change (skip_ws (nl +:+ pad +:+ s)) with (skip_ws (pad +:+ s)). by apply skip_blanks. Qed.

Definition starts (s : string) : Prop :=
  ∃ c r, s = String c r ∧ json_space c = false ∧ c ≠ "]"%char ∧ c ≠ "}"%char.

Lemma starts_skip s rest : starts s → skip_ws (s +:+ rest) = (s +:+ rest)%string.
Proof. intros (c & r & -> & Hc & _). rewrite string_app_cons. simpl. by rewrite Hc. Qed.

Lemma indent_starts pad j : starts (json_indent pad j).
Proof.
  destruct j as [|[]|n|s|[|x l]|[|x l]]; try (do 2 eexists; split; [reflexivity|done]).
  destruct n as [|p|p]; [do 2 eexists; split; [reflexivity|done]| |do 2 eexists; split; [reflexivity|done]].
  destruct (pretty_go_nonzero (N.pos p) "") as (c & r & Hc & Hd & _); [lia|]. exists c, r. split; [exact Hc|].
  revert Hd. clear. by_bits c; vm_compute; done.
Qed.

(** [item] reads [g x] from what [enc] writes of [x]. *)
Definition go_reads {A B} (item : string → option (B * string)) (enc : A → string) (g : A → B) (x : A) : Prop :=
  starts (enc x) ∧ ∀ rest, ends rest = true → item (enc x +:+ rest)%string = Some (g x, rest).

Lemma go_items_lines {A B} (item : string → option (B * string)) enc (g : A → B) close pad pad0 x l fuel rest :
  json_space close = false → close ≠ ","%char → blanks pad = true → blanks pad0 = true →
  Forall (go_reads item enc g) (x :: l) → (length l < fuel)%nat →
  go_items item close fuel (skip_ws (lines pad (enc <$> x :: l) +:+ nl +:+ pad0 +:+ String close rest)) =
    Some (g <$> x :: l, rest).
Proof.
  intros Hsp Hcomma Hpad Hpad0. revert x fuel.
  induction l as [|y l IH]; intros x fuel [[Hst Hx] Hl]%Forall_cons Hf; (destruct fuel as [|fuel]; [simpl in Hf; lia|]).
  - change (lines pad (enc <$> [x])) with (nl +:+ pad +:+ enc x)%string.
    rewrite !string_app_assoc, skip_line, starts_skip by done. cbn [go_items]. rewrite Hx by done. rewrite skip_line by done.
    simpl. rewrite Hsp. by rewrite bool_decide_true.
  - change (lines pad (enc <$> x :: y :: l)) with ((nl +:+ pad +:+ enc x) +:+ "," +:+ lines pad (enc <$> y :: l))%string.
    rewrite !string_app_assoc, skip_line, starts_skip by done. cbn [go_items].
    rewrite Hx by done. change ("," +:+ ?s)%string with (String ","%char s). cbn [skip_ws].
    change (json_space ",") with false. cbv iota. rewrite bool_decide_false by congruence. rewrite bool_decide_true by done.
    rewrite (IH y fuel) by (done || (simpl in Hf; lia)). done.
Qed.

Lemma go_list_lines {A B} (item : string → option (B * string)) enc (g : A → B) close pad pad0 x l fuel rest :
  json_space close = false → close ≠ ","%char → close = "]"%char ∨ close = "}"%char → blanks pad = true → blanks pad0 = true →
  Forall (go_reads item enc g) (x :: l) → (length l < fuel)%nat →
  go_list item close fuel (lines pad (enc <$> x :: l) +:+ nl +:+ pad0 +:+ String close rest) = Some (g <$> x :: l, rest).
Proof.
  intros Hsp Hcomma Hclose Hpad Hpad0 Hall Hf.
  rewrite <-(go_items_lines item enc g close pad pad0 x l fuel rest) by done.
  unfold go_list. apply Forall_cons in Hall as [[(c & r & He & Hc & H1 & H2) _] _].
  assert (∃ t, skip_ws (lines pad (enc <$> x :: l) +:+ nl +:+ pad0 +:+ String close rest) = String c t) as [t ->];
    [|rewrite bool_decide_false by (destruct Hclose; congruence); done].
  destruct l as [|y l];
    [change (lines pad (enc <$> [x])) with (nl +:+ pad +:+ enc x)%string
    |change (lines pad (enc <$> x :: y :: l)) with ((nl +:+ pad +:+ enc x) +:+ "," +:+ lines pad (enc <$> y :: l))%string];
    rewrite !string_app_assoc, skip_line, He, string_app_cons by done; simpl; rewrite Hc; by eexists.
Qed.

Lemma go_member_reads fuel pad kv :
  utf8_valid kv.1 = true → go_reads (go_value fuel) (json_indent pad) jv kv.2 →
  go_reads (go_member (go_value fuel)) (λ kv, Json.quoted (escape kv.1) +:+ ": " +:+ json_indent pad kv.2)%string
    (λ kv, (kv.1, jv kv.2)) kv.
Proof.
  destruct kv as [k v]. simpl. intros Hk [Hst Hv]. split; [unfold Json.quoted; rewrite string_app_cons; by do 2 eexists|].
  intros rest Hr. cbn [fst snd].
  assert ((Json.quoted (escape k) +:+ ": " +:+ json_indent pad v) +:+ rest =
    String quote (escape k +:+ String quote (String ":" (String " " (json_indent pad v +:+ rest)))))%string as ->.
  { unfold Json.quoted. rewrite !string_app_cons, !string_app_assoc. done. }
  unfold go_member. change (expect (String quote "") (String quote ?s)) with (Some s). cbn [mbind option_bind].
  rewrite go_str_escape by done. cbn [mbind option_bind].
  change (expect ":" (skip_ws (String ":" ?s))) with (Some s). cbn [mbind option_bind].
  change (skip_ws (String " " ?s)) with (skip_ws s). rewrite starts_skip by done. by rewrite Hv.
Qed.

Lemma go_indent j pad n :
  json_ok j = true → blanks pad = true → (json_size j ≤ n)%nat → go_reads (go_value n) (json_indent pad) jv j.
Proof.
  intros Hok. revert pad n. induction j as [|b|k|s|l IH|l IH] using json_ind'; intros pad n Hp Hn;
    (split; [apply indent_starts|]); intros rest Hr; (destruct n as [|n]; [simpl in Hn; lia|]).
  - done.
  - by destruct b.
  - change (json_indent pad (JNum k)) with (pretty k). cbn [go_value].
    pose proof (go_num_pretty k rest Hr) as Hk.
    destruct (pretty k +:+ rest)%string as [|c r] eqn:Hc; [done|].
    assert (dec_digit c = true ∨ c = "-"%char) as Hd.
    { destruct k as [|p|p]; [by injection Hc as <- <-; left| |by injection Hc as <- _; right].
      rewrite pretty_pos_go, pretty_go_app in Hc. left.
      destruct (pretty_go_nonzero (N.pos p) ("" +:+ rest)%string) as (c' & r' & Hc' & Hd & _); [lia|].
      rewrite Hc' in Hc. by injection Hc as <- _. }
    assert (∀ c', dec_digit c' = false → c' ≠ "-"%char → c ≠ c') as Hne by (destruct Hd as [Hd| ->]; congruence).
    rewrite !bool_decide_false by (by apply Hne). by rewrite Hk.
  - change (json_indent pad (JStr s)) with (String quote (escape s +:+ String quote ""))%string. rewrite string_app_cons.
    cbn [go_value]. rewrite !bool_decide_false by done. rewrite bool_decide_true by done.
    rewrite string_app_assoc, string_app_cons, go_str_escape by done. done.
  - destruct l as [|x l]; [done|]. cbn [json_ok json_size] in Hok, Hn. rewrite forallb_forall in Hok.
    cbn [json_indent]. rewrite !string_app_assoc. change ("[" +:+ ?s)%string with (String "["%char s).
    cbn [go_value]. rewrite !bool_decide_false by done. rewrite bool_decide_true by done.
    change ("]" +:+ rest)%string with (String "]"%char rest).
    change (json_indent (pad +:+ "    ") x :: _) with (json_indent (pad +:+ "    ") <$> x :: l).
    pose proof (size_length json_size (x :: l) json_size_pos) as Hlen. simpl length in Hlen.
    rewrite (go_list_lines (go_value n) (json_indent (pad +:+ "    ")) jv "]" (pad +:+ "    ") pad x l n rest);
      [done|done|done|by left|by apply blanks_more|done| |lia].
    rewrite Forall_forall in IH. apply Forall_forall. intros y Hy. apply IH; [done|by apply Hok, list_elem_of_In|by apply blanks_more|].
    pose proof (size_elem json_size (x :: l) y Hy). lia.
  - destruct l as [|x l]; [done|]. cbn [json_ok json_size] in Hok, Hn. rewrite forallb_forall in Hok.
    cbn [json_indent]. rewrite !string_app_assoc. change ("{" +:+ ?s)%string with (String "{"%char s).
    cbn [go_value]. rewrite !bool_decide_false by done. rewrite bool_decide_true by done.
    change ("}" +:+ rest)%string with (String "}"%char rest).
    set (enc := λ kv : string * json, (Json.quoted (escape kv.1) +:+ ": " +:+ json_indent (pad +:+ "    ") kv.2)%string).
    change (enc x :: _) with (enc <$> x :: l).
    pose proof (size_length (λ kv : string * json, json_size kv.2) (x :: l) (λ kv, json_size_pos kv.2)) as Hlen. simpl length in Hlen.
    rewrite (go_list_lines (go_member (go_value n)) enc (λ kv, (kv.1, jv kv.2)) "}" (pad +:+ "    ") pad x l n rest);
      [done|done|done|by right|by apply blanks_more|done| |lia].
    rewrite Forall_forall in IH. apply Forall_forall. intros y Hy.
    assert (utf8_valid y.1 && json_ok y.2 = true) as [Hk Hv]%andb_true_iff by (by apply Hok, list_elem_of_In).
    apply go_member_reads; [done|]. apply IH; [done|done|by apply blanks_more|].
    pose proof (size_elem (λ kv : string * json, json_size kv.2) (x :: l) y Hy). simpl in *. lia.
Qed.

(** A document that is written reads back. *)
Lemma go_parse_indent j : json_ok j = true → go_parse (json_indent "" j) = Some (jv j).
Proof.
  intros Hok. unfold go_parse. set (s := json_indent "" j). destruct (indent_starts "" j) as (c & r & Hc & Hsp & _).
  assert (skip_ws s = s) as -> by (unfold s; rewrite Hc; simpl; by rewrite Hsp).
  rewrite (go_value_fuel _ (S (String.length s + json_size j))) by lia.
  destruct (go_indent j "" (S (String.length s + json_size j)) Hok eq_refl) as [_ Hr]; [lia|].
  specialize (Hr ""%string eq_refl). rewrite string_app_nil in Hr. fold s in Hr. rewrite Hr. by rewrite bool_decide_true.
Qed.
