(* ===== verification/GoTime.v ===== *)
(** * Dates of the package time of Go 1.12

    From an instant to a date as [absDate] computes it, the format RFC3339Nano in
    which [time.Time] is written in JSON, and a reader of that format: an instant
    reads back to the nanosecond ([time_read_format]). *)
From S2P Require Import Prelude GoStd Json.

Open Scope Z_scope.

(** Division by constants, for [lia]. *)
Ltac div_lia := Z.to_euclidean_division_equations; lia.

(** ** The calendar *)

Definition isLeap (year : Z) : bool :=
  bool_decide (year `mod` 4 = 0) && (bool_decide (year `mod` 100 ≠ 0) || bool_decide (year `mod` 400 = 0)).

(** The days of the year before each month, without leap days. *)
Definition daysBefore (month : Z) : Z :=
  default 365 ([0; 31; 59; 90; 120; 151; 181; 212; 243; 273; 304; 334; 365] !! Z.to_nat month).

(** [absDate], first part: the year and the day of the year, from the days since
    January 1 of year 1 (Go counts from a year that is 1 modulo 400). *)
Definition year_yday (days : Z) : Z * Z :=
  let a := days `div` 146097 in
  let d := days - 146097 * a in
  let n := d `div` 36524 in
  let b := n - n `div` 4 in
  let d := d - 36524 * b in
  let c := d `div` 1461 in
  let d := d - 1461 * c in
  let n := d `div` 365 in
  let e := n - n `div` 4 in
  (400 * a + 100 * b + 4 * c + e + 1, d - 365 * e).

(** Second part: the month (from 1) and the day of the month. *)
Definition month_day (leap : bool) (yday : Z) : Z * Z :=
  if leap && bool_decide (yday = 59) then (2, 29)
  else
    let day := if leap && bool_decide (yday > 59) then yday - 1 else yday in
    let month := day `div` 31 in
    let end_ := daysBefore (month + 1) in
    if bool_decide (end_ ≤ day) then (month + 2, day - end_ + 1)
    else (month + 1, day - daysBefore month + 1).

Definition absDate (days : Z) : Z * Z * Z :=
  let '(year, yday) := year_yday days in
  let '(month, day) := month_day (isLeap year) yday in (year, month, day).

(** The inverse: days since January 1 of year 1. *)
Definition days_in (year month : Z) : Z :=
  daysBefore month - daysBefore (month - 1) + (if isLeap year && bool_decide (month = 2) then 1 else 0).
Definition yday_of (leap : bool) (month day : Z) : Z :=
  daysBefore (month - 1) + (if leap && bool_decide (month > 2) then 1 else 0) + day - 1.
Definition days_of (year month day : Z) : Z :=
  let y := year - 1 in
  365 * y + y `div` 4 - y `div` 100 + y `div` 400 + yday_of (isLeap year) month day.

Lemma year_yday_ok days :
  let '(year, yday) := year_yday days in let y := year - 1 in
  365 * y + y `div` 4 - y `div` 100 + y `div` 400 + yday = days ∧
  0 ≤ yday < 365 + (if isLeap year then 1 else 0).
Proof.
  unfold year_yday. set (a := days `div` 146097). set (d1 := days - 146097 * a).
  assert (0 ≤ d1 < 146097) as H1 by (unfold d1, a; div_lia).
  set (b := d1 `div` 36524 - d1 `div` 36524 `div` 4). set (d2 := d1 - 36524 * b).
  assert (0 ≤ b ≤ 3 ∧ 0 ≤ d2 ∧ d2 ≤ 36524 ∧ (d2 = 36524 → b = 3)) as (Hb & H2 & H2' & Hb3) by (unfold d2, b; div_lia).
  set (c := d2 `div` 1461). set (d3 := d2 - 1461 * c).
  assert (0 ≤ c ≤ 24 ∧ 0 ≤ d3 < 1461 ∧ (c = 24 → d3 = 1460 → b = 3)) as (Hc & H3 & Hc24) by (unfold d3, c; div_lia).
  set (e := d3 `div` 365 - d3 `div` 365 `div` 4).
  assert (0 ≤ e ≤ 3 ∧ 0 ≤ d3 - 365 * e ≤ 365 ∧ (d3 - 365 * e = 365 → e = 3 ∧ d3 = 1460)) as (He & H4 & H5)
    by (unfold e; div_lia).
  replace (400 * a + 100 * b + 4 * c + e + 1 - 1) with (400 * a + 100 * b + 4 * c + e) by lia.
  replace ((400 * a + 100 * b + 4 * c + e) `div` 4) with (100 * a + 25 * b + c) by div_lia.
  replace ((400 * a + 100 * b + 4 * c + e) `div` 100) with (4 * a + b) by div_lia.
  replace ((400 * a + 100 * b + 4 * c + e) `div` 400) with a by div_lia.
  split; [lia|]. split; [lia|]. destruct (decide (d3 - 365 * e = 365)) as [Hy|]; [|destruct (isLeap _); lia].
  destruct (H5 Hy) as [-> Hd3]. unfold isLeap. rewrite bool_decide_true by div_lia.
  destruct (decide (c = 24)) as [->|].
  - rewrite (Hc24 eq_refl Hd3). rewrite (bool_decide_true (_ `mod` 400 = 0)) by div_lia. rewrite orb_true_r. simpl. lia.
  - rewrite (bool_decide_true (_ `mod` 100 ≠ 0)) by div_lia. simpl. lia.
Qed.

(** The months of a year, day by day. *)
Definition month_check (leap : bool) (yday : Z) : bool :=
  let '(m, d) := month_day leap yday in
  bool_decide (yday_of leap m d = yday) && bool_decide (1 ≤ m ≤ 12) && bool_decide (1 ≤ d) &&
  bool_decide (d ≤ daysBefore m - daysBefore (m - 1) + (if leap && bool_decide (m = 2) then 1 else 0)).

Lemma months_checked :
  forallb (λ n, month_check false (Z.of_nat n)) (seq 0 365) && forallb (λ n, month_check true (Z.of_nat n)) (seq 0 366) = true.
Proof. vm_compute. done. Qed.

Lemma month_day_ok leap yday :
  0 ≤ yday < 365 + (if leap : bool then 1 else 0) → month_check leap yday = true.
Proof.
  intros Hy. pose proof months_checked as H. rewrite andb_true_iff, !forallb_forall in H. destruct H as [H0 H1].
  rewrite <-(Z2Nat.id yday) by lia. destruct leap; [apply H1|apply H0]; apply in_seq; lia.
Qed.

(** [absDate] inverts the count of days, and gives a date of the calendar. *)
Lemma absDate_ok days year month day :
  absDate days = (year, month, day) →
  days_of year month day = days ∧ 1 ≤ month ≤ 12 ∧ 1 ≤ day ≤ days_in year month.
Proof.
  unfold absDate. pose proof (year_yday_ok days) as Hy. destruct (year_yday days) as [y yd].
  destruct Hy as [Hd Hr]. pose proof (month_day_ok (isLeap y) yd Hr) as Hm. unfold month_check in Hm.
  destruct (month_day (isLeap y) yd) as [m d]. intros [= <- <- <-].
  rewrite !andb_true_iff, !bool_decide_eq_true in Hm. destruct Hm as [[[Hm1 Hm2] Hm3] Hm4].
  unfold days_of, days_in. rewrite Hm1. split_and!; lia.
Qed.

Example absDate_ex :
  absDate 0 = (1, 1, 1) ∧ absDate 737118 = (2019, 3, 1) ∧ absDate 737482 = (2020, 2, 28) ∧
  absDate 737483 = (2020, 2, 29) ∧ absDate 146096 = (400, 12, 31) ∧ absDate (-1) = (0, 12, 31).
Proof. vm_compute. done. Qed.

(** ** RFC3339Nano *)

Definition digit (d : Z) : ascii := chr (48 + d).

(** [appendInt] of a number of at most [w] digits: [w] digits with leading zeros. *)
Fixpoint pad (w : nat) (n : Z) : string :=
  match w with
  | O => ""
  | S w => pad w (n `div` 10) +:+ String (digit (n `mod` 10)) ""
  end.

(** [formatNano] with [trim]: [w] digits without the zeros at the end. *)
Fixpoint trimmed (w : nat) (n : Z) : string :=
  match w with
  | O => ""
  | S w' => if bool_decide (n `mod` 10 = 0) then trimmed w' (n `div` 10) else pad w n
  end.
Definition format_nano (ns : Z) : string :=
  if bool_decide (ns = 0) then "" else String "."%char (trimmed 9 ns).

(** The zone: [Z] or the offset in hours and minutes. *)
Definition format_zone (offset : Z) : string :=
  if bool_decide (offset = 0) then "Z"
  else
    let zone := offset ÷ 60 in
    let abs := Z.abs zone in
    String (if bool_decide (zone < 0) then "-" else "+")%char
      (pad 2 (abs `div` 60) +:+ ":" +:+ pad 2 (abs `mod` 60)).

(** The instant [t] (in nanoseconds since January 1, year 1) in a zone [offset]
    seconds east of UTC. *)
Definition format_time (offset t : Z) : string :=
  let local := t `div` Second + offset in
  let '(year, month, day) := absDate (local `div` 86400) in
  let sec := local `mod` 86400 in
  pad 4 year +:+ "-" +:+ pad 2 month +:+ "-" +:+ pad 2 day +:+ "T" +:+
  pad 2 (sec `div` 3600) +:+ ":" +:+ pad 2 (sec `div` 60 `mod` 60) +:+ ":" +:+ pad 2 (sec `mod` 60) +:+
  format_nano (t `mod` Second) +:+ format_zone offset.

(** [t.Year()]. *)
Definition Year (offset t : Z) : Z := (absDate ((t `div` Second + offset) `div` 86400)).1.1.

(** *** Reading *)

Fixpoint read_pad (w : nat) (s : string) : option (Z * string) :=
  match w with
  | O => Some (0, s)
  | S w =>
      '(n, s) ← read_pad w s;
      match s with
      | String c s => if dec_digit c then Some (n * 10 + (byte c - 48), s) else None
      | EmptyString => None
      end
  end.

(** At most [w] digits, the first one with weight [10 ^ (w - 1)]. *)
Fixpoint read_frac (w : nat) (s : string) : Z * string :=
  match w, s with
  | S w, String c r =>
      if dec_digit c then let '(v, rest) := read_frac w r in ((byte c - 48) * 10 ^ Z.of_nat w + v, rest) else (0, s)
  | _, _ => (0, s)
  end.

Definition read_nano (s : string) : Z * string :=
  match s with
  | String c r => if bool_decide (c = "."%char) then read_frac 9 r else (0, s)
  | EmptyString => (0, s)
  end.

Definition read_zone (s : string) : option (Z * string) :=
  match s with
  | String c s =>
      if bool_decide (c = "Z"%char) then Some (0, s)
      else
        '(h, s) ← read_pad 2 s; s ← expect ":" s; '(m, s) ← read_pad 2 s;
        if bool_decide (h < 24 ∧ m < 60) then
          if bool_decide (c = "+"%char) then Some (h * 3600 + m * 60, s)
          else if bool_decide (c = "-"%char) then Some (- (h * 3600 + m * 60), s)
          else None
        else None
  | EmptyString => None
  end.

Definition read_time (s : string) : option Z :=
  '(year, s) ← read_pad 4 s; s ← expect "-" s; '(month, s) ← read_pad 2 s; s ← expect "-" s;
  '(day, s) ← read_pad 2 s; s ← expect "T" s; '(h, s) ← read_pad 2 s; s ← expect ":" s;
  '(m, s) ← read_pad 2 s; s ← expect ":" s; '(sec, s) ← read_pad 2 s;
  let '(ns, s) := read_nano s in
  '(offset, s) ← read_zone s;
  if bool_decide (s = ""%string ∧ 1 ≤ month ≤ 12 ∧ 1 ≤ day ≤ days_in year month ∧ h < 24 ∧ m < 60 ∧ sec < 60)
  then Some ((days_of year month day * 86400 + h * 3600 + m * 60 + sec - offset) * Second + ns)
  else None.

(* 2019-07-23T13:07:05.25+05:30 *)
Example format_time_ex :
  let t := ((737262 * 86400 + 7 * 3600 + 37 * 60 + 5) * Second + 250000000) in
  format_time 19800 t = "2019-07-23T13:07:05.25+05:30"%string ∧
  read_time (format_time 19800 t) = Some t ∧ format_time 0 0 = "0001-01-01T00:00:00Z"%string.
Proof. vm_compute. done. Qed.

(** ** An instant reads back *)

Lemma digit_ok d : 0 ≤ d < 10 → dec_digit (digit d) = true ∧ byte (digit d) = 48 + d.
Proof.
  intros H. assert (d ∈ [0;1;2;3;4;5;6;7;8;9]) as Hd by (rewrite !elem_of_cons; lia).
  repeat (apply elem_of_cons in Hd as [->|Hd]; [done|]). by apply not_elem_of_nil in Hd.
Qed.

Lemma digit_mod n : dec_digit (digit (n `mod` 10)) = true ∧ byte (digit (n `mod` 10)) = 48 + n `mod` 10.
Proof. apply digit_ok, Z.mod_pos_bound. lia. Qed.

Lemma read_pad_pad w n rest :
  0 ≤ n < 10 ^ Z.of_nat w → read_pad w (pad w n +:+ rest) = Some (n, rest).
Proof.
  revert n rest. induction w as [|w IH]; intros n rest Hn; [simpl in *; do 2 f_equal; lia|].
  rewrite Nat2Z.inj_succ, Z.pow_succ_r in Hn by lia. cbn [pad read_pad].
  rewrite string_app_assoc, IH by div_lia. simpl. destruct (digit_mod n) as [-> ->].
  do 2 f_equal. div_lia.
Qed.

Lemma read_frac_pad w v n t :
  read_frac (w + v) (pad w n +:+ t) =
  let '(x, r) := read_frac v t in (n `mod` 10 ^ Z.of_nat w * 10 ^ Z.of_nat v + x, r).
Proof.
  revert n v t. induction w as [|w IH]; intros n v t.
  { simpl. rewrite Z.mod_1_r. change ("" +:+ t)%string with t. by destruct (read_frac v t). }
  cbn [pad]. rewrite string_app_assoc. replace (S w + v)%nat with (w + S v)%nat by lia.
  rewrite IH. change (String (digit (n `mod` 10)) "" +:+ t)%string with (String (digit (n `mod` 10)) t).
  cbn [read_frac]. destruct (digit_mod n) as [-> ->]. destruct (read_frac v t) as [x r]. f_equal.
  rewrite !Nat2Z.inj_succ, !Z.pow_succ_r by lia.
  rewrite (Z.mul_comm 10 (10 ^ Z.of_nat w)), (Z.mul_comm (10 ^ Z.of_nat w) 10).
  rewrite (Z.rem_mul_r n 10 (10 ^ Z.of_nat w)) by lia. lia.
Qed.

Lemma read_frac_stop w t : stop t = true → read_frac w t = (0, t).
Proof. destruct w, t as [|c t]; try done. simpl. by destruct (dec_digit c). Qed.

Lemma read_trimmed w v n t :
  stop t = true → 0 ≤ n < 10 ^ Z.of_nat w → read_frac (w + v) (trimmed w n +:+ t) = (n * 10 ^ Z.of_nat v, t).
Proof.
  intros Ht. revert n v. induction w as [|w IH]; intros n v Hn.
  { simpl in *. replace n with 0 by lia. by rewrite read_frac_stop. }
  cbn [trimmed]. case_bool_decide as Hz.
  - rewrite Nat2Z.inj_succ, Z.pow_succ_r in Hn by lia. replace (S w + v)%nat with (w + S v)%nat by lia.
    rewrite IH by div_lia. f_equal. rewrite Nat2Z.inj_succ, Z.pow_succ_r by lia.
    replace n with (10 * (n `div` 10)) at 2 by div_lia. lia.
  - rewrite read_frac_pad, read_frac_stop by done. f_equal. rewrite Z.mod_small by done. lia.
Qed.

Lemma read_nano_format ns t :
  stop t = true → (∀ r, t ≠ String "."%char r) → 0 ≤ ns < Second → read_nano (format_nano ns +:+ t) = (ns, t).
Proof.
  intros Hs Hd Hn. unfold format_nano. case_bool_decide as Hz.
  - subst. change ("" +:+ t)%string with t. destruct t as [|c t]; [done|]. unfold read_nano.
    rewrite bool_decide_false; [done|]. intros ->. by destruct (Hd t).
  - rewrite string_app_cons. unfold read_nano. rewrite bool_decide_true by done.
    transitivity (ns * 10 ^ Z.of_nat 0, t); [by apply (read_trimmed 9 0)|]. f_equal. simpl. lia.
Qed.

Lemma zone_head offset : ∃ c r, format_zone offset = String c r ∧ (c = "Z" ∨ c = "+" ∨ c = "-")%char.
Proof.
  unfold format_zone. case_bool_decide; [by do 2 eexists; split; [done|left]|].
  case_bool_decide; do 2 eexists; (split; [done|]); tauto.
Qed.

(** Offsets are less than a day and whole minutes. *)
Definition zone_ok (offset : Z) : Prop := -86400 < offset < 86400 ∧ offset `mod` 60 = 0.

Lemma read_zone_format offset : zone_ok offset → read_zone (format_zone offset) = Some (offset, ""%string).
Proof.
  intros [Hr Hm]. unfold format_zone. case_bool_decide as Hz; [by subst|]. cbv zeta.
  assert (∃ z, offset = 60 * z) as [z ->] by (exists (offset `div` 60); div_lia).
  replace (60 * z ÷ 60) with z by (rewrite Z.mul_comm, Z.quot_mul; lia).
  unfold read_zone. rewrite bool_decide_false by (by case_bool_decide).
  rewrite read_pad_pad by (simpl; div_lia). cbn [mbind option_bind].
  rewrite expect_app. cbn [mbind option_bind].
  rewrite <-(string_app_nil (pad 2 _)), read_pad_pad by (simpl; div_lia). cbn [mbind option_bind].
  rewrite bool_decide_true by div_lia.
  destruct (bool_decide (z < 0)) eqn:Hs; [apply bool_decide_eq_true in Hs|apply bool_decide_eq_false in Hs];
    simpl; do 2 f_equal; div_lia.
Qed.

(** An instant written in a zone reads back to the nanosecond, when its year has
    four digits. *)
Lemma time_read_format offset t :
  zone_ok offset → 0 ≤ Year offset t < 10000 → read_time (format_time offset t) = Some t.
Proof.
  intros Hz Hy. unfold format_time, Year in *. set (local := t `div` Second + offset) in *.
  destruct (absDate (local `div` 86400)) as [[year month] day] eqn:Hd. simpl in Hy.
  apply absDate_ok in Hd as (Hdays & Hm & Hday).
  assert (days_in year month ≤ 99) as H31.
  { unfold days_in. assert (month ∈ [1;2;3;4;5;6;7;8;9;10;11;12]) as Hin by (rewrite !elem_of_cons; lia).
    destruct (_ && _); clear -Hin; repeat (apply elem_of_cons in Hin as [->|Hin]; [vm_compute; congruence|]);
      by apply not_elem_of_nil in Hin. }
  assert (0 ≤ local `mod` 86400 < 86400) as Hs by (apply Z.mod_pos_bound; lia).
  set (sec := local `mod` 86400) in *. cbv zeta.
  destruct (zone_head offset) as (c & r & Hc & Hcz).
  unfold read_time.
  repeat (rewrite read_pad_pad by (simpl; div_lia); cbn [mbind option_bind]; rewrite expect_app; cbn [mbind option_bind]).
  rewrite read_pad_pad by (simpl; div_lia). cbn [mbind option_bind].
  rewrite read_nano_format.
  - rewrite read_zone_format by done. cbn [mbind option_bind]. rewrite bool_decide_true by (split_and!; done || div_lia).
    f_equal. rewrite Hdays. unfold sec, local in *. unfold Second. div_lia.
  - rewrite Hc. by destruct Hcz as [->|[->| ->]].
  - intros q. rewrite Hc. intros [= -> _]. by destruct Hcz as [?|[?|?]].
  - apply Z.mod_pos_bound. done.
Qed.

(** ** time.Time in JSON

    [time.Local]: the offset from UTC at an instant.  A [time.Time{}] is in UTC. *)
Class Location : Type := { zone_offset : Z → Z }.

Section time_json.
Context {loc : Location}.

Definition offset_of (t : Z) : Z := if bool_decide (t = zeroTime) then 0 else zone_offset t.

(** [Time.MarshalJSON] refuses years outside of [0, 9999]. *)
Definition time_toJson (t : Z) : option json :=
  if bool_decide (0 ≤ Year (offset_of t) t < 10000) then Some (JStr (format_time (offset_of t) t)) else None.
Definition time_fromJson (j : json) : option Z := match j with JStr s => read_time s | _ => None end.

Lemma time_round t j : zone_ok (offset_of t) → time_toJson t = Some j → time_fromJson j = Some t.
Proof. unfold time_toJson. intros Hz. case_bool_decide; [|done]. intros [= <-]. by apply time_read_format. Qed.

End time_json.

(** *** Its text is ASCII *)

Fixpoint all_ascii (s : string) : bool :=
  match s with EmptyString => true | String c s => is_ascii c && all_ascii s end.

Lemma all_ascii_app a b : all_ascii (a +:+ b) = all_ascii a && all_ascii b.
Proof. induction a as [|c a IH]; [done|]. rewrite string_app_cons. simpl. rewrite IH. by destruct (is_ascii c). Qed.

Lemma all_ascii_valid s : all_ascii s = true → utf8_valid s = true.
Proof. induction s as [|c s IH]; [done|]. simpl. destruct (is_ascii c); [exact IH|done]. Qed.

Lemma digit_ascii n : is_ascii (digit (n `mod` 10)) = true.
Proof.
  destruct (digit_mod n) as [_ H]. unfold is_ascii. rewrite H. apply bool_decide_eq_true.
  pose proof (Z.mod_pos_bound n 10). lia.
Qed.

Lemma pad_ascii w n : all_ascii (pad w n) = true.
Proof. revert n. induction w as [|w IH]; intros n; [done|]. simpl. by rewrite all_ascii_app, IH; simpl; rewrite digit_ascii. Qed.

Lemma trimmed_ascii w n : all_ascii (trimmed w n) = true.
Proof.
  revert n. induction w as [|w IH]; intros n; [done|]. cbn [trimmed]. case_bool_decide; [apply IH|apply pad_ascii].
Qed.

Lemma nano_ascii ns : all_ascii (format_nano ns) = true.
Proof. unfold format_nano. case_bool_decide; [done|]. apply trimmed_ascii. Qed.

Lemma zone_ascii offset : all_ascii (format_zone offset) = true.
Proof.
  unfold format_zone. case_bool_decide; [done|]. case_bool_decide; cbn [all_ascii];
    by rewrite !all_ascii_app, !pad_ascii.
Qed.

Lemma format_time_ascii offset t : all_ascii (format_time offset t) = true.
Proof.
  unfold format_time. destruct (absDate _) as [[y m] d].
  by rewrite !all_ascii_app, !pad_ascii, nano_ascii, zone_ascii.
Qed.

Lemma time_json_ok {loc : Location} t j : time_toJson t = Some j → json_ok j = true.
Proof.
  unfold time_toJson. case_bool_decide; [|done]. intros [= <-]. apply all_ascii_valid, format_time_ascii.
Qed.
