(* ===== verification/Proto.v ===== *)
(** * The wire format of the messages: github.com/golang/protobuf/proto

    What [proto.Marshal] and [proto.Unmarshal] of the vendored library do to
    messages whose fields are strings, booleans, 32 bit integers and lists of
    strings, the ones of rpc/rpc.pb.go.  A message is described by its fields, as
    the library reads them from the struct tags; the tags of rpc.pb.go do not say
    "proto3", so strings are not checked to be UTF-8.  Any list of bytes is decoded
    to a message or to an error, and the bytes of a message decode to it. *)
From S2P Require Import Prelude GoStd.

Open Scope Z_scope.

Definition uint64 (x : Z) : Z := x `mod` 2 ^ 64.

(** [byte(x)] and [uint64(b)]. *)
Definition byte (v : Z) : ascii := Ascii.ascii_of_N (Z.to_N (Z.land v 255)).
Definition of_byte (c : ascii) : Z := Z.of_N (Ascii.N_of_ascii c).

Definition ErrUnexpectedEOF : error := EStr "unexpected EOF".

Definition WireVarint : Z := 0.
Definition WireFixed64 : Z := 1.
Definition WireBytes : Z := 2.
Definition WireStartGroup : Z := 3.
Definition WireEndGroup : Z := 4.
Definition WireFixed32 : Z := 5.

(** ** Integers *)

(** [appendVarint]: at most [n] bytes with the high bit set, then the rest. *)
Fixpoint append_varint (n : nat) (v : Z) : list ascii :=
  match n with
  | O => [byte v]
  | S n => if v <? 128 then [byte v]
           else byte (Z.lor (Z.land v 127) 128) :: append_varint n (Z.shiftr v 7)
  end.
Definition appendVarint (v : Z) : list ascii := append_varint 9 v.

(** [decodeVarint]: the value and the bytes after it; the tenth byte holds one bit. *)
Fixpoint decode_varint (n : nat) (shift x : Z) (b : list ascii) : option (Z * list ascii) :=
  match b with
  | [] => None
  | c :: b =>
      let y := of_byte c in
      let x := uint64 (x + Z.shiftl y shift) in
      match n with
      | O => if y <? 2 then Some (x, b) else None
      | S n => if y <? 128 then Some (x, b)
               else decode_varint n (shift + 7) (uint64 (x - Z.shiftl 128 shift)) b
      end
  end.
Definition decodeVarint (b : list ascii) : option (Z * list ascii) := decode_varint 9 0 0 b.

(** ** Fields *)

(** A field of a message: its number, and how to read and write it. *)
Inductive Field (A : Type) : Type :=
| FString (num : Z) (get : A → string) (set : string → A → A)
| FBool (num : Z) (get : A → bool) (set : bool → A → A)
| FInt32 (num : Z) (get : A → Z) (set : Z → A → A)
| FStrings (num : Z) (get : A → list string) (set : list string → A → A).
Arguments FString {A}.
Arguments FBool {A}.
Arguments FInt32 {A}.
Arguments FStrings {A}.

Definition field_num {A} (f : Field A) : Z :=
  match f with FString n _ _ | FBool n _ _ | FInt32 n _ _ | FStrings n _ _ => n end.

Class Message (A : Type) : Type := {
  msg_name : string;
  msg_Reset : A;
  msg_fields : list (Field A);
}.

Definition wiretag (num wire : Z) : Z := Z.lor (Z.shiftl num 3) wire.

Definition bytes_of (s : string) : list ascii := String.list_ascii_of_string s.
Definition string_of (b : list ascii) : string := String.string_of_list_ascii b.
Definition blen (b : list ascii) : Z := Z.of_nat (length b).

(** ** Marshal *)

Definition append_string (tag : Z) (v : string) : list ascii :=
  appendVarint tag ++ appendVarint (blen (bytes_of v)) ++ bytes_of v.

(** [appendStringValueNoZero], [appendBoolValueNoZero], [appendVarintS32ValueNoZero]
    and [appendStringSlice]. *)
Definition marshal_field {A} (m : A) (f : Field A) : list ascii :=
  match f with
  | FString n get _ => if bool_decide (get m = ""%string) then [] else append_string (wiretag n WireBytes) (get m)
  | FBool n get _ => if get m then appendVarint (wiretag n WireVarint) ++ [byte 1] else []
  | FInt32 n get _ =>
      if get m =? 0 then [] else appendVarint (wiretag n WireVarint) ++ appendVarint (uint64 (get m))
  | FStrings n get _ => concat (append_string (wiretag n WireBytes) <$> get m)
  end.

Definition proto_Marshal {A} `{!Message A} (m : A) : list ascii := concat (marshal_field m <$> msg_fields).

(** ** Unmarshal *)

(** What the function of a field makes of the bytes after the tag. *)
Inductive field_result (A : Type) : Type :=
| FieldOk (b : list ascii) (m : A)
| BadWireType
| FieldErr (e : error).
Arguments FieldOk {A}.
Arguments BadWireType {A}.
Arguments FieldErr {A}.

(** A length, and as many bytes. *)
Definition take_bytes (b : list ascii) : option (string * list ascii) :=
  match decodeVarint b with
  | None => None
  | Some (x, b) => if x >? blen b then None else Some (string_of (take (Z.to_nat x) b), drop (Z.to_nat x) b)
  end.

Definition unmarshal_varint {A} (wire : Z) (b : list ascii) (set : Z → A) : field_result A :=
  if negb (wire =? WireVarint) then BadWireType
  else match decodeVarint b with
       | None => FieldErr ErrUnexpectedEOF
       | Some (x, b) => FieldOk b (set x)
       end.

Definition unmarshal_bytes {A} (wire : Z) (b : list ascii) (set : string → A) : field_result A :=
  if negb (wire =? WireBytes) then BadWireType
  else match take_bytes b with
       | None => FieldErr ErrUnexpectedEOF
       | Some (v, b) => FieldOk b (set v)
       end.

(** [unmarshalStringValue], [unmarshalBoolValue], [unmarshalInt32Value],
    [unmarshalStringSlice]. *)
Definition unmarshal_field {A} (f : Field A) (wire : Z) (b : list ascii) (m : A) : field_result A :=
  match f with
  | FString _ _ set => unmarshal_bytes wire b (λ v, set v m)
  | FBool _ _ set => unmarshal_varint wire b (λ x, set (negb (x =? 0)) m)
  | FInt32 _ _ set => unmarshal_varint wire b (λ x, set (int32 x) m)
  | FStrings _ get set => unmarshal_bytes wire b (λ v, set (get m ++ [v]) m)
  end.

Definition skip_fixed (n : nat) (b : list ascii) : option (list ascii) :=
  if bool_decide (length b < n)%nat then None else Some (drop n b).

(** [findEndGroup]: the bytes after the end of the group; the outer [None] is the
    end of the fuel. *)
Fixpoint findEndGroup (fuel : nat) (depth : Z) (b : list ascii) : option (option (list ascii)) :=
  match fuel with
  | O => None
  | S fuel =>
      match decodeVarint b with
      | None => Some None
      | Some (x, b) =>
          let wire := Z.land x 7 in
          let next o := match o with None => Some None | Some b => findEndGroup fuel depth b end in
          if wire =? WireVarint then next (snd <$> decodeVarint b)
          else if wire =? WireFixed32 then next (skip_fixed 4 b)
          else if wire =? WireFixed64 then next (skip_fixed 8 b)
          else if wire =? WireBytes then next (snd <$> take_bytes b)
          else if wire =? WireStartGroup then findEndGroup fuel (depth + 1) b
          else if wire =? WireEndGroup then
            if depth - 1 =? 0 then Some (Some b) else findEndGroup fuel (depth - 1) b
          else Some None
      end
  end.

Definition eof (o : option (list ascii)) : list ascii + error :=
  match o with Some b => inl b | None => inr ErrUnexpectedEOF end.

Definition skipField (wire : Z) (b : list ascii) : option (list ascii + error) :=
  if wire =? WireVarint then Some (eof (snd <$> decodeVarint b))
  else if wire =? WireFixed32 then Some (eof (skip_fixed 4 b))
  else if wire =? WireFixed64 then Some (eof (skip_fixed 8 b))
  else if wire =? WireBytes then Some (eof (snd <$> take_bytes b))
  else if wire =? WireStartGroup then eof <$> findEndGroup (S (length b)) 1 b
  else Some (inr (EStr ("proto: can't skip unknown wire type " +:+ pretty wire))).

(** The tag of a field; tags of one and two bytes are special cases. *)
Definition read_tag (b : list ascii) : option (Z * list ascii) :=
  match b with
  | c :: b' =>
      if of_byte c <? 128 then Some (of_byte c, b')
      else match b' with
           | d :: b'' =>
               if of_byte d <? 128 then Some (Z.land (of_byte c) 127 + Z.shiftl (of_byte d) 7, b'')
               else decodeVarint b
           | [] => decodeVarint b
           end
  | [] => decodeVarint b
  end.

Definition field_of {A} `{!Message A} (num : Z) : option (Field A) :=
  snd <$> list_find (λ f, field_num f = num) msg_fields.

(** [unmarshalInfo.unmarshal]: unknown fields, and fields with another wire type,
    are skipped. *)
Fixpoint unmarshal_loop {A} `{!Message A} (fuel : nat) (b : list ascii) (m : A) : option (A + error) :=
  match fuel with
  | O => None
  | S fuel =>
      match b with
      | [] => Some (inl m)
      | _ =>
          match read_tag b with
          | None => Some (inr ErrUnexpectedEOF)
          | Some (x, b) =>
              let wire := Z.land x 7 in
              let skip := match skipField wire b with
                          | None => None
                          | Some (inr e) => Some (inr e)
                          | Some (inl b) => unmarshal_loop fuel b m
                          end in
              if Z.shiftr x 3 =? 0 then
                Some (inr (EStr ("proto: " +:+ msg_name +:+ ": illegal tag 0 (wire type " +:+ pretty wire +:+ ")")))
              else match field_of (Z.shiftr x 3) with
              | Some f =>
                  match unmarshal_field f wire b m with
                  | FieldOk b m => unmarshal_loop fuel b m
                  | FieldErr e => Some (inr e)
                  | BadWireType => skip
                  end
              | None => skip
              end
          end
      end
  end.

Definition proto_Unmarshal {A} `{!Message A} (b : list ascii) : option (A + error) :=
  unmarshal_loop (S (length b)) b msg_Reset.

(** ** Any bytes are decoded *)

Lemma decode_varint_shorter n k x b v b' : decode_varint n k x b = Some (v, b') → (length b' < length b)%nat.
Proof.
  revert k x b. induction n as [|n IH]; intros k x [|c b]; cbn [decode_varint]; [done| |done|].
  - destruct (_ <? 2); [|done]. intros [= _ <-]. simpl. lia.
  - destruct (_ <? 128); [intros [= _ <-]; simpl; lia|]. intros ?%IH. simpl. lia.
Qed.

Lemma decodeVarint_shorter b v b' : decodeVarint b = Some (v, b') → (length b' < length b)%nat.
Proof. apply decode_varint_shorter. Qed.

Lemma read_tag_shorter b v b' : read_tag b = Some (v, b') → (length b' < length b)%nat.
Proof.
  unfold read_tag. destruct b as [|c [|d b]]; [apply decodeVarint_shorter|..].
  - destruct (_ <? 128); [intros [= _ <-]; simpl; lia|apply decodeVarint_shorter].
  - destruct (_ <? 128); [intros [= _ <-]; simpl; lia|].
    destruct (_ <? 128); [intros [= _ <-]; simpl; lia|apply decodeVarint_shorter].
Qed.

Lemma take_bytes_shorter b v b' : take_bytes b = Some (v, b') → (length b' < length b)%nat.
Proof.
  unfold take_bytes. destruct (decodeVarint b) as [[x b1]|] eqn:Hd; [|done]. apply decodeVarint_shorter in Hd.
  destruct (x >? blen b1); [done|]. intros [= _ <-]. rewrite length_drop. lia.
Qed.

Lemma skip_fixed_shorter n b b' : skip_fixed n b = Some b' → (length b' ≤ length b)%nat.
Proof. unfold skip_fixed. case_bool_decide; [done|]. intros [= <-]. rewrite length_drop. lia. Qed.

Lemma snd_shorter {A} (o : option (A * list ascii)) (b b' : list ascii) :
  (∀ v b1, o = Some (v, b1) → (length b1 < length b)%nat) → snd <$> o = Some b' → (length b' ≤ length b)%nat.
Proof. destruct o as [[v b1]|]; [|done]. intros H [= <-]. specialize (H v b1 eq_refl). lia. Qed.

Lemma findEndGroup_ends fuel depth b :
  (length b < fuel)%nat → ∃ o, findEndGroup fuel depth b = Some o ∧ ∀ b', o = Some b' → (length b' ≤ length b)%nat.
Proof.
  revert depth b. induction fuel as [|fuel IH]; intros depth b Hf; [lia|]. cbn [findEndGroup].
  destruct (decodeVarint b) as [[x b1]|] eqn:Hd; [|by exists None]. apply decodeVarint_shorter in Hd.
  assert (∀ o d, (∀ b', o = Some b' → (length b' ≤ length b1)%nat) →
    ∃ r, match o with None => Some None | Some b => findEndGroup fuel d b end = Some r ∧
      ∀ b', r = Some b' → (length b' ≤ length b)%nat) as Hnext.
  { intros [b2|] d Ho; [|by exists None]. specialize (Ho b2 eq_refl).
    destruct (IH d b2) as (r & Hr & Hl); [lia|]. exists r. split; [done|]. intros b' ?%Hl. lia. }
  destruct (_ =? WireVarint); [apply Hnext; intros b'; apply snd_shorter, decodeVarint_shorter|].
  destruct (_ =? WireFixed32); [apply Hnext, skip_fixed_shorter|].
  destruct (_ =? WireFixed64); [apply Hnext, skip_fixed_shorter|].
  destruct (_ =? WireBytes); [apply Hnext; intros b'; apply snd_shorter, take_bytes_shorter|].
  destruct (_ =? WireStartGroup); [apply (Hnext (Some b1)); by intros ? [= <-]|].
  destruct (_ =? WireEndGroup); [|by exists None].
  destruct (_ =? 0); [|apply (Hnext (Some b1)); by intros ? [= <-]].
  eexists. split; [done|]. intros b' [= <-]. lia.
Qed.

Lemma skipField_ends wire b :
  ∃ r, skipField wire b = Some r ∧ ∀ b', r = inl b' → (length b' ≤ length b)%nat.
Proof.
  assert (∀ o, (∀ b', o = Some b' → (length b' ≤ length b)%nat) →
    ∀ b', eof o = inl b' → (length b' ≤ length b)%nat) as Heof.
  { intros [b1|] Ho b'; [|done]. intros [= <-]. by apply Ho. }
  assert (∀ o, (∀ b', o = Some b' → (length b' ≤ length b)%nat) →
    ∃ r, Some (eof o) = Some r ∧ ∀ b', r = inl b' → (length b' ≤ length b)%nat) as Hsome by eauto.
  unfold skipField.
  destruct (_ =? WireVarint); [apply Hsome; intros b'; apply snd_shorter, decodeVarint_shorter|].
  destruct (_ =? WireFixed32); [apply Hsome, skip_fixed_shorter|].
  destruct (_ =? WireFixed64); [apply Hsome, skip_fixed_shorter|].
  destruct (_ =? WireBytes); [apply Hsome; intros b'; apply snd_shorter, take_bytes_shorter|].
  destruct (_ =? WireStartGroup); [|by eexists].
  destruct (findEndGroup_ends (S (length b)) 1 b) as (o & -> & Ho); [lia|].
  exists (eof o). split; [done|]. by apply Heof.
Qed.

Lemma unmarshal_field_shorter {A} (f : Field A) wire b m b' m' :
  unmarshal_field f wire b m = FieldOk b' m' → (length b' ≤ length b)%nat.
Proof.
  assert (∀ set : string → A, unmarshal_bytes wire b set = FieldOk b' m' → (length b' ≤ length b)%nat) as Hb.
  { intros set. unfold unmarshal_bytes. destruct (negb _); [done|].
    destruct (take_bytes b) as [[? ?]|] eqn:H; [|done]. intros [= <- _]. apply take_bytes_shorter in H. lia. }
  assert (∀ set : Z → A, unmarshal_varint wire b set = FieldOk b' m' → (length b' ≤ length b)%nat) as Hv.
  { intros set. unfold unmarshal_varint. destruct (negb _); [done|].
    destruct (decodeVarint b) as [[? ?]|] eqn:H; [|done]. intros [= <- _]. apply decodeVarint_shorter in H. lia. }
  destruct f; simpl; eauto.
Qed.

Lemma unmarshal_loop_ends {A} `{!Message A} fuel b (m : A) :
  (length b < fuel)%nat → is_Some (unmarshal_loop fuel b m).
Proof.
  revert b m. induction fuel as [|fuel IH]; intros b m Hf; [lia|]. cbn [unmarshal_loop].
  destruct b as [|c b]; [done|]. destruct (read_tag (c :: b)) as [[x b1]|] eqn:Ht; [|done].
  apply read_tag_shorter in Ht. destruct (_ =? 0); [done|].
  destruct (skipField_ends (Z.land x 7) b1) as (r & -> & Hr).
  assert (is_Some match r with inl b => unmarshal_loop fuel b m | inr e => Some (inr e) end) as Hskip.
  { destruct r as [b2|e]; [|done]. specialize (Hr b2 eq_refl). apply IH. lia. }
  destruct (field_of _) as [f|]; [|done].
  destruct (unmarshal_field f _ b1 m) as [b2 m2| |e] eqn:Hu; [|done|done].
  apply unmarshal_field_shorter in Hu. apply IH. lia.
Qed.

Lemma unmarshal_loop_mono {A} `{!Message A} fuel fuel' b (m : A) r :
  unmarshal_loop fuel b m = Some r → (fuel ≤ fuel')%nat → unmarshal_loop fuel' b m = Some r.
Proof.
  revert fuel' b m. induction fuel as [|fuel IH]; intros [|fuel'] b m; try (done || lia).
  cbn [unmarshal_loop]. intros H Hle. destruct b as [|c b]; [done|].
  destruct (read_tag (c :: b)) as [[x b1]|]; [|done]. destruct (_ =? 0); [done|].
  assert (∀ o, match o with None => None | Some (inr e) => Some (inr e) | Some (inl b) => unmarshal_loop fuel b m end = Some r →
    match o with None => None | Some (inr e) => Some (inr e) | Some (inl b) => unmarshal_loop fuel' b m end = Some r) as Hskip.
  { intros [[b2|e]|]; [|done..]. intros ?. apply IH; [done|lia]. }
  destruct (field_of _) as [f|]; [|by apply Hskip].
  destruct (unmarshal_field f _ b1 m) as [b2 m2| |e]; [apply IH; [done|lia]|by apply Hskip|done].
Qed.

(** ** The bytes of an integer decode to it *)

Lemma of_byte_byte v : 0 ≤ v < 256 → of_byte (byte v) = v.
Proof.
  intros Hv. unfold of_byte, byte. change 255 with (Z.ones 8). rewrite Z.land_ones by lia.
  rewrite Z.mod_small by (simpl; lia). rewrite Ascii.N_ascii_embedding by lia. lia.
Qed.

Lemma low_byte v : Z.lor (Z.land v 127) 128 = v mod 128 + 128.
Proof.
  change 127 with (Z.ones 7). rewrite Z.land_ones by lia. change (2 ^ 7) with 128.
  rewrite <-Z.add_lor_land. enough (Z.land (v mod 128) 128 = 0) as -> by lia.
  apply Z.bits_inj'. intros i Hi. rewrite Z.land_spec, Z.bits_0. change 128 with (2 ^ 7).
  rewrite Z.pow2_bits_eqb by lia. destruct (Z.eqb_spec 7 i) as [<-|]; [|by rewrite andb_false_r].
  by rewrite Z.mod_pow2_bits_high by lia.
Qed.

Lemma decode_append n k x v rest :
  k = 63 - 7 * Z.of_nat n → 0 ≤ k → 0 ≤ x < 2 ^ k → 0 ≤ v < 2 ^ (64 - k) →
  decode_varint n k x (append_varint n v ++ rest) = Some (x + v * 2 ^ k, rest).
Proof.
  revert k x v. induction n as [|n IH]; intros k x v Hk H0 Hx Hv.
  - assert (k = 63) as -> by lia. change (64 - 63) with 1 in Hv. cbn [append_varint app decode_varint].
    rewrite of_byte_byte by lia. rewrite Z.shiftl_mul_pow2 by lia. rewrite (proj2 (Z.ltb_lt v 2)) by lia.
    unfold uint64. rewrite Z.mod_small; [done|]. nia.
  - assert (0 < 2 ^ k) as Hpos by lia.
    assert (2 ^ 64 = 2 ^ (64 - k) * 2 ^ k) as Hsplit by (rewrite <-Z.pow_add_r by lia; f_equal; lia).
    cbn [append_varint]. destruct (Z.ltb_spec v 128) as [Hlt|Hge].
    + cbn [app decode_varint]. rewrite of_byte_byte by lia. rewrite Z.shiftl_mul_pow2 by lia.
      rewrite (proj2 (Z.ltb_lt v 128)) by lia. unfold uint64. rewrite Z.mod_small; [done|]. nia.
    + pose proof (Z.mod_pos_bound v 128). cbn [app decode_varint]. rewrite low_byte, of_byte_byte by lia.
      rewrite !Z.shiftl_mul_pow2 by lia. rewrite (proj2 (Z.ltb_ge _ 128)) by lia.
      assert (2 ^ (k + 7) = 128 * 2 ^ k) as H7 by (rewrite Z.pow_add_r by lia; lia).
      assert (128 * 2 ^ (64 - (k + 7)) = 2 ^ (64 - k)) as H57.
      { replace (64 - k) with (7 + (64 - (k + 7))) by lia. rewrite Z.pow_add_r by lia. done. }
      assert (256 * 2 ^ k ≤ 2 ^ 64).
      { replace (256 * 2 ^ k) with (2 ^ (8 + k)) by (rewrite Z.pow_add_r by lia; lia). apply Z.pow_le_mono_r; lia. }
      assert (uint64 (uint64 (x + (v mod 128 + 128) * 2 ^ k) - 128 * 2 ^ k) = x + v mod 128 * 2 ^ k) as ->.
      { unfold uint64. rewrite (Z.mod_small (x + _)) by nia. rewrite Z.mod_small; nia. }
      rewrite Z.shiftr_div_pow2 by lia. change (2 ^ 7) with 128.
      pose proof (Z.div_mod v 128 ltac:(lia)). rewrite IH; [|lia|lia|nia|].
      * f_equal. f_equal. rewrite H7. nia.
      * split; [apply Z.div_pos; lia|]. apply Z.div_lt_upper_bound; lia.
Qed.

Lemma decodeVarint_append v rest : 0 ≤ v < 2 ^ 64 → decodeVarint (appendVarint v ++ rest) = Some (v, rest).
Proof.
  intros Hv. unfold decodeVarint, appendVarint. rewrite decode_append by (simpl; lia). f_equal. f_equal. lia.
Qed.

Lemma of_byte_bound c : 0 ≤ of_byte c < 256.
Proof. unfold of_byte. pose proof (Ascii.N_ascii_bounded c). lia. Qed.

(** The special cases of [read_tag] are no others. *)
Lemma read_tag_decode b : read_tag b = decodeVarint b.
Proof.
  unfold read_tag, decodeVarint. destruct b as [|c b]; [done|]. pose proof (of_byte_bound c).
  cbn [decode_varint]. rewrite Z.shiftl_0_r, Z.add_0_l. unfold uint64. rewrite Z.mod_small by lia.
  destruct (Z.ltb_spec (of_byte c) 128); [done|]. destruct b as [|d b]; [done|]. pose proof (of_byte_bound d).
  cbn [decode_varint]. destruct (Z.ltb_spec (of_byte d) 128); [|done]. rewrite Z.shiftl_0_r.
  change (0 + 7) with 7. rewrite Z.shiftl_mul_pow2 by lia. change 127 with (Z.ones 7). rewrite Z.land_ones by lia.
  change (2 ^ 7) with 128. rewrite (Z.mod_small (of_byte c - 128)) by lia.
  rewrite (Z.mod_small (_ + _)) by lia. do 2 f_equal. replace (of_byte c) with (of_byte c - 128 + 1 * 128) at 1 by lia.
  rewrite Z.mod_add by lia. by rewrite Z.mod_small by lia.
Qed.

(** ** The bytes of a message decode to it *)

Section roundtrip.
Context {A : Type} `{!Message A}.

Definition decode (b : list ascii) (m : A) : option (A + error) := unmarshal_loop (S (length b)) b m.

Lemma decode_fuel fuel b (m : A) : (length b < fuel)%nat → unmarshal_loop fuel b m = decode b m.
Proof.
  intros Hf. destruct (unmarshal_loop_ends (S (length b)) b m) as [r Hr]; [lia|].
  unfold decode. rewrite Hr. eapply unmarshal_loop_mono; [exact Hr|lia].
Qed.

Lemma wiretag_split num wire :
  0 ≤ num → 0 ≤ wire < 8 → Z.land (wiretag num wire) 7 = wire ∧ Z.shiftr (wiretag num wire) 3 = num.
Proof.
  intros Hn Hw. assert (wiretag num wire = num * 8 + wire) as ->.
  { unfold wiretag. rewrite Z.shiftl_mul_pow2 by lia. change (2 ^ 3) with 8. rewrite <-Z.add_lor_land.
    enough (Z.land (num * 8) wire = 0) by lia. apply Z.bits_inj'. intros i Hi. rewrite Z.land_spec, Z.bits_0.
    destruct (Z.lt_ge_cases i 3).
    - change 8 with (2 ^ 3). by rewrite Z.mul_pow2_bits_low by lia.
    - rewrite <-(Z.mod_small wire 8) by lia. change 8 with (2 ^ 3). rewrite (Z.mod_pow2_bits_high wire) by lia.
      apply andb_false_r. }
  split.
  - change 7 with (Z.ones 3). rewrite Z.land_ones by lia. change (2 ^ 3) with 8.
    rewrite Z.add_comm, Z.mod_add by lia. apply Z.mod_small. lia.
  - rewrite Z.shiftr_div_pow2 by lia. change (2 ^ 3) with 8. rewrite Z.add_comm, Z.div_add by lia.
    rewrite Z.div_small by lia. lia.
Qed.

Lemma wiretag_bound num wire : 0 ≤ num < 2 ^ 29 → 0 ≤ wire < 8 → 0 ≤ wiretag num wire < 2 ^ 64.
Proof.
  intros Hn Hw. destruct (wiretag_split num wire) as [_ H]; [lia|done|].
  rewrite Z.shiftr_div_pow2 in H by lia. change (2 ^ 3) with 8 in H.
  pose proof (Z.div_mod (wiretag num wire) 8 ltac:(lia)). pose proof (Z.mod_pos_bound (wiretag num wire) 8 ltac:(lia)). lia.
Qed.

Lemma appendVarint_cons v : ∃ c b, appendVarint v = c :: b.
Proof. unfold appendVarint. cbn [append_varint]. destruct (v <? 128); eauto. Qed.

(** One turn of the loop, after the tag of a field is read. *)
Lemma decode_tag num wire b m :
  0 < num < 2 ^ 29 → 0 ≤ wire < 8 →
  decode (appendVarint (wiretag num wire) ++ b) m =
    let skip := match skipField wire b with
                | None => None
                | Some (inr e) => Some (inr e)
                | Some (inl b) => decode b m
                end in
    match field_of num with
    | Some f => match unmarshal_field f wire b m with
                | FieldOk b m => decode b m
                | FieldErr e => Some (inr e)
                | BadWireType => skip
                end
    | None => skip
    end.
Proof.
  intros Hn Hw. unfold decode at 1. destruct (appendVarint_cons (wiretag num wire)) as (c & b' & Hc).
  assert (length b < length (appendVarint (wiretag num wire) ++ b))%nat as Hlen
    by (rewrite Hc; simpl; rewrite length_app; lia).
  set (l := appendVarint _ ++ b) in *. assert (read_tag l = Some (wiretag num wire, b)) as Ht.
  { unfold l. rewrite read_tag_decode. apply decodeVarint_append, wiretag_bound; lia. }
  assert (∃ c l', l = c :: l') as (c' & l' & Hl) by (unfold l; rewrite Hc; simpl; eauto).
  cbn [unmarshal_loop]. rewrite Ht. rewrite Hl. destruct (wiretag_split num wire) as [-> ->]; [lia|done|].
  rewrite (proj2 (Z.eqb_neq num 0)) by lia.
  destruct (skipField_ends wire b) as (r & -> & Hr).
  assert (match r with inl b => unmarshal_loop (length l) b m | inr e => Some (inr e) end =
          match r with inl b => decode b m | inr e => Some (inr e) end) as Hskip.
  { destruct r as [b2|e]; [|done]. apply decode_fuel. specialize (Hr b2 eq_refl). lia. }
  cbn zeta. rewrite <-Hl. destruct (field_of num) as [f|]; [|done].
  destruct (unmarshal_field f wire b m) as [b2 m2| |e] eqn:Hu; [|done..].
  apply decode_fuel. apply unmarshal_field_shorter in Hu. lia.
Qed.

(** What decoding the bytes of a field of [m] does to the message read so far. *)
Definition merge (m acc : A) (f : Field A) : A :=
  match f with
  | FString _ get set => if bool_decide (get m = ""%string) then acc else set (get m) acc
  | FBool _ get set => if get m then set true acc else acc
  | FInt32 _ get set => if get m =? 0 then acc else set (get m) acc
  | FStrings _ get set => foldl (λ acc v, set (get acc ++ [v]) acc) acc (get m)
  end.

Definition slen (s : string) : Z := blen (bytes_of s).

(** The values of a field that its Go type has. *)
Definition field_fits (m : A) (f : Field A) : Prop :=
  match f with
  | FString _ get _ => slen (get m) < 2 ^ 63
  | FBool _ _ _ => True
  | FInt32 _ get _ => - 2 ^ 31 ≤ get m < 2 ^ 31
  | FStrings _ get _ => Forall (λ v, slen v < 2 ^ 63) (get m)
  end.

Lemma take_bytes_append v rest :
  slen v < 2 ^ 63 → take_bytes (appendVarint (blen (bytes_of v)) ++ bytes_of v ++ rest) = Some (v, rest).
Proof.
  intros Hv. unfold take_bytes. rewrite decodeVarint_append by (unfold slen, blen in *; lia).
  unfold blen. rewrite length_app.
  destruct (Z.of_nat (length (bytes_of v)) >? Z.of_nat (length (bytes_of v) + length rest)) eqn:Hg;
    [apply Z.gtb_lt in Hg; lia|].
  rewrite Nat2Z.id, take_app_length, drop_app_length. unfold string_of, bytes_of.
  by rewrite String.string_of_list_ascii_of_string.
Qed.

Lemma int32_uint64 x : - 2 ^ 31 ≤ x < 2 ^ 31 → int32 (uint64 x) = x.
Proof.
  intros Hx. unfold int32, uint64. rewrite (Z.mod_eq x) by lia.
  replace (x - 2 ^ 64 * (x / 2 ^ 64) + 2 ^ 31) with (x + 2 ^ 31 + - (2 ^ 32 * (x / 2 ^ 64)) * 2 ^ 32) by lia.
  rewrite Z.mod_add by lia. rewrite Z.mod_small; lia.
Qed.

Lemma decode_string num get set v acc rest (f := FString num get set) :
  field_of num = Some f → 0 < num < 2 ^ 29 → slen v < 2 ^ 63 →
  decode (append_string (wiretag num WireBytes) v ++ rest) acc = decode rest (set v acc).
Proof.
  intros Hf Hn Hv. unfold append_string. rewrite <-!(assoc_L (++)). rewrite decode_tag by (unfold WireBytes; lia).
  cbn zeta. rewrite Hf. simpl. unfold unmarshal_bytes. simpl. by rewrite take_bytes_append.
Qed.

Lemma decode_strings num get set l acc rest (f := FStrings num get set) :
  field_of num = Some f → 0 < num < 2 ^ 29 → Forall (λ v, slen v < 2 ^ 63) l →
  decode (concat (append_string (wiretag num WireBytes) <$> l) ++ rest) acc =
    decode rest (foldl (λ acc v, set (get acc ++ [v]) acc) acc l).
Proof.
  intros Hf Hn Hl. revert acc. induction Hl as [|v l Hv Hl IH]; intros acc; [done|]. cbn [fmap list_fmap concat foldl].
  rewrite <-IH. unfold append_string at 1. rewrite <-!(assoc_L (++)). rewrite decode_tag by (unfold WireBytes; lia).
  cbn zeta. rewrite Hf. simpl. unfold unmarshal_bytes. simpl. by rewrite take_bytes_append.
Qed.

Lemma decode_field m acc f rest :
  field_of (field_num f) = Some f → 0 < field_num f < 2 ^ 29 → field_fits m f →
  decode (marshal_field m f ++ rest) acc = decode rest (merge m acc f).
Proof.
  intros Hf Hn Hfit. destruct f as [num get set|num get set|num get set|num get set]; simpl in *.
  - case_bool_decide; [done|]. by eapply decode_string.
  - destruct (get m); [|done]. rewrite <-(assoc_L (++)), decode_tag by (unfold WireVarint; lia).
    cbn zeta. rewrite Hf. simpl. unfold unmarshal_varint. simpl. done.
  - destruct (get m =? 0); [done|]. rewrite <-(assoc_L (++)), decode_tag by (unfold WireVarint; lia).
    cbn zeta. rewrite Hf. simpl. unfold unmarshal_varint. simpl.
    rewrite decodeVarint_append by (apply Z.mod_pos_bound; lia). by rewrite int32_uint64.
  - by apply decode_strings.
Qed.

(** What is asked of the description of a message. *)
Class MessageOk : Prop := {
  msg_nums : Forall (λ f : Field A, 0 < field_num f < 2 ^ 29) msg_fields;
  msg_distinct : NoDup (field_num <$> msg_fields);
  msg_merge : ∀ m : A, foldl (merge m) msg_Reset msg_fields = m;
}.
Context `{!MessageOk}.

Definition fits (m : A) : Prop := Forall (field_fits m) msg_fields.

Lemma field_of_own f : f ∈ msg_fields → field_of (field_num f) = Some f.
Proof.
  intros Hin. unfold field_of. destruct (list_find _ msg_fields) as [[i g]|] eqn:Hl.
  - apply list_find_Some in Hl as (Hi & Heq & _). apply list_elem_of_lookup in Hin as [j Hj].
    assert (i = j) as ->; [|simpl; congruence].
    apply (NoDup_lookup (field_num <$> msg_fields) i j (field_num f)); [apply msg_distinct|..];
      rewrite list_lookup_fmap; [rewrite Hi|rewrite Hj]; simpl; congruence.
  - apply list_find_None in Hl. rewrite Forall_forall in Hl. by destruct (Hl f Hin).
Qed.

Lemma decode_fields m fs acc rest :
  fs ⊆ msg_fields → fits m →
  decode (concat (marshal_field m <$> fs) ++ rest) acc = decode rest (foldl (merge m) acc fs).
Proof.
  intros Hsub Hfit. revert acc. induction fs as [|f fs IH]; intros acc; [done|].
  assert (f ∈ msg_fields) as Hf by (apply Hsub; left).
  cbn [fmap list_fmap concat foldl]. rewrite <-(assoc_L (++)), decode_field.
  - apply IH. intros g ?. apply Hsub. by right.
  - by apply field_of_own.
  - exact (proj1 (Forall_forall _ _) msg_nums f Hf).
  - exact (proj1 (Forall_forall _ _) Hfit f Hf).
Qed.

(** Fields that a newer version of the message may have. *)
Inductive unknown_fields : list ascii → Prop :=
| Unknown_none : unknown_fields []
| Unknown_varint num v b : 0 < num < 2 ^ 29 → num ∉ (field_num <$> msg_fields (A:=A)) → 0 ≤ v < 2 ^ 64 →
    unknown_fields b → unknown_fields (appendVarint (wiretag num WireVarint) ++ appendVarint v ++ b)
| Unknown_bytes num v b : 0 < num < 2 ^ 29 → num ∉ (field_num <$> msg_fields (A:=A)) → slen v < 2 ^ 63 →
    unknown_fields b → unknown_fields (append_string (wiretag num WireBytes) v ++ b).

Lemma field_of_unknown num : num ∉ (field_num <$> msg_fields (A:=A)) → field_of (A:=A) num = None.
Proof.
  intros Hn. unfold field_of. destruct (list_find _ _) as [[i f]|] eqn:Hl; [|done].
  apply list_find_Some in Hl as (Hi & Heq & _). destruct Hn. apply list_elem_of_fmap.
  exists f. split; [done|]. by eapply list_elem_of_lookup_2.
Qed.

Lemma decode_unknown b (m : A) : unknown_fields b → decode b m = Some (inl m).
Proof.
  induction 1 as [|num v b Hn Hnot Hv _ IH|num v b Hn Hnot Hv _ IH]; [done|..].
  - rewrite decode_tag by (unfold WireVarint; lia). cbn zeta. rewrite field_of_unknown by done.
    unfold skipField. simpl. by rewrite decodeVarint_append.
  - unfold append_string. rewrite <-!(assoc_L (++)), decode_tag by (unfold WireBytes; lia).
    cbn zeta. rewrite field_of_unknown by done. unfold skipField. simpl. by rewrite take_bytes_append.
Qed.

Lemma unmarshal_marshal_unknown m b :
  fits m → unknown_fields b → proto_Unmarshal (proto_Marshal m ++ b) = Some (inl m).
Proof.
  intros Hfit Hb. unfold proto_Unmarshal. fold (decode (proto_Marshal m ++ b) msg_Reset). unfold proto_Marshal.
  rewrite decode_fields by done. rewrite msg_merge. by apply decode_unknown.
Qed.

Lemma unmarshal_marshal m : fits m → proto_Unmarshal (proto_Marshal m) = Some (inl m).
Proof.
  intros Hfit. rewrite <-(app_nil_r (proto_Marshal m)). apply unmarshal_marshal_unknown; [done|constructor].
Qed.

(** A message whose bytes are few fits, if its integers do. *)
Definition ints_fit (m : A) : Prop :=
  Forall (λ f, match f with FInt32 _ get _ => - 2 ^ 31 ≤ get m < 2 ^ 31 | _ => True end) msg_fields.

Lemma append_string_length tag v : blen (bytes_of v) ≤ blen (append_string tag v).
Proof. unfold append_string, blen. rewrite !length_app. lia. Qed.

Lemma fits_small m : blen (proto_Marshal m) < 2 ^ 63 → ints_fit m → fits m.
Proof.
  unfold proto_Marshal, fits, ints_fit. induction msg_fields as [|f fs IH]; [constructor|].
  cbn [fmap list_fmap concat]. unfold blen. rewrite length_app. intros Hlen [Hf Hfs]%Forall_cons.
  constructor; [|apply IH; [unfold blen; lia|done]]. clear IH Hfs.
  destruct f as [n get set|n get set|n get set|n get set]; simpl in *; [|done..|].
  - unfold slen. destruct (bool_decide_reflect (get m = ""%string)) as [-> |]; [done|]. pose proof (append_string_length (wiretag n WireBytes) (get m)).
    unfold blen in *. lia.
  - apply Forall_forall. intros v Hv. unfold slen.
    pose proof (append_string_length (wiretag n WireBytes) v) as Hl. apply list_elem_of_split in Hv as (l1 & l2 & Heq).
    rewrite Heq, fmap_app, concat_app, fmap_cons in Hlen. cbn [concat] in Hlen. rewrite !length_app in Hlen. unfold blen in *. lia.
Qed.

Lemma unmarshal_ends b : ∃ r : A + error, proto_Unmarshal b = Some r.
Proof. destruct (unmarshal_loop_ends (S (length b)) b msg_Reset) as [r Hr]; [lia|]. by exists r. Qed.

End roundtrip.
Arguments MessageOk A {_}.
