(* ===== verification/Float64.v ===== *)
(** * Go's float64

    IEEE 754 binary64 arithmetic with rounding to nearest even, through the
    executable specification of floating point numbers in the Standard Library
    (53 bits of precision, exponents below 1024).  The metrics helper and the
    backoff compute with it.  What the theorems use is at the end: on integers
    of less than 53 bits, conversion, addition, subtraction and comparison are
    exact. *)
From Stdlib Require Export SpecFloat.
From S2P Require Import Prelude GoStd.

Open Scope Z_scope.

Abbreviation float64 := spec_float.

Definition fadd : float64 → float64 → float64 := SFadd 53 1024.
Definition fsub : float64 → float64 → float64 := SFsub 53 1024.
Definition fmul : float64 → float64 → float64 := SFmul 53 1024.
Definition fdiv : float64 → float64 → float64 := SFdiv 53 1024.

(** [x < y], [x <= y], [x == y]; all are false if one of them is not a number. *)
Definition flt : float64 → float64 → bool := SFltb.
Definition fle : float64 → float64 → bool := SFleb.
Definition feq : float64 → float64 → bool := SFeqb.

(** [float64(n)] of an integer. *)
Definition of_Z (n : Z) : float64 := binary_normalize 53 1024 n 0 false.
Definition fzero : float64 := S754_zero false.

(** A decimal constant [n / d] of the sources. *)
Definition fconst (n d : Z) : float64 := fdiv (of_Z n) (of_Z d).

(** [int64(x)] drops the fraction; out of the range of int64 the language leaves
    the result open, amd64 gives the smallest number. *)
Definition minInt64 : Z := - 2 ^ 63.
Definition to_int64 (x : float64) : Z :=
  match x with
  | S754_zero _ => 0
  | S754_finite s m e =>
      let a := Z.shiftl (Zpos m) e in
      let v := if s then - a else a in
      if bool_decide (- 2 ^ 63 ≤ v < 2 ^ 63) then v else minInt64
  | _ => minInt64
  end.

(** [math.Min]. *)
Definition fmin (x y : float64) : float64 :=
  match x, y with
  | S754_infinity true, _ | _, S754_infinity true => S754_infinity true
  | S754_nan, _ | _, S754_nan => S754_nan
  | S754_zero sx, S754_zero sy => if sx then x else y
  | _, _ => if flt x y then x else y
  end.

(** 0.1 + 0.2 is not 0.3; 2^53 + 1 is 2^53; halves are cut off towards zero. *)
Example float_ex :
  feq (fadd (fconst 1 10) (fconst 2 10)) (fconst 3 10) = false ∧
  feq (fadd (of_Z (2 ^ 53)) (of_Z 1)) (of_Z (2 ^ 53)) = true ∧
  to_int64 (fdiv (of_Z (-7)) (of_Z 2)) = -3 ∧ to_int64 (of_Z (2 ^ 63)) = minInt64 ∧
  feq (fmul (of_Z 3) (fconst 1 2)) (fconst 3 2) = true.
Proof. vm_compute. by split_and!. Qed.

(** ** Exactness on integers *)

Lemma digits2_log2 p : Zpos (digits2_pos p) = Z.log2 (Zpos p) + 1.
Proof.
  induction p as [p IH|p IH|]; [..|done]; simpl digits2_pos; rewrite Pos2Z.inj_succ, IH.
  - change (Zpos p~1) with (2 * Zpos p + 1). rewrite Z.log2_succ_double by lia. lia.
  - change (Zpos p~0) with (2 * Zpos p). rewrite Z.log2_double by lia. lia.
Qed.

Lemma shift_left m d : Zpos (Pos.iter xO m d) = Zpos m * 2 ^ Zpos d.
Proof.
  induction d as [|d IH] using Pos.peano_ind; [simpl; lia|].
  rewrite Pos.iter_succ, Pos2Z.inj_succ, Z.pow_succ_r by lia.
  change (Zpos (Pos.iter xO m d)~0) with (2 * Zpos (Pos.iter xO m d)). rewrite IH. lia.
Qed.

Definition exact (m : Z) : shr_record := {| shr_m := m; shr_r := false; shr_s := false |}.

Lemma shr_1_double m : shr_1 (exact (m * 2)) = exact m.
Proof. rewrite Z.mul_comm. by destruct m. Qed.

Lemma shr_exact p m : SpecFloat.iter_pos shr_1 p (exact (m * 2 ^ Zpos p)) = exact m.
Proof.
  revert m. induction p as [p IH|p IH|]; intros m; cbn [SpecFloat.iter_pos].
  - replace (m * 2 ^ Zpos p~1) with (m * 2 ^ Zpos p * 2 ^ Zpos p * 2).
    + by rewrite shr_1_double, !IH.
    + rewrite (Pos2Z.inj_xI p), <-(Z.add_diag (Zpos p)), !Z.pow_add_r by lia. lia.
  - replace (m * 2 ^ Zpos p~0) with (m * 2 ^ Zpos p * 2 ^ Zpos p).
    + by rewrite !IH.
    + rewrite (Pos2Z.inj_xO p), <-(Z.add_diag (Zpos p)), Z.pow_add_r by lia. lia.
  - apply shr_1_double.
Qed.

(** The float of a positive integer of at most 53 bits: 53 bits of mantissa. *)
Definition canon (s : bool) (v : Z) : float64 :=
  S754_finite s (Z.to_pos (v * 2 ^ (52 - Z.log2 v))) (Z.log2 v - 52).

Section canon.
Context (v : Z) (Hv : 0 < v < 2 ^ 53).

Lemma log2_bound : 0 ≤ Z.log2 v ≤ 52.
Proof. split; [apply Z.log2_nonneg|]. assert (Z.log2 v < 53); [apply Z.log2_lt_pow2|]; lia. Qed.

Lemma fexp_scaled m e : e ≤ 0 → Zpos m = v * 2 ^ (- e) →
  fexp 53 1024 (Zpos (digits2_pos m) + e) = Z.log2 v - 52.
Proof.
  intros He Hm. pose proof log2_bound. rewrite digits2_log2, Hm, Z.log2_mul_pow2 by lia.
  unfold fexp, emin. lia.
Qed.

Lemma round_aux_scaled s m e : e ≤ Z.log2 v - 52 → Zpos m = v * 2 ^ (- e) →
  binary_round_aux 53 1024 s (Zpos m) e loc_Exact = canon s v.
Proof.
  intros He Hm. pose proof log2_bound as Hlog. set (t := Z.log2 v - 52) in *.
  unfold binary_round_aux, shr_fexp. simpl Zdigits2. rewrite (fexp_scaled m e) by (done || lia). fold t.
  assert (shr (exact (Zpos m)) e (t - e) = (exact (v * 2 ^ (- t)), t)) as Hshr.
  { unfold shr. destruct (t - e) as [|d|d] eqn:Hd; [|rewrite Hm|lia].
    - rewrite Hm. by replace e with t by lia.
    - replace (v * 2 ^ (- e)) with (v * 2 ^ (- t) * 2 ^ Zpos d); [rewrite shr_exact; f_equal; lia|].
      rewrite <-Z.mul_assoc, <-Z.pow_add_r by lia. do 2 f_equal. lia. }
  unfold exact in Hshr. unfold shr_record_of_loc. rewrite Hshr. simpl.
  assert (0 < v * 2 ^ (- t)) as Hpos by (apply Z.mul_pos_pos; [lia|apply Z.pow_pos_nonneg; lia]).
  destruct (v * 2 ^ (- t)) as [|q|q] eqn:Hq; try lia.
  simpl Zdigits2. rewrite (fexp_scaled q t) by (done || lia). fold t. rewrite Z.sub_diag. simpl.
  assert ((t <=? 1024 - 53) = true) as -> by (apply Z.leb_le; lia).
  unfold canon. replace (52 - Z.log2 v) with (- t) by lia. by rewrite Hq.
Qed.

Lemma binary_round_scaled s m e : e ≤ 0 → Zpos m = v * 2 ^ (- e) →
  binary_round 53 1024 s m e = canon s v.
Proof.
  intros He Hm. pose proof log2_bound as Hlog. unfold binary_round. rewrite (fexp_scaled m e) by done.
  set (t := Z.log2 v - 52). unfold shl_align. destruct (t - e) as [|d|d] eqn:Hd.
  - apply round_aux_scaled; lia.
  - apply round_aux_scaled; lia.
  - apply round_aux_scaled; [lia|]. rewrite shift_left, Hm.
    replace (- t) with (- e + Zpos d) by lia. rewrite Z.pow_add_r by lia. lia.
Qed.

End canon.

Lemma of_Z_pos v : 0 < v < 2 ^ 53 → of_Z v = canon false v.
Proof. intros Hv. destruct v as [|p|p]; try lia. apply binary_round_scaled; simpl; lia. Qed.

Lemma of_Z_neg v : 0 < v < 2 ^ 53 → of_Z (- v) = canon true v.
Proof. intros Hv. destruct v as [|p|p]; try lia. apply binary_round_scaled; simpl; lia. Qed.

Lemma of_Z_cases n : Z.abs n < 2 ^ 53 →
  of_Z n = if decide (n = 0) then fzero else canon (bool_decide (n < 0)) (Z.abs n).
Proof.
  intros Hn. destruct (decide (n = 0)) as [->|]; [done|]. case_bool_decide.
  - rewrite <-of_Z_neg by lia. f_equal. lia.
  - rewrite <-of_Z_pos by lia. f_equal. lia.
Qed.

Lemma canon_mantissa v : 0 < v < 2 ^ 53 →
  Zpos (Z.to_pos (v * 2 ^ (52 - Z.log2 v))) = v * 2 ^ (52 - Z.log2 v).
Proof.
  intros Hv. pose proof (log2_bound v Hv). apply Z2Pos.id, Z.mul_pos_pos; [lia|].
  apply Z.pow_pos_nonneg; lia.
Qed.

Lemma normalize_scaled n k : Z.abs n < 2 ^ 53 → 0 ≤ k →
  binary_normalize 53 1024 (n * 2 ^ k) (- k) false = of_Z n.
Proof.
  intros Hn Hk. assert (0 < 2 ^ k) as Hpow by (apply Z.pow_pos_nonneg; lia).
  destruct (Z.lt_trichotomy n 0) as [?|[->|?]]; [..|rewrite of_Z_pos by lia]; [|done|].
  - replace n with (- Z.abs n) at 2 by lia. rewrite of_Z_neg by lia. unfold binary_normalize.
    destruct (n * 2 ^ k) as [|p|p] eqn:Hp; [nia..|]. apply binary_round_scaled; rewrite ?Z.opp_involutive; nia.
  - unfold binary_normalize. destruct (n * 2 ^ k) as [|p|p] eqn:Hp; [nia| |nia].
    apply binary_round_scaled; rewrite ?Z.opp_involutive; nia.
Qed.

(** A finite operand aligned to a smaller exponent. *)
Lemma aligned n e : Z.abs n < 2 ^ 53 → e ≤ Z.log2 (Z.abs n) - 52 → n ≠ 0 →
  cond_Zopp (bool_decide (n < 0))
    (Zpos (shl_align (Z.to_pos (Z.abs n * 2 ^ (52 - Z.log2 (Z.abs n)))) (Z.log2 (Z.abs n) - 52) e).1) =
  n * 2 ^ (- e).
Proof.
  intros Hn He Hne. assert (0 < Z.abs n < 2 ^ 53) as Hb by lia. pose proof (log2_bound _ Hb).
  assert (Zpos (shl_align (Z.to_pos (Z.abs n * 2 ^ (52 - Z.log2 (Z.abs n)))) (Z.log2 (Z.abs n) - 52) e).1 =
          Z.abs n * 2 ^ (- e)) as ->.
  { unfold shl_align. destruct (e - (Z.log2 (Z.abs n) - 52)) as [|d|d] eqn:Hd; [|lia|]; simpl fst.
    - rewrite canon_mantissa by done. do 2 f_equal. lia.
    - rewrite shift_left, canon_mantissa, <-Z.mul_assoc, <-Z.pow_add_r by (done || lia). do 2 f_equal. lia. }
  unfold cond_Zopp. case_bool_decide; nia.
Qed.

Section exact.
Context (a b : Z) (Ha : Z.abs a < 2 ^ 53) (Hb : Z.abs b < 2 ^ 53).

Lemma min_log2 : Z.min (Z.log2 (Z.abs a) - 52) (Z.log2 (Z.abs b) - 52) ≤ 0.
Proof.
  destruct (decide (a = 0)) as [->|]; [simpl; lia|].
  pose proof (log2_bound (Z.abs a) ltac:(lia)). lia.
Qed.

Lemma fadd_exact : Z.abs (a + b) < 2 ^ 53 → fadd (of_Z a) (of_Z b) = of_Z (a + b).
Proof.
  intros Hs. rewrite (of_Z_cases a), (of_Z_cases b) by done. pose proof min_log2 as Hmin.
  destruct (decide (a = 0)) as [->|Ha0], (decide (b = 0)) as [->|Hb0]; [done|..].
  - by rewrite of_Z_cases, decide_False.
  - by rewrite Z.add_0_r, of_Z_cases, decide_False.
  - unfold canon, fadd, SFadd. rewrite !aligned by (done || lia).
    set (ez := Z.min _ _). rewrite <-Z.mul_add_distr_r. replace ez with (- - ez) at 2 by lia.
    apply normalize_scaled; lia.
Qed.

Lemma fsub_exact : Z.abs (a - b) < 2 ^ 53 → fsub (of_Z a) (of_Z b) = of_Z (a - b).
Proof.
  intros Hs. rewrite (of_Z_cases a), (of_Z_cases b) by done. pose proof min_log2 as Hmin.
  destruct (decide (a = 0)) as [->|Ha0], (decide (b = 0)) as [->|Hb0]; [done|..].
  - rewrite of_Z_cases, decide_False by lia. unfold canon, fsub, SFsub, fzero.
    replace (Z.abs (0 - b)) with (Z.abs b) by lia. f_equal. repeat case_bool_decide; simpl; lia.
  - by rewrite Z.sub_0_r, of_Z_cases, decide_False.
  - unfold canon, fsub, SFsub. rewrite !aligned by (done || lia).
    set (ez := Z.min _ _). rewrite <-Z.mul_sub_distr_r. replace ez with (- - ez) at 2 by lia.
    apply normalize_scaled; lia.
Qed.

Lemma canon_compare va vb s : 0 < va < 2 ^ 53 → 0 < vb < 2 ^ 53 →
  SFcompare (canon s va) (canon s vb) = Some (if s then CompOpp (va ?= vb) else va ?= vb).
Proof.
  intros Hva Hvb. unfold canon, SFcompare.
  assert (match (Z.log2 va - 52) ?= (Z.log2 vb - 52) with
          | Lt => Lt | Gt => Gt
          | Eq => Pos.compare_cont Eq (Z.to_pos (va * 2 ^ (52 - Z.log2 va)))
                    (Z.to_pos (vb * 2 ^ (52 - Z.log2 vb)))
          end = (va ?= vb)) as Hcmp.
  { destruct (Z.compare_spec (Z.log2 va - 52) (Z.log2 vb - 52)) as [Heq|Hlt|Hgt]; symmetry.
    - change (Pos.compare_cont Eq ?x ?y) with (Zpos x ?= Zpos y).
      rewrite !canon_mantissa by done. replace (Z.log2 va) with (Z.log2 vb) by lia.
      pose proof (log2_bound vb Hvb). apply Zmult_compare_compat_r.
      apply Z.lt_gt, Z.pow_pos_nonneg; lia.
    - apply Z.compare_lt_iff, Z.log2_lt_cancel. lia.
    - apply Z.compare_gt_iff, Z.log2_lt_cancel. lia. }
  rewrite <-Hcmp. destruct s; [|done]. by destruct (_ ?= _).
Qed.

Lemma fcompare_exact : SFcompare (of_Z a) (of_Z b) = Some (a ?= b).
Proof.
  rewrite (of_Z_cases a), (of_Z_cases b) by done.
  destruct (decide (a = 0)) as [->|Ha0], (decide (b = 0)) as [->|Hb0]; [done|..].
  - unfold canon, fzero, SFcompare. case_bool_decide; f_equal; symmetry;
      [apply Z.compare_gt_iff|apply Z.compare_lt_iff]; lia.
  - unfold canon, fzero, SFcompare. case_bool_decide; f_equal; symmetry;
      [apply Z.compare_lt_iff|apply Z.compare_gt_iff]; lia.
  - repeat case_bool_decide.
    + rewrite canon_compare by lia. f_equal. rewrite <-Z.compare_antisym, <-(Z.compare_opp b a). f_equal; lia.
    + simpl. f_equal. symmetry. apply Z.compare_lt_iff. lia.
    + simpl. f_equal. symmetry. apply Z.compare_gt_iff. lia.
    + rewrite canon_compare by lia. f_equal. f_equal; lia.
Qed.

Lemma flt_exact : flt (of_Z a) (of_Z b) = bool_decide (a < b).
Proof.
  unfold flt, SFltb. rewrite fcompare_exact. unfold Z.lt. case_bool_decide as H; [by rewrite H|].
  by destruct (a ?= b).
Qed.

Lemma fle_exact : fle (of_Z a) (of_Z b) = bool_decide (a ≤ b).
Proof.
  unfold fle, SFleb. rewrite fcompare_exact. unfold Z.le. case_bool_decide as H; by destruct (a ?= b).
Qed.

Lemma feq_exact : feq (of_Z a) (of_Z b) = bool_decide (a = b).
Proof.
  unfold feq, SFeqb. rewrite fcompare_exact.
  destruct (Z.compare_spec a b); case_bool_decide; (done || lia).
Qed.

Lemma fmul_exact : 0 ≤ a → 0 ≤ b → a * b < 2 ^ 53 → fmul (of_Z a) (of_Z b) = of_Z (a * b).
Proof.
  intros Ha' Hb' Hp. rewrite (of_Z_cases a), (of_Z_cases b), (of_Z_cases (a * b)) by lia.
  destruct (decide (a = 0)) as [->|Ha0], (decide (b = 0)) as [->|Hb0]; [done|..].
  - rewrite decide_True by lia. by rewrite bool_decide_false by lia.
  - rewrite decide_True by lia. by rewrite bool_decide_false by lia.
  - rewrite decide_False by nia. rewrite !bool_decide_false by nia. rewrite !Z.abs_eq by nia.
    pose proof (log2_bound a ltac:(lia)). pose proof (log2_bound b ltac:(lia)).
    pose proof (log2_bound (a * b) ltac:(nia)). pose proof (Z.log2_mul_below a b ltac:(lia) ltac:(lia)).
    unfold canon at 1 2. unfold fmul, SFmul. simpl xorb. apply round_aux_scaled; [nia|lia|].
    rewrite Pos2Z.inj_mul, !canon_mantissa by lia.
    replace (- (Z.log2 a - 52 + (Z.log2 b - 52))) with ((52 - Z.log2 a) + (52 - Z.log2 b)) by lia.
    rewrite Z.pow_add_r by lia. lia.
Qed.

End exact.

Lemma to_int64_exact a : Z.abs a < 2 ^ 53 → to_int64 (of_Z a) = a.
Proof.
  intros Ha. rewrite of_Z_cases by done. destruct (decide (a = 0)) as [->|]; [done|].
  assert (0 < Z.abs a < 2 ^ 53) as Hb by lia. pose proof (log2_bound _ Hb). unfold canon, to_int64.
  rewrite canon_mantissa by done. rewrite Z.shiftl_div_pow2 by lia.
  replace (- (Z.log2 (Z.abs a) - 52)) with (52 - Z.log2 (Z.abs a)) by lia.
  rewrite Z.div_mul by (apply Z.pow_nonzero; lia). rewrite bool_decide_true; case_bool_decide; lia.
Qed.

Lemma fmin_exact a b : 0 ≤ a < 2 ^ 53 → 0 ≤ b < 2 ^ 53 → fmin (of_Z a) (of_Z b) = of_Z (Z.min a b).
Proof.
  intros Ha Hb. pose proof (flt_exact a b ltac:(lia) ltac:(lia)) as Hlt.
  revert Hlt. rewrite (of_Z_cases a), (of_Z_cases b), (of_Z_cases (Z.min a b)) by lia. unfold fmin.
  destruct (decide (a = 0)) as [->|], (decide (b = 0)) as [->|]; intros Hlt; [done|..].
  - rewrite decide_True by lia. unfold fzero in *. unfold canon in *. rewrite Hlt, bool_decide_true by lia. done.
  - rewrite decide_True by lia. unfold fzero in *. unfold canon in *.
    by rewrite Hlt, bool_decide_false by lia.
  - rewrite decide_False by lia. unfold canon at 1 2. fold (canon (bool_decide (a < 0)) (Z.abs a)).
    fold (canon (bool_decide (b < 0)) (Z.abs b)). rewrite Hlt.
    destruct (decide (a < b)).
    + by rewrite (bool_decide_true (a < b)), Z.min_l by lia.
    + by rewrite (bool_decide_false (a < b)), Z.min_r by lia.
Qed.
