(* ===== verification/Utils.v ===== *)
(** * Retries, backoff and helpers: pkg/utils/{backoff,errors,utils}.go

    The backoff computes with [float64]; retrying is an unbounded loop in the
    code and runs on fuel here, one unit for each call of the function.  The
    random number generators are outside the repository ([Rand]). *)
From S2P Require Import Prelude GoStd Float64.

Open Scope Z_scope.

(** ** errors.go *)

(** [error] values as [RetryWithBackoff] looks at them: a [DefaultRetriableError]
    embeds a [Retriable] and an error, any other error is not [Retriable]. *)
Inductive DefaultRetriable : Type := mkRetriable (retry : bool).
Definition Retry (r : DefaultRetriable) : bool := let 'mkRetriable b := r in b.
Definition NewRetriable (retry : bool) : DefaultRetriable := mkRetriable retry.

Inductive anyError : Type :=
| PlainError (e : error)
| DefaultRetriableError (r : DefaultRetriable) (e : error).

Definition NewRetriableError (r : DefaultRetriable) (e : error) : anyError := DefaultRetriableError r e.

(** [err.(Retriable)]. *)
Definition as_Retriable (e : anyError) : option DefaultRetriable :=
  match e with
  | PlainError _ => None
  | DefaultRetriableError r _ => Some r
  end.

(** [strings.Join]. *)
Fixpoint Join (l : list string) (sep : string) : string :=
  match l with
  | [] => ""
  | [s] => s
  | s :: l => (s +:+ sep +:+ Join l sep)%string
  end.

Definition tab : string := String (Ascii.ascii_of_nat 9) "".
Definition newline : string := String (Ascii.ascii_of_nat 10) "".

(** [MultiErr], its [Error()], and [NewMultiError], which drops nil errors. *)
Record MultiErr := mkMultiErr { me_errors : list error }.

Definition MultiErr_Error (me : MultiErr) : string :=
  Join ("Multiple error:"%string ::
        imap (λ ndx err, (tab +:+ pretty (Z.of_nat ndx) +:+ ": " +:+ Error err)%string) (me_errors me)) newline.

Definition NewMultiError (errs : list (option error)) : MultiErr := mkMultiErr (omap id errs).

(** ** utils.go *)

Definition DefaultIfBlank (str defaultValue : string) : string :=
  if bool_decide (String.length str = 0%nat) then defaultValue else str.

(** The inner loop of [SlicesDeepEqual]: the first element of [s2] that equals
    [x] and is not counted yet is counted. *)
Fixpoint mark_found {A} `{EqDecision A} (x : A) (s2 : list A) (s2found : list bool) : option (list bool) :=
  match s2, s2found with
  | y :: s2, f :: s2found =>
      if f then cons true <$> mark_found x s2 s2found
      else if bool_decide (x = y) then Some (true :: s2found)
      else cons false <$> mark_found x s2 s2found
  | _, _ => None
  end.

Fixpoint slices_loop {A} `{EqDecision A} (s1 s2 : list A) (s2found : list bool) : bool :=
  match s1 with
  | [] => true
  | x :: s1 =>
      match mark_found x s2 s2found with
      | Some s2found => slices_loop s1 s2 s2found
      | None => false
      end
  end.

Definition SlicesDeepEqual {A} `{EqDecision A} (s1 s2 : list A) : bool :=
  if bool_decide (length s1 ≠ length s2) then false
  else if bool_decide (length s1 = 0%nat) then true
  else slices_loop s1 s2 (replicate (length s2) false).

Fixpoint StrSliceEqual_loop (s1 s2 : list string) : bool :=
  match s1, s2 with
  | x :: s1, y :: s2 => if bool_decide (x ≠ y) then false else StrSliceEqual_loop s1 s2
  | _, _ => true
  end.

Definition StrSliceEqual (s1 s2 : list string) : bool :=
  if bool_decide (length s1 ≠ length s2) then false else StrSliceEqual_loop s1 s2.

(** A [uint16] prints as the number it is. *)
Definition Uint16SliceToStringSlice (slice : list Z) : list string := (λ el, pretty el) <$> slice.

(** [strings.TrimSpace] on ASCII text. *)
Fixpoint trim_left (s : string) : string :=
  match s with
  | String c s' => if is_space c then trim_left s' else s
  | EmptyString => EmptyString
  end.
Definition rev_string (s : string) : string :=
  String.string_of_list_ascii (reverse (String.list_ascii_of_string s)).
Definition TrimSpace (s : string) : string := rev_string (trim_left (rev_string (trim_left s))).

Definition ParseBool (str : string) (default_ : bool) : bool :=
  match GoStd.ParseBool (TrimSpace str) with
  | Some res => res
  | None => default_
  end.

(** [binary.PutUvarint] and [binary.PutVarint] of a 64 bit number: groups of 7
    bits, the low ones first; a byte but the last has its top bit set. *)
Fixpoint put_uvarint (fuel : nat) (x : Z) : list Z :=
  match fuel with
  | O => []
  | S fuel => if bool_decide (x < 128) then [x] else Z.lor (x `mod` 128) 128 :: put_uvarint fuel (x `div` 128)
  end.
Definition PutVarint (x : Z) : list Z :=
  let ux := (2 * x) `mod` 2 ^ 64 in
  put_uvarint 10 (if bool_decide (x < 0) then 2 ^ 64 - 1 - ux else ux).

(** [RandHex] of the number [randInt] that [crypto/rand] gave. *)
Definition RandHex (randInt : Z) : string :=
  let out := PutVarint randInt in
  EncodeToString (out ++ replicate (10 - length out) 0).

Example utils_ex :
  SlicesDeepEqual [3; 1; 3] [1; 3; 3] = true ∧ SlicesDeepEqual [3; 1; 1] [1; 3; 3] = false ∧
  ParseBool "  true " false = true ∧ ParseBool "yes" true = true ∧
  MultiErr_Error (NewMultiError [Some (EStr "a"); None; Some (EStr "b")]) =
    ("Multiple error:" +:+ newline +:+ tab +:+ "0: a" +:+ newline +:+ tab +:+ "1: b")%string ∧
  RandHex 300 = "d8040000000000000000"%string.
Proof. vm_compute. by split_and!. Qed.

(** ** backoff.go *)

(** [rand.Int63n(n)] is a number of [0, n); it panics for an [n] below 1. *)
Class Rand (W : Type) : Type := { rand_Int63 : Z → W → Z * W }.
Class RandOk (W : Type) `{!Rand W} : Prop := {
  rand_range : ∀ n (w : W), 1 ≤ n → 0 ≤ (rand_Int63 n w).1 < n;
}.

(** [SimpleBackoff], without its mutex. *)
Record SimpleBackoff := mkSimpleBackoff {
  sb_current : Z;
  sb_start : Z;
  sb_max : Z;
  sb_jitterMultiple : float64;
  sb_multiple : float64;
}.

Definition NewSimpleBackoff (min max : Z) (jitterMultiple multiple : float64) : SimpleBackoff :=
  mkSimpleBackoff min min max jitterMultiple multiple.

Definition set_current (c : Z) (sb : SimpleBackoff) : SimpleBackoff :=
  mkSimpleBackoff c (sb_start sb) (sb_max sb) (sb_jitterMultiple sb) (sb_multiple sb).

Definition Reset (sb : SimpleBackoff) : SimpleBackoff := set_current (sb_start sb) sb.

Section backoff.
Context {W : Type} `{!Rand W}.

Definition Int63n (n : Z) : M W Z :=
  if bool_decide (n ≤ 0) then panic "invalid argument to Int63n"
  else λ w, let '(r, w') := rand_Int63 n w in (Ret r, w').

Definition AddJitter (duration jitter : Z) : M W Z :=
  randJitter ← (if bool_decide (jitter = 0) then mret 0 else Int63n jitter);
  mret (int64 (duration + randJitter)).

(** What [current] becomes, and the jitter of a duration. *)
Definition next_current (sb : SimpleBackoff) : Z :=
  to_int64 (fmin (of_Z (sb_max sb)) (fmul (of_Z (sb_current sb)) (sb_multiple sb))).
Definition jitter_of (sb : SimpleBackoff) : Z := to_int64 (fmul (of_Z (sb_current sb)) (sb_jitterMultiple sb)).

(** [sb.Duration()]. *)
Definition Duration (sb : SimpleBackoff) : M W (Z * SimpleBackoff) :=
  d ← AddJitter (sb_current sb) (jitter_of sb);
  mret (d, set_current (next_current sb) sb).

End backoff.

(** ** Retrying

    What the loops are given: the context's [Done] channel, the backoff, the
    clock's [Sleep] and the function to call. *)
Section retry.
Context {S : Type} (ctx_Done : M S bool) (backoff_Duration : M S Z) (Sleep : Z → M S unit).

(** [err == nil || (isRetriableErr && !retriableErr.Retry())]. *)
Definition stops (err : option anyError) : bool :=
  match err with
  | None => true
  | Some e => match as_Retriable e with Some r => negb (Retry r) | None => false end
  end.

(** One turn calls [fn] once, unless the context is done. *)
Fixpoint RetryWithBackoffCtx (fuel : nat) (fn : M S (option anyError)) : M S (option anyError) :=
  match fuel with
  | O => nofuel
  | Datatypes.S fuel =>
      finished ← ctx_Done;
      if finished : bool then mret None
      else
        err ← fn;
        if stops err then mret err
        else
          d ← backoff_Duration;
          Sleep d ;;
          RetryWithBackoffCtx fuel fn
  end.

End retry.

(** [context.Background()] is never done. *)
Definition RetryWithBackoff {S} (backoff_Duration : M S Z) (Sleep : Z → M S unit) (fuel : nat)
    (fn : M S (option anyError)) : M S (option anyError) :=
  RetryWithBackoffCtx (mret false) backoff_Duration Sleep fuel fn.

Section retry_n.
Context {S : Type} (ctx_Done : M S bool) (backoff_Duration : M S Z) (Sleep : Z → M S unit).

(** The closure of [RetryNWithBackoffCtx] captures the variables [err] and [n]. *)
Record captured := mkCaptured { c_state : S; c_err : option anyError; c_n : Z }.

Definition outer {A} (m : M S A) : M captured A :=
  zoom c_state (λ s c, mkCaptured s (c_err c) (c_n c)) m.

Definition try_n (fn : M S (option anyError)) : M captured (option anyError) :=
  err ← outer fn;
  modify (λ c, mkCaptured (c_state c) err (int64 (c_n c - 1))) ;;
  n ← gets c_n;
  if bool_decide (n = 0) then mret None else mret err.

Definition RetryNWithBackoffCtx (fuel : nat) (n : Z) (fn : M S (option anyError)) : M S (option anyError) :=
  λ s,
  match (RetryWithBackoffCtx (outer ctx_Done) (outer backoff_Duration) (λ d, outer (Sleep d)) fuel (try_n fn))
          (mkCaptured s None n) with
  | (Ret _, c) => (Ret (c_err c), c_state c)
  | (Panic why, c) => (Panic why, c_state c)
  | (NoFuel, c) => (NoFuel, c_state c)
  end.

End retry_n.

Definition RetryNWithBackoff {S} (backoff_Duration : M S Z) (Sleep : Z → M S unit) (fuel : nat) (n : Z)
    (fn : M S (option anyError)) : M S (option anyError) :=
  RetryNWithBackoffCtx (mret false) backoff_Duration Sleep fuel n fn.
