(* ===== verification/UtilsProps.v ===== *)
(** * Theorems about retries, backoff and helpers *)
From S2P Require Import Prelude GoStd Float64 Utils.

Open Scope Z_scope.

(** ** [SlicesDeepEqual] *)

(** The elements of the second slice that are not counted yet. *)
Fixpoint uncounted {A} (s2 : list A) (s2found : list bool) : list A :=
  match s2, s2found with
  | y :: s2, f :: s2found => if f then uncounted s2 s2found else y :: uncounted s2 s2found
  | _, _ => []
  end.

Section slices.
Context {A : Type} `{EqDecision A}.
Implicit Types (x : A) (f : list bool).

Lemma mark_found_spec x s2 f : length f = length s2 →
  match mark_found x s2 f with
  | Some f' => length f' = length s2 ∧ uncounted s2 f ≡ₚ x :: uncounted s2 f'
  | None => x ∉ uncounted s2 f
  end.
Proof.
  revert f. induction s2 as [|y s2 IH]; intros [|b f] Hlen; simplify_eq/=; [apply not_elem_of_nil|].
  specialize (IH f Hlen). destruct b; simpl.
  - destruct (mark_found x s2 f) as [f'|]; simpl; [|done]. naive_solver.
  - case_bool_decide as Heq; simpl; [subst; split; [lia|done]|]. destruct (mark_found x s2 f) as [f'|]; simpl.
    + destruct IH as [-> ->]. split; [done|]. apply Permutation_swap.
    + by rewrite not_elem_of_cons.
Qed.

Lemma slices_loop_spec (s1 s2 : list A) f : length f = length s2 →
  slices_loop s1 s2 f = true ↔ s1 ⊆+ uncounted s2 f.
Proof.
  revert f. induction s1 as [|x s1 IH]; intros f Hlen; simpl.
  - split; [intros _; apply submseteq_nil_l|done].
  - pose proof (mark_found_spec x s2 f Hlen) as Hm. destruct (mark_found x s2 f) as [f'|].
    + destruct Hm as [Hlen' Hp]. rewrite IH, Hp by done. split; [apply submseteq_skip|].
      intros (k & Hk & Hs)%submseteq_cons_l. by rewrite (Permutation_cons_inv Hk).
    + split; [done|]. intros Hs. exfalso. apply Hm. eapply elem_of_submseteq; [|exact Hs]. constructor.
Qed.

Lemma uncounted_all (s : list A) : uncounted s (replicate (length s) false) = s.
Proof. induction s as [|x s IH]; [done|]. simpl. by rewrite IH. Qed.

(** [SlicesDeepEqual] is equality up to order: it holds exactly when one slice
    is a permutation of the other, repeated elements included. *)
Theorem slices_equal_iff_permutation (s1 s2 : list A) : SlicesDeepEqual s1 s2 = true ↔ s1 ≡ₚ s2.
Proof.
  unfold SlicesDeepEqual. case_bool_decide as Hlen.
  - split; [done|]. by intros ?%Permutation_length.
  - case_bool_decide as H0.
    + rewrite H0 in Hlen. symmetry in Hlen. apply nil_length_inv in H0, Hlen. by subst.
    + rewrite slices_loop_spec by apply length_replicate. rewrite uncounted_all. split.
      * intros Hs. apply submseteq_length_Permutation; [done|lia].
      * by intros ->.
Qed.

End slices.

(** ** Retrying *)

Section retry.
Context {S : Type} (ctx_Done : M S bool) (backoff_Duration : M S Z) (Sleep : Z → M S unit).
Context (fn : M S (option anyError)).

(** At most [k + 1] calls of [fn], with what the last one returned ([last] when
    the context is done before the next one). *)
Fixpoint tries (k : nat) (last : option anyError) : M S (option anyError) :=
  finished ← ctx_Done;
  if finished : bool then mret last
  else
    err ← fn;
    if stops err then mret err
    else
      match k with
      | O => mret err
      | Datatypes.S k => d ← backoff_Duration; Sleep d ;; tries k err
      end.

(** The result of a run with the captured variables. *)
Definition uncapture {A} (x : res A * captured) : res (option anyError) * S :=
  match x with
  | (Ret _, c) => (Ret (c_err c), c_state c)
  | (Panic why, c) => (Panic why, c_state c)
  | (NoFuel, c) => (NoFuel, c_state c)
  end.


Lemma outer_run {A} (m : M S A) s last n :
  outer m (mkCaptured s last n) = ((m s).1, mkCaptured (m s).2 last n).
Proof. unfold outer, zoom. simpl. by destruct (m s). Qed.

Lemma try_n_run s last n :
  try_n fn (mkCaptured s last n) =
  match fn s with
  | (Ret err, s') => (Ret (if bool_decide (int64 (n - 1) = 0) then None else err), mkCaptured s' err (int64 (n - 1)))
  | (Panic why, s') => (Panic why, mkCaptured s' last n)
  | (NoFuel, s') => (NoFuel, mkCaptured s' last n)
  end.
Proof.
  unfold try_n, mbind, M_bind. rewrite outer_run. destruct (fn s) as [[err| |] s']; try done. simpl.
  by case_bool_decide.
Qed.

Lemma retry_tries k fuel last n s : n = Z.of_nat k + 1 → n < 2 ^ 63 → (k < fuel)%nat →
  uncapture (RetryWithBackoffCtx (outer ctx_Done) (outer backoff_Duration) (λ d, outer (Sleep d)) fuel (try_n fn)
    (mkCaptured s last n)) = tries k last s.
Proof.
  revert k last n s. induction fuel as [|fuel IH]; intros k last n s Hn Hk Hfuel; [lia|].
  assert (int64 (n - 1) = Z.of_nat k) as Hdec by (rewrite int64_small; lia).
  assert (tries k last = (finished ← ctx_Done;
    if finished : bool then mret last
    else err ← fn; if stops err then mret err else
      match k with O => mret err | Datatypes.S k => d ← backoff_Duration; Sleep d ;; tries k err end)) as ->
    by by destruct k.
  cbn [RetryWithBackoffCtx]. unfold mbind, M_bind. rewrite outer_run.
  destruct (ctx_Done s) as [[[]| |] s1]; try done. simpl. rewrite try_n_run, Hdec.
  destruct (fn s1) as [[err| |] s2]; try done. simpl. destruct k as [|k]; simpl; [by destruct (stops err)|].
  destruct (stops err); [done|]. rewrite outer_run.
  destruct (backoff_Duration s2) as [[d| |] s3]; try done. simpl. rewrite outer_run.
  destruct (Sleep d s3) as [[[]| |] s4]; try done. simpl. apply IH; lia.
Qed.

(** C37: [RetryNWithBackoffCtx] with [n] of at least 1 calls the function at most
    [n] times and always comes to an end if what it calls does: it behaves like
    the plain loop of [n] tries, which stops at the first call without an error,
    at an error that says it is not to be retried, or when the context is done,
    and returns the error of the last call. *)
Theorem retry_n_tries n fuel s : 1 ≤ n < 2 ^ 63 → n ≤ Z.of_nat fuel →
  RetryNWithBackoffCtx ctx_Done backoff_Duration Sleep fuel n fn s = tries (Z.to_nat (n - 1)) None s.
Proof.
  intros Hn Hfuel. by rewrite <-(retry_tries _ fuel None n) by lia.
Qed.

End retry.

(** A function that fails twice and then succeeds, and the calls counted. *)
Definition flaky : M (Z * Z) (option anyError) :=
  λ '(calls, slept), (Ret (if bool_decide (calls < 2) then Some (PlainError (EStr "not yet")) else None),
                      (calls + 1, slept)).

Lemma retry_n_tries_witness :
  RetryNWithBackoffCtx (mret false) (mret 5) (λ d, modify (λ '(calls, slept), (calls, slept + d))) 9 4 flaky (0, 0) =
    (Ret None, (3, 10)) ∧
  RetryNWithBackoffCtx (mret false) (mret 5) (λ d, modify (λ '(calls, slept), (calls, slept + d))) 9 2 flaky (0, 0) =
    (Ret (Some (PlainError (EStr "not yet"))), (2, 5)).
Proof.
  split.
  - rewrite (retry_n_tries _ _ _ _ 4 9) by lia. vm_compute. reflexivity.
  - rewrite (retry_n_tries _ _ _ _ 2 9) by lia. vm_compute. reflexivity.
Defined.

(** ** Backoff *)

Section backoff.
Context {W : Type} `{!Rand W} `{!RandOk W}.

(** [n] calls of [Duration]. *)
Fixpoint durations (n : nat) (sb : SimpleBackoff) : M W (list Z * SimpleBackoff) :=
  match n with
  | O => mret ([], sb)
  | S n => '(d, sb) ← Duration sb; '(ds, sb) ← durations n sb; mret (d :: ds, sb)
  end.

Context (k low high : Z) (j : float64).
Context (Hk : 1 ≤ k < 2 ^ 53) (Hlow : 0 ≤ low ≤ high) (Hhigh : high * k < 2 ^ 53).

(** The durations without jitter, and their jitter. *)
Definition base (n : nat) : Z := Z.min high (low * k ^ Z.of_nat n).
Definition jitter (n : nat) : Z := to_int64 (fmul (of_Z (base n)) j).

Lemma base_range n : 0 ≤ base n ≤ high.
Proof.
  unfold base. assert (0 ≤ low * k ^ Z.of_nat n); [|lia].
  apply Z.mul_nonneg_nonneg; [lia|]. apply Z.pow_nonneg. lia.
Qed.

Lemma base_step n : Z.min high (base n * k) = base (S n).
Proof.
  unfold base. rewrite Nat2Z.inj_succ, Z.pow_succ_r, (Z.mul_comm k), Z.mul_assoc by lia.
  generalize (low * k ^ Z.of_nat n) as x. intros x.
  destruct (Z.min_spec high x) as [[Hx ->]|[Hx ->]]; [|done].
  assert (high ≤ high * k) by nia. assert (x * 1 ≤ x * k) by (apply Z.mul_le_mono_nonneg_l; lia). lia.
Qed.

Lemma wp_AddJitter d t (w : W) : 0 ≤ t → 0 ≤ d → d + t < 2 ^ 63 →
  wp False (AddJitter d t) (λ r _, d ≤ r ≤ d + t) w.
Proof.
  intros Ht Hd Hb. unfold AddJitter, Int63n. apply wp_bind. case_bool_decide.
  - wp_steps. rewrite int64_small; lia.
  - rewrite bool_decide_false by lia. unfold wp. pose proof (rand_range t w ltac:(lia)).
    destruct (rand_Int63 t w) as [r w']. simpl in *. rewrite int64_small; lia.
Qed.

(** C38: with a whole multiple [k] the backoff grows from the minimum by the factor
    [k] up to the maximum and stays there: the [i]-th duration is
    [min(high, low * k^i)] and at most its jitter more, computed in floating point
    without loss, as long as the numbers stay below 2^53 nanoseconds (104 days) and
    the jitter is not negative and at most the maximum. *)
Theorem backoff_growth n (w : W) :
  (∀ i, (i < n)%nat → 0 ≤ jitter i ≤ high) →
  wp False (durations n (NewSimpleBackoff low high j (of_Z k)))
    (λ '(ds, sb) _, length ds = n ∧ sb_current sb = base n ∧ Reset sb = NewSimpleBackoff low high j (of_Z k) ∧
       ∀ i d, ds !! i = Some d → base i ≤ d ≤ base i + jitter i) w.
Proof.
  assert (NewSimpleBackoff low high j (of_Z k) = set_current (base 0) (NewSimpleBackoff low high j (of_Z k))) as Heq.
  { unfold set_current, base, NewSimpleBackoff. simpl. f_equal. lia. }
  intros Hj. rewrite Heq at 1. clear Heq.
  assert (∀ i0 w, (∀ i, (i < n)%nat → 0 ≤ jitter (i0 + i) ≤ high) →
    wp False (durations n (set_current (base i0) (NewSimpleBackoff low high j (of_Z k))))
      (λ '(ds, sb) _, length ds = n ∧ sb_current sb = base (i0 + n) ∧
         Reset sb = NewSimpleBackoff low high j (of_Z k) ∧
         ∀ i d, ds !! i = Some d → base (i0 + i) ≤ d ≤ base (i0 + i) + jitter (i0 + i)) w) as Hgen.
  2: { apply (Hgen 0%nat w), Hj. }
  clear Hj w. induction n as [|m IH]; intros i0 w Hj.
  - wp_steps. split_and!; [done|simpl; f_equal; lia|done|]. intros i d. by rewrite lookup_nil.
  - cbn [durations]. apply wp_bind. unfold Duration. apply wp_bind.
    pose proof (base_range i0). assert (0 ≤ jitter i0 ≤ high) as Hj0.
    { specialize (Hj 0%nat ltac:(lia)). by rewrite Nat.add_0_r in Hj. }
    assert (high < 2 ^ 53) by nia.
    change (jitter_of _) with (jitter i0). change (sb_current (set_current (base i0) _)) with (base i0).
    eapply wp_mono; [apply wp_AddJitter; lia|].
    intros d w' Hd. apply wp_ret. cbn beta iota.
    assert (next_current (set_current (base i0) (NewSimpleBackoff low high j (of_Z k))) = base (S i0)) as Hnext.
    { assert (0 ≤ base i0 * k ≤ high * k) by nia.
      unfold next_current. simpl. rewrite fmul_exact by lia. rewrite fmin_exact by lia.
      rewrite base_step. pose proof (base_range (S i0)). apply to_int64_exact. lia. }
    rewrite Hnext. apply wp_bind. eapply wp_mono.
    { apply (IH (S i0)). intros i Hi. replace (S i0 + i)%nat with (i0 + S i)%nat by lia. apply Hj. lia. }
    intros [ds sb] w'' (Hlen & Hcur & Hres & Hall). wp_steps.
    split_and!; [simpl; lia|rewrite Hcur; f_equal; lia|done|].
    intros [|i] d' Hl; simpl in Hl; simplify_eq.
    + rewrite Nat.add_0_r. apply Hd.
    + replace (i0 + S i)%nat with (S i0 + i)%nat by lia. by apply Hall.
Qed.

End backoff.

(** A generator that always gives the largest number. *)
#[global] Instance unit_Rand : Rand unit := { rand_Int63 n w := (n - 1, w) }.
#[global] Instance unit_RandOk : RandOk unit.
Proof. split. intros n w Hn. simpl. lia. Qed.

(** The settings of ipamd (1 s to 1 min, doubling, 20% jitter). *)
Definition ipamd_backoff : SimpleBackoff := NewSimpleBackoff Second Minute (fconst 2 10) (of_Z 2).

Lemma backoff_growth_witness :
  wp False (durations 8 ipamd_backoff)
    (λ '(ds, sb) _, length ds = 8%nat ∧ sb_current sb = Minute ∧ Reset sb = ipamd_backoff ∧
       ∀ i d, ds !! i = Some d → base 2 Second Minute i ≤ d ≤ base 2 Second Minute i + jitter 2 Second Minute (fconst 2 10) i) tt.
Proof.
  apply (backoff_growth 2 Second Minute (fconst 2 10)); try (unfold Minute, Second; lia).
  intros i Hi. do 8 (destruct i as [|i]; [vm_compute; split; discriminate|]). lia.
Defined.

(** The bases: 1, 2, 4, 8, 16, 32 and then 60 seconds. *)
Example backoff_ex :
  (λ i, base 2 Second Minute i `div` Second) <$> seq 0 8 = [1; 2; 4; 8; 16; 32; 60; 60] ∧
  jitter 2 Second Minute (fconst 2 10) 7 = 12 * Second.
Proof. vm_compute. done. Qed.
