(* ===== verification/HealthProbe.v ===== *)
(** * The health probe: client/health-check/grpc_health_probe.go

    The command line of the probe as the [flag] package reads it ([time.ParseDuration]
    in int64 and float64), the checks of the arguments, and [main] with its exit
    codes; and [Check] of ipamd/rpc_handler.go, which answers it.  Connecting and
    calling are a type class: they include the timeouts and the interrupt. *)
From S2P Require Import Prelude GoStd Float64.

Open Scope Z_scope.

(** ** time.ParseDuration *)

Definition maxInt64 : Z := 2 ^ 63 - 1.

Definition digit (c : ascii) : option Z :=
  let n := Z.of_N (Ascii.N_of_ascii c) - 48 in if (0 <=? n) && (n <=? 9) then Some n else None.

(** [leadingInt]: [None] when the number overflows. *)
Fixpoint leadingInt (x : Z) (s : string) : option (Z * string) :=
  match s with
  | EmptyString => Some (x, s)
  | String c rest =>
      match digit c with
      | None => Some (x, s)
      | Some d =>
          if x >? maxInt64 / 10 then None
          else let x := x * 10 + d in if x >? maxInt64 then None else leadingInt x rest
      end
  end.

(** [leadingFraction]: digits that do not fit are dropped. *)
Fixpoint leadingFraction (x : Z) (scale : float64) (overflow : bool) (s : string) : Z * float64 * string :=
  match s with
  | EmptyString => (x, scale, s)
  | String c rest =>
      match digit c with
      | None => (x, scale, s)
      | Some d =>
          if overflow || (x >? maxInt64 / 10) then leadingFraction x scale true rest
          else let y := x * 10 + d in
               if y >? maxInt64 then leadingFraction x scale true rest
               else leadingFraction y (fmul scale (of_Z 10)) false rest
      end
  end.

(** The letters up to the next number. *)
Fixpoint unit_name (s : string) : string * string :=
  match s with
  | EmptyString => (s, s)
  | String c rest =>
      match digit c, bool_decide (c = "."%char) with
      | None, false => let '(u, r) := unit_name rest in (String c u, r)
      | _, _ => (""%string, s)
      end
  end.

Definition chr (n : N) : ascii := Ascii.ascii_of_N n.
Definition unitMap : list (string * Z) :=
  [("ns", 1); ("us", 1000); (String (chr 194) (String (chr 181) "s"), 1000);
   (String (chr 206) (String (chr 188) "s"), 1000); ("ms", 1000000); ("s", Second); ("m", Minute);
   ("h", 60 * Minute)]%string.

(** One number with its unit: the duration and what follows. *)
Definition duration_part (s : string) : option (Z * string) :=
  match s with
  | EmptyString => None
  | String c _ =>
      if negb (bool_decide (c = "."%char) || bool_decide (digit c ≠ None)) then None
      else
        match leadingInt 0 s with
        | None => None
        | Some (v, s1) =>
            let pre := negb (bool_decide (String.length s1 = String.length s)) in
            let '(f, scale, s2, post) :=
              match s1 with
              | String c rest =>
                  if bool_decide (c = "."%char) then
                    let '(f, scale, s2) := leadingFraction 0 (of_Z 1) false rest in
                    (f, scale, s2, negb (bool_decide (String.length s2 = String.length rest)))
                  else (0, of_Z 1, s1, false)
              | EmptyString => (0, of_Z 1, s1, false)
              end in
            if negb pre && negb post then None
            else
              let '(u, rest) := unit_name s2 in
              if bool_decide (u = ""%string) then None
              else
                match snd <$> list_find (λ x, x.1 = u) unitMap with
                | None => None
                | Some (_, unit) =>
                    if v >? maxInt64 / unit then None
                    else
                      let v := v * unit in
                      let v := if f >? 0 then v + to_int64 (fmul (of_Z f) (fdiv (of_Z unit) scale)) else v in
                      if v >? maxInt64 then None else Some (v, rest)
                end
        end
  end.

Fixpoint duration_loop (fuel : nat) (d : Z) (s : string) : option Z :=
  match s with
  | EmptyString => Some d
  | _ =>
      match fuel with
      | O => None
      | S fuel =>
          match duration_part s with
          | None => None
          | Some (v, rest) => if d + v >? maxInt64 then None else duration_loop fuel (d + v) rest
          end
      end
  end.

Definition ParseDuration (s : string) : option Z :=
  let '(neg, s) := match s with
                   | String c rest =>
                       if bool_decide (c = "-"%char) then (true, rest)
                       else if bool_decide (c = "+"%char) then (false, rest) else (false, s)
                   | EmptyString => (false, s)
                   end in
  if bool_decide (s = "0"%string) then Some 0
  else if bool_decide (s = ""%string) then None
  else (λ d, if neg : bool then - d else d) <$> duration_loop (String.length s) 0 s.

(** As many turns as the string has characters are enough. *)
Lemma leadingInt_shorter x s y r : leadingInt x s = Some (y, r) → (String.length r ≤ String.length s)%nat.
Proof.
  revert x. induction s as [|c s IH]; intros x; cbn [leadingInt]; [intros [= _ <-]; done|].
  destruct (digit c); [|intros [= _ <-]; done]. destruct (_ >? _); [done|]. cbn zeta. destruct (_ >? _); [done|].
  intros ?%IH. simpl. lia.
Qed.

Lemma leadingFraction_shorter x sc o s : (String.length (leadingFraction x sc o s).2 ≤ String.length s)%nat.
Proof.
  revert x sc o. induction s as [|c s IH]; intros x sc o; cbn [leadingFraction]; [done|].
  destruct (digit c); [|done]. destruct (_ || _); [|cbn zeta; destruct (_ >? _)];
    (etransitivity; [apply IH|simpl; lia]).
Qed.

Lemma unit_name_length s : (String.length (unit_name s).1 + String.length (unit_name s).2 = String.length s)%nat.
Proof.
  induction s as [|c s IH]; cbn [unit_name]; [done|]. destruct (digit c); [done|].
  case_bool_decide; [done|]. destruct (unit_name s) as [u r]. simpl in *. lia.
Qed.

Lemma duration_part_shorter s v r : duration_part s = Some (v, r) → (String.length r < String.length s)%nat.
Proof.
  unfold duration_part. destruct s as [|c s']; [done|]. set (s := String c s'). destruct (negb _); [done|].
  destruct (leadingInt 0 s) as [[x s1]|] eqn:Hi; [|done]. apply leadingInt_shorter in Hi.
  destruct (match s1 with EmptyString => _ | String _ _ => _ end) as [[[f sc] s2] post] eqn:Hf.
  assert (String.length s2 ≤ String.length s1)%nat as H2.
  { destruct s1 as [|c1 rest]; [by injection Hf as <- <- <- <-|].
    case_bool_decide; [|by injection Hf as <- <- <- <-].
    pose proof (leadingFraction_shorter 0 (of_Z 1) false rest) as Hl.
    destruct (leadingFraction 0 (of_Z 1) false rest) as [[f' sc'] r']. injection Hf as <- <- <- <-. simpl in *. lia. }
  destruct (_ && _); [done|]. pose proof (unit_name_length s2) as Hu. destruct (unit_name s2) as [u rest].
  case_bool_decide as Hne; [done|]. destruct (snd <$> _) as [[? unit]|]; [|done].
  destruct (_ >? maxInt64 / unit); [done|]. cbn zeta. destruct (_ >? maxInt64); [done|]. intros [= _ <-]. simpl in *.
  destruct u as [|cu u]; [done|]. simpl in *. lia.
Qed.

Lemma duration_loop_fuel fuel fuel' d s :
  (String.length s ≤ fuel)%nat → (String.length s ≤ fuel')%nat → duration_loop fuel d s = duration_loop fuel' d s.
Proof.
  revert fuel' d s. induction fuel as [|fuel IH]; intros [|fuel'] d [|c s];
    cbn [duration_loop String.length]; try (done || lia). intros Hf Hf'.
  destruct (duration_part (String c s)) as [[v r]|] eqn:Hp; [|done]. apply duration_part_shorter in Hp.
  destruct (_ >? _); [done|]. simpl in Hp. apply IH; lia.
Qed.

(** ** The flags *)

Record options := mkOptions {
  remoteURL : string;
  serviceName : string;
  userAgent : string;
  connTimeoutDur : Z;
  rpcTimeoutDur : Z;
  verbose : bool;
}.
Definition default_options : options := mkOptions "" "" "grpc_health_probe" Second Second false.

Inductive flag_kind : Type := StringFlag | DurationFlag | BoolFlag.

Definition flags : list (string * flag_kind) :=
  [("addr", StringFlag); ("service", StringFlag); ("user-agent", StringFlag);
   ("connect-timeout", DurationFlag); ("rpc-timeout", DurationFlag); ("v", BoolFlag)]%string.

(** [flag.Value.Set] of the flag called [name]. *)
Definition flag_Set (name value : string) (o : options) : option options :=
  if bool_decide (name = "addr"%string) then
    Some (mkOptions value (serviceName o) (userAgent o) (connTimeoutDur o) (rpcTimeoutDur o) (verbose o))
  else if bool_decide (name = "service"%string) then
    Some (mkOptions (remoteURL o) value (userAgent o) (connTimeoutDur o) (rpcTimeoutDur o) (verbose o))
  else if bool_decide (name = "user-agent"%string) then
    Some (mkOptions (remoteURL o) (serviceName o) value (connTimeoutDur o) (rpcTimeoutDur o) (verbose o))
  else if bool_decide (name = "connect-timeout"%string) then
    (λ d, mkOptions (remoteURL o) (serviceName o) (userAgent o) d (rpcTimeoutDur o) (verbose o)) <$> ParseDuration value
  else if bool_decide (name = "rpc-timeout"%string) then
    (λ d, mkOptions (remoteURL o) (serviceName o) (userAgent o) (connTimeoutDur o) d (verbose o)) <$> ParseDuration value
  else
    (λ b, mkOptions (remoteURL o) (serviceName o) (userAgent o) (connTimeoutDur o) (rpcTimeoutDur o) b) <$> ParseBool value.

(** [name=value], cut at the first equals sign that is not the first character. *)
Fixpoint cut_equals (s : string) : string * option string :=
  match s with
  | EmptyString => (s, None)
  | String c rest =>
      if bool_decide (c = "="%char) then (""%string, Some rest)
      else let '(n, v) := cut_equals rest in (String c n, v)
  end.

(** What follows the dashes of an argument; [None] ends the flags. *)
Definition flag_name (s : string) : option string :=
  match s with
  | String c1 (String c2 rest) =>
      if negb (bool_decide (c1 = "-"%char)) then None
      else if bool_decide (c2 = "-"%char) then
        match rest with EmptyString => None | _ => Some rest end
      else Some (String c2 rest)
  | _ => None
  end.

(** [parseOne] over the arguments: [None] is an error, after which the package ends
    the process with code 2. *)
Fixpoint parse_args (o : options) (args : list string) : option options :=
  match args with
  | [] => Some o
  | s :: rest =>
      match flag_name s with
      | None => Some o
      | Some name =>
          if match name with String c _ => bool_decide (c = "-"%char) || bool_decide (c = "="%char) | _ => true end then None
          else
            let '(name, value) := cut_equals name in
            match snd <$> list_find (λ x, x.1 = name) flags with
            | None => None
            | Some (_, BoolFlag) =>
                match flag_Set name (default "true"%string value) o with None => None | Some o => parse_args o rest end
            | Some _ =>
                match value, rest with
                | Some v, _ => match flag_Set name v o with None => None | Some o => parse_args o rest end
                | None, v :: rest => match flag_Set name v o with None => None | Some o => parse_args o rest end
                | None, [] => None
                end
            end
      end
  end.

(** ** The program *)

Definition StatusInvalidArguments : Z := 1.
Definition StatusConnectionFailure : Z := 2.
Definition StatusRPCFailure : Z := 3.
Definition StatusUnhealthy : Z := 4.
(** [flag.ExitOnError]. *)
Definition StatusFlagError : Z := 2.

Definition SERVING : Z := 1.

(** [init]: the options, or an exit code. *)
Definition init (args : list string) : options + Z :=
  match parse_args default_options args with
  | None => inr StatusFlagError
  | Some o =>
      if bool_decide (remoteURL o = ""%string) then inr StatusInvalidArguments
      else if bool_decide (connTimeoutDur o ≤ 0) then inr StatusInvalidArguments
      else if bool_decide (rpcTimeoutDur o ≤ 0) then inr StatusInvalidArguments
      else inl o
  end.

(** [grpc.DialContext] with its timeout, and [Check] of the health client. *)
Class HealthClient (W : Type) : Type := {
  DialContext : string → Z → string → ext W (option error);
  health_Check : string → Z → ext W (Z + error);
}.

Section probe.
Context {W : Type} `{!HealthClient W}.

(** The exit code. *)
Definition main (args : list string) : M W Z :=
  match init args with
  | inr code => mret code
  | inl o =>
      err ← call (DialContext (userAgent o) (connTimeoutDur o) (remoteURL o));
      match err with
      | Some _ => mret StatusConnectionFailure
      | None =>
          resp ← call (health_Check (serviceName o) (rpcTimeoutDur o));
          match resp with
          | inr _ => mret StatusRPCFailure
          | inl status => if negb (status =? SERVING) then mret StatusUnhealthy else mret 0
          end
      end
  end.

(** ** What the exit code says *)

(** What the probe found. *)
Inductive finding : Type :=
| BadFlags
| BadArguments
| NotConnected (o : options)
| NoAnswer (o : options)
| Answered (o : options) (status : Z).

Definition code_of (f : finding) : Z :=
  match f with
  | BadFlags => 2
  | BadArguments => 1
  | NotConnected _ => 2
  | NoAnswer _ => 3
  | Answered _ status => if bool_decide (status = SERVING) then 0 else 4
  end.

(** The options a command line stands for. *)
Definition valid (o : options) : Prop :=
  remoteURL o ≠ ""%string ∧ 0 < connTimeoutDur o ∧ 0 < rpcTimeoutDur o.

Inductive observed (args : list string) (w : W) : finding → W → Prop :=
| Obs_flags : parse_args default_options args = None → observed args w BadFlags w
| Obs_args o : parse_args default_options args = Some o → ¬ valid o → observed args w BadArguments w
| Obs_dial o e w' : parse_args default_options args = Some o → valid o →
    DialContext (userAgent o) (connTimeoutDur o) (remoteURL o) w = (Some (Some e), w') →
    observed args w (NotConnected o) w'
| Obs_rpc o e w1 w' : parse_args default_options args = Some o → valid o →
    DialContext (userAgent o) (connTimeoutDur o) (remoteURL o) w = (Some None, w1) →
    health_Check (serviceName o) (rpcTimeoutDur o) w1 = (Some (inr e), w') →
    observed args w (NoAnswer o) w'
| Obs_answer o status w1 w' : parse_args default_options args = Some o → valid o →
    DialContext (userAgent o) (connTimeoutDur o) (remoteURL o) w = (Some None, w1) →
    health_Check (serviceName o) (rpcTimeoutDur o) w1 = (Some (inl status), w') →
    observed args w (Answered o status) w'.

(** Every call returns to the probe, at the latest when its time is over. *)
Definition answers : Prop :=
  (∀ a t r (w : W), (DialContext a t r w).1 ≠ None) ∧ (∀ n t (w : W), (health_Check n t w).1 ≠ None).

Lemma init_spec args :
  match init args with
  | inl o => parse_args default_options args = Some o ∧ valid o
  | inr code =>
      (code = 2 ∧ parse_args default_options args = None) ∨
      (code = 1 ∧ ∃ o, parse_args default_options args = Some o ∧ ¬ valid o)
  end.
Proof.
  unfold init, valid. destruct (parse_args default_options args) as [o|]; [|by left].
  repeat case_bool_decide; try (right; split; [done|]; eexists; split; [done|]; intros (? & ? & ?); done || lia).
  split; [done|]. split_and!; [done|lia..].
Qed.

(** C39: when its calls return (each has a time limit) the probe ends, and its exit
    code is 0 exactly for a server that answered that it is serving, 1 for flags that
    can be read but have values it refuses, 3 for a call that failed, 4 for a server
    that answered anything else, and 2 for two cases that the code does not tell
    apart: a connection that failed, and flags that cannot be read (documented as 1,
    see [flag_error_code]).  Nothing is called before the arguments are checked. *)
Theorem probe_reports args (w : W) :
  answers → ∃ f w', observed args w f w' ∧ w ⊢ main args ⇓ code_of f ⊣ w'.
Proof.
  intros [Hd Hc]. unfold main. pose proof (init_spec args) as Hi. destruct (init args) as [o|code].
  2: { destruct Hi as [[-> Hp]|[-> (o & Hp & Hv)]];
       [exists BadFlags, w|exists BadArguments, w]; split; try done; by econstructor. }
  destruct Hi as [Hp Hv]. unfold mbind, M_bind, call. specialize (Hd (userAgent o) (connTimeoutDur o) (remoteURL o) w).
  destruct (DialContext _ _ _ w) as [[[e|]|] w1] eqn:Hdial; [|clear Hd|done].
  { exists (NotConnected o), w1. split; [by econstructor|done]. }
  specialize (Hc (serviceName o) (rpcTimeoutDur o) w1).
  destruct (health_Check _ _ w1) as [[[status|e]|] w2] eqn:Hcheck; [| |done].
  - exists (Answered o status), w2. split; [by econstructor|]. simpl.
    destruct (Z.eqb_spec status SERVING); by case_bool_decide.
  - exists (NoAnswer o), w2. split; [by econstructor|done].
Qed.

(** [Check] of the daemon's server, whatever is asked for. *)
Definition Check (service : string) : Z + error := inl SERVING.

(** The probe of the daemon as its manifest runs it. *)
Lemma probe_of_daemon (w w1 w2 : W) :
  DialContext "grpc_health_probe" Second ":50051" w = (Some None, w1) →
  health_Check "" Second w1 = (Some (Check ""), w2) → w ⊢ main ["-addr=:50051"%string] ⇓ 0 ⊣ w2.
Proof.
  intros Hd Hc. unfold main. change (init _) with (inl (A:=options) (B:=Z) (mkOptions ":50051" "" "grpc_health_probe" Second Second false)).
  unfold mbind, M_bind, call. cbn [userAgent connTimeoutDur remoteURL serviceName rpcTimeoutDur]. rewrite Hd. by rewrite Hc.
Qed.

End probe.

(** A bad flag and a server that cannot be reached are told apart by no exit code. *)
Example flag_error_code `{!HealthClient unit} : (main ["-addr"; ":50051"; "-rpc-timeout=1"]%string tt).1 = Ret 2.
Proof. vm_compute. reflexivity. Qed.

Example durations :
  ParseDuration "1.5h" = Some (5400 * Second) ∧ ParseDuration "-300ms" = Some (- 300000000) ∧
  ParseDuration "1h2m3.004s" = Some (3723004000000) ∧ ParseDuration "3" = None ∧
  ParseDuration "9223372036854775807ns" = Some maxInt64 ∧ ParseDuration "9223372036854775808ns" = None.
Proof. vm_compute. repeat split; reflexivity. Qed.

#[local] Instance daemon_client : HealthClient unit := {
  DialContext _ _ r w := (Some (if bool_decide (r = ":50051"%string) then None else Some (EStr "timeout")), w);
  health_Check s _ w := (Some (Check s), w);
}.

Lemma probe_reports_witness :
  main ["-addr=:50051"%string] tt = (Ret 0, tt) ∧ main ["-addr=:1"%string] tt = (Ret 2, tt) ∧
  ∃ f w', observed ["-addr=:50051"%string] tt f w' ∧ main ["-addr=:50051"%string] tt = (Ret (code_of f), w').
Proof.
  split; [vm_compute; reflexivity|]. split; [vm_compute; reflexivity|].
  apply probe_reports. split; intros; discriminate.
Defined.
