(* ===== verification/DataStore.v ===== *)
(** * The node's IP pool: ipamd/datastore/data_store.go

    The state is the [DataStore] record of the source.  The pointers the maps
    of the source hold ([*ENIIPPool], [*AddressInfo]) are not shared between
    two entries, so the records are stored in the maps themselves; where an
    operation hands a pointer or a map out, the reader uses it before the next
    operation, which sees the same values.  Every operation runs under
    [ds.lock], so it is one atomic step.  Logging is left out; the prometheus
    gauges are kept, since the node's metrics are read from them.  An [int] of
    the source is 64 bits wide; the counters are bounded by the number of
    entries of the maps (see [ds_wf]), so they are unbounded integers here. *)
From S2P Require Import Prelude GoStd.

Open Scope Z_scope.

(** ** Constants *)

Definition minLifeTime : Z := 1 * Minute.
Definition addressENICoolingPeriod : Z := 1 * Minute.
Definition addressCoolingPeriod : Z := 30 * Second.
Definition DuplicatedENIError : string := "data store: duplicate ENI".
Definition DuplicateIPError : string := "datastore: duplicated IP".
Definition UnknownIPError : string := "datastore: unknown IP".
Definition IPInUseError : string := "datastore: IP is used and can not be deleted".
Definition ENIInUseError : string := "datastore: ENI is used and can not be deleted".
Definition UnknownENIError : string := "datastore: unknown ENI".
Definition ErrUnknownPod : error := EVar "ErrUnknownPod" "datastore: unknown pod".
Definition ErrUnknownPodIP : error := EVar "ErrUnknownPodIP" "datastore: pod using unknown IP address".

(** Names of the gauges [enis], [totalIPs] and [assignedIPs]. *)
Definition enis : string := "awscni_eni_allocated".
Definition totalIPs : string := "awscni_total_ip_addresses".
Definition assignedIPs : string := "awscni_assigned_ip_addresses".

(** ** Data *)

Record AddressInfo := mkAddressInfo {
  Address : string;
  Assigned : bool;
  UnassignedTime : Z;
}.

Record ENIIPPool := mkENIIPPool {
  createTime : Z;
  lastUnassignedTime : Z;
  IsPrimary : bool;
  ID : string;
  DeviceNumber : Z;
  AssignedIPv4Addresses : Z;
  IPv4Addresses : gmap string AddressInfo;
}.

Record PodKey := mkPodKey {
  pk_name : string;
  pk_namespace : string;
  pk_container : string;
}.

#[global] Instance PodKey_eq_dec : EqDecision PodKey.
Proof. solve_decision. Defined.
#[global] Instance PodKey_countable : Countable PodKey.
Proof.
  refine (inj_countable' (λ k, (pk_name k, pk_namespace k, pk_container k))
    (λ t, mkPodKey t.1.1 t.1.2 t.2) _).
  by intros [].
Defined.

Record PodIPInfo := mkPodIPInfo {
  IP : string;
  pi_DeviceNumber : Z;
}.

#[global] Instance PodIPInfo_eq_dec : EqDecision PodIPInfo.
Proof. solve_decision. Defined.
#[global] Instance AddressInfo_eq_dec : EqDecision AddressInfo.
Proof. solve_decision. Defined.
#[global] Instance ENIIPPool_eq_dec : EqDecision ENIIPPool.
Proof. solve_decision. Defined.

Record DataStore := mkDataStore {
  total : Z;
  assigned : Z;
  eniIPPools : gmap string ENIIPPool;
  podsIP : gmap PodKey PodIPInfo;
}.

(** [k8sapi.K8SPodInfo]. *)
Record K8SPodInfo := mkK8SPodInfo {
  Name : string;
  Namespace : string;
  Container : string;
  PodIP : string;
  UID : string;
}.

Record ENIInfos := mkENIInfos {
  TotalIPs : Z;
  AssignedIPs : Z;
  ENIIPPools : gmap string ENIIPPool;
}.

Definition NewDataStore : DataStore := mkDataStore 0 0 ∅ ∅.

(** Assignments to one field of a structure. *)
Definition set_total (z : Z) (ds : DataStore) : DataStore :=
  mkDataStore z (assigned ds) (eniIPPools ds) (podsIP ds).
Definition set_assigned (z : Z) (ds : DataStore) : DataStore :=
  mkDataStore (total ds) z (eniIPPools ds) (podsIP ds).
Definition set_pools (m : gmap string ENIIPPool) (ds : DataStore) : DataStore :=
  mkDataStore (total ds) (assigned ds) m (podsIP ds).
Definition set_pods (m : gmap PodKey PodIPInfo) (ds : DataStore) : DataStore :=
  mkDataStore (total ds) (assigned ds) (eniIPPools ds) m.
Definition set_addrs (m : gmap string AddressInfo) (p : ENIIPPool) : ENIIPPool :=
  mkENIIPPool (createTime p) (lastUnassignedTime p) (IsPrimary p) (ID p)
    (DeviceNumber p) (AssignedIPv4Addresses p) m.
Definition set_nassigned (z : Z) (p : ENIIPPool) : ENIIPPool :=
  mkENIIPPool (createTime p) (lastUnassignedTime p) (IsPrimary p) (ID p)
    (DeviceNumber p) z (IPv4Addresses p).
Definition set_lastUnassigned (t : Z) (p : ENIIPPool) : ENIIPPool :=
  mkENIIPPool (createTime p) t (IsPrimary p) (ID p)
    (DeviceNumber p) (AssignedIPv4Addresses p) (IPv4Addresses p).

(** [len(m)] of a Go map. *)
Definition len {K A} `{Countable K} (m : gmap K A) : Z := Z.of_nat (size m).

Definition podKey (k8sPod : K8SPodInfo) : PodKey :=
  mkPodKey (Name k8sPod) (Namespace k8sPod) (Container k8sPod).

(** ** Operations *)

(** What an operation sees: the store, the metrics and the world. *)
Record DSt (W : Type) := mkDSt { d_ds : DataStore; d_prom : Prom; d_world : W }.
Arguments mkDSt {W}.
Arguments d_ds {W}.
Arguments d_prom {W}.
Arguments d_world {W}.

Section ops.
Context {W : Type} `{!World W}.

Definition set_ds (ds : DataStore) (s : DSt W) : DSt W := mkDSt ds (d_prom s) (d_world s).
Definition d_set_world (w : W) (s : DSt W) : DSt W := mkDSt (d_ds s) (d_prom s) w.
Definition d_set_prom (p : Prom) (s : DSt W) : DSt W := mkDSt (d_ds s) p (d_world s).

Definition get_ds : M (DSt W) DataStore := gets d_ds.
Definition put_ds (ds : DataStore) : M (DSt W) unit := modify (set_ds ds).
Definition gauge_Set (name : string) (v : Z) : M (DSt W) unit :=
  modify (λ s, d_set_prom (prom_set name "" v (d_prom s)) s).
Definition on_world {A} (m : M W A) : M (DSt W) A := zoom d_world d_set_world m.

Definition AddENI (eniID : string) (deviceNumber : Z) (isPrimary : bool) :
    M (DSt W) (option error) :=
  ds ← get_ds;
  match eniIPPools ds !! eniID with
  | Some _ => mret (Some (EStr DuplicatedENIError))
  | None =>
      now ← on_world time_Now;
      let pool := mkENIIPPool now zeroTime isPrimary eniID deviceNumber 0 ∅ in
      let ds' := set_pools (<[eniID := pool]> (eniIPPools ds)) ds in
      put_ds ds' ;;
      gauge_Set enis (len (eniIPPools ds')) ;;
      mret None
  end.

Definition AddIPv4AddressFromStore (eniID ipv4 : string) : M (DSt W) (option error) :=
  ds ← get_ds;
  match eniIPPools ds !! eniID with
  | None => mret (Some (EStr "add ENI's IP to datastore: unknown ENI"))
  | Some curENI =>
      match IPv4Addresses curENI !! ipv4 with
      | Some _ => mret (Some (EStr DuplicateIPError))
      | None =>
          let ds1 := set_total (total ds + 1) ds in
          gauge_Set totalIPs (total ds1) ;;
          let curENI' := set_addrs (<[ipv4 := mkAddressInfo ipv4 false zeroTime]>
                                      (IPv4Addresses curENI)) curENI in
          put_ds (set_pools (<[eniID := curENI']> (eniIPPools ds)) ds1) ;;
          mret None
      end
  end.

Definition DelIPv4AddressFromStore (eniID ipv4 : string) : M (DSt W) (option error) :=
  ds ← get_ds;
  match eniIPPools ds !! eniID with
  | None => mret (Some (EStr UnknownENIError))
  | Some curENI =>
      match IPv4Addresses curENI !! ipv4 with
      | None => mret (Some (EStr UnknownIPError))
      | Some ipAddr =>
          if Assigned ipAddr then mret (Some (EStr IPInUseError))
          else
            let ds1 := set_total (total ds - 1) ds in
            gauge_Set totalIPs (total ds1) ;;
            let curENI' := set_addrs (delete ipv4 (IPv4Addresses curENI)) curENI in
            put_ds (set_pools (<[eniID := curENI']> (eniIPPools ds)) ds1) ;;
            mret None
      end
  end.

(** [incrementAssignedCount(ds, eni, addr)]: the pointers [eni] and [addr] are
    the entries [eniID] of [ds.eniIPPools] and [ip] of its addresses. *)
Definition incrementAssignedCount (eniID : string) (eni : ENIIPPool) (ip : string)
    (addr : AddressInfo) : M (DSt W) unit :=
  ds ← get_ds;
  let addr' := mkAddressInfo (Address addr) true (UnassignedTime addr) in
  let eni' := set_addrs (<[ip := addr']> (IPv4Addresses eni))
                (set_nassigned (AssignedIPv4Addresses eni + 1) eni) in
  put_ds (set_pools (<[eniID := eni']> (eniIPPools ds)) (set_assigned (assigned ds + 1) ds)) ;;
  gauge_Set assignedIPs (assigned ds + 1).

Definition set_pod (k : PodKey) (i : PodIPInfo) : M (DSt W) unit :=
  ds ← get_ds; put_ds (set_pods (<[k := i]> (podsIP ds)) ds).

(** The body of the inner loop of [assignPodIPv4AddressUnsafe]. *)
Definition assign_try_addr (k8sPod : K8SPodInfo) (curTime : Z) (eniID : string) (eni : ENIIPPool)
    (x : string * AddressInfo) : M (DSt W) (option (string * Z * option error)) :=
  let '(ip, addr) := x in
  if bool_decide (PodIP k8sPod = Address addr) then
    (if Assigned addr then mret tt else incrementAssignedCount eniID eni ip addr) ;;
    set_pod (podKey k8sPod) (mkPodIPInfo (Address addr) (DeviceNumber eni)) ;;
    mret (Some (Address addr, DeviceNumber eni, None))
  else if negb (Assigned addr) && bool_decide (PodIP k8sPod = ""%string) &&
          bool_decide (Sub curTime (UnassignedTime addr) > addressCoolingPeriod) then
    incrementAssignedCount eniID eni ip addr ;;
    set_pod (podKey k8sPod) (mkPodIPInfo (Address addr) (DeviceNumber eni)) ;;
    mret (Some (Address addr, DeviceNumber eni, None))
  else mret None.

(** The body of its outer loop. *)
Definition assign_try_eni (k8sPod : K8SPodInfo) (curTime : Z)
    (x : string * ENIIPPool) : M (DSt W) (option (string * Z * option error)) :=
  let '(eniID, eni) := x in
  if bool_decide (PodIP k8sPod = ""%string) &&
     bool_decide (len (IPv4Addresses eni) = AssignedIPv4Addresses eni) then
    mret None
  else
    addrs ← on_world (range (IPv4Addresses eni));
    find_loop (assign_try_addr k8sPod curTime eniID eni) addrs.

Definition assignPodIPv4AddressUnsafe (k8sPod : K8SPodInfo) :
    M (DSt W) (string * Z * option error) :=
  curTime ← on_world time_Now;
  ds ← get_ds;
  pools ← on_world (range (eniIPPools ds));
  found ← find_loop (assign_try_eni k8sPod curTime) pools;
  match found with
  | Some r => mret r
  | None => mret (""%string, 0, Some (EStr "assignPodIPv4AddressUnsafe: no available IP addresses"))
  end.

Definition AssignPodIPv4Address (k8sPod : K8SPodInfo) : M (DSt W) (string * Z * option error) :=
  ds ← get_ds;
  match podsIP ds !! podKey k8sPod with
  | Some ipAddr =>
      if bool_decide (IP ipAddr = PodIP k8sPod) && negb (bool_decide (PodIP k8sPod = ""%string)) then
        mret (IP ipAddr, pi_DeviceNumber ipAddr, None)
      else
        mret (""%string, 0,
              Some (EStr "AssignPodIPv4Address: invalid pod with multiple IP addresses"))
  | None => assignPodIPv4AddressUnsafe k8sPod
  end.

Definition GetStats : M (DSt W) (Z * Z) := ds ← get_ds; mret (total ds, assigned ds).

(** The loop only reads the store and its sum does not depend on the order. *)
Definition isRequiredForWarmIPTarget (warmIPTarget : Z) (eni : ENIIPPool) : M (DSt W) bool :=
  ds ← get_ds;
  pools ← on_world (range (eniIPPools ds));
  otherWarmIPs ← fold_loop (λ acc '(_, other),
    if bool_decide (ID other ≠ ID eni) then
      mret (acc + (len (IPv4Addresses other) - AssignedIPv4Addresses other))
    else mret acc) 0 pools;
  mret (bool_decide (otherWarmIPs < warmIPTarget)).

Definition isTooYoung (e : ENIIPPool) : M (DSt W) bool :=
  now ← on_world time_Now; mret (bool_decide (Sub now (createTime e) < minLifeTime)).

Definition hasIPInCooling (e : ENIIPPool) : M (DSt W) bool :=
  now ← on_world time_Now;
  mret (bool_decide (Sub now (lastUnassignedTime e) < addressENICoolingPeriod)).

Definition hasPods (e : ENIIPPool) : bool := negb (bool_decide (AssignedIPv4Addresses e = 0)).

(** The body of the loop of [getDeletableENI]: [None] is [continue]. *)
Definition deletable_try (warmIPTarget : Z) (x : string * ENIIPPool) :
    M (DSt W) (option ENIIPPool) :=
  let '(_, eni) := x in
  if IsPrimary eni then mret None
  else
    young ← isTooYoung eni;
    if young : bool then mret None
    else
      cooling ← hasIPInCooling eni;
      if cooling : bool then mret None
      else if hasPods eni then mret None
      else
        required ← (if bool_decide (warmIPTarget = 0) then mret false
                    else isRequiredForWarmIPTarget warmIPTarget eni);
        if required : bool then mret None
        else mret (Some eni).

Definition getDeletableENI (warmIPTarget : Z) : M (DSt W) (option ENIIPPool) :=
  ds ← get_ds;
  pools ← on_world (range (eniIPPools ds));
  find_loop (deletable_try warmIPTarget) pools.

Definition GetENINeedsIP (maxIPperENI : Z) (skipPrimary : bool) : M (DSt W) (option ENIIPPool) :=
  ds ← get_ds;
  pools ← on_world (range (eniIPPools ds));
  find_loop (λ '(_, eni),
    if skipPrimary && IsPrimary eni then mret None
    else if bool_decide (len (IPv4Addresses eni) < maxIPperENI) then mret (Some eni)
    else mret None) pools.

(** [ds.eniIPPools[removableENI].IPv4Addresses] dereferences the entry of the
    map, which is nil when the pool's [ID] is not its key. *)
Definition RemoveUnusedENIFromStore (warmIPTarget : Z) : M (DSt W) string :=
  deletableENI ← getDeletableENI warmIPTarget;
  match deletableENI with
  | None => mret ""%string
  | Some eni =>
      let removableENI := ID eni in
      ds ← get_ds;
      match eniIPPools ds !! removableENI with
      | None => panic "nil pointer dereference"
      | Some pool =>
          let eniIPCount := len (IPv4Addresses pool) in
          let ds' := set_pools (delete removableENI (eniIPPools ds))
                       (set_total (total ds - eniIPCount) ds) in
          put_ds ds' ;;
          gauge_Set enis (len (eniIPPools ds')) ;;
          gauge_Set totalIPs (total ds') ;;
          mret removableENI
      end
  end.

Definition RemoveENIFromDataStore (eni : string) : M (DSt W) (option error) :=
  ds ← get_ds;
  match eniIPPools ds !! eni with
  | None => mret (Some (EStr UnknownENIError))
  | Some eniIPPool =>
      if negb (bool_decide (AssignedIPv4Addresses eniIPPool = 0)) then
        mret (Some (EStr ENIInUseError))
      else
        let ds' := set_pools (delete eni (eniIPPools ds))
                     (set_total (total ds - len (IPv4Addresses eniIPPool)) ds) in
        put_ds ds' ;;
        gauge_Set enis (len (eniIPPools ds')) ;;
        mret None
  end.

(** The body of the loop of [UnassignPodIPv4Address]. *)
Definition unassign_try (k : PodKey) (podIP : string) (x : string * ENIIPPool) :
    M (DSt W) (option (string * Z * option error)) :=
  let '(eniID, eni) := x in
  match IPv4Addresses eni !! podIP with
  | Some ip =>
      if Assigned ip then
        ds ← get_ds;
        gauge_Set assignedIPs (assigned ds - 1) ;;
        curTime ← on_world time_Now;
        let ip' := mkAddressInfo (Address ip) false curTime in
        let eni' := set_lastUnassigned curTime
                      (set_addrs (<[podIP := ip']> (IPv4Addresses eni))
                         (set_nassigned (AssignedIPv4Addresses eni - 1) eni)) in
        put_ds (set_pods (delete k (podsIP ds))
                  (set_pools (<[eniID := eni']> (eniIPPools ds))
                     (set_assigned (assigned ds - 1) ds))) ;;
        mret (Some (Address ip', DeviceNumber eni', None))
      else mret None
  | None => mret None
  end.

Definition UnassignPodIPv4Address (k8sPod : K8SPodInfo) : M (DSt W) (string * Z * option error) :=
  ds ← get_ds;
  match podsIP ds !! podKey k8sPod with
  | None => mret (""%string, 0, Some ErrUnknownPod)
  | Some ipAddr =>
      pools ← on_world (range (eniIPPools ds));
      found ← find_loop (unassign_try (podKey k8sPod) (IP ipAddr)) pools;
      match found with
      | Some r => mret r
      | None => mret (""%string, 0, Some ErrUnknownPodIP)
      end
  end.

(** The key of a pod in the map [GetPodInfos] returns. *)
Definition podInfoKey (k : PodKey) : string :=
  (pk_name k +:+ "_" +:+ pk_namespace k +:+ "_" +:+ pk_container k)%string.

Definition GetPodInfos : M (DSt W) (gmap string PodIPInfo) :=
  ds ← get_ds;
  pods ← on_world (range (podsIP ds));
  fold_loop (λ podInfos '(k, podInfo), mret (<[podInfoKey k := podInfo]> podInfos)) ∅ pods.

Definition GetENIInfos : M (DSt W) ENIInfos :=
  ds ← get_ds; mret (mkENIInfos (total ds) (assigned ds) (eniIPPools ds)).

Definition GetENIs : M (DSt W) Z := ds ← get_ds; mret (len (eniIPPools ds)).

Definition GetENIIPPools (eni : string) : M (DSt W) (gmap string AddressInfo * option error) :=
  ds ← get_ds;
  match eniIPPools ds !! eni with
  | None => mret (∅, Some (EStr UnknownENIError))
  | Some eniIPPool => mret (IPv4Addresses eniIPPool, None)
  end.

End ops.
