(* ===== verification/DataStoreInv.v ===== *)
(** * Outcomes and invariants of the data store

    For every operation of [DataStore.v] one lemma says, for any order of the
    map iterations and any clock, which results and which new states are
    possible (the [*_outcome] relations).  Then the invariants: [ds_wf], the
    counters of the store agree with its maps, holds in every reachable state;
    [pods_ok], no two pods share an address and the pods are exactly the users
    of the assigned addresses, holds when the store is used as its callers are
    meant to use it. *)
From S2P Require Import Prelude GoStd DataStore.

Open Scope Z_scope.

Section rules.
Context {W : Type} `{!World W} `{!WorldOk W} (E : Prop).
Implicit Types (ds : DataStore) (p : Prom) (w : W).

Lemma wp_get_ds Q (s : DSt W) : Q (d_ds s) s → wp E get_ds Q s.
Proof. done. Qed.

Lemma wp_put_ds ds' Q ds p w : Q tt (mkDSt ds' p w) → wp E (put_ds ds') Q (mkDSt ds p w).
Proof. done. Qed.

Lemma wp_gauge_Set name v Q ds p w :
  Q tt (mkDSt ds (prom_set name "" v p) w) → wp E (gauge_Set name v) Q (mkDSt ds p w).
Proof. done. Qed.

Lemma wp_on_world {A} (m : M W A) Q ds p w :
  wp E m (λ a w', Q a (mkDSt ds p w')) w → wp E (on_world m) Q (mkDSt ds p w).
Proof. intros. by apply wp_zoom. Qed.

Lemma wp_now Q ds p w :
  (∀ w', clock w ≤ clock w' → Q (clock w) (mkDSt ds p w')) →
  wp E (on_world time_Now) Q (mkDSt ds p w).
Proof. intros HQ. by apply wp_on_world, wp_time_Now. Qed.

Lemma wp_d_range {K A} `{Countable K} (m : gmap K A) Q ds p w :
  (∀ l w', l ≡ₚ map_to_list m → clock w ≤ clock w' → Q l (mkDSt ds p w')) →
  wp E (on_world (range m)) Q (mkDSt ds p w).
Proof. intros. apply wp_on_world, wp_range. eauto. Qed.

End rules.

Ltac wp_hook ::=
  lazymatch goal with
  | |- wp _ get_ds _ _ => apply wp_get_ds
  | |- wp _ (put_ds _) _ _ => apply wp_put_ds
  | |- wp _ (gauge_Set _ _) _ _ => apply wp_gauge_Set
  | |- wp _ (on_world time_Now) _ _ => apply wp_now; intros ? ?
  | |- wp _ (on_world (range _)) _ _ => apply wp_d_range; intros ? ? ? ?
  end; cbn [d_ds d_prom d_world].

(** The entries of a map, in the order a [range] visits them. *)
Lemma range_elem {K A} `{Countable K} (m : gmap K A) l k x done rest :
  l ≡ₚ map_to_list m → l = done ++ (k, x) :: rest → m !! k = Some x.
Proof.
  intros Hl ->. apply elem_of_map_to_list. rewrite <-Hl. set_solver.
Qed.

Lemma range_all {K A} `{Countable K} (m : gmap K A) l k x :
  l ≡ₚ map_to_list m → m !! k = Some x → (k, x) ∈ l.
Proof. intros Hl Hk. rewrite Hl. by apply elem_of_map_to_list. Qed.

(** ** Outcomes *)

(** An address the loop of [assignPodIPv4AddressUnsafe] stops at. *)
Definition addr_eligible (pod : K8SPodInfo) (now : Z) (addr : AddressInfo) : Prop :=
  PodIP pod = Address addr ∨
  (PodIP pod = ""%string ∧ Assigned addr = false ∧
   Sub now (UnassignedTime addr) > addressCoolingPeriod).

Definition eni_skipped (pod : K8SPodInfo) (eni : ENIIPPool) : Prop :=
  PodIP pod = ""%string ∧ len (IPv4Addresses eni) = AssignedIPv4Addresses eni.

Definition mark_assigned (eniID : string) (eni : ENIIPPool) (ip : string) (addr : AddressInfo)
    (ds : DataStore) : DataStore :=
  let addr' := mkAddressInfo (Address addr) true (UnassignedTime addr) in
  let eni' := set_addrs (<[ip := addr']> (IPv4Addresses eni))
                (set_nassigned (AssignedIPv4Addresses eni + 1) eni) in
  set_pools (<[eniID := eni']> (eniIPPools ds)) (set_assigned (assigned ds + 1) ds).

Definition add_pod (pod : K8SPodInfo) (ip : string) (dev : Z) (ds : DataStore) : DataStore :=
  set_pods (<[podKey pod := mkPodIPInfo ip dev]> (podsIP ds)) ds.

(** The store and the metrics: what an operation changes besides the world. *)
Abbreviation DP := (DataStore * Prom)%type.

Inductive assign_outcome (pod : K8SPodInfo) (now : Z) : DP → string * Z * option error → DP → Prop :=
| AO_known ds p i :
    podsIP ds !! podKey pod = Some i → IP i = PodIP pod → PodIP pod ≠ ""%string →
    assign_outcome pod now (ds, p) (IP i, pi_DeviceNumber i, None) (ds, p)
| AO_conflict ds p i :
    podsIP ds !! podKey pod = Some i → ¬ (IP i = PodIP pod ∧ PodIP pod ≠ ""%string) →
    assign_outcome pod now (ds, p)
      (""%string, 0, Some (EStr "AssignPodIPv4Address: invalid pod with multiple IP addresses")) (ds, p)
| AO_assigned ds p eniID eni ip addr :
    podsIP ds !! podKey pod = None →
    eniIPPools ds !! eniID = Some eni → IPv4Addresses eni !! ip = Some addr →
    ¬ eni_skipped pod eni → addr_eligible pod now addr → Assigned addr = false →
    assign_outcome pod now (ds, p) (Address addr, DeviceNumber eni, None)
      (add_pod pod (Address addr) (DeviceNumber eni) (mark_assigned eniID eni ip addr ds),
       prom_set assignedIPs "" (assigned ds + 1) p)
| AO_reassigned ds p eniID eni ip addr :
    podsIP ds !! podKey pod = None →
    eniIPPools ds !! eniID = Some eni → IPv4Addresses eni !! ip = Some addr →
    ¬ eni_skipped pod eni → PodIP pod = Address addr → Assigned addr = true →
    assign_outcome pod now (ds, p) (Address addr, DeviceNumber eni, None)
      (add_pod pod (Address addr) (DeviceNumber eni) ds, p)
| AO_none ds p :
    podsIP ds !! podKey pod = None →
    (∀ eniID eni ip addr, eniIPPools ds !! eniID = Some eni → IPv4Addresses eni !! ip = Some addr →
       eni_skipped pod eni ∨ ¬ addr_eligible pod now addr) →
    assign_outcome pod now (ds, p)
      (""%string, 0, Some (EStr "assignPodIPv4AddressUnsafe: no available IP addresses")) (ds, p).

Definition dp {W} (s : DSt W) : DP := (d_ds s, d_prom s).

Section outcomes.
Context {W : Type} `{!World W} `{!WorldOk W}.
Implicit Types (ds : DataStore) (p : Prom) (w : W).

Lemma assign_try_addr_outcome pod now eniID eni ip addr ds p w :
  podsIP ds !! podKey pod = None → eniIPPools ds !! eniID = Some eni →
  IPv4Addresses eni !! ip = Some addr → ¬ eni_skipped pod eni →
  wp False (assign_try_addr pod now eniID eni (ip, addr))
    (λ o s', match o with
             | Some r => assign_outcome pod now (ds, p) r (dp s')
             | None => dp s' = (ds, p) ∧ ¬ addr_eligible pod now addr
             end) (mkDSt ds p w).
Proof.
  intros Hpod Heni Hip Hskip. unfold assign_try_addr, addr_eligible.
  case_bool_decide as Heq.
  - destruct (Assigned addr) eqn:Has; unfold incrementAssignedCount, set_pod; wp_steps;
      [by eapply AO_reassigned|eapply AO_assigned; eauto; by left].
  - destruct (Assigned addr) eqn:Has; simpl.
    { wp_steps. split; [done|]. naive_solver. }
    destruct (bool_decide_reflect (PodIP pod = ""%string)); simpl.
    2: { wp_steps. split; [done|]. naive_solver. }
    case_bool_decide.
    + unfold incrementAssignedCount, set_pod; wp_steps.
      eapply AO_assigned; eauto; right; auto.
    + wp_steps. split; [done|]. naive_solver.
Qed.

Lemma assign_try_eni_outcome pod now eniID eni ds p w :
  podsIP ds !! podKey pod = None → eniIPPools ds !! eniID = Some eni →
  wp False (assign_try_eni pod now (eniID, eni))
    (λ o s', match o with
             | Some r => assign_outcome pod now (ds, p) r (dp s')
             | None => dp s' = (ds, p) ∧ ∀ ip addr, IPv4Addresses eni !! ip = Some addr →
                         eni_skipped pod eni ∨ ¬ addr_eligible pod now addr
             end) (mkDSt ds p w).
Proof.
  intros Hpod Heni. unfold assign_try_eni.
  destruct (bool_decide _ && bool_decide _) eqn:Hskip.
  - apply andb_true_iff in Hskip as [?%bool_decide_eq_true ?%bool_decide_eq_true].
    wp_steps. split; [done|]. by left.
  - assert (¬ eni_skipped pod eni) as Hns.
    { intros [??]. by rewrite !bool_decide_eq_true_2 in Hskip. }
    wp_step. wp_step.
    eapply (wp_find_loop _ _ _ (λ dn s', dp s' = (ds, p) ∧
      ∀ ip addr, (ip, addr) ∈ dn → ¬ addr_eligible pod now addr)).
    + split; [done|]. set_solver.
    + intros dn [ip addr] rest [ds' p' w''] Hl [[= -> ->] Hdn].
      eapply wp_mono; [eapply assign_try_addr_outcome; eauto using range_elem|].
      intros [r|] s' Hs; [done|]. destruct Hs as [? Hel]. split; [done|].
      intros ip' addr' [?|Hx]%elem_of_app; [eauto|]. apply list_elem_of_singleton in Hx. naive_solver.
    + intros s' [? Hdn]. split; [done|]. intros ip addr Hip. right. eapply Hdn, range_all; eauto.
Qed.

Lemma AssignPodIPv4Address_outcome pod (s : DSt W) :
  wp False (AssignPodIPv4Address pod)
    (λ r s', assign_outcome pod (clock (d_world s)) (dp s) r (dp s')) s.
Proof.
  destruct s as [ds p w]; simpl. unfold AssignPodIPv4Address. wp_step. wp_step.
  destruct (podsIP ds !! podKey pod) as [i|] eqn:Hpod.
  - destruct (bool_decide_reflect (IP i = PodIP pod)); simpl.
    2: { wp_steps. eapply AO_conflict; eauto. naive_solver. }
    case_bool_decide; simpl; wp_steps.
    + eapply AO_conflict; eauto. naive_solver.
    + by eapply AO_known.
  - unfold assignPodIPv4AddressUnsafe.
    wp_steps.
    eapply (wp_find_loop _ _ _ (λ dn s', dp s' = (ds, p) ∧
      ∀ eniID eni, (eniID, eni) ∈ dn → ∀ ip addr, IPv4Addresses eni !! ip = Some addr →
         eni_skipped pod eni ∨ ¬ addr_eligible pod (clock w) addr)).
    + split; [done|]. set_solver.
    + intros dn [eniID eni] rest [ds' p' w''] Hl [[= -> ->] Hdn].
      eapply wp_mono; [eapply assign_try_eni_outcome; eauto using range_elem|].
      intros [r|] s' Hs; [wp_steps; exact Hs|]. destruct Hs as [? Hel]. split; [done|].
      intros eniID' eni' [?|Hx]%elem_of_app; [eauto|].
      apply list_elem_of_singleton in Hx. naive_solver.
    + intros [ds' p' w''] [[= -> ->] Hdn]. wp_steps. apply AO_none; [done|].
      intros. eapply Hdn; eauto using range_all.
Qed.

End outcomes.

(** The addresses of one ENI, of the store after an update of one ENI. *)
Definition upd_addrs (eniID : string) (eni : ENIIPPool) (m : gmap string AddressInfo)
    (ds : DataStore) : DataStore :=
  set_pools (<[eniID := set_addrs m eni]> (eniIPPools ds)) ds.

Definition drop_eni (eniID : string) (eni : ENIIPPool) (ds : DataStore) : DataStore :=
  set_pools (delete eniID (eniIPPools ds)) (set_total (total ds - len (IPv4Addresses eni)) ds).

Definition mark_unassigned (k : PodKey) (eniID : string) (eni : ENIIPPool) (ip : string)
    (addr : AddressInfo) (now : Z) (ds : DataStore) : DataStore :=
  let addr' := mkAddressInfo (Address addr) false now in
  let eni' := set_lastUnassigned now
                (set_addrs (<[ip := addr']> (IPv4Addresses eni))
                   (set_nassigned (AssignedIPv4Addresses eni - 1) eni)) in
  set_pods (delete k (podsIP ds))
    (set_pools (<[eniID := eni']> (eniIPPools ds)) (set_assigned (assigned ds - 1) ds)).

Inductive addeni_outcome (eniID : string) (dev : Z) (prim : bool) : DP → option error → DP → Prop :=
| AEO_dup ds p eni :
    eniIPPools ds !! eniID = Some eni →
    addeni_outcome eniID dev prim (ds, p) (Some (EStr DuplicatedENIError)) (ds, p)
| AEO_ok ds p now :
    eniIPPools ds !! eniID = None →
    addeni_outcome eniID dev prim (ds, p) None
      (set_pools (<[eniID := mkENIIPPool now zeroTime prim eniID dev 0 ∅]> (eniIPPools ds)) ds,
       prom_set enis "" (len (<[eniID := mkENIIPPool now zeroTime prim eniID dev 0 ∅]> (eniIPPools ds))) p).

Inductive addip_outcome (eniID ip : string) : DP → option error → DP → Prop :=
| AIO_noeni ds p :
    eniIPPools ds !! eniID = None →
    addip_outcome eniID ip (ds, p) (Some (EStr "add ENI's IP to datastore: unknown ENI")) (ds, p)
| AIO_dup ds p eni addr :
    eniIPPools ds !! eniID = Some eni → IPv4Addresses eni !! ip = Some addr →
    addip_outcome eniID ip (ds, p) (Some (EStr DuplicateIPError)) (ds, p)
| AIO_ok ds p eni :
    eniIPPools ds !! eniID = Some eni → IPv4Addresses eni !! ip = None →
    addip_outcome eniID ip (ds, p) None
      (upd_addrs eniID eni (<[ip := mkAddressInfo ip false zeroTime]> (IPv4Addresses eni))
         (set_total (total ds + 1) ds),
       prom_set totalIPs "" (total ds + 1) p).

Inductive delip_outcome (eniID ip : string) : DP → option error → DP → Prop :=
| DIO_noeni ds p :
    eniIPPools ds !! eniID = None →
    delip_outcome eniID ip (ds, p) (Some (EStr UnknownENIError)) (ds, p)
| DIO_noip ds p eni :
    eniIPPools ds !! eniID = Some eni → IPv4Addresses eni !! ip = None →
    delip_outcome eniID ip (ds, p) (Some (EStr UnknownIPError)) (ds, p)
| DIO_used ds p eni addr :
    eniIPPools ds !! eniID = Some eni → IPv4Addresses eni !! ip = Some addr →
    Assigned addr = true →
    delip_outcome eniID ip (ds, p) (Some (EStr IPInUseError)) (ds, p)
| DIO_ok ds p eni addr :
    eniIPPools ds !! eniID = Some eni → IPv4Addresses eni !! ip = Some addr →
    Assigned addr = false →
    delip_outcome eniID ip (ds, p) None
      (upd_addrs eniID eni (delete ip (IPv4Addresses eni)) (set_total (total ds - 1) ds),
       prom_set totalIPs "" (total ds - 1) p).

Inductive rmeni_outcome (eniID : string) : DP → option error → DP → Prop :=
| REO_noeni ds p :
    eniIPPools ds !! eniID = None →
    rmeni_outcome eniID (ds, p) (Some (EStr UnknownENIError)) (ds, p)
| REO_used ds p eni :
    eniIPPools ds !! eniID = Some eni → AssignedIPv4Addresses eni ≠ 0 →
    rmeni_outcome eniID (ds, p) (Some (EStr ENIInUseError)) (ds, p)
| REO_ok ds p eni :
    eniIPPools ds !! eniID = Some eni → AssignedIPv4Addresses eni = 0 →
    rmeni_outcome eniID (ds, p) None
      (drop_eni eniID eni ds, prom_set enis "" (len (eniIPPools (drop_eni eniID eni ds))) p).

(** Available addresses of all ENIs but one ([isRequiredForWarmIPTarget]). *)
Definition warm (e : ENIIPPool) : Z := len (IPv4Addresses e) - AssignedIPv4Addresses e.

Definition otherWarm (eni : ENIIPPool) (ds : DataStore) : Z :=
  map_sum (λ other, if bool_decide (ID other ≠ ID eni) then warm other else 0) (eniIPPools ds).

(** What [getDeletableENI] has checked of the ENI it returns, at clock
    readings [t1] and [t2]. *)
Definition deletable (warmIPTarget t1 t2 : Z) (ds : DataStore) (eni : ENIIPPool) : Prop :=
  IsPrimary eni = false ∧ minLifeTime ≤ Sub t1 (createTime eni) ∧
  addressENICoolingPeriod ≤ Sub t2 (lastUnassignedTime eni) ∧
  AssignedIPv4Addresses eni = 0 ∧
  (warmIPTarget = 0 ∨ warmIPTarget ≤ otherWarm eni ds).

Inductive rmunused_outcome (warmIPTarget now : Z) : DP → string → DP → Prop :=
| RUO_none ds p :
    (∀ id eni, eniIPPools ds !! id = Some eni → ¬ deletable warmIPTarget now now ds eni) →
    rmunused_outcome warmIPTarget now (ds, p) ""%string (ds, p)
| RUO_ok ds p id eni t1 t2 pool :
    eniIPPools ds !! id = Some eni → now ≤ t1 → now ≤ t2 →
    deletable warmIPTarget t1 t2 ds eni →
    eniIPPools ds !! ID eni = Some pool →
    rmunused_outcome warmIPTarget now (ds, p) (ID eni)
      (drop_eni (ID eni) pool ds,
       prom_set totalIPs "" (total ds - len (IPv4Addresses pool))
         (prom_set enis "" (len (delete (ID eni) (eniIPPools ds))) p)).

Inductive unassign_outcome (pod : K8SPodInfo) (t0 t1 : Z) : DP → string * Z * option error → DP → Prop :=
| UO_unknown ds p :
    podsIP ds !! podKey pod = None →
    unassign_outcome pod t0 t1 (ds, p) (""%string, 0, Some ErrUnknownPod) (ds, p)
| UO_noip ds p i :
    podsIP ds !! podKey pod = Some i →
    (∀ eniID eni addr, eniIPPools ds !! eniID = Some eni →
       IPv4Addresses eni !! IP i = Some addr → Assigned addr = false) →
    unassign_outcome pod t0 t1 (ds, p) (""%string, 0, Some ErrUnknownPodIP) (ds, p)
| UO_ok ds p i eniID eni addr now :
    podsIP ds !! podKey pod = Some i →
    eniIPPools ds !! eniID = Some eni → IPv4Addresses eni !! IP i = Some addr →
    Assigned addr = true → t0 ≤ now ≤ t1 →
    unassign_outcome pod t0 t1 (ds, p) (Address addr, DeviceNumber eni, None)
      (mark_unassigned (podKey pod) eniID eni (IP i) addr now ds,
       prom_set assignedIPs "" (assigned ds - 1) p).

Section outcomes2.
Context {W : Type} `{!World W} `{!WorldOk W}.
Implicit Types (ds : DataStore) (p : Prom) (w : W).

Lemma AddENI_outcome eniID dev prim (s : DSt W) :
  wp False (AddENI eniID dev prim) (λ r s', addeni_outcome eniID dev prim (dp s) r (dp s')) s.
Proof.
  destruct s as [ds p w]. unfold AddENI. do 2 wp_step. wp_case H; wp_steps.
  - by eapply AEO_dup.
  - by apply AEO_ok.
Qed.

Lemma AddIPv4AddressFromStore_outcome eniID ip (s : DSt W) :
  wp False (AddIPv4AddressFromStore eniID ip) (λ r s', addip_outcome eniID ip (dp s) r (dp s')) s.
Proof.
  destruct s as [ds p w]. unfold AddIPv4AddressFromStore. do 2 wp_step. wp_case H; wp_steps.
  - wp_case H'; wp_steps; [by eapply AIO_dup|by eapply AIO_ok].
  - by apply AIO_noeni.
Qed.

Lemma DelIPv4AddressFromStore_outcome eniID ip (s : DSt W) :
  wp False (DelIPv4AddressFromStore eniID ip) (λ r s', delip_outcome eniID ip (dp s) r (dp s')) s.
Proof.
  destruct s as [ds p w]. unfold DelIPv4AddressFromStore. do 2 wp_step. wp_case H; wp_steps.
  - wp_case H'; [wp_case Ha|]; wp_steps.
    + by eapply DIO_used.
    + by eapply DIO_ok.
    + by eapply DIO_noip.
  - by apply DIO_noeni.
Qed.

Lemma RemoveENIFromDataStore_outcome eniID (s : DSt W) :
  wp False (RemoveENIFromDataStore eniID) (λ r s', rmeni_outcome eniID (dp s) r (dp s')) s.
Proof.
  destruct s as [ds p w]. unfold RemoveENIFromDataStore. do 2 wp_step. wp_case H; wp_steps.
  - case_bool_decide; simpl; wp_steps; [by eapply REO_ok|by eapply REO_used].
  - by apply REO_noeni.
Qed.

Lemma UnassignPodIPv4Address_outcome pod (s : DSt W) :
  wp False (UnassignPodIPv4Address pod) 
    (λ r s', unassign_outcome pod (clock (d_world s)) (clock (d_world s')) (dp s) r (dp s')) s.
Proof.
  destruct s as [ds p w]; simpl. unfold UnassignPodIPv4Address. do 2 wp_step.
  wp_case Hpod; [|wp_steps; by apply UO_unknown]. wp_steps.
  eapply (wp_find_loop _ _ _ (λ dn s', dp s' = (ds, p) ∧ clock w ≤ clock (d_world s') ∧
    ∀ eniID eni, (eniID, eni) ∈ dn → ∀ addr, IPv4Addresses eni !! IP p0 = Some addr →
      Assigned addr = false)).
  - split_and!; [done..|]. set_solver.
  - intros dn [eniID eni] rest [ds' p' w''] Hl ([= -> ->] & ? & Hdn).
    assert (eniIPPools ds !! eniID = Some eni) by eauto using range_elem.
    unfold unassign_try. wp_case Hip; [wp_case Has|]; wp_steps.
    1: by eapply (UO_ok _ _ _ _ _ p0 eniID eni a (clock w'')).
    all: split_and!; [done..|]; intros id' eni' [?|Hx]%elem_of_app; [by eauto|];
      apply list_elem_of_singleton in Hx; naive_solver.
  - intros [ds' p' w''] ([= -> ->] & ? & Hdn). wp_steps. eapply UO_noip; [done|].
    intros. eapply Hdn; eauto using range_all.
Qed.

(** ** The deletable ENI *)

Lemma isRequiredForWarmIPTarget_spec t eni ds p w :
  wp False (isRequiredForWarmIPTarget t eni)
    (λ b s', dp s' = (ds, p) ∧ clock w ≤ clock (d_world s') ∧
       b = bool_decide (otherWarm eni ds < t)) (mkDSt ds p w).
Proof.
  unfold isRequiredForWarmIPTarget. wp_steps.
  set (g := λ other : ENIIPPool, if bool_decide (ID other ≠ ID eni) then warm other else 0).
  eapply (wp_fold_loop _ _ _ _ (λ dn acc s', dp s' = (ds, p) ∧ clock w ≤ clock (d_world s') ∧
    acc = foldr (λ kx acc, g kx.2 + acc) 0 (reverse dn))).
  - done.
  - intros dn [id other] rest acc [ds' p' w''] _ ([= -> ->] & ? & ->).
    rewrite reverse_snoc. cbn [foldr snd]. assert (g other = g other) as Hg by done.
    unfold g at 2 in Hg. revert Hg. case_bool_decide; intros Hg; wp_steps;
      (split_and!; [done..|]); rewrite Hg; unfold warm; lia.
  - intros acc s' (? & ? & ->). wp_steps. split_and!; [done..|]. unfold otherWarm.
    rewrite (map_sum_list g (eniIPPools ds)); [done|]. by rewrite reverse_Permutation.
Qed.

Lemma deletable_mono t t1 t2 t1' t2' ds eni :
  deletable t t1 t2 ds eni → t1 ≤ t1' → t2 ≤ t2' → deletable t t1' t2' ds eni.
Proof. unfold deletable, Sub. intros. destruct_and!. split_and!; try done; lia. Qed.

Lemma deletable_try_spec t now id eni ds p w :
  now ≤ clock w →
  wp False (deletable_try t (id, eni))
    (λ o s', dp s' = (ds, p) ∧ now ≤ clock (d_world s') ∧
       match o with
       | Some e => e = eni ∧ ∃ t1 t2, now ≤ t1 ∧ now ≤ t2 ∧ deletable t t1 t2 ds eni
       | None => ¬ deletable t now now ds eni
       end) (mkDSt ds p w).
Proof.
  intros Hnow. unfold deletable_try, isTooYoung, hasIPInCooling, hasPods.
  wp_case Hprim; [wp_steps; split_and!; [done..|]; intros (? & _); congruence|].
  wp_steps. case_bool_decide as Hy; wp_steps.
  { split_and!; [done|simpl; lia|]. unfold deletable, Sub in *. lia. }
  case_bool_decide as Hc; wp_steps.
  { split_and!; [done|simpl; lia|]. unfold deletable, Sub in *. lia. }
  case_bool_decide as Ha; simpl.
  2: { wp_steps. split_and!; [done|simpl; lia|]. unfold deletable. naive_solver. }
  wp_step. eapply (wp_mono _ _ (λ b s', dp s' = (ds, p) ∧ now ≤ clock (d_world s') ∧
    b = (negb (bool_decide (t = 0)) && bool_decide (otherWarm eni ds < t)))).
  { case_bool_decide; simpl.
    - wp_steps. split_and!; [done|simpl; lia|done].
    - eapply wp_mono; [apply isRequiredForWarmIPTarget_spec|]. simpl.
      intros b s' (? & ? & ->). split_and!; [done|lia|done]. }
  intros b s' (Hs & ? & ->).
  case_bool_decide; simpl; [|case_bool_decide]; wp_steps; (split_and!; [done..|]).
  - exists (clock w), (clock w'). unfold deletable. split_and!; try done; lia.
  - unfold deletable. lia.
  - exists (clock w), (clock w'). unfold deletable. split_and!; try done; lia.
Qed.

Lemma getDeletableENI_spec t ds p w :
  wp False (getDeletableENI t)
    (λ o s', dp s' = (ds, p) ∧
       match o with
       | Some e => ∃ id t1 t2, eniIPPools ds !! id = Some e ∧
                     clock w ≤ t1 ∧ clock w ≤ t2 ∧ deletable t t1 t2 ds e
       | None => ∀ id e, eniIPPools ds !! id = Some e → ¬ deletable t (clock w) (clock w) ds e
       end) (mkDSt ds p w).
Proof.
  unfold getDeletableENI. wp_steps.
  eapply (wp_find_loop _ _ _ (λ dn s', dp s' = (ds, p) ∧ clock w ≤ clock (d_world s') ∧
    ∀ id e, (id, e) ∈ dn → ¬ deletable t (clock w) (clock w) ds e)).
  - split_and!; [done|done|]. set_solver.
  - intros dn [id eni] rest [ds' p' w''] Hl ([= -> ->] & Hw & Hdn).
    eapply wp_mono; [by apply (deletable_try_spec _ (clock w))|].
    intros [e|] s' (Hs & ? & He).
    + split; [done|]. destruct He as (-> & t1 & t2 & ? & ? & ?).
      exists id, t1, t2. eauto using range_elem.
    + split_and!; [done|done|]. intros id' e' [?|Hx]%elem_of_app; [eauto|].
      apply list_elem_of_singleton in Hx. naive_solver.
  - intros s' (? & ? & Hdn). split; [done|]. intros. eapply Hdn; eauto using range_all.
Qed.

Lemma RemoveUnusedENIFromStore_outcome t (s : DSt W) :
  (∀ id eni, eniIPPools (d_ds s) !! id = Some eni → ID eni = id) →
  wp False (RemoveUnusedENIFromStore t)
    (λ r s', rmunused_outcome t (clock (d_world s)) (dp s) r (dp s')) s.
Proof.
  destruct s as [ds p w]; simpl. intros Hid. unfold RemoveUnusedENIFromStore. wp_step.
  eapply wp_mono; [apply getDeletableENI_spec|].
  intros [e|] [ds' p' w'] [[= -> ->] He].
  - destruct He as (id & t1 & t2 & Hl & ? & ? & Hd). do 2 wp_step.
    pose proof (Hid _ _ Hl). subst. rewrite Hl. wp_steps. eapply RUO_ok; [exact Hl|..|exact Hd|exact Hl]; done.
  - wp_steps. by apply RUO_none.
Qed.

(** ** Queries *)

Lemma GetENINeedsIP_spec maxIP skipPrimary ds p w :
  wp False (GetENINeedsIP maxIP skipPrimary)
    (λ o s', dp s' = (ds, p) ∧
       match o with
       | Some e => ∃ id, eniIPPools ds !! id = Some e ∧
                     ¬ (skipPrimary = true ∧ IsPrimary e = true) ∧ len (IPv4Addresses e) < maxIP
       | None => ∀ id e, eniIPPools ds !! id = Some e →
                   (skipPrimary = true ∧ IsPrimary e = true) ∨ maxIP ≤ len (IPv4Addresses e)
       end) (mkDSt ds p w).
Proof.
  unfold GetENINeedsIP. wp_steps.
  eapply (wp_find_loop _ _ _ (λ dn s', dp s' = (ds, p) ∧
    ∀ id e, (id, e) ∈ dn →
      (skipPrimary = true ∧ IsPrimary e = true) ∨ maxIP ≤ len (IPv4Addresses e))).
  - split; [done|]. set_solver.
  - intros dn [id e] rest [ds' p' w''] Hl [[= -> ->] Hdn].
    assert (eniIPPools ds !! id = Some e) by eauto using range_elem.
    destruct (skipPrimary && IsPrimary e) eqn:Hsk; [|case_bool_decide]; wp_steps; (split; [done|]).
    + intros id' e' [?|Hx]%elem_of_app; [by eauto|].
      apply list_elem_of_singleton in Hx. apply andb_true_iff in Hsk. naive_solver.
    + exists id. split_and!; [done| |done]. intros [-> ?]. simpl in Hsk. congruence.
    + intros id' e' [?|Hx]%elem_of_app; [by eauto|].
      apply list_elem_of_singleton in Hx. right. simplify_eq. lia.
  - intros s' [? Hdn]. split; [done|]. intros. eapply Hdn; eauto using range_all.
Qed.

Lemma GetPodInfos_spec ds p w :
  wp False GetPodInfos
    (λ m s', dp s' = (ds, p) ∧
       (∀ key i, m !! key = Some i → ∃ k, podInfoKey k = key ∧ podsIP ds !! k = Some i) ∧
       (∀ k, is_Some (podsIP ds !! k) → is_Some (m !! podInfoKey k))) (mkDSt ds p w).
Proof.
  unfold GetPodInfos. wp_steps.
  eapply (wp_fold_loop _ _ _ _ (λ dn m s', dp s' = (ds, p) ∧
    (∀ key i, m !! key = Some i → ∃ k, podInfoKey k = key ∧ podsIP ds !! k = Some i) ∧
    (∀ k i, (k, i) ∈ dn → is_Some (m !! podInfoKey k)))).
  - split_and!; [done| |set_solver]. intros key i. by rewrite lookup_empty.
  - intros dn [k i] rest m [ds' p' w''] Hl ([= -> ->] & Hm & Hdn). wp_steps.
    split_and!; [done| |].
    + intros key i' [[<- <-]|[_ ?]]%lookup_insert_Some; [|by eauto]. eauto using range_elem.
    + intros k' i' Hin. apply lookup_insert_is_Some'. apply elem_of_app in Hin as [?|Hx]; [by eauto|].
      apply list_elem_of_singleton in Hx. naive_solver.
  - intros m s' (? & ? & Hdn). split_and!; [done..|]. intros k [i Hi]. eauto using range_all.
Qed.

End outcomes2.

(** ** The invariant of the counters *)

Definition addr_count (a : AddressInfo) : Z := if Assigned a then 1 else 0.

(** A pool is stored under its own ID, every address under its own name, and
    [AssignedIPv4Addresses] counts the assigned addresses. *)
Definition pool_wf (id : string) (e : ENIIPPool) : Prop :=
  ID e = id ∧ AssignedIPv4Addresses e = map_sum addr_count (IPv4Addresses e) ∧
  (∀ ip a, IPv4Addresses e !! ip = Some a → Address a = ip).

(** [total] and [assigned] count the addresses of all the ENIs and the
    assigned ones. *)
Definition ds_wf (ds : DataStore) : Prop :=
  (∀ id e, eniIPPools ds !! id = Some e → pool_wf id e) ∧
  total ds = map_sum (λ e, len (IPv4Addresses e)) (eniIPPools ds) ∧
  assigned ds = map_sum AssignedIPv4Addresses (eniIPPools ds).

Lemma ds_wf_new : ds_wf NewDataStore.
Proof. split_and!; [|done|done]. intros id e. simpl. by rewrite lookup_empty. Qed.

Lemma len_insert_new {K A} `{Countable K} (m : gmap K A) k x :
  m !! k = None → len (<[k := x]> m) = len m + 1.
Proof. intros. unfold len. rewrite map_size_insert_None by done. lia. Qed.

Lemma len_insert {K A} `{Countable K} (m : gmap K A) k x y :
  m !! k = Some y → len (<[k := x]> m) = len m.
Proof. intros. unfold len. by erewrite map_size_insert_Some. Qed.

Lemma len_delete {K A} `{Countable K} (m : gmap K A) k x :
  m !! k = Some x → len (delete k m) = len m - 1.
Proof.
  intros Hk. unfold len. rewrite map_size_delete_Some by eauto.
  enough (0 < size m)%nat by lia. apply Nat.neq_0_lt_0. intros Hz.
  apply map_size_empty_iff in Hz. subst. by rewrite lookup_empty in Hk.
Qed.

Lemma len_sum {K A} `{Countable K} (m : gmap K A) : len m = map_sum (λ _, 1) m.
Proof. rewrite map_sum_const. unfold len. lia. Qed.

Lemma addr_count_range a : 0 ≤ addr_count a ≤ 1.
Proof. unfold addr_count. case_match; lia. Qed.

(** Available addresses are the addresses less the assigned ones, per ENI. *)
Lemma pool_wf_warm id e : pool_wf id e → 0 ≤ AssignedIPv4Addresses e ≤ len (IPv4Addresses e).
Proof.
  intros (_ & -> & _). rewrite len_sum. split.
  - apply map_sum_nonneg. intros. apply addr_count_range.
  - apply map_sum_le. intros. apply addr_count_range.
Qed.

Lemma pool_wf_full id e ip a :
  pool_wf id e → len (IPv4Addresses e) = AssignedIPv4Addresses e →
  IPv4Addresses e !! ip = Some a → Assigned a = true.
Proof.
  intros (_ & Hc & _) Heq Ha. rewrite Hc, len_sum in Heq.
  assert (map_sum (λ a, 1 - addr_count a) (IPv4Addresses e) = 0) as Hz
    by (rewrite map_sum_sub; lia).
  apply (map_sum_zero _ _ ip a) in Hz; [| |done].
  - unfold addr_count in Hz. destruct (Assigned a); [done|lia].
  - intros j y _. pose proof (addr_count_range y). lia.
Qed.

Lemma pool_wf_unused id e ip a :
  pool_wf id e → AssignedIPv4Addresses e = 0 → IPv4Addresses e !! ip = Some a → Assigned a = false.
Proof.
  intros (_ & Hc & _) Heq Ha. rewrite Hc in Heq.
  apply (map_sum_zero _ _ ip a) in Heq; [| |done].
  - unfold addr_count in Heq. by destruct (Assigned a).
  - intros j y _. apply addr_count_range.
Qed.

Lemma pool_wf_used id e :
  pool_wf id e → AssignedIPv4Addresses e ≠ 0 →
  ∃ ip a, IPv4Addresses e !! ip = Some a ∧ Assigned a = true.
Proof.
  intros (_ & Hc & _). rewrite Hc. clear Hc. induction (IPv4Addresses e) as [|ip a m Hi IH] using map_ind.
  - by rewrite map_sum_empty.
  - rewrite map_sum_insert_new by done. destruct (Assigned a) eqn:Ha.
    + intros _. exists ip, a. by rewrite lookup_insert_eq.
    + unfold addr_count at 1. rewrite Ha. intros Hne. destruct IH as (ip' & a' & Ha' & ?); [lia|].
      exists ip', a'. rewrite lookup_insert_ne; [done|]. congruence.
Qed.

(** An update of one ENI keeps the invariant when the counters move with it. *)
Lemma ds_wf_replace ds id e e' dt da pods :
  ds_wf ds → eniIPPools ds !! id = Some e → pool_wf id e' →
  len (IPv4Addresses e') = len (IPv4Addresses e) + dt →
  AssignedIPv4Addresses e' = AssignedIPv4Addresses e + da →
  ds_wf (mkDataStore (total ds + dt) (assigned ds + da) (<[id := e']> (eniIPPools ds)) pods).
Proof.
  intros (Hp & Ht & Ha) He He' Hdt Hda. split_and!; simpl.
  - intros i x [[<- <-]|[_ ?]]%lookup_insert_Some; eauto.
  - rewrite (map_sum_insert _ _ _ _ e) by done. lia.
  - rewrite (map_sum_insert _ _ _ _ e) by done. lia.
Qed.

Lemma pool_wf_set id e e' ip a a' d :
  pool_wf id e → IPv4Addresses e !! ip = Some a → ID e' = ID e →
  Address a' = Address a → addr_count a' = addr_count a + d →
  IPv4Addresses e' = <[ip := a']> (IPv4Addresses e) →
  AssignedIPv4Addresses e' = AssignedIPv4Addresses e + d → pool_wf id e'.
Proof.
  intros (Hid & Hc & Hk) Ha Hid' Haa Hd Hm Hn. split_and!.
  - congruence.
  - rewrite Hn, Hc, Hm, (map_sum_insert _ _ _ _ a) by done. lia.
  - intros ip' x. rewrite Hm. intros [[<- <-]|[_ ?]]%lookup_insert_Some; [|eauto].
    rewrite Haa. eauto.
Qed.

(** Every operation keeps the counters in step. *)
Lemma assign_wf pod now ds p r ds' p' :
  assign_outcome pod now (ds, p) r (ds', p') → ds_wf ds → ds_wf ds'.
Proof.
  intros H Hwf. inversion H; subst; try done.
  unfold add_pod, mark_assigned, set_pods, set_pools, set_assigned; simpl.
  replace (total ds) with (total ds + 0) by lia.
  eapply (ds_wf_replace ds eniID eni _ 0 1); [done|done| |simpl; rewrite (len_insert _ _ _ addr) by done; lia|done].
  eapply (pool_wf_set _ eni _ ip addr (mkAddressInfo (Address addr) true (UnassignedTime addr)) 1); [by apply Hwf|done..| |done|done].
  unfold addr_count; simpl. case_match; [congruence|done].
Qed.

Lemma unassign_wf pod t0 t1 ds p r ds' p' :
  unassign_outcome pod t0 t1 (ds, p) r (ds', p') → ds_wf ds → ds_wf ds'.
Proof.
  intros H Hwf. inversion H; subst; try done.
  unfold mark_unassigned, set_pods, set_pools, set_assigned; simpl.
  replace (total ds) with (total ds + 0) by lia.
  eapply (ds_wf_replace ds eniID eni _ 0 (-1)); [done|done| |simpl; rewrite (len_insert _ _ _ addr) by done; lia|done].
  eapply (pool_wf_set _ eni _ (IP i) addr (mkAddressInfo (Address addr) false now) (-1)); [by apply Hwf|done..| |done|done].
  unfold addr_count; simpl. case_match; [done|congruence].
Qed.

Lemma addeni_wf id dev prim ds p r ds' p' :
  addeni_outcome id dev prim (ds, p) r (ds', p') → ds_wf ds → ds_wf ds'.
Proof.
  intros H (Hp & Ht & Ha). inversion H; subst; try done. split_and!; simpl.
  - intros i x [[<- <-]|[_ ?]]%lookup_insert_Some; [|by eauto].
    split_and!; [done|done|]. intros ip a. simpl. by rewrite lookup_empty.
  - rewrite map_sum_insert_new by done. done.
  - rewrite map_sum_insert_new by done. done.
Qed.

Lemma addip_wf id ip ds p r ds' p' :
  addip_outcome id ip (ds, p) r (ds', p') → ds_wf ds → ds_wf ds'.
Proof.
  intros H Hwf. inversion H as [| |? ? eni Heni Hip]; subst; try done.
  unfold upd_addrs, set_pools, set_total; simpl.
  replace (assigned ds) with (assigned ds + 0) by lia.
  eapply (ds_wf_replace ds id eni _ 1 0); [done|done| |simpl; by rewrite len_insert_new|simpl; lia].
  destruct (proj1 Hwf _ _ Heni) as (Hid & Hc & Hk). split_and!; simpl; [done| |].
  - rewrite map_sum_insert_new by done. done.
  - intros ip' x [[<- <-]|[_ ?]]%lookup_insert_Some; [done|]. eauto.
Qed.

Lemma delip_wf id ip ds p r ds' p' :
  delip_outcome id ip (ds, p) r (ds', p') → ds_wf ds → ds_wf ds'.
Proof.
  intros H Hwf. inversion H as [| | |? ? eni addr Heni Hip Has]; subst; try done.
  unfold upd_addrs, set_pools, set_total; simpl.
  replace (assigned ds) with (assigned ds + 0) by lia.
  replace (total ds - 1) with (total ds + -1) by lia.
  eapply (ds_wf_replace ds id eni _ (-1) 0); [done|done| |simpl; by rewrite (len_delete _ _ addr)|simpl; lia].
  destruct (proj1 Hwf _ _ Heni) as (Hid & Hc & Hk). split_and!; simpl; [done| |].
  - rewrite (map_sum_delete _ _ _ addr) by done. unfold addr_count at 2. rewrite Has. lia.
  - intros ip' x [_ ?]%lookup_delete_Some. eauto.
Qed.

Lemma drop_eni_wf id e ds :
  ds_wf ds → eniIPPools ds !! id = Some e → AssignedIPv4Addresses e = 0 →
  ds_wf (drop_eni id e ds).
Proof.
  intros (Hp & Ht & Ha) He H0. split_and!; simpl.
  - intros i x [_ ?]%lookup_delete_Some. eauto.
  - rewrite (map_sum_delete _ _ _ e) by done. lia.
  - rewrite (map_sum_delete _ _ _ e) by done. lia.
Qed.

Lemma rmeni_wf id ds p r ds' p' :
  rmeni_outcome id (ds, p) r (ds', p') → ds_wf ds → ds_wf ds'.
Proof. intros H Hwf. inversion H; subst; try done. by apply drop_eni_wf. Qed.

Lemma rmunused_wf t now ds p r ds' p' :
  rmunused_outcome t now (ds, p) r (ds', p') → ds_wf ds → ds_wf ds'.
Proof.
  intros H Hwf. inversion H as [|? ? id eni ? ? pool Hl ? ? Hd Hl']; subst; try done.
  pose proof (proj1 (proj1 Hwf _ _ Hl)). subst. rewrite Hl in Hl'. simplify_eq.
  destruct Hd as (_ & _ & _ & ? & _). by apply drop_eni_wf.
Qed.
