(* ===== verification/DataStoreSpec.v ===== *)
(** * What the data store promises

    The store as its callers see it: a set of ENIs with device numbers, and for
    every address the ENI it belongs to and whether it is free (since when) or
    used (by which pod).  [spec_step] gives the promised effect and result of
    every call; [store_refines] says that the code does what is promised.  The
    calls the store relies on its callers for are stated as [call_ok]. *)
From S2P Require Import Prelude GoStd DataStore DataStoreInv.

Open Scope Z_scope.

(** ** The abstract store *)

Inductive ip_state : Type :=
| Free (since : Z)
| Used (pod : PodKey).

Record Spec := mkSpec {
  sp_enis : gmap string Z;
  sp_ips : gmap string (string * ip_state);
}.

Definition spec_new : Spec := mkSpec ∅ ∅.

(** A call of an operation that changes the store, and what it returned. *)
Inductive ds_call : Type :=
| CAddENI (id : string) (dev : Z) (prim : bool)
| CAddIP (id ip : string)
| CDelIP (id ip : string)
| CAssign (pod : K8SPodInfo)
| CUnassign (pod : K8SPodInfo)
| CRemoveENI (id : string)
| CRemoveUnused (warmIPTarget : Z).

Inductive ds_ret : Type :=
| RErr (err : option error)
| RIP (ip : string) (dev : Z) (err : option error)
| RENI (id : string).

(** An address is free for a pod that names no address when it has not been
    used for the cooling period. *)
Definition cooled (now since : Z) : Prop := Sub now since > addressCoolingPeriod.

Definition set_ip (ip : string) (st : string * ip_state) (sp : Spec) : Spec :=
  mkSpec (sp_enis sp) (<[ip := st]> (sp_ips sp)).

(** The abstract store without an ENI. *)
Definition spec_drop (id : string) (sp : Spec) : Spec :=
  mkSpec (delete id (sp_enis sp)) (filter (λ kv, kv.2.1 ≠ id) (sp_ips sp)).

Definition eni_free (sp : Spec) (id : string) : Prop :=
  ∀ ip st, sp_ips sp !! ip = Some (id, st) → ∃ t, st = Free t.

Inductive spec_step (now : Z) (sp : Spec) : ds_call → ds_ret → Spec → Prop :=
| SAddENI id dev prim :
    sp_enis sp !! id = None →
    spec_step now sp (CAddENI id dev prim) (RErr None)
      (mkSpec (<[id := dev]> (sp_enis sp)) (sp_ips sp))
| SAddENI_dup id dev prim :
    is_Some (sp_enis sp !! id) →
    spec_step now sp (CAddENI id dev prim) (RErr (Some (EStr DuplicatedENIError))) sp
| SAddIP id ip :
    is_Some (sp_enis sp !! id) → sp_ips sp !! ip = None →
    spec_step now sp (CAddIP id ip) (RErr None) (set_ip ip (id, Free zeroTime) sp)
| SAddIP_dup id ip st :
    sp_ips sp !! ip = Some (id, st) →
    spec_step now sp (CAddIP id ip) (RErr (Some (EStr DuplicateIPError))) sp
| SAddIP_noeni id ip :
    sp_enis sp !! id = None →
    spec_step now sp (CAddIP id ip)
      (RErr (Some (EStr "add ENI's IP to datastore: unknown ENI"))) sp
| SDelIP id ip t :
    sp_ips sp !! ip = Some (id, Free t) →
    spec_step now sp (CDelIP id ip) (RErr None) (mkSpec (sp_enis sp) (delete ip (sp_ips sp)))
| SDelIP_used id ip k :
    sp_ips sp !! ip = Some (id, Used k) →
    spec_step now sp (CDelIP id ip) (RErr (Some (EStr IPInUseError))) sp
| SDelIP_noeni id ip :
    sp_enis sp !! id = None →
    spec_step now sp (CDelIP id ip) (RErr (Some (EStr UnknownENIError))) sp
| SDelIP_noip id ip :
    is_Some (sp_enis sp !! id) → (∀ st, sp_ips sp !! ip ≠ Some (id, st)) →
    spec_step now sp (CDelIP id ip) (RErr (Some (EStr UnknownIPError))) sp
| SAssign_known pod ip id dev :
    sp_ips sp !! ip = Some (id, Used (podKey pod)) → sp_enis sp !! id = Some dev →
    PodIP pod = ip →
    spec_step now sp (CAssign pod) (RIP ip dev None) sp
| SAssign_conflict pod ip id :
    sp_ips sp !! ip = Some (id, Used (podKey pod)) → PodIP pod ≠ ip →
    spec_step now sp (CAssign pod)
      (RIP "" 0 (Some (EStr "AssignPodIPv4Address: invalid pod with multiple IP addresses"))) sp
| SAssign pod ip id dev t :
    (∀ q id', sp_ips sp !! q ≠ Some (id', Used (podKey pod))) →
    sp_ips sp !! ip = Some (id, Free t) → sp_enis sp !! id = Some dev →
    (PodIP pod = ip ∨ (PodIP pod = ""%string ∧ cooled now t)) →
    spec_step now sp (CAssign pod) (RIP ip dev None) (set_ip ip (id, Used (podKey pod)) sp)
| SAssign_none pod :
    (∀ q id', sp_ips sp !! q ≠ Some (id', Used (podKey pod))) →
    (∀ ip id t, sp_ips sp !! ip = Some (id, Free t) →
       PodIP pod ≠ ip ∧ ¬ (PodIP pod = ""%string ∧ cooled now t)) →
    spec_step now sp (CAssign pod)
      (RIP "" 0 (Some (EStr "assignPodIPv4AddressUnsafe: no available IP addresses"))) sp
| SUnassign pod ip id dev t :
    sp_ips sp !! ip = Some (id, Used (podKey pod)) → sp_enis sp !! id = Some dev → now ≤ t →
    spec_step now sp (CUnassign pod) (RIP ip dev None) (set_ip ip (id, Free t) sp)
| SUnassign_unknown pod :
    (∀ q id', sp_ips sp !! q ≠ Some (id', Used (podKey pod))) →
    spec_step now sp (CUnassign pod) (RIP "" 0 (Some ErrUnknownPod)) sp
| SRemoveENI id :
    is_Some (sp_enis sp !! id) → eni_free sp id →
    spec_step now sp (CRemoveENI id) (RErr None) (spec_drop id sp)
| SRemoveENI_used id ip k :
    sp_ips sp !! ip = Some (id, Used k) →
    spec_step now sp (CRemoveENI id) (RErr (Some (EStr ENIInUseError))) sp
| SRemoveENI_unknown id :
    sp_enis sp !! id = None →
    spec_step now sp (CRemoveENI id) (RErr (Some (EStr UnknownENIError))) sp
| SRemoveUnused_none target :
    spec_step now sp (CRemoveUnused target) (RENI "") sp
| SRemoveUnused target id :
    is_Some (sp_enis sp !! id) → eni_free sp id →
    spec_step now sp (CRemoveUnused target) (RENI id) (spec_drop id sp).

(** What the callers have to respect: an address is a non-empty string, EC2
    does not give it to two ENIs, and a pod that names its address (a pod found
    running when the daemon starts) does not name the address of another. *)
Definition call_ok (ds : DataStore) (c : ds_call) : Prop :=
  match c with
  | CAddIP id ip =>
      ip ≠ ""%string ∧
      map_Forall (λ id' e, is_Some (IPv4Addresses e !! ip) → id' = id) (eniIPPools ds)
  | CAssign pod => map_Forall (λ k i, IP i = PodIP pod → k = podKey pod) (podsIP ds)
  | _ => True
  end.

#[global] Instance call_ok_dec ds c : Decision (call_ok ds c).
Proof. destruct c; simpl; apply _. Defined.

(** ** Running calls on the code *)

Section exec.
Context {W : Type} `{!World W}.

Definition ds_exec (c : ds_call) : M (DSt W) ds_ret :=
  match c with
  | CAddENI id dev prim => e ← AddENI id dev prim; mret (RErr e)
  | CAddIP id ip => e ← AddIPv4AddressFromStore id ip; mret (RErr e)
  | CDelIP id ip => e ← DelIPv4AddressFromStore id ip; mret (RErr e)
  | CAssign pod => r ← AssignPodIPv4Address pod; mret (RIP r.1.1 r.1.2 r.2)
  | CUnassign pod => r ← UnassignPodIPv4Address pod; mret (RIP r.1.1 r.1.2 r.2)
  | CRemoveENI id => e ← RemoveENIFromDataStore id; mret (RErr e)
  | CRemoveUnused t => id ← RemoveUnusedENIFromStore t; mret (RENI id)
  end.

(** One step of a process that uses the store: a call, or time passing. *)
Inductive ds_step : DSt W → DSt W → Prop :=
| DStep_call c r s s' : ds_exec c s = (Ret r, s') → ds_step s s'
| DStep_env ds p p' w w' : clock w ≤ clock w' →
    (∀ g, g ∈ [enis; totalIPs; assignedIPs] → prom_get g "" p' = prom_get g "" p) →
    ds_step (mkDSt ds p w) (mkDSt ds p' w').

(** A history of calls by callers that respect [call_ok], each labelled with
    the time it was made, and the same history of the abstract store. *)
Inductive ds_trace : DSt W → list (Z * ds_call * ds_ret) → DSt W → Prop :=
| DT_nil s : ds_trace s [] s
| DT_call s tr s1 c r s' :
    ds_trace s tr s1 → call_ok (d_ds s1) c → ds_exec c s1 = (Ret r, s') →
    ds_trace s (tr ++ [(clock (d_world s1), c, r)]) s'
| DT_env s tr ds p p' w w' :
    ds_trace s tr (mkDSt ds p w) → clock w ≤ clock w' →
    ds_trace s tr (mkDSt ds p' w').

(** Runs a list of calls; [None] if one of them violates [call_ok]. *)
Fixpoint ds_run (cs : list ds_call) (s : DSt W) : option (list (Z * ds_call * ds_ret) * DSt W) :=
  match cs with
  | [] => Some ([], s)
  | c :: cs =>
      if decide (call_ok (d_ds s) c) then
        match ds_exec c s with
        | (Ret r, s') =>
            '(tr, s'') ← ds_run cs s'; Some ((clock (d_world s), c, r) :: tr, s'')
        | _ => None
        end
      else None
  end.

Lemma ds_run_trace_app cs : ∀ s0 tr0 s tr s',
  ds_trace s0 tr0 s → ds_run cs s = Some (tr, s') → ds_trace s0 (tr0 ++ tr) s'.
Proof.
  induction cs as [|c cs IH]; simpl; intros s0 tr0 s tr s' Ht Hr.
  - simplify_eq. by rewrite app_nil_r.
  - case_decide as Hok; [|done]. destruct (ds_exec c s) as [[r| |] s1] eqn:Hex; [|done..].
    apply bind_Some in Hr as ([tr' s2] & Hr & [= <- <-]).
    assert (ds_trace s0 (tr0 ++ [(clock (d_world s), c, r)]) s1) as Ht' by (by eapply DT_call).
    pose proof (IH _ _ _ _ _ Ht' Hr) as Htr. by rewrite <-app_assoc in Htr.
Qed.

Lemma ds_run_trace cs s tr s' : ds_run cs s = Some (tr, s') → ds_trace s tr s'.
Proof. apply (ds_run_trace_app _ _ []). constructor. Qed.

Lemma ds_run_steps cs : ∀ s tr s', ds_run cs s = Some (tr, s') → rtc ds_step s s'.
Proof.
  induction cs as [|c cs IH]; simpl; intros s tr s' Hr; [by simplify_eq|].
  case_decide as Hok; [|done]. destruct (ds_exec c s) as [[r| |] s1] eqn:Hex; [|done..].
  apply bind_Some in Hr as ([tr' s2] & Hr & [= <- <-]).
  eapply rtc_l; [by eapply DStep_call|eauto].
Qed.

End exec.

Inductive spec_trace : Spec → list (Z * ds_call * ds_ret) → Spec → Prop :=
| ST_nil sp : spec_trace sp [] sp
| ST_call sp tr sp1 now c r sp' :
    spec_trace sp tr sp1 → spec_step now sp1 c r sp' →
    spec_trace sp (tr ++ [(now, c, r)]) sp'.

(** ** The refinement relation *)

Definition addr_of (ds : DataStore) (id ip : string) : option AddressInfo :=
  e ← eniIPPools ds !! id; IPv4Addresses e !! ip.

Definition dev_of (ds : DataStore) (id : string) : option Z :=
  DeviceNumber <$> eniIPPools ds !! id.

(** The state of an address [ip] of device [dev], stored as [a]. *)
Definition state_of (ds : DataStore) (ip : string) (dev : Z) (a : AddressInfo) (st : ip_state) : Prop :=
  match st with
  | Free t => Assigned a = false ∧ UnassignedTime a = t
  | Used k => Assigned a = true ∧ podsIP ds !! k = Some (mkPodIPInfo ip dev)
  end.

Record refines (ds : DataStore) (sp : Spec) : Prop := {
  R_wf : ds_wf ds;
  R_eni : ∀ id, sp_enis sp !! id = dev_of ds id;
  R_addr : ∀ id ip a dev, addr_of ds id ip = Some a → dev_of ds id = Some dev →
    ip ≠ ""%string ∧ ∃ st, sp_ips sp !! ip = Some (id, st) ∧ state_of ds ip dev a st;
  R_ip : ∀ ip id st, sp_ips sp !! ip = Some (id, st) → is_Some (addr_of ds id ip);
  R_pod : ∀ k i, podsIP ds !! k = Some i →
    ∃ id, sp_ips sp !! IP i = Some (id, Used k) ∧ dev_of ds id = Some (pi_DeviceNumber i);
  R_count : assigned ds = len (podsIP ds);
}.

(** How the two views of the store change. *)
Lemma addr_of_Some ds id ip a :
  addr_of ds id ip = Some a ↔
  ∃ e, eniIPPools ds !! id = Some e ∧ IPv4Addresses e !! ip = Some a.
Proof. unfold addr_of. apply bind_Some. Qed.

Lemma addr_of_dev ds id ip a : addr_of ds id ip = Some a → ∃ dev, dev_of ds id = Some dev.
Proof. intros (e & He & _)%addr_of_Some. unfold dev_of. rewrite He. eauto. Qed.

Lemma dev_of_Some ds id e : eniIPPools ds !! id = Some e → dev_of ds id = Some (DeviceNumber e).
Proof. unfold dev_of. by intros ->. Qed.

Lemma dev_of_replace ds ds' id e e' :
  eniIPPools ds' = <[id := e']> (eniIPPools ds) → eniIPPools ds !! id = Some e →
  DeviceNumber e' = DeviceNumber e → ∀ j, dev_of ds' j = dev_of ds j.
Proof.
  intros Hm He Hd j. unfold dev_of. rewrite Hm. destruct (decide (j = id)) as [->|].
  - rewrite lookup_insert_eq, He. simpl. by f_equal.
  - by rewrite lookup_insert_ne.
Qed.

Lemma addr_of_replace ds ds' id e e' ip oa :
  eniIPPools ds' = <[id := e']> (eniIPPools ds) → eniIPPools ds !! id = Some e →
  IPv4Addresses e' = partial_alter (λ _, oa) ip (IPv4Addresses e) →
  ∀ j q, addr_of ds' j q = if decide (j = id ∧ q = ip) then oa else addr_of ds j q.
Proof.
  intros Hm He Hd j q. unfold addr_of. rewrite Hm. destruct (decide (j = id)) as [->|].
  - rewrite lookup_insert_eq, He. simpl. rewrite Hd. destruct (decide (_ ∧ _)) as [[_ ->]|Hn].
    + apply lookup_partial_alter_eq.
    + rewrite lookup_partial_alter_ne; [done|]. naive_solver.
  - rewrite lookup_insert_ne by done. rewrite decide_False by naive_solver. done.
Qed.

Section refines.
Context {ds : DataStore} {sp : Spec} (HR : refines ds sp).

Lemma refines_addr_wf id ip a : addr_of ds id ip = Some a → Address a = ip.
Proof. intros (e & He & Ha)%addr_of_Some. eapply (R_wf _ _ HR); eauto. Qed.

(** What an entry of the abstract store says of the concrete one. *)
Lemma refines_entry ip id st :
  sp_ips sp !! ip = Some (id, st) →
  ∃ a dev, addr_of ds id ip = Some a ∧ dev_of ds id = Some dev ∧
    sp_enis sp !! id = Some dev ∧ state_of ds ip dev a st ∧ ip ≠ ""%string.
Proof.
  intros Hsp. destruct (R_ip _ _ HR _ _ _ Hsp) as [a Ha].
  destruct (addr_of_dev _ _ _ _ Ha) as [dev Hdev].
  destruct (R_addr _ _ HR _ _ _ _ Ha Hdev) as (Hne & st' & Hsp' & Hst). simplify_eq.
  exists a, dev. rewrite (R_eni _ _ HR). eauto.
Qed.

Lemma refines_nopod pod :
  podsIP ds !! pod = None → ∀ q id, sp_ips sp !! q ≠ Some (id, Used pod).
Proof.
  intros Hn q id (a & dev & _ & _ & _ & [_ ?] & _)%refines_entry. congruence.
Qed.

(** An address has one owner. *)
Lemma refines_pod_inj k k' i i' :
  podsIP ds !! k = Some i → podsIP ds !! k' = Some i' → IP i = IP i' → k = k'.
Proof.
  intros (id & H1 & _)%(R_pod _ _ HR) (id' & H2 & _)%(R_pod _ _ HR) Heq. congruence.
Qed.

Lemma refines_eni_some id e : eniIPPools ds !! id = Some e → is_Some (sp_enis sp !! id).
Proof. intros He. rewrite (R_eni _ _ HR). unfold dev_of. rewrite He. eauto. Qed.

Lemma refines_eni_none id : eniIPPools ds !! id = None → sp_enis sp !! id = None.
Proof. intros He. rewrite (R_eni _ _ HR). unfold dev_of. by rewrite He. Qed.

End refines.

(** An operation that changes one address [ip] of [id], and the pods using it. *)
Lemma refines_alter ds sp ds' id ip dev oa ost :
  refines ds sp → ds_wf ds' → dev_of ds id = Some dev → ip ≠ ""%string →
  (∀ j, dev_of ds' j = dev_of ds j) →
  (∀ j q, addr_of ds' j q = if decide (j = id ∧ q = ip) then oa else addr_of ds j q) →
  (∀ j st, sp_ips sp !! ip = Some (j, st) → j = id) →
  (match oa, ost with
   | Some a, Some st => state_of ds' ip dev a st
   | None, None => True
   | _, _ => False
   end) →
  (∀ k i, podsIP ds' !! k = Some i →
     (IP i = ip ∧ pi_DeviceNumber i = dev ∧ ost = Some (Used k)) ∨
     (IP i ≠ ip ∧ podsIP ds !! k = Some i)) →
  (∀ k i, podsIP ds !! k = Some i → IP i ≠ ip → podsIP ds' !! k = Some i) →
  assigned ds' = len (podsIP ds') →
  refines ds' (mkSpec (sp_enis sp) (partial_alter (λ _, (id,.) <$> ost) ip (sp_ips sp))).
Proof.
  intros HR Hwf Hdev Hne Hdevs Haddrs Huniq Hst Hpods' Hpods Hcount. split; simpl; [done|..|done].
  - intros j. rewrite Hdevs. apply HR.
  - intros j q a d. rewrite Haddrs, Hdevs. destruct (decide _) as [[-> ->]|Hn].
    + intros -> Hd. simplify_eq. split; [done|]. rewrite lookup_partial_alter_eq.
      destruct ost as [st|]; [|done]. eauto.
    + intros Ha Hd. destruct (R_addr _ _ HR _ _ _ _ Ha Hd) as (Hq & st & Hsp & Hs).
      split; [done|]. assert (q ≠ ip) as Hqi by (intros ->; naive_solver).
      exists st. rewrite lookup_partial_alter_ne by done. split; [done|].
      destruct st as [t|k]; [done|]. destruct Hs as [? Hk]. split; [done|]. by apply Hpods.
  - intros q j st. rewrite Haddrs. destruct (decide (q = ip)) as [->|Hq].
    + rewrite lookup_partial_alter_eq. intros [st' [-> [= <- <-]]]%fmap_Some.
      rewrite decide_True by done. by destruct oa.
    + rewrite lookup_partial_alter_ne by done. rewrite decide_False by naive_solver. apply HR.
  - intros k i [(Hip & Hd & ->)|[Hip Hk]]%Hpods'.
    + exists id. rewrite Hip, lookup_partial_alter_eq, Hdevs. simpl. naive_solver.
    + apply (R_pod _ _ HR) in Hk as (j & ? & ?). exists j.
      rewrite lookup_partial_alter_ne, Hdevs by done. done.
Qed.

Lemma state_of_pods ds ds' ip dev a st :
  podsIP ds' = podsIP ds → state_of ds ip dev a st → state_of ds' ip dev a st.
Proof. unfold state_of. by intros ->. Qed.

(** Removing an ENI none of whose addresses is used. *)
Lemma refines_drop ds sp id e :
  refines ds sp → eniIPPools ds !! id = Some e → AssignedIPv4Addresses e = 0 →
  eni_free sp id ∧ refines (drop_eni id e ds) (spec_drop id sp).
Proof.
  intros HR He H0. assert (eni_free sp id) as Hfree.
  { intros ip [t|k] Hsp; [eauto|]. exfalso.
    destruct (refines_entry HR _ _ _ Hsp) as (a & dev & Ha & _ & _ & [Has _] & _).
    apply addr_of_Some in Ha as (e' & He' & Ha). simplify_eq.
    pose proof (pool_wf_unused _ _ _ _ (proj1 (R_wf _ _ HR) _ _ He) H0 Ha). congruence. }
  split; [done|].
  assert (∀ j, dev_of (drop_eni id e ds) j = if decide (j = id) then None else dev_of ds j) as Hdev.
  { intros j. unfold dev_of; simpl. case_decide; subst;
      [by rewrite lookup_delete_eq|by rewrite lookup_delete_ne]. }
  assert (∀ j q, addr_of (drop_eni id e ds) j q = if decide (j = id) then None else addr_of ds j q) as Haddr.
  { intros j q. unfold addr_of; simpl. case_decide; subst;
      [by rewrite lookup_delete_eq|by rewrite lookup_delete_ne]. }
  split; simpl; [..|apply HR].
  - apply drop_eni_wf; [apply HR|done..].
  - intros j. rewrite Hdev. case_decide; subst; [apply lookup_delete_eq|].
    rewrite lookup_delete_ne by done. apply HR.
  - intros j q a d. rewrite Hdev, Haddr. case_decide; [done|]. intros Ha Hd.
    destruct (R_addr _ _ HR _ _ _ _ Ha Hd) as (? & st & Hsp & Hs). split; [done|].
    exists st. split; [|done]. by apply map_lookup_filter_Some.
  - intros q j st [Hsp Hj]%map_lookup_filter_Some. simpl in Hj. rewrite Haddr, decide_False by done.
    by apply (R_ip _ _ HR) in Hsp.
  - intros k i (j & Hsp & Hd)%(R_pod _ _ HR). exists j.
    assert (j ≠ id) as Hj. { intros ->. by apply Hfree in Hsp as [? [=]]. }
    rewrite Hdev, decide_False by done. split; [|done]. by apply map_lookup_filter_Some.
Qed.

(** ** Simulation, call by call *)

Lemma addeni_refines now id dev prim ds p r ds' p' sp :
  addeni_outcome id dev prim (ds, p) r (ds', p') → refines ds sp →
  ∃ sp', spec_step now sp (CAddENI id dev prim) (RErr r) sp' ∧ refines ds' sp'.
Proof.
  intros H HR. pose proof (addeni_wf _ _ _ _ _ _ _ _ H (R_wf _ _ HR)) as Hwf.
  inversion H as [? ? eni He|? ? t He]; subst.
  { exists sp. split; [|done]. apply SAddENI_dup. by eapply refines_eni_some. }
  eexists. split; [by apply SAddENI, (refines_eni_none HR)|].
  set (e := mkENIIPPool t zeroTime prim id dev 0 ∅) in *.
  assert (∀ j, dev_of (set_pools (<[id := e]> (eniIPPools ds)) ds) j =
               if decide (j = id) then Some dev else dev_of ds j) as Hdev.
  { intros j. unfold dev_of; simpl. case_decide; subst;
      [by rewrite lookup_insert_eq|by rewrite lookup_insert_ne]. }
  assert (∀ j q a, addr_of (set_pools (<[id := e]> (eniIPPools ds)) ds) j q = Some a ↔
               j ≠ id ∧ addr_of ds j q = Some a) as Haddr.
  { intros j q a. unfold addr_of; simpl. destruct (decide (j = id)); subst.
    - rewrite lookup_insert_eq. simpl. rewrite lookup_empty. naive_solver.
    - rewrite lookup_insert_ne by done. naive_solver. }
  split; simpl; [done|..|apply HR].
  - intros j. rewrite Hdev. case_decide; subst; [apply lookup_insert_eq|].
    rewrite lookup_insert_ne by done. apply HR.
  - intros j q a d [Hj Ha]%Haddr. rewrite Hdev, decide_False by done.
    apply (R_addr _ _ HR _ _ _ _ Ha).
  - intros q j st [a Ha]%(R_ip _ _ HR). exists a. apply Haddr. split; [|done].
    intros ->. apply addr_of_Some in Ha as (? & ? & _). congruence.
  - intros k i (j & Hsp & Hd)%(R_pod _ _ HR). exists j. split; [done|]. rewrite Hdev.
    rewrite decide_False; [done|]. intros ->. unfold dev_of in Hd. by rewrite He in Hd.
Qed.

Lemma addip_refines now id ip ds p r ds' p' sp :
  addip_outcome id ip (ds, p) r (ds', p') → refines ds sp → call_ok ds (CAddIP id ip) →
  ∃ sp', spec_step now sp (CAddIP id ip) (RErr r) sp' ∧ refines ds' sp'.
Proof.
  intros H HR [Hne Hu]. pose proof (addip_wf _ _ _ _ _ _ _ H (R_wf _ _ HR)) as Hwf.
  assert (∀ j st, sp_ips sp !! ip = Some (j, st) → j = id) as Huniq.
  { intros j st Hsp. destruct (R_ip _ _ HR _ _ _ Hsp) as [a (e & ? & ?)%addr_of_Some]. eauto. }
  inversion H as [ds0 ? He|ds0 ? e a He Ha|ds0 ? e He Ha]; subst ds0; subst.
  - exists sp. split; [|done]. by apply SAddIP_noeni, (refines_eni_none HR).
  - exists sp. split; [|done].
    eassert (addr_of _ id ip = Some a) as Hao by (apply addr_of_Some; exists e; split; [exact He|exact Ha]).
    destruct (addr_of_dev _ _ _ _ Hao) as [d Hd].
    destruct (R_addr _ _ HR _ _ _ _ Hao Hd) as (_ & st & ? & _). by eapply SAddIP_dup.
  - exists (set_ip ip (id, Free zeroTime) sp). split.
    + apply SAddIP; [by eapply refines_eni_some|]. apply eq_None_not_Some.
      intros [[j st] Hsp]. pose proof (Huniq _ _ Hsp). subst.
      destruct (R_ip _ _ HR _ _ _ Hsp) as [a (e' & ? & ?)%addr_of_Some]. congruence.
    + eapply (refines_alter _ sp _ id ip (DeviceNumber e) (Some _) (Some (Free zeroTime)));
        [done|done|by apply dev_of_Some|done| | |done| | | |apply HR].
      * by eapply dev_of_replace.
      * by eapply addr_of_replace.
      * done.
      * intros k i Hk. right. split; [|done]. intros Heq.
        destruct (R_pod _ _ HR _ _ Hk) as (j & Hsp & _). rewrite Heq in Hsp.
        pose proof (Huniq _ _ Hsp). subst.
        destruct (R_ip _ _ HR _ _ _ Hsp) as [a (e' & ? & ?)%addr_of_Some]. congruence.
      * done.
Qed.

Lemma delip_refines now id ip ds p r ds' p' sp :
  delip_outcome id ip (ds, p) r (ds', p') → refines ds sp →
  ∃ sp', spec_step now sp (CDelIP id ip) (RErr r) sp' ∧ refines ds' sp'.
Proof.
  intros H HR. pose proof (delip_wf _ _ _ _ _ _ _ H (R_wf _ _ HR)) as Hwf.
  inversion H as [ds0 ? He|ds0 ? e He Ha|ds0 ? e a He Ha Has|ds0 ? e a He Ha Has]; subst ds0; subst.
  { exists sp. split; [|done]. by apply SDelIP_noeni, (refines_eni_none HR). }
  { exists sp. split; [|done]. apply SDelIP_noip; [by eapply refines_eni_some|].
    intros st [a (e' & ? & ?)%addr_of_Some]%(R_ip _ _ HR). congruence. }
  all: eassert (addr_of _ id ip = Some a) as Hao by (apply addr_of_Some; exists e; split; [exact He|exact Ha]).
  all: eassert (dev_of _ id = Some (DeviceNumber e)) as Hd by (by apply dev_of_Some).
  all: destruct (R_addr _ _ HR _ _ _ _ Hao Hd) as (Hne & [t|k] & Hsp & Hs & Hs'); try congruence.
  - exists sp. split; [|done]. by eapply SDelIP_used.
  - eexists. split; [by eapply SDelIP|].
    eapply (refines_alter _ sp _ id ip (DeviceNumber e) None None);
      [done..| | |naive_solver|done| |done|apply HR].
    + by eapply dev_of_replace.
    + by eapply addr_of_replace.
    + intros k i Hk. right. split; [|done]. intros Heq.
      destruct (R_pod _ _ HR _ _ Hk) as (j & Hsp' & _). congruence.
Qed.

Lemma assign_refines now pod ds p r ds' p' sp :
  assign_outcome pod now (ds, p) r (ds', p') → refines ds sp → call_ok ds (CAssign pod) →
  ∃ sp', spec_step now sp (CAssign pod) (RIP r.1.1 r.1.2 r.2) sp' ∧ refines ds' sp'.
Proof.
  intros H HR Hok. pose proof (assign_wf _ _ _ _ _ _ _ H (R_wf _ _ HR)) as Hwf.
  inversion H as [? ? i Hp Hi Hn|? ? i Hp Hn|? ? id e ip a Hp He Ha Hsk Hel Has
                 |? ? id e ip a Hp He Ha Hsk Hel Has|? ? Hp Hno]; subst; simpl.
  - exists sp. split; [|done]. destruct (R_pod _ _ HR _ _ Hp) as (id & Hsp & Hd).
    eapply SAssign_known; [done| |done]. by rewrite (R_eni _ _ HR).
  - exists sp. split; [|done]. destruct (R_pod _ _ HR _ _ Hp) as (id & Hsp & Hd).
    eapply SAssign_conflict; [done|]. intros Heq. apply Hn. split; [done|].
    rewrite Heq. by destruct (refines_entry HR _ _ _ Hsp) as (? & ? & ? & ? & ? & ? & ?).
  - eassert (addr_of _ id ip = Some a) as Hao by (apply addr_of_Some; exists e; split; [exact He|exact Ha]).
    pose proof (dev_of_Some _ _ _ He) as Hd. rewrite (refines_addr_wf HR _ _ _ Hao) in Hwf |- *.
    destruct (R_addr _ _ HR _ _ _ _ Hao Hd) as (Hne & [t|k] & Hsp & Hs & Hs'); [|congruence].
    eexists. split.
    + eapply (SAssign now sp pod ip id _ t); [by apply (refines_nopod HR)|done|by rewrite (R_eni _ _ HR)|].
      destruct Hel as [->|(? & _ & ?)]; [left; by apply (refines_addr_wf HR _ _ _ Hao)|].
      right. unfold cooled. by rewrite <-Hs'.
    + eapply (refines_alter _ sp _ id ip (DeviceNumber e) (Some _) (Some (Used (podKey pod))));
        [done..| | |naive_solver| | | |].
      * by eapply dev_of_replace.
      * by eapply addr_of_replace.
      * split; [done|]. simpl. by rewrite lookup_insert_eq.
      * simpl. intros k i [[<- <-]|[Hk Hi]]%lookup_insert_Some; [left; done|]. right. split; [|done].
        intros Heq. destruct (R_pod _ _ HR _ _ Hi) as (j & Hsp' & _). congruence.
      * intros k i Hk Hi. simpl. rewrite lookup_insert_ne; [done|]. congruence.
      * simpl. rewrite (R_count _ _ HR), len_insert_new by done. done.
  - exfalso. eassert (addr_of _ id ip = Some a) as Hao
      by (apply addr_of_Some; exists e; split; [exact He|exact Ha]).
    pose proof (dev_of_Some _ _ _ He) as Hd. rewrite (refines_addr_wf HR _ _ _ Hao) in Hel.
    destruct (R_addr _ _ HR _ _ _ _ Hao Hd) as (Hne & [t|k] & Hsp & Hs & Hs'); [congruence|].
    pose proof (Hok _ _ Hs' (eq_sym Hel)). congruence.
  - exists sp. split; [|done]. apply SAssign_none; [by apply (refines_nopod HR)|].
    intros ip id t Hsp. destruct (refines_entry HR _ _ _ Hsp) as (a & d & Hao & Hd & _ & [Hs Hs'] & Hne).
    pose proof (refines_addr_wf HR _ _ _ Hao) as Hip. apply addr_of_Some in Hao as (e & He & Ha).
    destruct (Hno _ _ _ _ He Ha) as [[Hem Hfull]|Hel].
    + pose proof (pool_wf_full _ _ _ _ (proj1 (R_wf _ _ HR) _ _ He) Hfull Ha). congruence.
    + unfold addr_eligible, cooled in *. rewrite Hip, Hs' in Hel. naive_solver.
Qed.

Lemma unassign_refines now t1 pod ds p r ds' p' sp :
  unassign_outcome pod now t1 (ds, p) r (ds', p') → refines ds sp →
  ∃ sp', spec_step now sp (CUnassign pod) (RIP r.1.1 r.1.2 r.2) sp' ∧ refines ds' sp'.
Proof.
  intros H HR. pose proof (unassign_wf _ _ _ _ _ _ _ _ H (R_wf _ _ HR)) as Hwf.
  inversion H as [? ? Hp|? ? i Hp Hno|? ? i id e a t Hp He Ha Has [Ht _]]; subst; simpl.
  - exists sp. split; [|done]. by apply SUnassign_unknown, (refines_nopod HR).
  - exfalso. destruct (R_pod _ _ HR _ _ Hp) as (id & Hsp & Hd).
    destruct (refines_entry HR _ _ _ Hsp) as (a & d & Hao & _ & _ & [Hs _] & _).
    apply addr_of_Some in Hao as (e & He & Ha). pose proof (Hno _ _ _ He Ha). congruence.
  - eassert (addr_of _ id (IP i) = Some a) as Hao
      by (apply addr_of_Some; exists e; split; [exact He|exact Ha]).
    pose proof (dev_of_Some _ _ _ He) as Hd. rewrite (refines_addr_wf HR _ _ _ Hao).
    destruct (R_addr _ _ HR _ _ _ _ Hao Hd) as (Hne & [t'|k] & Hsp & Hs & Hs'); [congruence|].
    destruct (R_pod _ _ HR _ _ Hp) as (id' & Hsp' & Hd'). rewrite Hsp in Hsp'. simplify_eq.
    eexists. split; [eapply (SUnassign now sp pod); [done|by rewrite (R_eni _ _ HR)|done]|].
    eapply (refines_alter _ sp _ id' (IP i) (DeviceNumber e) (Some _) (Some (Free t)));
      [done..| | |naive_solver| | | |].
    + by eapply dev_of_replace.
    + by eapply addr_of_replace.
    + done.
    + simpl. intros k j [Hk Hj]%lookup_delete_Some. right. split; [|done]. intros Heq.
      apply Hk. by eapply (refines_pod_inj HR).
    + intros k j Hk Hj. apply lookup_delete_Some. split; [|done]. congruence.
    + simpl. rewrite (R_count _ _ HR), (len_delete _ _ i) by done. done.
Qed.

Lemma rmeni_refines now id ds p r ds' p' sp :
  rmeni_outcome id (ds, p) r (ds', p') → refines ds sp →
  ∃ sp', spec_step now sp (CRemoveENI id) (RErr r) sp' ∧ refines ds' sp'.
Proof.
  intros H HR. inversion H as [? ? He|? ? e He Hu|? ? e He Hu]; subst.
  - exists sp. split; [|done]. by apply SRemoveENI_unknown, (refines_eni_none HR).
  - exists sp. split; [|done]. destruct (pool_wf_used _ _ (proj1 (R_wf _ _ HR) _ _ He) Hu) as (ip & a & Ha & Has).
    eassert (addr_of _ id ip = Some a) as Hao by (apply addr_of_Some; exists e; split; [exact He|exact Ha]).
    pose proof (dev_of_Some _ _ _ He) as Hd.
    destruct (R_addr _ _ HR _ _ _ _ Hao Hd) as (Hne & [t|k] & Hsp & Hs & Hs'); [congruence|].
    by eapply SRemoveENI_used.
  - destruct (refines_drop _ _ _ _ HR He Hu) as [Hf HR']. eexists. split; [|exact HR'].
    apply SRemoveENI; [by eapply refines_eni_some|done].
Qed.

Lemma rmunused_refines now target t ds p r ds' p' sp :
  rmunused_outcome target t (ds, p) r (ds', p') → refines ds sp →
  ∃ sp', spec_step now sp (CRemoveUnused target) (RENI r) sp' ∧ refines ds' sp'.
Proof.
  intros H HR. inversion H as [|? ? id e t1 t2 pool He ? ? Hd He']; subst.
  { exists sp. split; [|done]. apply SRemoveUnused_none. }
  pose proof (proj1 (proj1 (R_wf _ _ HR) _ _ He)). subst. rewrite He in He'. simplify_eq.
  destruct Hd as (_ & _ & _ & Hu & _).
  destruct (refines_drop _ _ _ _ HR He Hu) as [Hf HR']. eexists. split; [|exact HR'].
  apply SRemoveUnused; [by eapply refines_eni_some|done].
Qed.

(** ** Frames

    The store reaches the world only through the clock and the order of maps: a
    preorder on worlds that these two keep is kept by every operation.  Time
    moving forward is one, the state of the kernel another. *)

Class Frame {W} `{!World W} (R : relation W) : Prop := {
  #[global] frame_preorder :: PreOrder R;
  frame_now : ∀ w, R w (w_now w).2;
  frame_range : ∀ A (l : list A) w, R w (w_range l w).2;
}.

Definition on_d {W} (R : relation W) (s s' : DSt W) : Prop := R (d_world s) (d_world s').

#[global] Instance on_d_preorder {W} (R : relation W) `{!PreOrder R} : PreOrder (on_d R).
Proof. split; unfold on_d; intros ?; [done|]. intros. by etransitivity. Qed.

Section frame.
Context {W : Type} `{!World W} (R : relation W) `{!Frame R}.

Lemma put_ds_frame ds : keeps (on_d R) (put_ds ds).
Proof. intros s. unfold on_d. simpl. reflexivity. Qed.

Lemma gauge_Set_frame n v : keeps (on_d R) (gauge_Set n v).
Proof. intros s. unfold on_d. simpl. reflexivity. Qed.

Lemma time_Now_frame : keeps (on_d R) (on_world time_Now).
Proof.
  apply (keeps_zoom _ R); [|done]. intros w. unfold time_Now. pose proof (frame_now w). by destruct (w_now w).
Qed.

Lemma range_frame {K A} `{Countable K} (m : gmap K A) : keeps (on_d R) (on_world (range m)).
Proof.
  apply (keeps_zoom _ R); [|done]. intros w. unfold range, range_list.
  pose proof (frame_range _ (map_to_list m) w). by destruct (w_range _ w).
Qed.

End frame.

#[export] Hint Resolve put_ds_frame gauge_Set_frame time_Now_frame range_frame : keeps.
#[export] Hint Extern 1 (keeps _ get_ds) => apply (keeps_gets _) : keeps.

Section exec_frame.
Context {W : Type} `{!World W} (R : relation W) `{!Frame R}.

Lemma Assign_frame pod : keeps (on_d R) (AssignPodIPv4Address pod).
Proof.
  unfold AssignPodIPv4Address, assignPodIPv4AddressUnsafe, assign_try_eni, assign_try_addr,
    incrementAssignedCount, set_pod. keeps_steps.
Qed.

Lemma Unassign_frame pod : keeps (on_d R) (UnassignPodIPv4Address pod).
Proof. unfold UnassignPodIPv4Address, unassign_try. keeps_steps. Qed.

Lemma AddENI_frame id dev prim : keeps (on_d R) (AddENI id dev prim).
Proof. unfold AddENI. keeps_steps. Qed.

Lemma AddIP_frame id ip : keeps (on_d R) (AddIPv4AddressFromStore id ip).
Proof. unfold AddIPv4AddressFromStore. keeps_steps. Qed.

Lemma DelIP_frame id ip : keeps (on_d R) (DelIPv4AddressFromStore id ip).
Proof. unfold DelIPv4AddressFromStore. keeps_steps. Qed.

Lemma RemoveENI_frame id : keeps (on_d R) (RemoveENIFromDataStore id).
Proof. unfold RemoveENIFromDataStore. keeps_steps. Qed.

Lemma RemoveUnused_frame target : keeps (on_d R) (RemoveUnusedENIFromStore target).
Proof.
  unfold RemoveUnusedENIFromStore, getDeletableENI, deletable_try, isTooYoung, hasIPInCooling,
    isRequiredForWarmIPTarget. keeps_steps.
Qed.

Lemma ds_exec_frame c : keeps (on_d R) (ds_exec c).
Proof.
  destruct c; cbn [ds_exec]; (apply keeps_bind; [apply _|..|intros; keeps_steps]);
    first [apply AddENI_frame|apply AddIP_frame|apply DelIP_frame|apply Assign_frame|apply Unassign_frame
          |apply RemoveENI_frame|apply RemoveUnused_frame].
Qed.

Lemma GetPodInfos_frame : keeps (on_d R) GetPodInfos.
Proof. unfold GetPodInfos. keeps_steps. Qed.

Lemma GetENINeedsIP_frame maxIP skip : keeps (on_d R) (GetENINeedsIP maxIP skip).
Proof. unfold GetENINeedsIP. keeps_steps. Qed.

End exec_frame.

(** Time only moves forward. *)
Definition clock_le {W} `{!World W} (w w' : W) : Prop := clock w ≤ clock w'.

#[global] Instance clock_frame {W} `{!World W} `{!WorldOk W} : Frame (clock_le (W:=W)).
Proof.
  split; [split; unfold clock_le; intros ?; [done|]; intros; lia|apply now_mono|apply range_mono].
Qed.

Section exec_outcome.
Context {W : Type} `{!World W} `{!WorldOk W}.

(** The outcome of a call, for a call made at [t0] that is over at [t1]. *)
Definition ds_outcome (c : ds_call) (t0 t1 : Z) (x : DP) (r : ds_ret) (y : DP) : Prop :=
  match c with
  | CAddENI id dev prim => ∃ e, r = RErr e ∧ addeni_outcome id dev prim x e y
  | CAddIP id ip => ∃ e, r = RErr e ∧ addip_outcome id ip x e y
  | CDelIP id ip => ∃ e, r = RErr e ∧ delip_outcome id ip x e y
  | CAssign pod => ∃ ip dev e, r = RIP ip dev e ∧ assign_outcome pod t0 x (ip, dev, e) y
  | CUnassign pod => ∃ ip dev e, r = RIP ip dev e ∧ unassign_outcome pod t0 t1 x (ip, dev, e) y
  | CRemoveENI id => ∃ e, r = RErr e ∧ rmeni_outcome id x e y
  | CRemoveUnused target => ∃ id, r = RENI id ∧ rmunused_outcome target t0 x id y
  end.

Lemma ds_exec_outcome c (s : DSt W) :
  ds_wf (d_ds s) →
  wp False (ds_exec c)
    (λ r s', ds_outcome c (clock (d_world s)) (clock (d_world s')) (dp s) r (dp s')) s.
Proof.
  intros Hwf. destruct c as [id dev prim|id ip|id ip|pod|pod|id|target]; cbn [ds_exec ds_outcome];
    apply wp_bind.
  - eapply wp_mono; [apply AddENI_outcome|]. intros r s' H. apply wp_ret. eauto.
  - eapply wp_mono; [apply AddIPv4AddressFromStore_outcome|]. intros r s' H. apply wp_ret. eauto.
  - eapply wp_mono; [apply DelIPv4AddressFromStore_outcome|]. intros r s' H. apply wp_ret. eauto.
  - eapply wp_mono; [apply AssignPodIPv4Address_outcome|].
    intros [[ip dev] e] s' H. apply wp_ret. eauto.
  - eapply wp_mono; [apply UnassignPodIPv4Address_outcome|].
    intros [[ip dev] e] s' H. apply wp_ret. eauto.
  - eapply wp_mono; [apply RemoveENIFromDataStore_outcome|]. intros r s' H. apply wp_ret. eauto.
  - eapply wp_mono; [apply RemoveUnusedENIFromStore_outcome|].
    + intros id e He. by apply Hwf.
    + intros r s' H. apply wp_ret. eauto.
Qed.

Lemma ds_outcome_wf c t0 t1 ds p r ds' p' :
  ds_outcome c t0 t1 (ds, p) r (ds', p') → ds_wf ds → ds_wf ds'.
Proof.
  destruct c; simpl; intros; destruct_and?; naive_solver eauto using addeni_wf, addip_wf, delip_wf,
    assign_wf, unassign_wf, rmeni_wf, rmunused_wf.
Qed.

(** A call that returned, as its outcome; calls always return. *)
Lemma ds_exec_ret c r (s s' : DSt W) :
  ds_wf (d_ds s) → ds_exec c s = (Ret r, s') →
  ds_outcome c (clock (d_world s)) (clock (d_world s')) (dp s) r (dp s') ∧
  ds_wf (d_ds s') ∧ clock (d_world s) ≤ clock (d_world s').
Proof.
  intros Hwf Hex. pose proof (wp_elim _ _ _ _ _ _ (ds_exec_outcome c s Hwf) Hex) as Ho.
  split_and!; [done|eapply ds_outcome_wf; [exact Ho|done]|].
  pose proof (ds_exec_frame clock_le c s) as Hc. by rewrite Hex in Hc.
Qed.

Lemma ds_exec_total c (s : DSt W) : ds_wf (d_ds s) → ∃ r s', ds_exec c s = (Ret r, s').
Proof.
  intros Hwf. destruct (wp_run _ _ _ (ds_exec_outcome c s Hwf)) as (r & s' & Hex & _). eauto.
Qed.

(** ** Every call is one step of the abstract store *)

Lemma ds_outcome_refines c t0 t1 ds p r ds' p' sp :
  ds_outcome c t0 t1 (ds, p) r (ds', p') → refines ds sp → call_ok ds c →
  ∃ sp', spec_step t0 sp c r sp' ∧ refines ds' sp'.
Proof.
  intros H HR Hok. destruct c; simpl in H; destruct_and?.
  - destruct H as (e & -> & H). by eapply addeni_refines.
  - destruct H as (e & -> & H). by eapply addip_refines.
  - destruct H as (e & -> & H). by eapply delip_refines.
  - destruct H as (ip & d & e & -> & H). by apply (assign_refines _ _ _ _ _ _ _ _ H HR Hok).
  - destruct H as (ip & d & e & -> & H). by apply (unassign_refines _ _ _ _ _ _ _ _ _ H HR).
  - destruct H as (e & -> & H). by eapply rmeni_refines.
  - destruct H as (e & -> & H). by eapply rmunused_refines.
Qed.

Lemma refines_new : refines NewDataStore spec_new.
Proof.
  split; [apply ds_wf_new|done|..|done]; unfold addr_of, dev_of; simpl; intros *;
    rewrite lookup_empty; naive_solver.
Qed.

Lemma ds_trace_refines ds0 p0 w0 sp0 tr (s : DSt W) :
  refines ds0 sp0 → ds_trace (mkDSt ds0 p0 w0) tr s →
  ∃ sp, spec_trace sp0 tr sp ∧ refines (d_ds s) sp.
Proof.
  intros H0 Htr. remember (mkDSt ds0 p0 w0) as s0 eqn:Hs0.
  induction Htr as [|s0 tr s1 c r s' Htr IH Hok Hex|s0 tr ds p p' w w' Htr IH Hw]; subst.
  - exists sp0. split; [constructor|done].
  - destruct IH as (sp1 & Hsp1 & HR); [done|].
    destruct (ds_exec_ret c r s1 s' (R_wf _ _ HR) Hex) as (Ho & _).
    destruct (ds_outcome_refines _ _ _ _ _ _ _ _ _ Ho HR Hok) as (sp' & Hst & HR').
    exists sp'. split; [by eapply ST_call|done].
  - destruct IH as (sp & Hsp & HR); [done|]. eauto.
Qed.

End exec_outcome.
