(* ===== verification/DataStoreProps.v ===== *)
(** * Theorems about the data store

    What holds of every reachable state of the store and of every call, for
    any order of the map iterations and any clock that does not go back. *)
From S2P Require Import Prelude GoStd DataStore DataStoreInv DataStoreSpec.

Open Scope Z_scope.

(** ** Release times *)

(** The release times of the addresses of an ENI are at most the ENI's
    [lastUnassignedTime], which is at most the present. *)
Definition pool_times (now : Z) (e : ENIIPPool) : Prop :=
  0 ≤ lastUnassignedTime e ≤ now ∧
  ∀ ip a, IPv4Addresses e !! ip = Some a → UnassignedTime a ≤ lastUnassignedTime e.

Definition times_ok (now : Z) (ds : DataStore) : Prop :=
  ∀ id e, eniIPPools ds !! id = Some e → pool_times now e.

Lemma pool_times_mono now now' e : pool_times now e → now ≤ now' → pool_times now' e.
Proof. intros [? ?] ?. split; [lia|done]. Qed.

Lemma times_mono now now' ds : times_ok now ds → now ≤ now' → times_ok now' ds.
Proof. intros H Hn id e He. eapply pool_times_mono; [by eapply H|done]. Qed.

Lemma times_insert now now' ds ds' id e :
  times_ok now ds → now ≤ now' → pool_times now' e →
  eniIPPools ds' = <[id := e]> (eniIPPools ds) → times_ok now' ds'.
Proof.
  intros Ht Hn He Hm i x. rewrite Hm. intros [[<- <-]|[_ Hx]]%lookup_insert_Some; [done|].
  eapply pool_times_mono; [by eapply Ht|done].
Qed.

Lemma ds_outcome_times c t0 t1 ds p r ds' p' :
  ds_outcome c t0 t1 (ds, p) r (ds', p') → 0 ≤ t0 ≤ t1 → times_ok t0 ds → times_ok t1 ds'.
Proof.
  intros H Ht Hok. pose proof (times_mono _ t1 _ Hok (proj2 Ht)) as Hok1.
  assert (∀ id e, eniIPPools ds !! id = Some e → pool_times t0 e) as Hp by done.
  assert (∀ id, times_ok t1 (set_pools (delete id (eniIPPools ds)) ds)) as Hdel.
  { intros id i x. simpl. intros [_ Hx]%lookup_delete_Some. by eapply Hok1. }
  destruct c; simpl in H; destruct_and?.
  - destruct H as (e & -> & H). inversion H; subst; [done|].
    eapply times_insert; [done|lia| |done]. split; simpl; [unfold zeroTime; lia|].
    intros ip a. by rewrite lookup_empty.
  - destruct H as (e & -> & H). inversion H as [| |? ? eni He Ha]; subst; [done..|].
    eapply times_insert; [done|lia| |done]. destruct (Hp _ _ He) as [? Hu]. split; simpl; [lia|].
    intros q a [[<- <-]|[_ ?]]%lookup_insert_Some; [simpl; unfold zeroTime; lia|eauto].
  - destruct H as (e & -> & H). inversion H as [| | |? ? eni a He Ha]; subst; [done..|].
    eapply times_insert; [done|lia| |done]. destruct (Hp _ _ He) as [? Hu]. split; simpl; [lia|].
    intros q b [_ ?]%lookup_delete_Some. eauto.
  - destruct H as (ip & d & e & -> & H). inversion H as [| |? ? id eni q a Hpod He Ha| |]; subst; try done.
    eapply times_insert; [done|lia| |done]. destruct (Hp _ _ He) as [? Hu]. split; simpl; [lia|].
    intros q' b [[<- <-]|[_ ?]]%lookup_insert_Some; simpl; eauto.
  - destruct H as (ip & d & e & -> & H).
    inversion H as [| |? ? i id eni a now Hpod He Ha Has Hnow]; subst; try done.
    eapply times_insert; [done|lia| |done]. destruct (Hp _ _ He) as [? Hu]. split; simpl; [lia|].
    intros q' b [[<- <-]|[_ Hb]]%lookup_insert_Some; simpl; [done|]. apply Hu in Hb. lia.
  - destruct H as (e & -> & H). inversion H; subst; [done..|]. apply Hdel.
  - destruct H as (e & -> & H). inversion H; subst; [done|]. apply Hdel.
Qed.

(** ** Gauges *)

(** The three gauges show the numbers of the store. *)
Definition gauges_ok (ds : DataStore) (p : Prom) : Prop :=
  prom_get enis "" p = len (eniIPPools ds) ∧
  prom_get totalIPs "" p = total ds ∧
  prom_get assignedIPs "" p = assigned ds.

Lemma ds_outcome_gauges c t0 t1 ds p r ds' p' :
  ds_outcome c t0 t1 (ds, p) r (ds', p') → (∀ id, c ≠ CRemoveENI id) →
  gauges_ok ds p → gauges_ok ds' p'.
Proof.
  intros H Hc (He & Ht & Ha). unfold gauges_ok. destruct c; simpl in H; destruct_and?.
  all: try (by destruct (Hc id)).
  all: repeat destruct H as (? & H).
  all: inversion H; subst; try done; rewrite ?prom_get_set; simpl; split_and!; try done.
  all: try (erewrite len_insert by done; done).
Qed.

(** ** Reachable states *)

Section reach.
Context {W : Type} `{!World W} `{!WorldOk W}.

Definition ds_inv (s : DSt W) : Prop :=
  ds_wf (d_ds s) ∧ times_ok (clock (d_world s)) (d_ds s) ∧ 0 ≤ clock (d_world s).

Lemma ds_step_inv (s s' : DSt W) : ds_step s s' → ds_inv s → ds_inv s'.
Proof.
  intros Hst (Hwf & Ht & H0). destruct Hst as [c r s s' Hex|ds p p' w w' Hw _].
  - destruct (ds_exec_ret c r s s' Hwf Hex) as (Ho & Hwf' & Hc). split_and!; [done| |lia].
    eapply ds_outcome_times; [exact Ho|lia|done].
  - split_and!; simpl in *; [done|by eapply times_mono|lia].
Qed.

Lemma ds_reach_inv (s s' : DSt W) : rtc ds_step s s' → ds_inv s → ds_inv s'.
Proof. induction 1; eauto using ds_step_inv. Qed.

Lemma ds_inv_new p (w : W) : 0 ≤ clock w → ds_inv (mkDSt NewDataStore p w).
Proof.
  intros. split_and!; [apply ds_wf_new| |done]. intros id e. simpl. by rewrite lookup_empty.
Qed.

End reach.

(** *** Concrete states for the witnesses: two ENIs, two addresses each, one of
    them used by a pod *)

Definition test_w0 : TestWorld := mkTestWorld (1000 * Minute) 0.
Definition test_pod (n : string) : K8SPodInfo := mkK8SPodInfo n "default" "c" "" "".
Definition test_calls : list ds_call :=
  [CAddENI "eni-1" 0 true; CAddENI "eni-2" 1 false;
   CAddIP "eni-1" "10.0.0.1"; CAddIP "eni-1" "10.0.0.2";
   CAddIP "eni-2" "10.0.1.1"; CAddIP "eni-2" "10.0.1.2";
   CAssign (test_pod "p1")]%string.
Definition test_init : DSt TestWorld := mkDSt NewDataStore ∅ test_w0.
Definition test_state : DSt TestWorld :=
  match ds_run test_calls test_init with Some (_, s) => s | None => test_init end.
Definition test_trace : list (Z * ds_call * ds_ret) :=
  match ds_run test_calls test_init with Some (tr, _) => tr | None => [] end.

Lemma test_run : ds_run test_calls test_init = Some (test_trace, test_state).
Proof. vm_compute. reflexivity. Qed.

Lemma test_reach : rtc ds_step test_init test_state.
Proof. exact (ds_run_steps _ _ _ _ test_run). Qed.

(** C5: in every state the store reaches from [NewDataStore], by any calls in
    any order and with the clock moving on between them, the counters agree with
    the maps ([total] counts all addresses, [assigned] and every ENI's
    [AssignedIPv4Addresses] the assigned ones, every ENI and address is stored
    under its own name), and every further call returns: no operation panics. *)
Theorem store_reachable_wf {W} `{!World W} `{!WorldOk W} p (w : W) (s : DSt W) c :
  0 ≤ clock w → rtc ds_step (mkDSt NewDataStore p w) s →
  ds_wf (d_ds s) ∧ ∃ r s', ds_exec c s = (Ret r, s') ∧ ds_wf (d_ds s').
Proof.
  intros H0 Hs. destruct (ds_reach_inv _ _ Hs (ds_inv_new _ _ H0)) as (Hwf & _).
  split; [done|]. destruct (ds_exec_total c s Hwf) as (r & s' & Hex).
  exists r, s'. split; [done|]. by apply (ds_exec_ret c r s s').
Qed.

Lemma store_reachable_wf_witness :
  ds_wf (d_ds test_state) ∧
  ∃ r s', ds_exec (CRemoveENI "eni-2") test_state = (Ret r, s') ∧ ds_wf (d_ds s').
Proof.
  apply (store_reachable_wf ∅ test_w0); [by vm_compute|exact test_reach].
Defined.

(** C1: the store refines its abstract specification: every history in which no
    pod names an address that another pod has and no address (never the empty
    string) is added to an ENI while the store has it on another ([call_ok])
    is a history of the abstract store, with the same results, that ends in a
    state related to the concrete one. *)
Theorem store_refines {W} `{!World W} `{!WorldOk W} p (w : W) tr (s : DSt W) :
  ds_trace (mkDSt NewDataStore p w) tr s →
  ∃ sp, spec_trace spec_new tr sp ∧ refines (d_ds s) sp.
Proof. apply ds_trace_refines, refines_new. Qed.

Lemma store_refines_witness :
  ∃ sp, spec_trace spec_new test_trace sp ∧ refines (d_ds test_state) sp.
Proof. apply (store_refines ∅ test_w0), ds_run_trace with test_calls. exact test_run. Defined.

(** *** The life of the daemon: recovery, then service

    A history of calls as the daemon makes them. Of EC2 it takes that an
    address is not added to an ENI while the store has it on another; of the
    calls made while the daemon recovers ([nodeInit]) that they name an address
    and that different pods name different ones; of the calls made afterwards
    ([AddNetwork]) that they name none. Nothing is said about the pods the
    store has recorded: that they do not meet is what is proved. *)
Section life.
Context {W : Type} `{!World W}.

Definition add_ok (ds : DataStore) (c : ds_call) : Prop :=
  match c with CAddIP _ _ => call_ok ds c | _ => True end.

Inductive ds_hist : DSt W → list (Z * ds_call * ds_ret) → DSt W → Prop :=
| DH_nil s : ds_hist s [] s
| DH_call s tr s1 c r s' :
    ds_hist s tr s1 → add_ok (d_ds s1) c → ds_exec c s1 = (Ret r, s') →
    ds_hist s (tr ++ [(clock (d_world s1), c, r)]) s'
| DH_env s tr ds p p' w w' :
    ds_hist s tr (mkDSt ds p w) → clock w ≤ clock w' → ds_hist s tr (mkDSt ds p' w').

Definition calls_of (tr : list (Z * ds_call * ds_ret)) : list ds_call := tr.*1.*2.

Definition recovering (cs : list ds_call) : Prop :=
  ∀ pod pod', CAssign pod ∈ cs → CAssign pod' ∈ cs →
    PodIP pod ≠ ""%string ∧ (PodIP pod = PodIP pod' → podKey pod = podKey pod').

Definition serving (cs : list ds_call) : Prop := ∀ pod, CAssign pod ∈ cs → PodIP pod = ""%string.

(** A history by callers that respect [call_ok] is a history. *)
Lemma ds_trace_hist s tr s' : ds_trace s tr s' → ds_hist s tr s'.
Proof.
  induction 1 as [|s tr s1 c r s' _ IH Hok|]; [constructor| |by eapply DH_env].
  eapply DH_call; [done| |done]. by destruct c.
Qed.

Lemma calls_of_snoc tr x : calls_of (tr ++ [x]) = calls_of tr ++ [x.1.2].
Proof. unfold calls_of. by rewrite !fmap_app. Qed.

Lemma ds_trace_app s tr s1 tr' s2 : ds_trace s tr s1 → ds_trace s1 tr' s2 → ds_trace s (tr ++ tr') s2.
Proof.
  intros H H'. induction H'; [by rewrite app_nil_r| |by eapply DT_env; eauto].
  rewrite app_assoc. eapply DT_call; eauto.
Qed.

Context `{!WorldOk W}.

(** The pods that are recorded during recovery are recorded with the address
    they named. *)
Definition recorded (cs : list ds_call) (ds : DataStore) : Prop :=
  ∀ k i, podsIP ds !! k = Some i → ∃ pod, CAssign pod ∈ cs ∧ podKey pod = k ∧ PodIP pod = IP i.

Lemma recorded_step c t0 t1 ds p r ds' p' cs :
  ds_outcome c t0 t1 (ds, p) r (ds', p') → recovering (cs ++ [c]) → recorded cs ds →
  recorded (cs ++ [c]) ds'.
Proof.
  intros Ho Hrec Hr.
  assert (recorded (cs ++ [c]) ds) as Hr'.
  { intros k i (pod & ? & ?)%Hr. exists pod. set_solver. }
  assert (∀ pod ip dev, c = CAssign pod → PodIP pod = ip → ∀ ds1, podsIP ds1 = podsIP ds →
    recorded (cs ++ [c]) (add_pod pod ip dev ds1)) as Hadd.
  { intros pod ip dev -> Hip ds1 Hp1 k i. simpl. rewrite Hp1.
    intros [[<- <-]|[_ Hk]]%lookup_insert_Some; [|by apply Hr'].
    exists pod. split_and!; [set_solver|done|done]. }
  destruct c; simpl in Ho; repeat destruct Ho as (? & Ho); inversion Ho; subst; try done.
  - apply Hadd; [done| |done].
    match goal with H : addr_eligible _ _ _ |- _ => destruct H as [?|(He & _)]; [done|] end.
    destruct (Hrec pod pod) as [? _]; [set_solver..|done].
  - apply Hadd; done.
  - intros k i'. simpl. intros [_ Hk]%lookup_delete_Some. by apply Hr'.
Qed.

Lemma recovery_trace s0 sp0 tr s :
  refines (d_ds s0) sp0 → podsIP (d_ds s0) = ∅ → ds_hist s0 tr s → recovering (calls_of tr) →
  ds_trace s0 tr s ∧ recorded (calls_of tr) (d_ds s).
Proof.
  intros HR H0 Hh. induction Hh as [s0|s0 tr s1 c r s' Hh IH Hok Hex|s0 tr ds p p' w w' Hh IH Hw];
    intros Hrec.
  - split; [constructor|]. intros k i. by rewrite H0.
  - rewrite calls_of_snoc in *. simpl in *. destruct IH as [Ht Hr]; [done|done| |].
    { intros pod pod' ??. apply Hrec; set_solver. }
    assert (ds_wf (d_ds s1)) as Hwf.
    { destruct s0 as [ds0 p0 w0]. destruct (ds_trace_refines _ _ _ _ _ _ HR Ht) as (? & _ & ?).
      by eapply R_wf. }
    split.
    + eapply DT_call; [done| |done]. destruct c as [| | |pod| | |]; try done.
      intros k i Hk Hi. destruct (Hr _ _ Hk) as (pod' & Hin & <- & Hp).
      apply Hrec; [set_solver..|congruence].
    + eapply recorded_step; [by apply ds_exec_ret|done..].
  - destruct IH as [Ht Hr]; [done..|]. split; [by eapply DT_env|done].
Qed.

Lemma serving_trace s0 sp0 tr s :
  refines (d_ds s0) sp0 → ds_hist s0 tr s → serving (calls_of tr) → ds_trace s0 tr s.
Proof.
  intros HR Hh. induction Hh as [s0|s0 tr s1 c r s' Hh IH Hok Hex|s0 tr ds p p' w w' Hh IH Hw];
    intros Hs.
  - constructor.
  - rewrite calls_of_snoc in Hs. simpl in Hs.
    assert (ds_trace s0 tr s1) as Ht. { apply IH; [done|]. intros pod ?. apply Hs. set_solver. }
    eapply DT_call; [done| |done]. destruct c as [| | |pod| | |]; try done.
    destruct s0 as [ds0 p0 w0]. destruct (ds_trace_refines _ _ _ _ _ _ HR Ht) as (sp & _ & HR1).
    intros k i Hk Hi. rewrite Hs in Hi by set_solver.
    destruct (R_pod _ _ HR1 _ _ Hk) as (j & Hsp & _). rewrite Hi in Hsp.
    by destruct (refines_entry HR1 _ _ _ Hsp) as (? & ? & ? & ? & ? & ? & ?).
  - eapply DT_env; [by apply IH|done].
Qed.

Lemma life_trace p (w : W) tr1 s1 tr2 s :
  ds_hist (mkDSt NewDataStore p w) tr1 s1 → recovering (calls_of tr1) →
  ds_hist s1 tr2 s → serving (calls_of tr2) →
  ds_trace (mkDSt NewDataStore p w) (tr1 ++ tr2) s.
Proof.
  intros H1 Hr H2 Hs. destruct (recovery_trace (mkDSt NewDataStore p w) spec_new _ _ refines_new eq_refl H1 Hr) as [Ht1 _].
  destruct (ds_trace_refines _ _ _ _ _ _ refines_new Ht1) as (sp & _ & HR).
  eapply ds_trace_app; [done|]. by eapply serving_trace.
Qed.

End life.

(** C2: from the start of the daemon, through a recovery in which pods name
    their addresses and different pods different ones, and then a service in
    which pods name none (as [AddNetwork] asks), with ENIs and addresses coming
    and going at any time as long as an address is not added to an ENI while
    the store has it on another: no two pods share an address, every pod's
    address is an assigned address of exactly one ENI, whose device number is
    the one the pod was given, every assigned address is used by a pod, and the
    number of assigned addresses is the number of pods. *)
Theorem pods_never_share {W} `{!World W} `{!WorldOk W} p (w : W) tr1 s1 tr2 (s : DSt W) :
  ds_hist (mkDSt NewDataStore p w) tr1 s1 → recovering (calls_of tr1) →
  ds_hist s1 tr2 s → serving (calls_of tr2) →
  (∀ k k' i i', podsIP (d_ds s) !! k = Some i → podsIP (d_ds s) !! k' = Some i' →
     IP i = IP i' → k = k') ∧
  (∀ k i, podsIP (d_ds s) !! k = Some i →
     exists! id, ∃ a, addr_of (d_ds s) id (IP i) = Some a ∧ Assigned a = true ∧
                 dev_of (d_ds s) id = Some (pi_DeviceNumber i)) ∧
  (∀ id ip a, addr_of (d_ds s) id ip = Some a → Assigned a = true →
     ∃ k i, podsIP (d_ds s) !! k = Some i ∧ IP i = ip) ∧
  assigned (d_ds s) = len (podsIP (d_ds s)).
Proof.
  intros H1 Hr H2 Hs.
  destruct (ds_trace_refines _ _ _ _ _ _ refines_new (life_trace _ _ _ _ _ _ H1 Hr H2 Hs)) as (sp & _ & HR).
  split_and!.
  - intros *. apply (refines_pod_inj HR).
  - intros k i (id & Hsp & Hd)%(R_pod _ _ HR).
    destruct (refines_entry HR _ _ _ Hsp) as (a & d & Ha & _ & _ & [? _] & _).
    exists id. split; [eauto|]. intros id' (a' & Ha' & _ & Hd').
    destruct (R_addr _ _ HR _ _ _ _ Ha' Hd') as (_ & st & ? & _). congruence.
  - intros id ip a Ha Has. destruct (addr_of_dev _ _ _ _ Ha) as [d Hd].
    destruct (R_addr _ _ HR _ _ _ _ Ha Hd) as (_ & [t|k] & _ & [??]); [congruence|].
    by exists k, (mkPodIPInfo ip d).
  - apply HR.
Qed.

(** A daemon that finds two pods running and then serves three requests. *)
Definition test_named (n ip : string) : K8SPodInfo := mkK8SPodInfo n "default" "c" ip "".
Definition test_recovery : list ds_call :=
  [CAddENI "eni-1" 0 true; CAddENI "eni-2" 1 false;
   CAddIP "eni-1" "10.0.0.1"; CAddIP "eni-1" "10.0.0.2";
   CAddIP "eni-2" "10.0.1.1"; CAddIP "eni-2" "10.0.1.2";
   CAssign (test_named "p1" "10.0.1.1"); CAssign (test_named "p2" "10.0.0.2")]%string.
Definition test_service : list ds_call :=
  [CAssign (test_pod "p3"); CUnassign (test_pod "p1"); CAssign (test_pod "p4")].
Definition test_recovered : list (Z * ds_call * ds_ret) * DSt TestWorld :=
  default ([], test_init) (ds_run test_recovery test_init).
Definition test_served : list (Z * ds_call * ds_ret) * DSt TestWorld :=
  default ([], test_init) (ds_run test_service test_recovered.2).

Lemma pods_never_share_witness :
  len (podsIP (d_ds test_served.2)) = 3 ∧
  assigned (d_ds test_served.2) = len (podsIP (d_ds test_served.2)).
Proof.
  split; [by vm_compute|].
  eapply (pods_never_share ∅ test_w0 test_recovered.1 test_recovered.2 test_served.1).
  - apply ds_trace_hist, ds_run_trace with test_recovery. vm_compute. reflexivity.
  - assert (calls_of test_recovered.1 = test_recovery) as -> by (vm_compute; reflexivity).
    intros pod pod' Hp Hp'. unfold test_recovery in *.
    repeat (apply elem_of_cons in Hp as [Hp|Hp]; [try discriminate|]); try (by apply elem_of_nil in Hp);
    repeat (apply elem_of_cons in Hp' as [Hp'|Hp']; [try discriminate|]); try (by apply elem_of_nil in Hp');
    injection Hp as ->; injection Hp' as ->; split; done.
  - apply ds_trace_hist, ds_run_trace with test_service. vm_compute. reflexivity.
  - assert (calls_of test_served.1 = test_service) as -> by (vm_compute; reflexivity).
    intros pod Hp. unfold test_service in Hp.
    repeat (apply elem_of_cons in Hp as [Hp|Hp]; [try discriminate|]); try (by apply elem_of_nil in Hp);
      by injection Hp as ->.
Defined.

(** ** What a call leaves alone *)

Lemma addr_of_insert_other ds ds' id e e' j q :
  eniIPPools ds' = <[id := e']> (eniIPPools ds) → eniIPPools ds !! id = Some e →
  (j = id → IPv4Addresses e' !! q = IPv4Addresses e !! q) → addr_of ds' j q = addr_of ds j q.
Proof.
  intros Hm He Hq. unfold addr_of. rewrite Hm. destruct (decide (j = id)) as [->|].
  - rewrite lookup_insert_eq, He. by apply Hq.
  - by rewrite lookup_insert_ne.
Qed.

Lemma addr_of_drop ds id e j q a :
  ds_wf ds → eniIPPools ds !! id = Some e → AssignedIPv4Addresses e = 0 →
  addr_of ds j q = Some a → Assigned a = true → addr_of (drop_eni id e ds) j q = Some a.
Proof.
  intros Hwf He H0 Ha Has. unfold addr_of; simpl. destruct (decide (j = id)) as [->|].
  - apply addr_of_Some in Ha as (e' & ? & Ha). simplify_eq.
    pose proof (pool_wf_unused _ _ _ _ (proj1 Hwf _ _ He) H0 Ha). congruence.
  - by rewrite lookup_delete_ne.
Qed.

(** A used address stays as it is, unless a pod that uses it is released. *)
Lemma ds_outcome_used c t0 t1 ds p r ds' p' id ip a :
  ds_outcome c t0 t1 (ds, p) r (ds', p') → ds_wf ds →
  addr_of ds id ip = Some a → Assigned a = true →
  (∀ pod i, c = CUnassign pod → podsIP ds !! podKey pod = Some i → IP i ≠ ip) →
  addr_of ds' id ip = Some a.
Proof.
  intros H Hwf Ha Has Hc. rewrite <-Ha. pose proof (proj1 (addr_of_Some _ _ _ _) Ha) as (e & He & Ha').
  destruct c; simpl in H; destruct_and?.
  - destruct H as (err & -> & H). inversion H; subst; [done|]. unfold addr_of; simpl.
    rewrite lookup_insert_ne; [done|]. congruence.
  - destruct H as (err & -> & H). inversion H; subst; [done..|].
    eapply addr_of_insert_other; [done..|]. intros ->. simpl. rewrite lookup_insert_ne; [done|]. congruence.
  - destruct H as (err & -> & H). inversion H; subst; [done..|].
    eapply addr_of_insert_other; [done..|]. intros ->. simpl. rewrite lookup_delete_ne; [done|]. congruence.
  - destruct H as (q & d & err & -> & H). inversion H; subst; try done.
    eapply addr_of_insert_other; [done..|]. intros ->. simpl. rewrite lookup_insert_ne; [done|]. congruence.
  - destruct H as (q & d & err & -> & H). inversion H; subst; [done..|].
    eapply addr_of_insert_other; [done..|]. intros ->. simpl. rewrite lookup_insert_ne; [done|]. by eapply Hc.
  - destruct H as (err & -> & H). inversion H; subst; [done..|]. rewrite Ha. by apply addr_of_drop.
  - destruct H as (q & -> & H). inversion H as [|? ? q' e' t t' pool He' ? ? Hd Hp]; subst; [done|].
    pose proof (proj1 (proj1 Hwf _ _ He')). subst. rewrite He' in Hp. simplify_eq.
    rewrite Ha. apply addr_of_drop; [done|done|apply Hd|done|done].
Qed.

Lemma ds_outcome_pods c t0 t1 ds p r ds' p' k :
  ds_outcome c t0 t1 (ds, p) r (ds', p') →
  (∀ pod, c = CAssign pod → podKey pod ≠ k) → (∀ pod, c = CUnassign pod → podKey pod ≠ k) →
  podsIP ds' !! k = podsIP ds !! k.
Proof.
  intros H Ha Hu. destruct c; simpl in H; repeat destruct H as (? & H); inversion H; subst; try done; simpl.
  - rewrite lookup_insert_ne; [done|]. by apply Ha.
  - rewrite lookup_insert_ne; [done|]. by apply Ha.
  - rewrite lookup_delete_ne; [done|]. by apply Hu.
Qed.

Definition ret_err (r : ds_ret) : option error :=
  match r with RErr e => e | RIP _ _ e => e | RENI _ => None end.

Section calls.
Context {W : Type} `{!World W} `{!WorldOk W}.

(** C15: a call that returns an error has changed nothing: neither the store nor
    a gauge. *)
Theorem error_changes_nothing c (s : DSt W) r s' :
  ds_wf (d_ds s) → ds_exec c s = (Ret r, s') → ret_err r ≠ None →
  d_ds s' = d_ds s ∧ d_prom s' = d_prom s.
Proof.
  intros Hwf Hex Herr. destruct (ds_exec_ret _ _ _ _ Hwf Hex) as (Ho & _).
  destruct s as [ds p w], s' as [ds' p' w']. simpl in *.
  destruct c; simpl in Ho; repeat destruct Ho as (? & Ho); inversion Ho; subst; done.
Qed.

(** C13: no call takes away an address in use, unless it is the release of a pod
    recorded with that address (a second pod can be recorded with it only by
    naming it, see [named_address_is_shared]): for every other call the address
    stays in use, on the same ENI; and no call changes the entry of a pod it is
    not about. *)
Theorem used_address_stays c (s : DSt W) r s' :
  ds_wf (d_ds s) → ds_exec c s = (Ret r, s') →
  (∀ id ip a, addr_of (d_ds s) id ip = Some a → Assigned a = true →
     (∀ pod i, c = CUnassign pod → podsIP (d_ds s) !! podKey pod = Some i → IP i ≠ ip) →
     addr_of (d_ds s') id ip = Some a) ∧
  (∀ k, (∀ pod, c = CAssign pod → podKey pod ≠ k) → (∀ pod, c = CUnassign pod → podKey pod ≠ k) →
     podsIP (d_ds s') !! k = podsIP (d_ds s) !! k).
Proof.
  intros Hwf Hex. destruct (ds_exec_ret _ _ _ _ Hwf Hex) as (Ho & _). split.
  - intros id ip a Ha Has Hc. by eapply ds_outcome_used.
  - intros k Ha Hu. by eapply ds_outcome_pods.
Qed.

End calls.

Lemma test_state_wf : ds_wf (d_ds test_state).
Proof. apply (ds_reach_inv _ _ test_reach). apply ds_inv_new. by vm_compute. Qed.

Lemma error_changes_nothing_witness :
  let '(r, s') := ds_exec (CRemoveENI "eni-2") test_state in
  r = Ret (RErr (Some (EStr ENIInUseError))) ∧
  d_ds s' = d_ds test_state ∧ d_prom s' = d_prom test_state.
Proof.
  destruct (ds_exec (CRemoveENI "eni-2") test_state) as [r s'] eqn:Hex.
  assert (r = Ret (RErr (Some (EStr ENIInUseError)))) as ->.
  { change r with (r, s').1. rewrite <-Hex. vm_compute. reflexivity. }
  split; [done|]. exact (error_changes_nothing _ _ _ _ test_state_wf Hex ltac:(done)).
Defined.

Lemma used_address_stays_witness :
  let '(r, s') := ds_exec (CAssign (test_pod "p2")) test_state in
  podsIP (d_ds s') !! podKey (test_pod "p1") = podsIP (d_ds test_state) !! podKey (test_pod "p1").
Proof.
  destruct (ds_exec (CAssign (test_pod "p2")) test_state) as [r s'] eqn:Hex.
  assert (∃ x, r = Ret x) as [x ->].
  { change r with (r, s').1. rewrite <-Hex. vm_compute. eauto. }
  apply (used_address_stays _ _ _ _ test_state_wf Hex); [|done]. by intros pod [= <-].
Defined.

(** ** Assignment and release *)

(** An address [AssignPodIPv4Address] may give to a pod that names none. *)
Definition available_at (now : Z) (ds : DataStore) (id ip : string) : Prop :=
  ∃ a, addr_of ds id ip = Some a ∧ Assigned a = false ∧ cooled now (UnassignedTime a).

Definition no_empty_address (ds : DataStore) : Prop := ∀ id, addr_of ds id "" = None.

Lemma refines_no_empty ds sp : refines ds sp → no_empty_address ds.
Proof.
  intros HR id. destruct (addr_of ds id "") as [a|] eqn:Ha; [|done].
  destruct (addr_of_dev _ _ _ _ Ha) as [d Hd].
  by destruct (R_addr _ _ HR _ _ _ _ Ha Hd) as (? & _).
Qed.

Section assign.
Context {W : Type} `{!World W} `{!WorldOk W}.

(** What an assignment to a new pod that names no address does. *)
Lemma assign_new pod (s : DSt W) :
  ds_wf (d_ds s) → no_empty_address (d_ds s) →
  podsIP (d_ds s) !! podKey pod = None → PodIP pod = ""%string →
  wp False (AssignPodIPv4Address pod)
    (λ r s', match r with
      | (ip, dev, None) => ∃ id eni addr, eniIPPools (d_ds s) !! id = Some eni ∧
          IPv4Addresses eni !! ip = Some addr ∧ Assigned addr = false ∧ Address addr = ip ∧
          cooled (clock (d_world s)) (UnassignedTime addr) ∧ DeviceNumber eni = dev ∧
          d_ds s' = add_pod pod ip dev (mark_assigned id eni ip addr (d_ds s))
      | (_, _, Some _) => d_ds s' = d_ds s ∧
          ∀ id ip, ¬ available_at (clock (d_world s)) (d_ds s) id ip
      end) s.
Proof.
  intros Hwf Hne Hpod Hip. eapply wp_mono; [apply AssignPodIPv4Address_outcome|].
  intros r [ds' p' w'] Ho. destruct s as [ds p w]. simpl in *. unfold dp in Ho; simpl in Ho.
  inversion Ho as [? ? i Hp|? ? i Hp|? ? id e ip a _ He Ha Hsk Hel Has|? ? id e ip a _ He Ha Hsk Hel Has
                  |? ? _ Hno]; subst; try congruence.
  - pose proof (proj2 (proj2 (proj1 Hwf _ _ He)) _ _ Ha) as Haddr.
    exists id, e, a. rewrite Haddr. split_and!; try done.
    destruct Hel as [Heq|(_ & _ & ?)]; [|done]. exfalso.
    specialize (Hne id). rewrite <-Hip, Heq, Haddr in Hne.
    unfold addr_of in Hne. rewrite He in Hne. simpl in Hne. congruence.
  - pose proof (proj2 (proj2 (proj1 Hwf _ _ He)) _ _ Ha) as Haddr. exfalso.
    specialize (Hne id). rewrite <-Hip, Hel, Haddr in Hne.
    unfold addr_of in Hne. rewrite He in Hne. simpl in Hne. congruence.
  - split; [done|]. intros id ip (a & (e & He & Ha)%addr_of_Some & Has & Hcool).
    destruct (Hno _ _ _ _ He Ha) as [[_ Hfull]|Hel].
    + pose proof (pool_wf_full _ _ _ _ (proj1 Hwf _ _ He) Hfull Ha). congruence.
    + apply Hel. right. done.
Qed.

(** C11: a new pod gets an address exactly when the store has a free address
    that has been unused for the cooling period, whatever order the ENIs and
    addresses are visited in; the address given is such an address, the device
    number is its ENI's, and the pod is recorded with both. *)
Theorem assign_iff_available pod (s : DSt W) :
  ds_wf (d_ds s) → no_empty_address (d_ds s) →
  podsIP (d_ds s) !! podKey pod = None → PodIP pod = ""%string →
  ∃ ip dev err s', AssignPodIPv4Address pod s = (Ret (ip, dev, err), s') ∧
    (err = None ↔ ∃ id ip', available_at (clock (d_world s)) (d_ds s) id ip') ∧
    (err = None →
       (∃ id, available_at (clock (d_world s)) (d_ds s) id ip ∧ dev_of (d_ds s) id = Some dev ∧
          Assigned <$> addr_of (d_ds s') id ip = Some true) ∧
       podsIP (d_ds s') = <[podKey pod := mkPodIPInfo ip dev]> (podsIP (d_ds s)) ∧
       assigned (d_ds s') = assigned (d_ds s) + 1 ∧ total (d_ds s') = total (d_ds s)).
Proof.
  intros Hwf Hne Hpod Hip.
  destruct (wp_run _ _ _ (assign_new pod s Hwf Hne Hpod Hip)) as ([[ip dev] err] & s' & Hex & Hr).
  exists ip, dev, err, s'. split; [done|]. destruct err as [e|].
  - destruct Hr as [_ Hno]. split; [|done]. split; [done|]. intros (id & ip' & ?). by destruct (Hno id ip').
  - destruct Hr as (id & e & a & He & Ha & Has & Haddr & Hcool & Hd & Hds).
    assert (available_at (clock (d_world s)) (d_ds s) id ip) as Hav.
    { exists a. split; [apply addr_of_Some; eauto|done]. }
    split; [split; eauto|]. intros _. rewrite Hds. split_and!; [|done..].
    exists id. split_and!; [done|unfold dev_of; rewrite He; simpl; congruence|].
    unfold addr_of; simpl. rewrite lookup_insert_eq. simpl. by rewrite lookup_insert_eq.
Qed.

Lemma unassign_frees pod (s : DSt W) sp :
  refines (d_ds s) sp →
  ∃ ip dev err s', UnassignPodIPv4Address pod s = (Ret (ip, dev, err), s') ∧
    match podsIP (d_ds s) !! podKey pod with
    | None => err = Some ErrUnknownPod ∧ d_ds s' = d_ds s
    | Some i => ip = IP i ∧ dev = pi_DeviceNumber i ∧ err = None ∧
        podsIP (d_ds s') = delete (podKey pod) (podsIP (d_ds s)) ∧
        assigned (d_ds s') = assigned (d_ds s) - 1 ∧ total (d_ds s') = total (d_ds s) ∧
        ∃ id t, clock (d_world s) ≤ t ∧
          Assigned <$> addr_of (d_ds s) id (IP i) = Some true ∧
          (∀ j q, addr_of (d_ds s') j q =
             if decide (j = id ∧ q = IP i) then Some (mkAddressInfo (IP i) false t)
             else addr_of (d_ds s) j q)
    end.
Proof.
  intros HR. destruct (wp_run _ _ _ (UnassignPodIPv4Address_outcome pod s))
    as ([[ip dev] err] & s' & Hex & Ho).
  exists ip, dev, err, s'. split; [done|]. destruct s as [ds p w], s' as [ds' p' w'].
  unfold dp in Ho; simpl in *.
  inversion Ho as [? ? Hp|? ? i Hp Hno|? ? i id e a t Hp He Ha Has Ht]; subst; rewrite Hp.
  - done.
  - exfalso. destruct (R_pod _ _ HR _ _ Hp) as (id & Hsp & Hd).
    destruct (refines_entry HR _ _ _ Hsp) as (a & d & Hao & _ & _ & [Hs _] & _).
    apply addr_of_Some in Hao as (e & He & Ha). pose proof (Hno _ _ _ He Ha). congruence.
  - eassert (addr_of _ id (IP i) = Some a) as Hao
      by (apply addr_of_Some; exists e; split; [exact He|exact Ha]).
    pose proof (refines_addr_wf HR _ _ _ Hao) as Haddr. pose proof (dev_of_Some _ _ _ He) as Hd.
    destruct (R_pod _ _ HR _ _ Hp) as (id' & Hsp & Hd').
    destruct (R_addr _ _ HR _ _ _ _ Hao Hd) as (_ & st & Hsp' & _).
    assert (id' = id) as -> by congruence. rewrite Hd' in Hd. simplify_eq.
    split_and!; try done. exists id, t. split; [lia|]. split; [rewrite Hao; simpl; congruence|]. rewrite <-Haddr.
    eapply addr_of_replace; [done..|]. simpl. by rewrite Haddr.
Qed.

(** releasing a pod frees exactly its address: the result is the address
    and device number the pod was recorded with, the address becomes free at a
    time not before the call, every other address and every other pod stay as
    they were, and releasing an unknown pod reports [ErrUnknownPod]. *)
Theorem unassign_frees_one pod (s : DSt W) sp :
  refines (d_ds s) sp →
  ∃ ip dev err s', UnassignPodIPv4Address pod s = (Ret (ip, dev, err), s') ∧
    match podsIP (d_ds s) !! podKey pod with
    | None => err = Some ErrUnknownPod ∧ d_ds s' = d_ds s
    | Some i => ip = IP i ∧ dev = pi_DeviceNumber i ∧ err = None ∧
        podsIP (d_ds s') = delete (podKey pod) (podsIP (d_ds s)) ∧
        assigned (d_ds s') = assigned (d_ds s) - 1 ∧ total (d_ds s') = total (d_ds s) ∧
        ∃ id t, clock (d_world s) ≤ t ∧
          Assigned <$> addr_of (d_ds s) id (IP i) = Some true ∧
          (∀ j q, addr_of (d_ds s') j q =
             if decide (j = id ∧ q = IP i) then Some (mkAddressInfo (IP i) false t)
             else addr_of (d_ds s) j q)
    end.
Proof. apply unassign_frees. Qed.

End assign.

Lemma test_refines : ∃ sp, refines (d_ds test_state) sp.
Proof.
  destruct (ds_trace_refines _ _ _ _ _ _ refines_new (ds_run_trace _ _ _ _ test_run)) as (sp & _ & HR).
  by exists sp.
Qed.

Lemma test_no_empty : no_empty_address (d_ds test_state).
Proof. destruct test_refines as [sp HR]. exact (refines_no_empty _ _ HR). Qed.

Lemma assign_iff_available_witness :
  ∃ ip dev err s', AssignPodIPv4Address (test_pod "p2") test_state = (Ret (ip, dev, err), s') ∧
    (err = None ↔ ∃ id ip', available_at (clock (d_world test_state)) (d_ds test_state) id ip').
Proof.
  destruct (assign_iff_available (test_pod "p2") test_state test_state_wf test_no_empty)
    as (ip & dev & err & s' & ? & ? & _); [by vm_compute|done|]. eauto 6.
Defined.

Lemma unassign_frees_one_witness :
  ∃ ip dev s', UnassignPodIPv4Address (test_pod "p1") test_state = (Ret (ip, dev, None), s') ∧
    podsIP (d_ds s') = delete (podKey (test_pod "p1")) (podsIP (d_ds test_state)).
Proof.
  destruct test_refines as [sp HR].
  destruct (unassign_frees_one (test_pod "p1") test_state sp HR) as (ip & dev & err & s' & Hex & H).
  assert (is_Some (podsIP (d_ds test_state) !! podKey (test_pod "p1"))) as [i Hi] by (vm_compute; eauto).
  rewrite Hi in H. destruct H as (_ & _ & -> & ? & _). eauto 6.
Defined.

(** ** Cooling *)

Lemma refines_one_eni {ds sp} (HR : refines ds sp) id id' ip a b :
  addr_of ds id ip = Some a → Assigned <$> addr_of ds id' ip = Some b → id = id'.
Proof.
  intros Ha (a' & Ha' & _)%fmap_Some. destruct (addr_of_dev _ _ _ _ Ha) as [d Hd].
  destruct (addr_of_dev _ _ _ _ Ha') as [d' Hd'].
  destruct (R_addr _ _ HR _ _ _ _ Ha Hd) as (_ & ? & ? & _).
  destruct (R_addr _ _ HR _ _ _ _ Ha' Hd') as (_ & ? & ? & _). congruence.
Qed.

Section cooling.
Context {W : Type} `{!World W} `{!WorldOk W}.

(** The address given to a pod that names none was free and had cooled down. *)
Lemma free_after_release pod (s : DSt W) sp r s' :
  refines (d_ds s) sp → PodIP pod = ""%string →
  AssignPodIPv4Address pod s = (Ret r, s') → r.2 = None →
  ∃ id a, addr_of (d_ds s) id r.1.1 = Some a ∧ Assigned a = false ∧
    cooled (clock (d_world s)) (UnassignedTime a).
Proof.
  intros HR Hip Hex Herr. destruct (podsIP (d_ds s) !! podKey pod) as [i|] eqn:Hpod.
  - pose proof (wp_elim _ _ _ _ _ _ (AssignPodIPv4Address_outcome pod s) Hex) as Ho.
    destruct s as [ds p w], s' as [ds' p' w']. unfold dp in Ho; simpl in *.
    inversion Ho; subst; simpl in *; congruence.
  - pose proof (wp_elim _ _ _ _ _ _
      (assign_new pod s (R_wf _ _ HR) (refines_no_empty _ _ HR) Hpod Hip) Hex) as Hr.
    destruct r as [[ip dev] [e|]]; [done|].
    destruct Hr as (id & e & a & He & Ha & ? & _ & ? & _). exists id, a.
    split_and!; [apply addr_of_Some; eauto|done..].
Qed.

(** C12: assigning an address to a new pod and releasing it again gives back the
    same address and device number and the same counters and pods as before;
    and the address is not handed to another pod that names none before the
    cooling period is over. *)
Theorem assign_release_cools pod pod' (s : DSt W) sp ip dev s1 :
  refines (d_ds s) sp →
  podsIP (d_ds s) !! podKey pod = None → PodIP pod = ""%string → PodIP pod' = ""%string →
  AssignPodIPv4Address pod s = (Ret (ip, dev, None), s1) →
  ∃ s2, UnassignPodIPv4Address pod s1 = (Ret (ip, dev, None), s2) ∧
    podsIP (d_ds s2) = podsIP (d_ds s) ∧
    assigned (d_ds s2) = assigned (d_ds s) ∧ total (d_ds s2) = total (d_ds s) ∧
    ∀ w' r s3, clock (d_world s1) ≤ clock w' →
      clock w' ≤ clock (d_world s1) + addressCoolingPeriod →
      AssignPodIPv4Address pod' (d_set_world w' s2) = (Ret r, s3) → r.2 = None → r.1.1 ≠ ip.
Proof.
  intros HR Hpod Hip Hip' Hex. pose proof (R_wf _ _ HR) as Hwf.
  pose proof (refines_no_empty _ _ HR) as Hne.
  pose proof (wp_elim _ _ _ _ _ _ (assign_new pod s Hwf Hne Hpod Hip) Hex) as
    (id & eni & addr & He & Ha & Has & Haddr & Hcool & Hd & Hds).
  assert (call_ok (d_ds s) (CAssign pod)) as Hok.
  { intros k i Hk Hi. rewrite Hip in Hi. destruct (R_pod _ _ HR _ _ Hk) as (j & Hsp & _).
    rewrite Hi in Hsp. by destruct (refines_entry HR _ _ _ Hsp) as (? & ? & ? & ? & ? & ? & ?). }
  destruct (assign_refines _ _ _ _ _ _ _ _
    (wp_elim _ _ _ _ _ _ (AssignPodIPv4Address_outcome pod s) Hex) HR Hok) as (sp1 & _ & HR1).
  destruct (unassign_frees pod s1 sp1 HR1) as (ip2 & dev2 & err & s2 & Hex2 & Hr).
  assert (podsIP (d_ds s1) !! podKey pod = Some (mkPodIPInfo ip dev)) as Hl
    by (rewrite Hds; apply lookup_insert_eq).
  rewrite Hl in Hr.
  destruct Hr as (-> & -> & -> & Hp & Hn & Ht & id2 & t & Hct & Hused & Hadr). exists s2.
  rewrite Hp, Hn, Ht, Hds. simpl. rewrite delete_insert_id by done. split_and!; [done|done|lia|done|].
  intros w' r s3 Hw1 Hw2 Hex3 Herr Heq.
  destruct (unassign_refines _ _ _ _ _ _ _ _ _
    (wp_elim _ _ _ _ _ _ (UnassignPodIPv4Address_outcome pod s1) Hex2) HR1) as (sp2 & _ & HR2).
  destruct (free_after_release pod' (d_set_world w' s2) sp2 r s3 HR2 Hip' Hex3 Herr)
    as (id3 & a3 & Ha3 & Hf3 & Hc3).
  simpl in *. rewrite Heq, Hadr in Ha3. unfold cooled in Hc3. case_decide as Hid.
  - simplify_eq; simpl in *. apply Sub_gt in Hc3; [|done]. lia.
  - apply Hid. split; [|done]. exact (refines_one_eni HR1 _ _ _ _ _ Ha3 Hused).
Qed.

End cooling.

Definition test_p2_state : DSt TestWorld := (AssignPodIPv4Address (test_pod "p2") test_state).2.

Lemma assign_release_cools_witness :
  ∃ ip dev s2, UnassignPodIPv4Address (test_pod "p2") test_p2_state = (Ret (ip, dev, None), s2) ∧
    podsIP (d_ds s2) = podsIP (d_ds test_state).
Proof.
  destruct test_refines as [sp HR].
  assert (∃ ip dev, AssignPodIPv4Address (test_pod "p2") test_state = (Ret (ip, dev, None), test_p2_state))
    as (ip & dev & Hex) by (eexists _, _; vm_compute; reflexivity).
  destruct (assign_release_cools (test_pod "p2") (test_pod "p3") test_state sp ip dev test_p2_state)
    as (s2 & ? & ? & _); [exact HR|vm_compute; reflexivity|reflexivity|reflexivity|exact Hex|].
  exists ip, dev, s2. split; assumption.
Defined.

(** ** Removing an unused ENI *)

Section remove.
Context {W : Type} `{!World W} `{!WorldOk W}.

Lemma otherWarm_drop ds e :
  ds_wf ds → eniIPPools ds !! ID e = Some e →
  map_sum warm (delete (ID e) (eniIPPools ds)) = otherWarm e ds.
Proof.
  intros Hwf He. unfold otherWarm.
  pose proof (map_sum_delete (λ o, if bool_decide (ID o ≠ ID e) then warm o else 0) _ _ _ He) as Hs.
  simpl in Hs. rewrite bool_decide_eq_false_2 in Hs by tauto.
  rewrite Z.sub_0_r in Hs. rewrite <-Hs. apply map_sum_ext.
  intros i x [Hi Hx]%lookup_delete_Some. rewrite bool_decide_eq_true_2; [done|].
  pose proof (proj1 (proj1 Hwf _ _ Hx)). congruence.
Qed.

(** C14: in a reachable state, the ENI that [RemoveUnusedENIFromStore] removes is
    not the primary one, is at least a minute old, has no address in use and
    none that was released within the last minute, and with a warm IP target
    the other ENIs still have that many available addresses; when nothing is
    removed, no ENI satisfied the conditions when the call was made. *)
Theorem remove_unused_conditions target (s : DSt W) :
  ds_inv s →
  ∃ id s', RemoveUnusedENIFromStore target s = (Ret id, s') ∧
    ((∃ eni now, eniIPPools (d_ds s) !! id = Some eni ∧ clock (d_world s) ≤ now ∧
       d_ds s' = drop_eni id eni (d_ds s) ∧
       IsPrimary eni = false ∧ minLifeTime ≤ now - createTime eni ∧
       (∀ ip a, IPv4Addresses eni !! ip = Some a →
          Assigned a = false ∧ addressENICoolingPeriod ≤ now - UnassignedTime a) ∧
       (target = 0 ∨ target ≤ map_sum warm (eniIPPools (d_ds s')))) ∨
     (id = ""%string ∧ d_ds s' = d_ds s ∧
      ∀ id' eni, eniIPPools (d_ds s) !! id' = Some eni →
        ¬ deletable target (clock (d_world s)) (clock (d_world s)) (d_ds s) eni)).
Proof.
  intros (Hwf & Ht & H0).
  destruct (wp_run _ _ _ (RemoveUnusedENIFromStore_outcome target s
    (λ id e He, proj1 (proj1 Hwf _ _ He)))) as (id & s' & Hex & Ho).
  exists id, s'. split; [done|]. destruct s as [ds p w], s' as [ds' p' w']. unfold dp in Ho; simpl in *.
  inversion Ho as [? ? Hno|? ? id' e t1 t2 pool He Ht1 Ht2 Hd Hp]; subst; [by right|]. left.
  pose proof (proj1 (proj1 Hwf _ _ He)). subst. rewrite He in Hp. simplify_eq.
  destruct Hd as (Hprim & Hlife & Hcool & Hu & Hw).
  exists pool, (Z.max t1 t2). split_and!; try done.
  - lia.
  - unfold Sub, minLifeTime, Minute, Second, maxDuration, minDuration in *. lia.
  - intros ip a Ha. split; [by eapply pool_wf_unused; [apply Hwf| |]|].
    destruct (Ht _ _ He) as [? Hta]. specialize (Hta _ _ Ha).
    unfold Sub, addressENICoolingPeriod, Minute, Second, maxDuration, minDuration in *. lia.
  - destruct Hw as [?|Hw]; [by left|]. right. simpl. rewrite otherWarm_drop by done. lia.
Qed.

End remove.

(** The state after all pods are gone for a while. *)
Definition test_released : DSt TestWorld :=
  match ds_run (test_calls ++ [CUnassign (test_pod "p1")]) test_init with
  | Some (_, s) => s
  | None => test_init
  end.

Definition test_old : DSt TestWorld :=
  mkDSt (d_ds test_released) (d_prom test_released) (mkTestWorld (2000 * Minute) 0).

Lemma test_old_inv : ds_inv test_old.
Proof.
  apply (ds_reach_inv test_init); [|apply ds_inv_new; by vm_compute].
  eapply rtc_r.
  - apply (ds_run_steps (test_calls ++ [CUnassign (test_pod "p1")]) _
      (match ds_run (test_calls ++ [CUnassign (test_pod "p1")]) test_init with
       | Some (tr, _) => tr | None => [] end)).
    vm_compute. reflexivity.
  - apply (DStep_env (d_ds test_released) (d_prom test_released) (d_prom test_released)
             (d_world test_released)); [|done]. vm_compute. discriminate.
Qed.

Lemma remove_unused_conditions_witness :
  RemoveUnusedENIFromStore 2 test_old = (Ret "eni-2"%string, (RemoveUnusedENIFromStore 2 test_old).2) ∧
  ∃ id s', RemoveUnusedENIFromStore 2 test_old = (Ret id, s').
Proof.
  split; [vm_compute; reflexivity|].
  destruct (remove_unused_conditions 2 test_old test_old_inv) as (id & s' & Hex & _).
  exists id, s'. exact Hex.
Defined.

(** ** Metrics *)

(** the gauges [awscni_eni_allocated], [awscni_total_ip_addresses] and
    [awscni_assigned_ip_addresses] keep showing the numbers of the store, through
    every call other than [RemoveENIFromDataStore]. *)
Theorem gauges_follow {W} `{!World W} `{!WorldOk W} c (s : DSt W) r s' :
  ds_wf (d_ds s) → gauges_ok (d_ds s) (d_prom s) → (∀ id, c ≠ CRemoveENI id) →
  ds_exec c s = (Ret r, s') → gauges_ok (d_ds s') (d_prom s').
Proof.
  intros Hwf Hg Hc Hex. destruct (ds_exec_ret _ _ _ _ Hwf Hex) as (Ho & _).
  eapply ds_outcome_gauges; [exact Ho|done..].
Qed.

Lemma gauges_follow_witness :
  ∃ s', ds_exec (CAddENI "eni-9" 3 false) (mkDSt NewDataStore ∅ test_w0) = (Ret (RErr None), s') ∧
    gauges_ok (d_ds s') (d_prom s') ∧ prom_get enis "" (d_prom s') = 1.
Proof.
  eexists. split; [reflexivity|]. split.
  - eapply (gauges_follow (CAddENI "eni-9" 3 false) (mkDSt NewDataStore ∅ test_w0)).
    + apply ds_wf_new.
    + repeat split.
    + discriminate.
    + reflexivity.
  - reflexivity.
Defined.

(** [RemoveENIFromDataStore] lowers [total] by the addresses of the ENI but
    does not set the gauge [awscni_total_ip_addresses], which keeps counting
    them until another operation sets it. *)
Theorem remove_eni_stale_gauge {W} `{!World W} `{!WorldOk W} id e (s : DSt W) :
  ds_wf (d_ds s) → gauges_ok (d_ds s) (d_prom s) →
  eniIPPools (d_ds s) !! id = Some e → AssignedIPv4Addresses e = 0 →
  ∃ s', RemoveENIFromDataStore id s = (Ret None, s') ∧
    prom_get totalIPs "" (d_prom s') = total (d_ds s') + len (IPv4Addresses e).
Proof.
  intros Hwf (_ & Hg & _) He H0.
  destruct (wp_run _ _ _ (RemoveENIFromDataStore_outcome id s)) as (r & s' & Hex & Ho).
  destruct s as [ds p w], s' as [ds' p' w']. unfold dp in Ho; simpl in *.
  inversion Ho; subst; simplify_eq. exists (mkDSt (drop_eni id e ds) (prom_set enis "" (len (eniIPPools (drop_eni id e ds))) p) w').
  split; [done|]. simpl. rewrite prom_get_set, decide_False by done. lia.
Qed.

Lemma remove_eni_stale_gauge_witness :
  total (d_ds test_old) = 4 ∧
  ∃ s', RemoveENIFromDataStore "eni-2" test_old = (Ret None, s') ∧
    prom_get totalIPs "" (d_prom s') = total (d_ds s') + 2.
Proof.
  split; [vm_compute; reflexivity|].
  assert (∃ e, eniIPPools (d_ds test_old) !! "eni-2"%string = Some e ∧ AssignedIPv4Addresses e = 0 ∧
    len (IPv4Addresses e) = 2) as (e & He & H0 & H2).
  { eexists. split; [vm_compute; reflexivity|]. split; vm_compute; reflexivity. }
  assert (gauges_ok (d_ds test_old) (d_prom test_old)) as Hg by (repeat split; vm_compute; reflexivity).
  destruct (remove_eni_stale_gauge "eni-2" e test_old (proj1 test_old_inv) Hg He H0) as (s' & Hex & Hp).
  exists s'. split; [exact Hex|]. rewrite <-H2. exact Hp.
Defined.

(** ** The callers' obligation is needed *)

(** The address of a pod has one entry in the store. *)
Lemma refines_pod_entry ds sp k i :
  refines ds sp → podsIP ds !! k = Some i →
  ∃ id a, addr_of ds id (IP i) = Some a ∧ Assigned a = true ∧ Address a = IP i ∧
    dev_of ds id = Some (pi_DeviceNumber i) ∧
    ∀ j e b, eniIPPools ds !! j = Some e → IPv4Addresses e !! IP i = Some b → j = id ∧ b = a.
Proof.
  intros HR Hp. destruct (R_pod _ _ HR _ _ Hp) as (id & Hsp & Hd).
  destruct (refines_entry HR _ _ _ Hsp) as (a & d & Ha & Hd' & _ & [Has Hpi] & Hne).
  exists id, a. split_and!; [done|done|by eapply (refines_addr_wf HR)|done|].
  intros j e b Hj Hb. assert (addr_of ds j (IP i) = Some b) as Hjb by (apply addr_of_Some; eauto).
  assert (j = id) as ->. { eapply (refines_one_eni HR); [exact Hjb|]. by rewrite Ha. }
  split; congruence.
Qed.

Lemma assign_named_used ds p sp k i pod now r ds' p' :
  refines ds sp → podsIP ds !! k = Some i → podsIP ds !! podKey pod = None → PodIP pod = IP i →
  assign_outcome pod now (ds, p) r (ds', p') →
  r = (IP i, pi_DeviceNumber i, None) ∧ ds' = add_pod pod (IP i) (pi_DeviceNumber i) ds.
Proof.
  intros HR Hp1 Hp2 Hip Ho. destruct (refines_pod_entry _ _ _ _ HR Hp1) as (id & a & Ha & Has & Haddr & Hd & Hu).
  assert (∀ j e q b, eniIPPools ds !! j = Some e → IPv4Addresses e !! q = Some b → Address b = q) as Hab.
  { intros j e q b He Hb. exact (proj2 (proj2 (proj1 (R_wf _ _ HR) _ _ He)) _ _ Hb). }
  inversion Ho as [|? ? ? Hp|? ? j e ip b _ He Hb Hsk Hel Hasb|? ? j e ip b _ He Hb Hsk Hel Hasb|? ? _ Hno];
    subst; try congruence.
  - exfalso. assert (PodIP pod = Address b) as Heq.
    { destruct Hel as [?|(Hem & _)]; [done|].
      pose proof (refines_no_empty _ _ HR id). congruence. }
    rewrite (Hab _ _ _ _ He Hb), Hip in Heq. subst. destruct (Hu _ _ _ He Hb). congruence.
  - rewrite (Hab _ _ _ _ He Hb) in *. rewrite Hip in Hel. subst.
    destruct (Hu _ _ _ He Hb) as [-> ->]. rewrite (dev_of_Some _ _ _ He) in Hd. injection Hd as Hd. by rewrite Hd.
  - exfalso. apply addr_of_Some in Ha as (e & He & Hb).
    destruct (Hno _ _ _ _ He Hb) as [[Hem _]|Hel].
    + pose proof (refines_no_empty _ _ HR id) as Hn. rewrite <-Hem, Hip in Hn.
      unfold addr_of in Hn. rewrite He in Hn. simpl in Hn. congruence.
    + apply Hel. left. congruence.
Qed.

(** [AssignPodIPv4Address] does not check that the address a pod names is
    free: a second pod that names a used address is recorded for it too, and
    releasing the first pod then frees the address although the second still
    uses it. *)
Theorem named_address_is_shared {W} `{!World W} `{!WorldOk W} pod1 pod2 i (s : DSt W) sp :
  refines (d_ds s) sp → podsIP (d_ds s) !! podKey pod1 = Some i →
  podsIP (d_ds s) !! podKey pod2 = None → PodIP pod2 = IP i →
  ∃ s1 s2, AssignPodIPv4Address pod2 s = (Ret (IP i, pi_DeviceNumber i, None), s1) ∧
    UnassignPodIPv4Address pod1 s1 = (Ret (IP i, pi_DeviceNumber i, None), s2) ∧
    podsIP (d_ds s2) !! podKey pod2 = Some i ∧
    ∃ id a, addr_of (d_ds s2) id (IP i) = Some a ∧ Assigned a = false.
Proof.
  intros HR Hp1 Hp2 Hip.
  destruct (wp_run _ _ _ (AssignPodIPv4Address_outcome pod2 s)) as (r1 & s1 & Hex1 & Ho1).
  destruct (assign_named_used _ _ _ _ _ _ _ _ _ _ HR Hp1 Hp2 Hip Ho1) as [-> Hds1].
  destruct (wp_run _ _ _ (UnassignPodIPv4Address_outcome pod1 s1)) as (r2 & s2 & Hex2 & Ho2).
  exists s1, s2. split; [done|]. clear Hex1 Ho1.
  destruct (refines_pod_entry _ _ _ _ HR Hp1) as (id & a & Ha & Has & Haddr & Hd & Hu).
  destruct s as [ds p w], s1 as [ds1 p1 w1], s2 as [ds2 p2 w2]. unfold dp in *; simpl in *. subst ds1.
  assert (podKey pod1 ≠ podKey pod2) as Hk by congruence.
  inversion Ho2 as [? ? Hp|? ? i' Hp Hno|? ? i' j e b t Hp He Hb Hasb Ht]; subst;
    simpl in Hp; rewrite lookup_insert_ne in Hp by done; simplify_eq.
  - exfalso. apply addr_of_Some in Ha as (e & He & Hb). pose proof (Hno _ _ _ He Hb). congruence.
  - simpl in He. destruct (Hu _ _ _ He Hb) as [-> ->].
    rewrite (dev_of_Some _ _ _ He) in Hd. injection Hd as Hd. rewrite Hex2, Haddr, Hd.
    split_and!; [done|simpl; rewrite lookup_delete_ne by done; rewrite lookup_insert_eq; by destruct i|].
    exists id, (mkAddressInfo (Address a) false t). split; [|done].
    unfold addr_of; simpl. rewrite lookup_insert_eq. simpl. by rewrite lookup_insert_eq.
Qed.

Lemma named_address_is_shared_witness :
  ∃ i s1 s2, podsIP (d_ds test_state) !! podKey (test_pod "p1") = Some i ∧
    AssignPodIPv4Address (mkK8SPodInfo "p2" "default" "c" (IP i) "") test_state
      = (Ret (IP i, pi_DeviceNumber i, None), s1) ∧
    UnassignPodIPv4Address (test_pod "p1") s1 = (Ret (IP i, pi_DeviceNumber i, None), s2).
Proof.
  destruct test_refines as [sp HR].
  destruct (podsIP (d_ds test_state) !! podKey (test_pod "p1")) as [i|] eqn:Hi.
  - destruct (named_address_is_shared (test_pod "p1") (mkK8SPodInfo "p2" "default" "c" (IP i) "")
      i test_state sp HR Hi) as (s1 & s2 & H1 & H2 & _); [vm_compute; reflexivity|reflexivity|].
    exists i, s1, s2. split; [reflexivity|]. split; assumption.
  - exfalso. revert Hi. vm_compute. discriminate.
Defined.

(** The scenario of TestPodIPv4Address in data_store_test.go: addresses named by
    pods, the same pod twice, a release, and an unknown pod. *)
Example pod_scenario :
  let pod n ip := mkK8SPodInfo n "ns-1" "" ip "" in
  (map snd ∘ fst) <$> ds_run
    [CAddENI "eni-1" 1 true; CAddENI "eni-2" 2 false;
     CAddIP "eni-1" "1.1.1.1"; CAddIP "eni-2" "1.1.2.2"; CAddIP "eni-1" "1.1.1.2";
     CAssign (pod "pod-1" "1.1.1.1"); CAssign (pod "pod-1" "1.1.1.1");
     CAssign (pod "pod-2" ""); CAssign (pod "pod-3" ""); CAssign (pod "pod-4" "");
     CUnassign (pod "pod-2" ""); CUnassign (pod "pod-9" ""); CRemoveENI "eni-2"]%string test_init
  = Some [RErr None; RErr None; RErr None; RErr None; RErr None;
          RIP "1.1.1.1" 1 None; RIP "1.1.1.1" 1 None; RIP "1.1.2.2" 2 None; RIP "1.1.1.2" 1 None;
          RIP "" 0 (Some (EStr "assignPodIPv4AddressUnsafe: no available IP addresses"));
          RIP "1.1.2.2" 2 None; RIP "" 0 (Some ErrUnknownPod); RErr None].
Proof. vm_compute. reflexivity. Qed.
