(* ===== verification/Interfaces.v ===== *)
(** * The interfaces between the components of the daemon

    The Go interfaces through which [ipamd] reaches the rest of the system
    ([awsutils.APIs], [networkutils.NetworkAPIs], [k8sapi.K8SAPIs],
    [eniconfig.ENIConfig]) as type classes whose methods act on the world, the
    data that crosses them, and the laws clients may rely on.  What stands
    behind an interface is left open here: a method may return anything of its
    type, take time, or not return at all. *)
From S2P Require Import Prelude GoStd DataStore.

Open Scope Z_scope.

(** ** Data *)

(** [awsutils.ENIMetadata]. *)
Record ENIMetadata := mkENIMetadata {
  ENIID : string;
  MAC : string;
  md_DeviceNumber : Z;
  SubnetIPv4CIDR : string;
  LocalIPv4s : list string;
}.

(** [ec2.NetworkInterfacePrivateIpAddress]: pointers that may be nil. *)
Record EC2Address := mkEC2Address {
  Primary : option bool;
  PrivateIpAddress : option string;
}.

(** [aws.BoolValue], [aws.StringValue]. *)
Definition BoolValue (b : option bool) : bool := default false b.
Definition StringValue (s : option string) : string := default ""%string s.

Record ENIConfigSpec := mkENIConfigSpec {
  SecurityGroups : list string;
  Subnet : string;
}.

(** ** Interfaces *)

Class AwsAPIs (W : Type) : Type := {
  AllocENI : bool → list string → string → ext W (string * option error);
  FreeENI : string → ext W (option error);
  GetAttachedENIs : ext W (list ENIMetadata * option error);
  DescribeENI : string → ext W (list EC2Address * option string * option error);
  AllocIPAddresses : string → Z → ext W (option error);
  DeallocIPAddresses : string → list string → ext W (option error);
  GetVPCIPv4CIDR : ext W string;
  GetVPCIPv4CIDRs : ext W (list string);
  GetLocalIPv4 : ext W string;
  GetPrimaryENI : ext W string;
  GetENIipLimit : ext W (Z * option error);
  GetENILimit : ext W (Z * option error);
  GetPrimaryENImac : ext W string;
}.

Class NetworkAPIs (W : Type) : Type := {
  Rule : Type;
  SetupHostNetwork : IPNet → list string → string → option Z → ext W (option error);
  SetupENINetwork : string → string → Z → string → ext W (option error);
  UseExternalSNAT : ext W bool;
  GetExcludeSNATCIDRs : ext W (list string);
  GetRuleList : ext W (list Rule * option error);
  UpdateRuleListBySrc : list Rule → option Z * Z → list string → bool → ext W (option error);
}.

Class K8SAPIs (W : Type) : Type := {
  K8SGetLocalPodIPs : ext W (list K8SPodInfo * option error);
}.

Class ENIConfigAPI (W : Type) : Type := {
  MyENIConfig : ext W (ENIConfigSpec * option error);
}.

(** The environment of the process: [os.LookupEnv], [os.Getenv]. *)
Class Environ : Type := { environ : gmap string string }.

Definition LookupEnv `{!Environ} (k : string) : option string := environ !! k.
Definition Getenv `{!Environ} (k : string) : string := default ""%string (environ !! k).

(** ** Other goroutines

    The RPC handlers serve requests while the pool manager runs: between any
    two of its operations on the store, and while it waits for a service, any
    number of pods may be added and released.  [w_rpcs] is what arrives next. *)
Inductive rpc : Type :=
| RpcAdd (name namespace container : string)
| RpcDel (name namespace container : string).

Class Requests (W : Type) : Type := {
  w_rpcs : W → list rpc * W;
}.

(** What the clients rely on: a private address of the VPC belongs to one ENI,
    the services report it for no other, and it is not the empty string.  The owner is
    the same during the whole run; runs in which EC2 gives an address that was given
    back to another ENI of the node are outside of what is proved with it. *)
Class ServicesOk (W : Type) `{!AwsAPIs W} (own : string → string) : Prop := {
  attached_own : ∀ (w w' : W) l, GetAttachedENIs w = (Some (l, None), w') →
    ∀ m ip, m ∈ l → ip ∈ LocalIPv4s m → ip ≠ ""%string ∧ own ip = ENIID m;
  describe_own : ∀ id (w w' : W) l o, DescribeENI id w = (Some (l, o, None), w') →
    ∀ a, a ∈ l → StringValue (PrivateIpAddress a) ≠ ""%string ∧
                 own (StringValue (PrivateIpAddress a)) = id;
}.
