(* ===== verification/Ipamd.v ===== *)
(** * The node's pool manager: ipamd/ipamd.go

    [IPAMContext] with its fields; its methods are programs over the context,
    the metrics and the world.  Calls through the interfaces go to the world
    ([ask]); operations on the data store are the ones of [DataStore.v]
    ([store]).  Before each of them the RPC handlers may serve requests
    ([serve]), which is the interleaving the data store's lock allows.  The two
    retry loops run on fuel, one unit for an attempt; [NoFuel] never happens
    with the fuel given (see [IpamdProps.v]).  Logging is left out. *)
From S2P Require Import Prelude GoStd DataStore DataStoreSpec Interfaces.

Open Scope Z_scope.

(** ** Constants *)

Definition ipPoolMonitorInterval : Z := 5 * Second.
Definition maxRetryCheckENI : Z := 5.
Definition eniAttachTime : Z := 10 * Second.
Definition nodeIPPoolReconcileInterval : Z := 60 * Second.
Definition decreaseIPPoolInterval : Z := 30 * Second.
Definition maxK8SRetries : nat := 5.
Definition retryK8SInterval : Z := 3 * Second.
Definition ipReconcileCooldown : Z := 60 * Second.
Definition envWarmIPTarget : string := "WARM_IP_TARGET".
Definition noWarmIPTarget : Z := 0.
Definition envWarmENITarget : string := "WARM_ENI_TARGET".
Definition defaultWarmENITarget : Z := 1.
Definition envMaxENI : string := "MAX_ENI".
Definition defaultMaxENI : Z := -1.
Definition envCustomNetworkCfg : string := "AWS_VPC_K8S_CNI_CUSTOM_NETWORK_CFG".

(** Names of the metrics. *)
Definition ipamdErr : string := "awscni_ipamd_error_count".
Definition ipamdActionsInprogress : string := "awscni_ipamd_action_inprogress".
Definition enisMax : string := "awscni_eni_max".
Definition ipMax : string := "awscni_ip_max".
Definition reconcileCnt : string := "awscni_reconcile_count".
Definition addIPCnt : string := "awscni_add_ip_req_count".
Definition delIPCnt : string := "awscni_del_ip_req_count".

(** ** State *)

Record IPAMContext := mkIPAMContext {
  dataStore : DataStore;
  useCustomNetworking : bool;
  maxIPsPerENI : Z;
  maxENI : Z;
  warmENITarget : Z;
  warmIPTarget : Z;
  primaryIP : gmap string string;
  lastNodeIPPoolAction : Z;
  lastDecreaseIPPool : Z;
  reconcileCooldownCache : gmap string Z;
}.

Record IpamSt (W : Type) := mkIpamSt { i_ctx : IPAMContext; i_prom : Prom; i_world : W }.
Arguments mkIpamSt {W}.
Arguments i_ctx {W}.
Arguments i_prom {W}.
Arguments i_world {W}.

(** Assignments to one field of the context. *)
Definition set_dataStore (d : DataStore) (c : IPAMContext) : IPAMContext :=
  mkIPAMContext d (useCustomNetworking c) (maxIPsPerENI c) (maxENI c) (warmENITarget c)
    (warmIPTarget c) (primaryIP c) (lastNodeIPPoolAction c) (lastDecreaseIPPool c)
    (reconcileCooldownCache c).
Definition set_useCustomNetworking (b : bool) (c : IPAMContext) : IPAMContext :=
  mkIPAMContext (dataStore c) b (maxIPsPerENI c) (maxENI c) (warmENITarget c)
    (warmIPTarget c) (primaryIP c) (lastNodeIPPoolAction c) (lastDecreaseIPPool c)
    (reconcileCooldownCache c).
Definition set_maxIPsPerENI (n : Z) (c : IPAMContext) : IPAMContext :=
  mkIPAMContext (dataStore c) (useCustomNetworking c) n (maxENI c) (warmENITarget c)
    (warmIPTarget c) (primaryIP c) (lastNodeIPPoolAction c) (lastDecreaseIPPool c)
    (reconcileCooldownCache c).
Definition set_maxENI (n : Z) (c : IPAMContext) : IPAMContext :=
  mkIPAMContext (dataStore c) (useCustomNetworking c) (maxIPsPerENI c) n (warmENITarget c)
    (warmIPTarget c) (primaryIP c) (lastNodeIPPoolAction c) (lastDecreaseIPPool c)
    (reconcileCooldownCache c).
Definition set_targets (e i : Z) (c : IPAMContext) : IPAMContext :=
  mkIPAMContext (dataStore c) (useCustomNetworking c) (maxIPsPerENI c) (maxENI c) e i
    (primaryIP c) (lastNodeIPPoolAction c) (lastDecreaseIPPool c) (reconcileCooldownCache c).
Definition set_primaryIP (m : gmap string string) (c : IPAMContext) : IPAMContext :=
  mkIPAMContext (dataStore c) (useCustomNetworking c) (maxIPsPerENI c) (maxENI c)
    (warmENITarget c) (warmIPTarget c) m (lastNodeIPPoolAction c) (lastDecreaseIPPool c)
    (reconcileCooldownCache c).
Definition set_lastNodeIPPoolAction (t : Z) (c : IPAMContext) : IPAMContext :=
  mkIPAMContext (dataStore c) (useCustomNetworking c) (maxIPsPerENI c) (maxENI c)
    (warmENITarget c) (warmIPTarget c) (primaryIP c) t (lastDecreaseIPPool c)
    (reconcileCooldownCache c).
Definition set_lastDecreaseIPPool (t : Z) (c : IPAMContext) : IPAMContext :=
  mkIPAMContext (dataStore c) (useCustomNetworking c) (maxIPsPerENI c) (maxENI c)
    (warmENITarget c) (warmIPTarget c) (primaryIP c) (lastNodeIPPoolAction c) t
    (reconcileCooldownCache c).
Definition set_cache (m : gmap string Z) (c : IPAMContext) : IPAMContext :=
  mkIPAMContext (dataStore c) (useCustomNetworking c) (maxIPsPerENI c) (maxENI c)
    (warmENITarget c) (warmIPTarget c) (primaryIP c) (lastNodeIPPoolAction c)
    (lastDecreaseIPPool c) m.

(** [IPAMContext{}]. *)
Definition zeroContext : IPAMContext :=
  mkIPAMContext NewDataStore false 0 0 0 0 ∅ zeroTime zeroTime ∅.

(** [ENIMetadata{}]. *)
Definition zeroENIMetadata : ENIMetadata := mkENIMetadata "" "" 0 "" [].

(** ** Configuration from the environment *)

Section config.
Context {env : Environ}.

Definition getWarmENITarget : Z :=
  match LookupEnv envWarmENITarget with
  | None => defaultWarmENITarget
  | Some inputStr =>
      match Atoi inputStr with
      | Some input => if bool_decide (input < 0) then defaultWarmENITarget else input
      | None => defaultWarmENITarget
      end
  end.

Definition getWarmIPTarget : Z :=
  match LookupEnv envWarmIPTarget with
  | None => noWarmIPTarget
  | Some inputStr =>
      match Atoi inputStr with
      | Some input => if bool_decide (0 ≤ input) then input else noWarmIPTarget
      | None => noWarmIPTarget
      end
  end.

Definition UseCustomNetworkCfg : bool :=
  let strValue := Getenv envCustomNetworkCfg in
  if bool_decide (strValue = ""%string) then false
  else match ParseBool strValue with
       | Some parsedValue => parsedValue
       | None => false
       end.

(** The limit chosen from MAX_ENI and the limit of the instance type. *)
Definition limitMaxENI (instanceMaxENI : Z) : Z :=
  let envMax :=
    match LookupEnv envMaxENI with
    | Some inputStr =>
        match Atoi inputStr with
        | Some input => if bool_decide (1 ≤ input) then input else defaultMaxENI
        | None => defaultMaxENI
        end
    | None => defaultMaxENI
    end in
  if bool_decide (1 ≤ envMax) && bool_decide (envMax < instanceMaxENI) then envMax
  else instanceMaxENI.

End config.

(** ** Programs *)

Section ipamd.
Context {W : Type} `{!World W, !AwsAPIs W, !NetworkAPIs W, !K8SAPIs W, !ENIConfigAPI W, !Requests W}.
Context {env : Environ}.

Abbreviation IM := (M (IpamSt W)).

Definition i_set_ctx (c : IPAMContext) (s : IpamSt W) : IpamSt W :=
  mkIpamSt c (i_prom s) (i_world s).
Definition i_set_world (w : W) (s : IpamSt W) : IpamSt W := mkIpamSt (i_ctx s) (i_prom s) w.

Definition ctx {A} (f : IPAMContext → A) : IM A := gets (f ∘ i_ctx).
Definition upd (f : IPAMContext → IPAMContext) : IM unit :=
  modify (λ s, i_set_ctx (f (i_ctx s)) s).
Definition prom (f : Prom → Prom) : IM unit :=
  modify (λ s, mkIpamSt (i_ctx s) (f (i_prom s)) (i_world s)).
Definition world {A} (m : M W A) : IM A := zoom i_world i_set_world m.

(** An operation on the data store. *)
Definition to_dst (s : IpamSt W) : DSt W := mkDSt (dataStore (i_ctx s)) (i_prom s) (i_world s).
Definition of_dst (d : DSt W) (s : IpamSt W) : IpamSt W :=
  mkIpamSt (set_dataStore (d_ds d) (i_ctx s)) (d_prom d) (d_world d).
Definition store_op {A} (m : M (DSt W) A) : IM A := zoom to_dst of_dst m.

(** The effect of a request on the store: [AddNetwork] and [DelNetwork] name
    the pod by name, namespace and container. *)
Definition rpc_pod (n ns c : string) : K8SPodInfo := mkK8SPodInfo n ns c "" "".
Definition rpc_effect (r : rpc) : M (DSt W) unit :=
  match r with
  | RpcAdd n ns c => AssignPodIPv4Address (rpc_pod n ns c) ;; mret tt
  | RpcDel n ns c => UnassignPodIPv4Address (rpc_pod n ns c) ;; mret tt
  end.

(** The requests the RPC handlers serve at this point. *)
Definition serve : IM unit :=
  rs ← world (λ w, let '(rs, w') := w_rpcs w in (Ret rs, w'));
  store_op (for_loop rpc_effect rs).

Definition store {A} (m : M (DSt W) A) : IM A := serve ;; store_op m.
Definition ask {A} (f : ext W A) : IM A := serve ;; world (call f).

Definition ipamdErrInc (fn : string) : IM unit := prom (prom_add ipamdErr fn 1).
Definition reconcileInc (fn : string) : IM unit := prom (prom_add reconcileCnt fn 1).

(** [Add(1)] on entry and the deferred [Sub(1)] on return. *)
Definition inprogress {A} (fn : string) (m : IM A) : IM A :=
  prom (prom_add ipamdActionsInprogress fn 1) ;;
  r ← m;
  prom (prom_add ipamdActionsInprogress fn (-1)) ;;
  mret r.

(** *** ReconcileCooldownCache *)

Definition cache_Add (ips : list string) : IM unit :=
  now ← world time_Now;
  let expiry := now + ipReconcileCooldown in
  for_loop (λ ip, upd (λ c, set_cache (<[ip := expiry]> (reconcileCooldownCache c)) c)) ips.

Definition cache_Remove (ip : string) : IM unit :=
  upd (λ c, set_cache (delete ip (reconcileCooldownCache c)) c).

Definition cache_RecentlyFreed (ip : string) : IM (bool * bool) :=
  now ← world time_Now;
  cache ← ctx reconcileCooldownCache;
  match cache !! ip with
  | Some expiry => mret (true, bool_decide (Sub now expiry < 0))
  | None => mret (false, false)
  end.

(** *** How full the pool is *)

Definition getMaxENI : IM (Z * option error) :=
  '(instanceMaxENI, err) ← ask GetENILimit;
  match err with
  | Some _ => mret (0, err)
  | None => mret (limitMaxENI instanceMaxENI, None)
  end.

Definition ipTargetState : IM (Z * Z * bool) :=
  target ← ctx warmIPTarget;
  if bool_decide (target = noWarmIPTarget) then mret (0, 0, false)
  else
    '(total, assigned) ← store GetStats;
    let available := total - assigned in
    mret (Z.max (target - available) 0, Z.max (available - target) 0, true).

Definition nodeIPPoolTooLow : IM bool :=
  '(short, _, warmIPTargetDefined) ← ipTargetState;
  if warmIPTargetDefined : bool then mret (bool_decide (short > 0))
  else
    '(total, used) ← store GetStats;
    c ← ctx id;
    let available := total - used in
    mret (bool_decide (available < int64 (maxIPsPerENI c * warmENITarget c)) ||
          (bool_decide (warmENITarget c = 0) && bool_decide (available = 0))).

Definition nodeIPPoolTooHigh : IM bool :=
  '(_, over, warmIPTargetDefined) ← ipTargetState;
  if warmIPTargetDefined : bool then mret (bool_decide (over > 0)) else mret false.

Definition shouldRemoveExtraENIs : IM bool :=
  '(_, _, warmIPTargetDefined) ← ipTargetState;
  if warmIPTargetDefined : bool then mret true
  else
    '(total, used) ← store GetStats;
    c ← ctx id;
    let available := total - used in
    mret (bool_decide (int64 (int64 (warmENITarget c + 1) * maxIPsPerENI c) ≤ available)).

(** *** Returning addresses and ENIs *)

Definition tryFreeENI : IM unit :=
  target ← ctx warmIPTarget;
  eni ← store (RemoveUnusedENIFromStore target);
  if bool_decide (eni = ""%string) then mret tt
  else
    err ← ask (FreeENI eni);
    match err with
    | Some _ => ipamdErrInc "decreaseIPPoolFreeENIFailed"
    | None => mret tt
    end.

(** [allocatedIPs.Difference(usedIPs).ToSlice()] comes in any order; the slice
    [availableIPs[:numFreeable]] is within bounds or panics. *)
Definition findFreeableIPs (eni : string) : IM (list string * option error) :=
  podIPInfos ← store GetPodInfos;
  eniInfos ← store GetENIInfos;
  match ENIIPPools eniInfos !! eni with
  | None =>
      mret ([], Some (EStr ("error finding available IPs: eni " +:+ eni +:+ " does not exist")))
  | Some pool =>
      let usedIPs : gset string := list_to_set (IP ∘ snd <$> map_to_list podIPInfos) in
      let allocatedIPs : gset string :=
        list_to_set (Address ∘ snd <$> map_to_list (IPv4Addresses pool)) in
      availableIPs ← world (range_list (elements (allocatedIPs ∖ usedIPs)));
      '(_, over, _) ← ipTargetState;
      let numFreeable := Z.min over (Z.of_nat (length availableIPs)) in
      if bool_decide (numFreeable < 0) then panic "slice bounds out of range"
      else mret (take (Z.to_nat numFreeable) availableIPs, None)
  end.

(** The body of the loop that deletes the IPs from the data store. *)
Definition delete_freeable (eniID : string) (deletedIPs : list string) (toDelete : string) :
    IM (list string) :=
  err ← store (DelIPv4AddressFromStore eniID toDelete);
  match err with
  | Some _ => ipamdErrInc "decreaseIPPool" ;; mret deletedIPs
  | None => mret (deletedIPs ++ [toDelete])
  end.

(** One ENI of [tryUnassignIPsFromAll]; [Some tt] is its [return]. *)
Definition unassign_from_eni (x : string * ENIIPPool) : IM (option unit) :=
  let '(eniID, _) := x in
  '(ips, err) ← findFreeableIPs eniID;
  match err with
  | Some _ => mret (Some tt)
  | None =>
      if bool_decide (ips = []) then mret None
      else
        deletedIPs ← fold_loop (delete_freeable eniID) [] ips;
        _ ← ask (DeallocIPAddresses eniID deletedIPs);
        cache_Add deletedIPs ;;
        mret None
  end.

Definition tryUnassignIPsFromAll : IM unit :=
  '(_, over, warmIPTargetDefined) ← ipTargetState;
  if warmIPTargetDefined && bool_decide (over > 0) then
    eniInfos ← store GetENIInfos;
    enis ← world (range (ENIIPPools eniInfos));
    _ ← find_loop unassign_from_eni enis;
    mret tt
  else mret tt.

Definition decreaseIPPool (interval : Z) : IM unit :=
  inprogress "decreaseIPPool" (
    now ← world time_Now;
    last ← ctx lastDecreaseIPPool;
    if bool_decide (Sub now last ≤ interval) then mret tt
    else
      tryUnassignIPsFromAll ;;
      upd (set_lastDecreaseIPPool now) ;;
      upd (set_lastNodeIPPoolAction now) ;;
      _ ← store GetStats;
      mret tt).

(** *** Adding addresses and ENIs *)

Definition getENIaddresses (eni : string) : IM (list EC2Address * string * option error) :=
  '(ec2Addrs, _, err) ← ask (DescribeENI eni);
  match err with
  | Some e => mret ([], ""%string, Some (EWrap e ("failed to find ENI addresses for ENI " +:+ eni)))
  | None =>
      match list_find (λ a, BoolValue (Primary a) = true) ec2Addrs with
      | Some (_, a) => mret (ec2Addrs, StringValue (PrivateIpAddress a), None)
      | None =>
          mret ([], ""%string,
                Some (EStr ("failed to find the ENI's primary address for ENI " +:+ eni)))
      end
  end.

(** Returns the primary address of the interface. *)
Definition addENIaddressesToDataStore (ec2Addrs : list EC2Address) (eni : string) : IM string :=
  fold_loop (λ primary ec2Addr,
    if BoolValue (Primary ec2Addr) then mret (StringValue (PrivateIpAddress ec2Addr))
    else
      err ← store (AddIPv4AddressFromStore eni (StringValue (PrivateIpAddress ec2Addr)));
      match err with
      | Some e =>
          if bool_decide (Error e ≠ DuplicateIPError) then
            ipamdErrInc "addENIaddressesToDataStoreAddENIIPv4AddressFailed" ;; mret primary
          else mret primary
      | None => mret primary
      end) ""%string ec2Addrs.

(** The rest of [setupENI], after the ENI is in the data store. *)
Definition setupENI_network (ec2Addrs : list EC2Address) (eniPrimaryIP eni : string)
    (eniMetadata : ENIMetadata) : IM (option error) :=
  primaryENI ← ask GetPrimaryENI;
  err ← (if bool_decide (eni ≠ primaryENI) then
           ask (SetupENINetwork eniPrimaryIP (MAC eniMetadata) (md_DeviceNumber eniMetadata)
                  (SubnetIPv4CIDR eniMetadata))
         else mret None);
  match err with
  | Some e => mret (Some (EWrap e ("failed to set up ENI " +:+ eni +:+ " network")))
  | None =>
      primary ← addENIaddressesToDataStore ec2Addrs eni;
      upd (λ c, set_primaryIP (<[eni := primary]> (primaryIP c)) c) ;;
      mret None
  end.

Definition setupENI (eni : string) (eniMetadata : ENIMetadata) : IM (option error) :=
  '(ec2Addrs, eniPrimaryIP, err) ← getENIaddresses eni;
  match err with
  | Some e => mret (Some (EWrap e ("failed to retrieve ENI " +:+ eni +:+ " IP addresses")))
  | None =>
      primaryENI ← ask GetPrimaryENI;
      err ← store (AddENI eni (md_DeviceNumber eniMetadata) (bool_decide (eni = primaryENI)));
      match err with
      | Some e =>
          if bool_decide (Error e ≠ DuplicatedENIError) then
            mret (Some (EWrap e ("failed to add ENI " +:+ eni +:+ " to data store")))
          else setupENI_network ec2Addrs eniPrimaryIP eni eniMetadata
      | None => setupENI_network ec2Addrs eniPrimaryIP eni eniMetadata
      end
  end.

(** [retry] counts the attempts made before this one. *)
Fixpoint waitENIAttached_loop (fuel : nat) (retry : Z) (eni : string) :
    IM (ENIMetadata * option error) :=
  match fuel with
  | O => nofuel
  | S fuel =>
      '(enis, err) ← ask GetAttachedENIs;
      match (match err with
             | Some _ => None
             | None => list_find (λ m, eni = ENIID m) enis
             end) with
      | Some (_, returnedENI) => mret (returnedENI, None)
      | None =>
          let retry := retry + 1 in
          if bool_decide (retry > maxRetryCheckENI) then
            ipamdErrInc "waitENIAttachedMaxRetryExceeded" ;;
            mret (zeroENIMetadata,
                  Some (EStr "waitENIAttached: giving up trying to retrieve ENIs from metadata service"))
          else
            world (time_Sleep eniAttachTime) ;;
            waitENIAttached_loop fuel retry eni
      end
  end.

Definition waitENIAttached (eni : string) : IM (ENIMetadata * option error) :=
  waitENIAttached_loop (Z.to_nat (maxRetryCheckENI + 1)) 0 eni.

(** For an ENI, try to fill in missing IPs on an existing ENI. *)
Definition tryAssignIPs : IM (bool * option error) :=
  '(short, _, warmIPTargetDefined) ← ipTargetState;
  if warmIPTargetDefined && bool_decide (short = 0) then mret (false, None)
  else
    c ← ctx id;
    eni ← store (GetENINeedsIP (maxIPsPerENI c) (useCustomNetworking c));
    match eni with
    | Some eni =>
        let currentNumberOfAllocatedIPs := len (IPv4Addresses eni) in
        if bool_decide (currentNumberOfAllocatedIPs < maxIPsPerENI c) then
          err ← ask (AllocIPAddresses (ID eni) (maxIPsPerENI c - currentNumberOfAllocatedIPs));
          err ← (match err with
                 | Some _ => ask (AllocIPAddresses (ID eni) 1)
                 | None => mret None
                 end);
          match err with
          | Some e =>
              ipamdErrInc "increaseIPPoolAllocIPAddressesFailed" ;;
              mret (false, Some (EWrap e ("failed to allocate one IP addresses on ENI " +:+ ID eni
                                          +:+ ", err: " +:+ Error e)))
          | None =>
              '(ec2Addrs, _, err) ← getENIaddresses (ID eni);
              match err with
              | Some e =>
                  ipamdErrInc "increaseIPPoolGetENIaddressesFailed" ;;
                  mret (true, Some (EWrap e "failed to get ENI IP addresses during IP allocation"))
              | None =>
                  _ ← addENIaddressesToDataStore ec2Addrs (ID eni);
                  mret (true, None)
              end
          end
        else mret (false, None)
    | None => mret (false, None)
    end.

Definition updateLastNodeIPPoolAction : IM unit :=
  now ← world time_Now;
  upd (set_lastNodeIPPoolAction now) ;;
  _ ← store GetStats;
  mret tt.

(** [tryAllocateENI] once the security groups and the subnet are known. *)
Definition tryAllocateENI_with (custom : bool) (securityGroups : list string) (subnet : string) :
    IM unit :=
  '(eni, err) ← ask (AllocENI custom securityGroups subnet);
  match err with
  | Some _ => ipamdErrInc "increaseIPPoolAllocENI"
  | None =>
      '(short, _, warmIPTargetDefined) ← ipTargetState;
      perENI ← ctx maxIPsPerENI;
      err ← ask (AllocIPAddresses eni (if warmIPTargetDefined : bool then short else perENI));
      (match err with
       | Some _ => ipamdErrInc "increaseIPPoolAllocIPAddressesFailed"
       | None => mret tt
       end) ;;
      '(eniMetadata, err) ← waitENIAttached eni;
      match err with
      | Some _ => ipamdErrInc "increaseIPPoolwaitENIAttachedFailed"
      | None =>
          err ← setupENI eni eniMetadata;
          match err with
          | Some _ => ipamdErrInc "increaseIPPoolsetupENIFailed"
          | None => mret tt
          end
      end
  end.

Definition tryAllocateENI : IM unit :=
  custom ← ctx useCustomNetworking;
  if custom : bool then
    '(eniCfg, err) ← ask MyENIConfig;
    match err with
    | Some _ => mret tt
    | None => tryAllocateENI_with custom (SecurityGroups eniCfg) (Subnet eniCfg)
    end
  else tryAllocateENI_with custom [] "".

Definition increaseIPPool : IM unit :=
  inprogress "increaseIPPool" (
    '(short, _, warmIPTargetDefined) ← ipTargetState;
    if warmIPTargetDefined && bool_decide (short = 0) then mret tt
    else
      '(increasedPool, _) ← tryAssignIPs;
      if increasedPool : bool then updateLastNodeIPPoolAction
      else
        n ← store GetENIs;
        limit ← ctx maxENI;
        if bool_decide (n < limit) then tryAllocateENI ;; updateLastNodeIPPoolAction
        else mret tt).

Definition updateIPPoolIfRequired : IM unit :=
  low ← nodeIPPoolTooLow;
  (if low : bool then increaseIPPool
   else
     high ← nodeIPPoolTooHigh;
     if high : bool then decreaseIPPool decreaseIPPoolInterval else mret tt) ;;
  extra ← shouldRemoveExtraENIs;
  if extra : bool then tryFreeENI else mret tt.

(** *** Reconciling with the instance metadata *)

(** The check of the cooldown cache: whether to [continue] with the next address. *)
Definition reconcile_skip (eni localIP : string) : IM bool :=
  '(found, recentlyFreed) ← cache_RecentlyFreed localIP;
  if found : bool then
    if recentlyFreed : bool then mret true
    else
      '(ec2Addresses, _, err) ← getENIaddresses eni;
      match err with
      | Some _ => mret true
      | None =>
          if bool_decide (Exists (λ a, localIP = StringValue (PrivateIpAddress a)) ec2Addresses)
          then cache_Remove localIP ;; mret false
          else mret true
      end
  else mret false.

(** One address of the metadata in [eniIPPoolReconcile]; [ipPool] are the
    addresses of the store not seen yet. *)
Definition reconcile_ip (eni : string) (ipPool : gmap string AddressInfo) (localIP : string) :
    IM (gmap string AddressInfo) :=
  prim ← ctx (λ c, default ""%string (primaryIP c !! eni));
  if bool_decide (localIP = prim) then mret ipPool
  else
    skip ← reconcile_skip eni localIP;
    if skip : bool then mret ipPool
    else
      err ← store (AddIPv4AddressFromStore eni localIP);
      match err with
      | Some e =>
          if bool_decide (Error e = DuplicateIPError) then mret (delete localIP ipPool)
          else ipamdErrInc "ipReconcileAdd" ;; mret ipPool
      | None => reconcileInc "eniIPPoolReconcileAdd" ;; mret ipPool
      end.

Definition eniIPPoolReconcile (ipPool : gmap string AddressInfo) (attachedENI : ENIMetadata)
    (eni : string) : IM unit :=
  rest ← fold_loop (reconcile_ip eni) ipPool (LocalIPv4s attachedENI);
  sweep ← world (range rest);
  for_loop (λ '(existingIP, _),
    err ← store (DelIPv4AddressFromStore eni existingIP);
    match err with
    | Some _ => ipamdErrInc "ipReconcileDel"
    | None => reconcileInc "eniIPPoolReconcileDel"
    end) sweep.

(** One attached ENI of the mark phase; [curENIs] are the ENIs of the store not
    seen yet. *)
Definition reconcile_eni (curENIs : gmap string ENIIPPool) (attachedENI : ENIMetadata) :
    IM (gmap string ENIIPPool) :=
  '(eniIPPool, err) ← store (GetENIIPPools (ENIID attachedENI));
  match err with
  | None =>
      eniIPPoolReconcile eniIPPool attachedENI (ENIID attachedENI) ;;
      mret (delete (ENIID attachedENI) curENIs)
  | Some _ =>
      err ← setupENI (ENIID attachedENI) attachedENI;
      match err with
      | Some _ => ipamdErrInc "eniReconcileAdd" ;; mret curENIs
      | None => reconcileInc "eniReconcileAdd" ;; mret curENIs
      end
  end.

Definition nodeIPPoolReconcile (interval : Z) : IM unit :=
  inprogress "nodeIPPoolReconcile" (
    curTime ← world time_Now;
    last ← ctx lastNodeIPPoolAction;
    if bool_decide (Sub curTime last ≤ interval) then mret tt
    else
      '(attachedENIs, err) ← ask GetAttachedENIs;
      match err with
      | Some _ => ipamdErrInc "reconcileFailedGetENIs"
      | None =>
          curENIs ← store GetENIInfos;
          rest ← fold_loop reconcile_eni (ENIIPPools curENIs) attachedENIs;
          sweep ← world (range rest);
          for_loop (λ '(eni, _),
            err ← store (RemoveENIFromDataStore eni);
            match err with
            | Some _ => ipamdErrInc "eniReconcileDel"
            | None => reconcileInc "eniReconcileDel"
            end) sweep ;;
          upd (set_lastNodeIPPoolAction curTime)
      end).

(** One turn of the loop of [StartNodeIPPoolManager], and [n] of them. *)
Definition poolManagerTurn : IM unit :=
  world (time_Sleep (ipPoolMonitorInterval `div` 2)) ;;
  updateIPPoolIfRequired ;;
  world (time_Sleep (ipPoolMonitorInterval `div` 2)) ;;
  nodeIPPoolReconcile nodeIPPoolReconcileInterval.

Fixpoint StartNodeIPPoolManager (n : nat) : IM unit :=
  match n with
  | O => mret tt
  | S n => poolManagerTurn ;; StartNodeIPPoolManager n
  end.

(** *** Start *)

(** The [for retry] loop of [getLocalPodsWithRetry] with its variables [pods]
    and [err]. *)
Fixpoint getLocalPods_loop (retries : nat) (pods : list K8SPodInfo) (err : option error) :
    IM (list K8SPodInfo * option error) :=
  match retries with
  | O => mret (pods, err)
  | S retries =>
      '(pods, err) ← ask K8SGetLocalPodIPs;
      if is_nil err && bool_decide (Forall (λ pod, PodIP pod ≠ ""%string) pods) then mret (pods, err)
      else
        world (time_Sleep retryK8SInterval) ;;
        getLocalPods_loop retries pods err
  end.

Definition getLocalPodsWithRetry : IM (list K8SPodInfo * option error) :=
  '(pods, err) ← getLocalPods_loop maxK8SRetries [] None;
  match err with
  | Some e => mret ([], Some (EWrap e "no pods because apiserver not running."))
  | None => mret (pods, None)
  end.

(** The [for] loop that sets up one ENI in [nodeInit]. *)
Fixpoint nodeInit_setup (fuel : nat) (retry : Z) (eni : ENIMetadata) : IM unit :=
  match fuel with
  | O => nofuel
  | S fuel =>
      let retry := retry + 1 in
      err ← setupENI (ENIID eni) eni;
      if bool_decide (retry > maxRetryCheckENI) then ipamdErrInc "waitENIAttachedMaxRetryExceeded"
      else
        match err with
        | Some e =>
            if Contains (Error e) "setupENINetwork: failed to find the link which uses MAC address"
            then mret tt
            else world (time_Sleep eniAttachTime) ;; nodeInit_setup fuel retry eni
        | None => mret tt
        end
  end.

(** One running pod in [nodeInit]. *)
Definition nodeInit_pod (rules : list Rule) (pod : K8SPodInfo) : IM unit :=
  if bool_decide (Container pod = ""%string) then mret tt
  else if bool_decide (PodIP pod = ""%string) then mret tt
  else
    '(_, _, err) ← store (AssignPodIPv4Address pod);
    (match err with
     | Some _ => ipamdErrInc "nodeInitAssignPodIPv4AddressFailed"
     | None => mret tt
     end) ;;
    vpcCIDRs ← ask GetVPCIPv4CIDRs;
    snat ← ask UseExternalSNAT;
    _ ← ask (UpdateRuleListBySrc rules (ParseIP (PodIP pod), 32) vpcCIDRs (negb snat));
    mret tt.

(** [nodeInit] after the host network is set up. *)
Definition nodeInit_store (enis : list ENIMetadata) : IM (option error) :=
  upd (set_dataStore NewDataStore) ;;
  for_loop (nodeInit_setup (Z.to_nat (maxRetryCheckENI + 1)) 0) enis ;;
  '(usedIPs, err) ← getLocalPodsWithRetry;
  match err with
  | Some e =>
      ipamdErrInc "nodeInitK8SGetLocalPodIPsFailed" ;;
      mret (Some (EWrap e "failed to get running pods!"))
  | None =>
      '(rules, err) ← ask GetRuleList;
      match err with
      | Some _ => mret None
      | None => for_loop (nodeInit_pod rules) usedIPs ;; mret None
      end
  end.

Definition nodeInit : IM (option error) :=
  inprogress "nodeInit" (
    '(n, err) ← getMaxENI;
    upd (set_maxENI n) ;;
    match err with
    | Some _ => mret err
    | None =>
        prom (prom_set enisMax "" n) ;;
        '(perENI, err) ← ask GetENIipLimit;
        upd (set_maxIPsPerENI perENI) ;;
        match err with
        | Some _ => mret err
        | None =>
            prom (prom_set ipMax "" (perENI * n)) ;;
            upd (set_useCustomNetworking UseCustomNetworkCfg) ;;
            upd (set_primaryIP ∅) ;;
            upd (set_cache ∅) ;;
            '(enis, err) ← ask GetAttachedENIs;
            match err with
            | Some _ => mret (Some (EStr "ipamd init: failed to retrieve attached ENIs info"))
            | None =>
                cidr ← ask GetVPCIPv4CIDR;
                match ParseCIDR cidr with
                | None =>
                    mret (Some (EWrap (EStr ("invalid CIDR address: " +:+ cidr))
                                  "ipamd init: failed to retrieve VPC CIDR"))
                | Some (_, vpcCIDR) =>
                    localIP ← ask GetLocalIPv4;
                    cidrs ← ask GetVPCIPv4CIDRs;
                    mac ← ask GetPrimaryENImac;
                    err ← ask (SetupHostNetwork vpcCIDR cidrs mac (ParseIP localIP));
                    match err with
                    | Some e => mret (Some (EWrap e "ipamd init: failed to set up host network"))
                    | None => nodeInit_store enis
                    end
                end
            end
        end
    end).

(** [New]: [awsutils_New] is the construction of the AWS client. *)
Definition New (awsutils_New : ext W (option error)) : IM (option error) :=
  upd (λ _, zeroContext) ;;
  err ← ask awsutils_New;
  match err with
  | Some e => mret (Some (EWrap e "ipamd: can not initialize with AWS SDK interface"))
  | None =>
      upd (set_targets getWarmENITarget getWarmIPTarget) ;;
      nodeInit
  end.

End ipamd.
