(* ===== verification/IpamdInv.v ===== *)
(** * The pool manager keeps the store sound

    [sound own s]: the data store of [s] refines an abstract store (so no two
    pods share an address and every pod's address is in the pool), and holds an
    address only on the ENI that owns it.  [safe m Q]: from any sound state,
    whatever the services answer and whatever requests the RPC handlers serve
    meanwhile, [m] ends (its loops have fuel enough) in a sound state and its
    result satisfies [Q], unless a service panics ([crash]). *)
From S2P Require Import Prelude GoStd DataStore DataStoreInv DataStoreSpec DataStoreProps Interfaces Ipamd.

Open Scope Z_scope.

(** ** Sound stores *)

Definition owned (own : string → string) (ds : DataStore) : Prop :=
  ∀ id ip a, addr_of ds id ip = Some a → own ip = id.

Definition good (own : string → string) (ds : DataStore) : Prop :=
  (∃ sp, refines ds sp) ∧ owned own ds.

(** A call as the daemon makes it: addresses it adds are owned by their ENI,
    pods it assigns name no address, or one that no other pod uses. *)
Definition call_owned (own : string → string) (ds : DataStore) (c : ds_call) : Prop :=
  match c with
  | CAddIP id ip => ip ≠ ""%string ∧ own ip = id
  | CAssign pod => PodIP pod = ""%string ∨ call_ok ds c
  | _ => True
  end.

Lemma good_new own : good own NewDataStore.
Proof.
  split; [exists spec_new; apply refines_new|]. intros id ip a. unfold addr_of; simpl.
  by rewrite lookup_empty.
Qed.

Lemma good_call_ok own ds c : good own ds → call_owned own ds c → call_ok ds c.
Proof.
  intros [[sp HR] Ho] Hc. destruct c; simpl in *; try done.
  - destruct Hc as [? Hown]. split; [done|]. intros id' e He [a Ha].
    rewrite <-(Ho id' ip a); [done|]. apply addr_of_Some. eauto.
  - destruct Hc as [Hip|?]; [|done]. intros k i Hk Heq.
    pose proof (refines_no_empty _ _ HR) as Hne. destruct (R_pod _ _ HR _ _ Hk) as (id & Hsp & _).
    rewrite Heq, Hip in Hsp. destruct (R_ip _ _ HR _ _ _ Hsp) as [a Ha]. by rewrite Hne in Ha.
Qed.

(** No call puts an address on an ENI, but [AddIPv4AddressFromStore]. *)
Lemma ds_outcome_addrs c t0 t1 ds p r ds' p' id ip a :
  ds_outcome c t0 t1 (ds, p) r (ds', p') → addr_of ds' id ip = Some a →
  is_Some (addr_of ds id ip) ∨ c = CAddIP id ip.
Proof.
  intros H Ha. destruct c; simpl in H; repeat destruct H as (? & H); inversion H; subst; eauto.
  all: apply addr_of_Some in Ha as (e' & He' & Ha); simpl in He'.
  all: try (apply lookup_insert_Some in He' as [[<- <-]|[_ He']];
            [simpl in Ha|left; exists a; apply addr_of_Some; eauto]).
  all: try (apply lookup_delete_Some in He' as [_ He']; left; exists a; apply addr_of_Some; eauto).
  - by rewrite lookup_empty in Ha.
  - apply lookup_insert_Some in Ha as [[<- <-]|[_ Ha]]; [by right|].
    left. exists a. apply addr_of_Some; eauto.
  - apply lookup_delete_Some in Ha as [_ Ha]. left. exists a. apply addr_of_Some; eauto.
  - apply lookup_insert_Some in Ha as [[<- <-]|[_ Ha]]; left; eexists; apply addr_of_Some; eauto.
  - apply lookup_insert_Some in Ha as [[<- <-]|[_ Ha]]; left; eexists; apply addr_of_Some; eauto.
Qed.

Lemma good_outcome own c t0 t1 ds p r ds' p' :
  ds_outcome c t0 t1 (ds, p) r (ds', p') → good own ds → call_owned own ds c → good own ds'.
Proof.
  intros Ho Hg Hc. pose proof (good_call_ok _ _ _ Hg Hc) as Hok. destruct Hg as [[sp HR] Hown].
  destruct (ds_outcome_refines _ _ _ _ _ _ _ _ _ Ho HR Hok) as (sp' & _ & HR').
  split; [by exists sp'|]. intros id ip a Ha.
  destruct (ds_outcome_addrs _ _ _ _ _ _ _ _ _ _ _ Ho Ha) as [[a' Ha']| ->]; [by eapply Hown|].
  apply Hc.
Qed.

Lemma good_wf own ds : good own ds → ds_wf ds.
Proof. intros [[sp HR] _]. apply HR. Qed.

(** ** Safe operations on the store *)

Section dsafe.
Context {W : Type} `{!World W} `{!WorldOk W} (own : string → string).

Definition dsafe {A} (m : M (DSt W) A) (Q : A → Prop) : Prop :=
  ∀ d, good own (d_ds d) → wp False m (λ a d', good own (d_ds d') ∧ Q a) d.

Lemma dsafe_AddENI id dev prim : dsafe (AddENI id dev prim) (λ _, True).
Proof.
  intros d Hg. eapply wp_mono; [apply AddENI_outcome|].
  intros r d' Ho. split; [|done].
  eapply (good_outcome own (CAddENI id dev prim) 0 0); [exists r; split; [done|exact Ho]|done..].
Qed.

Lemma dsafe_AddIP id ip :
  ip ≠ ""%string → own ip = id → dsafe (AddIPv4AddressFromStore id ip) (λ _, True).
Proof.
  intros Hne Hown d Hg.
  eapply wp_mono; [apply AddIPv4AddressFromStore_outcome|]. intros r d' Ho. split; [|done].
  eapply (good_outcome own (CAddIP id ip) 0 0); [exists r; split; [done|exact Ho]|done..].
Qed.

Lemma dsafe_DelIP id ip : dsafe (DelIPv4AddressFromStore id ip) (λ _, True).
Proof.
  intros d Hg.
  eapply wp_mono; [apply DelIPv4AddressFromStore_outcome|]. intros r d' Ho. split; [|done].
  eapply (good_outcome own (CDelIP id ip) 0 0); [exists r; split; [done|exact Ho]|done..].
Qed.

Lemma dsafe_RemoveENI id : dsafe (RemoveENIFromDataStore id) (λ _, True).
Proof.
  intros d Hg.
  eapply wp_mono; [apply RemoveENIFromDataStore_outcome|]. intros r d' Ho. split; [|done].
  eapply (good_outcome own (CRemoveENI id) 0 0); [exists r; split; [done|exact Ho]|done..].
Qed.

Lemma dsafe_RemoveUnused t : dsafe (RemoveUnusedENIFromStore t) (λ _, True).
Proof.
  intros d Hg.
  eapply wp_mono; [apply RemoveUnusedENIFromStore_outcome|].
  { intros id e He. by apply (good_wf _ _ Hg) in He as [? _]. }
  intros r d' Ho. split; [|done].
  eapply (good_outcome own (CRemoveUnused t) _ 0); [exists r; split; [done|exact Ho]|done..].
Qed.

Lemma dsafe_Assign pod :
  PodIP pod = ""%string → dsafe (AssignPodIPv4Address pod) (λ _, True).
Proof.
  intros Hip d Hg.
  eapply wp_mono; [apply AssignPodIPv4Address_outcome|]. intros [[ip dev] e] d' Ho. split; [|done].
  eapply (good_outcome own (CAssign pod) _ 0); [exists ip, dev, e; split; [done|exact Ho]|done|by left].
Qed.

Lemma dsafe_Unassign pod : dsafe (UnassignPodIPv4Address pod) (λ _, True).
Proof.
  intros d Hg.
  eapply wp_mono; [apply UnassignPodIPv4Address_outcome|]. intros [[ip dev] e] d' Ho. split; [|done].
  eapply (good_outcome own (CUnassign pod)); [exists ip, dev, e; split; [done|exact Ho]|done..].
Qed.

(** Queries leave the store as it is. *)
Lemma dsafe_query {A} (m : M (DSt W) A) Q :
  (∀ ds p w, wp False m (λ a d', dp d' = (ds, p) ∧ Q a) (mkDSt ds p w)) → dsafe m Q.
Proof.
  intros Hm [ds p w] Hg. eapply wp_mono; [apply Hm|].
  intros a [ds' p' w'] [[= -> ->] ?]. done.
Qed.

Lemma dsafe_GetStats : dsafe GetStats (λ _, True).
Proof. intros d Hg. unfold GetStats. by wp_steps. Qed.

Lemma dsafe_GetENIs : dsafe GetENIs (λ _, True).
Proof. intros d Hg. unfold GetENIs. by wp_steps. Qed.

Lemma dsafe_GetENIInfos : dsafe GetENIInfos (λ _, True).
Proof. intros d Hg. unfold GetENIInfos. by wp_steps. Qed.

Lemma dsafe_GetENIIPPools id : dsafe (GetENIIPPools id) (λ _, True).
Proof. intros d Hg. unfold GetENIIPPools. wp_step. wp_step. wp_case H; by wp_steps. Qed.

Lemma dsafe_GetPodInfos : dsafe GetPodInfos (λ _, True).
Proof.
  apply dsafe_query. intros. eapply wp_mono; [apply GetPodInfos_spec|]. by intros ? ? [? _].
Qed.

Lemma dsafe_GetENINeedsIP n b : dsafe (GetENINeedsIP n b) (λ _, True).
Proof.
  apply dsafe_query. intros. eapply wp_mono; [apply GetENINeedsIP_spec|]. by intros ? ? [? _].
Qed.

End dsafe.

#[export] Hint Resolve dsafe_AddENI dsafe_AddIP dsafe_DelIP dsafe_RemoveENI dsafe_RemoveUnused
  dsafe_Assign dsafe_Unassign dsafe_GetStats dsafe_GetENIs dsafe_GetENIInfos dsafe_GetENIIPPools
  dsafe_GetPodInfos dsafe_GetENINeedsIP : safe.

(** ** Safe programs of the daemon *)

Section safe.
Context {W : Type} `{!World W} `{!WorldOk W}.
Context `{!AwsAPIs W, !NetworkAPIs W, !K8SAPIs W, !ENIConfigAPI W, !Requests W} {env : Environ}.
Context (own : string → string).

Abbreviation IM := (M (IpamSt W)).

(** The methods the daemon calls, and that one of them can panic. *)
Inductive service : ∀ A : Type, ext W A → Prop :=
| Svc_AllocENI b l s : service _ (AllocENI b l s)
| Svc_FreeENI s : service _ (FreeENI s)
| Svc_GetAttachedENIs : service _ GetAttachedENIs
| Svc_DescribeENI s : service _ (DescribeENI s)
| Svc_AllocIPAddresses s n : service _ (AllocIPAddresses s n)
| Svc_DeallocIPAddresses s l : service _ (DeallocIPAddresses s l)
| Svc_GetVPCIPv4CIDR : service _ GetVPCIPv4CIDR
| Svc_GetVPCIPv4CIDRs : service _ GetVPCIPv4CIDRs
| Svc_GetLocalIPv4 : service _ GetLocalIPv4
| Svc_GetPrimaryENI : service _ GetPrimaryENI
| Svc_GetENIipLimit : service _ GetENIipLimit
| Svc_GetENILimit : service _ GetENILimit
| Svc_GetPrimaryENImac : service _ GetPrimaryENImac
| Svc_SetupHostNetwork n l m a : service _ (SetupHostNetwork n l m a)
| Svc_SetupENINetwork i m t c : service _ (SetupENINetwork i m t c)
| Svc_UseExternalSNAT : service _ UseExternalSNAT
| Svc_GetExcludeSNATCIDRs : service _ GetExcludeSNATCIDRs
| Svc_GetRuleList : service _ GetRuleList
| Svc_UpdateRuleListBySrc r a l b : service _ (UpdateRuleListBySrc r a l b)
| Svc_K8SGetLocalPodIPs : service _ K8SGetLocalPodIPs
| Svc_MyENIConfig : service _ MyENIConfig.

Definition crash : Prop := ∃ A (f : ext W A) w w', service A f ∧ f w = (None, w').

Definition sound (s : IpamSt W) : Prop := good own (dataStore (i_ctx s)).

Definition safe {A} (m : IM A) (Q : A → Prop) : Prop :=
  ∀ s, sound s → wp crash m (λ a s', sound s' ∧ Q a) s.

Lemma safe_mono {A} (m : IM A) (Q Q' : A → Prop) :
  safe m Q → (∀ a, Q a → Q' a) → safe m Q'.
Proof. intros Hm HQ s Hs. eapply wp_mono; [by apply Hm|]. naive_solver. Qed.

Lemma safe_ret {A} (a : A) (Q : A → Prop) : Q a → safe (mret a) Q.
Proof. intros HQ s Hs. by apply wp_ret. Qed.

Lemma safe_bind {A B} (m : IM A) (f : A → IM B) Q Q' :
  safe m Q → (∀ a, Q a → safe (f a) Q') → safe (mbind f m) Q'.
Proof.
  intros Hm Hf s Hs. apply wp_bind. eapply wp_mono; [by apply Hm|].
  intros a s' [Hs' HQ]. by apply Hf.
Qed.

Lemma safe_ctx {A} (f : IPAMContext → A) : safe (ctx f) (λ _, True).
Proof. intros s Hs. done. Qed.

Lemma safe_upd f : (∀ c, dataStore (f c) = dataStore c) → safe (upd f) (λ _, True).
Proof. intros Hf s Hs. split; [|done]. unfold sound in *. simpl. by rewrite Hf. Qed.

Lemma safe_prom f : safe (prom f) (λ _, True).
Proof. intros s Hs. done. Qed.

Lemma safe_world {A} (m : M W A) (Q : A → Prop) :
  (∀ w, wp crash m (λ a _, Q a) w) → safe (world m) Q.
Proof. intros Hm s Hs. apply wp_zoom. eapply wp_mono; [apply Hm|]. done. Qed.

Lemma safe_time_Now : safe (world time_Now) (λ _, True).
Proof. apply safe_world. intros w. by apply wp_time_Now. Qed.

Lemma safe_time_Sleep d : safe (world (time_Sleep d)) (λ _, True).
Proof. by apply safe_world. Qed.

Lemma safe_range_list {A} (l : list A) : safe (world (range_list l)) (λ l', l' ≡ₚ l).
Proof. apply safe_world. intros w. by apply wp_range_list. Qed.

Lemma safe_range {K A} `{Countable K} (m : gmap K A) :
  safe (world (range m)) (λ l, l ≡ₚ map_to_list m).
Proof. apply safe_range_list. Qed.

Lemma safe_store_op {A} (m : M (DSt W) A) Q : dsafe own m Q → safe (store_op m) Q.
Proof.
  intros Hm s Hs. apply wp_zoom, (wp_weaken False); [done|]. eapply wp_mono; [by apply Hm|]. done.
Qed.

Lemma safe_find_loop {A R} (f : A → IM (option R)) l (Q : option R → Prop) :
  (∀ x, x ∈ l → safe (f x) Q) → Q None → safe (find_loop f l) Q.
Proof.
  intros Hf HN. induction l as [|x l IH]; [by apply safe_ret|].
  eapply safe_bind; [apply Hf; set_solver|]. intros [r|] ?; [by apply safe_ret|].
  apply IH. set_solver.
Qed.

Lemma safe_fold_loop {A B} (f : B → A → IM B) b l (Q : B → Prop) :
  Q b → (∀ b x, x ∈ l → Q b → safe (f b x) Q) → safe (fold_loop f b l) Q.
Proof.
  revert b. induction l as [|x l IH]; intros b Hb Hf; [by apply safe_ret|].
  eapply safe_bind; [apply Hf; [set_solver|done]|]. intros b' Hb'. apply IH; [done|]. set_solver.
Qed.

Lemma safe_for_loop {A} (f : A → IM unit) l :
  (∀ x, x ∈ l → safe (f x) (λ _, True)) → safe (for_loop f l) (λ _, True).
Proof.
  intros Hf. induction l as [|x l IH]; [by apply safe_ret|].
  eapply safe_bind; [apply Hf; set_solver|]. intros _ _. apply IH. set_solver.
Qed.

Lemma safe_serve : safe serve (λ _, True).
Proof.
  eapply safe_bind.
  - apply (safe_world _ (λ _, True)). intros w. unfold wp. by destruct (w_rpcs w).
  - intros rs _. apply safe_store_op. intros d Hd.
    apply (wp_for_loop _ _ _ (λ _ d', good own (d_ds d'))); [done| |done].
    intros dn r rest d' _ Hg. destruct r as [n ns c|n ns c]; cbn [rpc_effect]; apply wp_bind.
    + eapply wp_mono; [by apply (dsafe_Assign own)|]. by intros a s' [? _].
    + eapply wp_mono; [by apply (dsafe_Unassign own)|]. by intros a s' [? _].
Qed.

Lemma safe_store {A} (m : M (DSt W) A) Q : dsafe own m Q → safe (store m) Q.
Proof. intros Hm. eapply safe_bind; [apply safe_serve|]. intros _ _. by apply safe_store_op. Qed.

Lemma safe_ask {A} (f : ext W A) (Q : A → Prop) :
  service A f → (∀ w a w', f w = (Some a, w') → Q a) → safe (ask f) Q.
Proof.
  intros Hsvc Hf. eapply safe_bind; [apply safe_serve|]. intros _ _. apply safe_world.
  intros w. unfold wp, call. destruct (f w) as [[a|] w'] eqn:Hw; [by eapply Hf|].
  by exists A, f, w, w'.
Qed.

Lemma safe_ask_any {A} (f : ext W A) : service A f → safe (ask f) (λ _, True).
Proof. intros. by apply safe_ask. Qed.

Context `{!ServicesOk W own}.

Lemma safe_attached : safe (ask GetAttachedENIs)
  (λ r, r.2 = None → ∀ m ip, m ∈ r.1 → ip ∈ LocalIPv4s m → ip ≠ ""%string ∧ own ip = ENIID m).
Proof.
  apply safe_ask; [constructor|]. intros w [l [e|]] w' Hf Hn; [done|]. by apply (attached_own _ _ _ Hf).
Qed.

End safe.

#[export] Hint Constructors service : safe.
#[export] Hint Resolve safe_ctx safe_prom safe_time_Now safe_time_Sleep safe_range_list
  safe_range safe_ask_any : safe.
#[export] Hint Extern 2 (safe _ (store _) _) => apply safe_store : safe.
#[export] Hint Extern 2 (safe _ (upd _) _) => apply safe_upd; intros []; reflexivity : safe.
#[export] Hint Extern 2 (safe _ (ipamdErrInc _) _) => apply safe_prom : safe.
#[export] Hint Extern 2 (safe _ (reconcileInc _) _) => apply safe_prom : safe.

(** [safe_steps] walks through a program whose intermediate results do not
    matter. *)
Ltac safe_step :=
  match goal with
  | |- safe _ (mbind _ _) _ => eapply safe_bind; [solve [eauto 3 with safe]|intros ? ?]
  | |- safe _ (mbind _ _) _ => eapply (safe_bind _ _ _ (λ _, True)); [|intros ? ?]
  | |- safe _ (mret _) _ => apply safe_ret; try done
  | |- safe _ _ _ => solve [eauto 3 with safe]
  | |- safe _ (find_loop _ _) _ => apply safe_find_loop; [intros ? ?|done]
  | |- safe _ (for_loop _ _) _ => apply safe_for_loop; intros ? ?
  | |- safe _ (fold_loop _ _ _) _ => apply safe_fold_loop; [done|intros ? ? ? ?]
  | |- safe _ (match ?x with _ => _ end) _ => destruct x
  end.
Ltac safe_steps := repeat (cbn beta iota zeta; safe_step).

Section functions.
Context {W : Type} `{!World W} `{!WorldOk W}.
Context `{!AwsAPIs W, !NetworkAPIs W, !K8SAPIs W, !ENIConfigAPI W, !Requests W} {env : Environ}.
Context (own : string → string) `{!ServicesOk W own}.

Abbreviation IM := (M (IpamSt W)).
Abbreviation Safe m := (safe (W:=W) own m (λ _, True)).

Lemma ipTargetState_nonneg : safe own ipTargetState (λ r, 0 ≤ r.1.1 ∧ 0 ≤ r.1.2).
Proof.
  unfold ipTargetState. eapply safe_bind; [apply safe_ctx|]. intros target _.
  case_bool_decide; [by apply safe_ret|].
  eapply safe_bind; [apply safe_store, dsafe_GetStats|]. intros [t a] _. apply safe_ret. simpl. lia.
Qed.

Lemma ipTargetState_safe : Safe ipTargetState.
Proof. eapply safe_mono; [apply ipTargetState_nonneg|done]. Qed.

#[local] Hint Resolve ipTargetState_safe : safe.

Lemma nodeIPPoolTooLow_safe : Safe nodeIPPoolTooLow.
Proof. unfold nodeIPPoolTooLow. safe_steps. Qed.

Lemma nodeIPPoolTooHigh_safe : Safe nodeIPPoolTooHigh.
Proof. unfold nodeIPPoolTooHigh. safe_steps. Qed.

Lemma shouldRemoveExtraENIs_safe : Safe shouldRemoveExtraENIs.
Proof. unfold shouldRemoveExtraENIs. safe_steps. Qed.

Lemma tryFreeENI_safe : Safe tryFreeENI.
Proof. unfold tryFreeENI. safe_steps. Qed.

Lemma cache_Add_safe ips : Safe (cache_Add ips).
Proof. unfold cache_Add. safe_steps. Qed.

Lemma cache_Remove_safe ip : Safe (cache_Remove ip).
Proof. unfold cache_Remove. safe_steps. Qed.

Lemma cache_RecentlyFreed_safe ip : Safe (cache_RecentlyFreed ip).
Proof. unfold cache_RecentlyFreed. safe_steps. Qed.

Lemma findFreeableIPs_safe eni : Safe (findFreeableIPs eni).
Proof.
  unfold findFreeableIPs. eapply safe_bind; [solve [eauto 3 with safe]|]. intros infos _.
  eapply safe_bind; [solve [eauto 3 with safe]|]. intros enis _. destruct (_ !! eni); [|safe_steps].
  eapply safe_bind; [apply safe_range_list|]. intros l _.
  eapply safe_bind; [apply ipTargetState_nonneg|]. intros [[short over] b] [_ Hover]. simpl in Hover.
  rewrite bool_decide_eq_false_2 by lia. safe_steps.
Qed.

#[local] Hint Resolve nodeIPPoolTooLow_safe nodeIPPoolTooHigh_safe shouldRemoveExtraENIs_safe
  tryFreeENI_safe cache_Add_safe cache_Remove_safe cache_RecentlyFreed_safe findFreeableIPs_safe : safe.

Lemma tryUnassignIPsFromAll_safe : Safe tryUnassignIPsFromAll.
Proof. unfold tryUnassignIPsFromAll, unassign_from_eni, delete_freeable. safe_steps. Qed.

Lemma inprogress_safe {A} fn (m : IM A) : Safe m → Safe (inprogress fn m).
Proof. intros. unfold inprogress. safe_steps. Qed.

#[local] Hint Resolve tryUnassignIPsFromAll_safe : safe.

Lemma decreaseIPPool_safe i : Safe (decreaseIPPool i).
Proof. apply inprogress_safe. safe_steps. Qed.

(** The addresses [getENIaddresses] returns are owned by the ENI. *)
Definition own_addrs (eni : string) (l : list EC2Address) : Prop :=
  ∀ a, a ∈ l → StringValue (PrivateIpAddress a) ≠ ""%string ∧
               own (StringValue (PrivateIpAddress a)) = eni.

Lemma getENIaddresses_safe eni :
  safe own (getENIaddresses eni) (λ r, own_addrs eni r.1.1).
Proof.
  unfold getENIaddresses. eapply (safe_bind _ _ _ (λ r, r.2 = None → own_addrs eni r.1.1)).
  - apply safe_ask; [constructor|]. intros w [[l o] [e|]] w' Hf Hn; [done|]. exact (describe_own _ _ _ _ _ Hf).
  - intros [[l o] [e|]] Ho; cbn in Ho |- *.
    + apply safe_ret. simpl. intros a Ha. by apply elem_of_nil in Ha.
    + destruct (list_find _ l) as [[i a]|]; apply safe_ret; simpl; [by apply Ho|].
      intros a Ha. by apply elem_of_nil in Ha.
Qed.

Lemma addENIaddresses_safe l eni : own_addrs eni l → Safe (addENIaddressesToDataStore l eni).
Proof.
  intros Hl. unfold addENIaddressesToDataStore. apply safe_fold_loop; [done|].
  intros b a [??]%Hl _. safe_steps.
Qed.

Lemma setupENI_network_safe l ip eni md : own_addrs eni l → Safe (setupENI_network l ip eni md).
Proof.
  intros Hl. pose proof (addENIaddresses_safe l eni Hl). unfold setupENI_network. safe_steps.
Qed.

#[local] Hint Resolve setupENI_network_safe : safe.

Lemma setupENI_safe eni md : Safe (setupENI eni md).
Proof.
  unfold setupENI. eapply safe_bind; [apply getENIaddresses_safe|].
  intros [[l ip] err] Hl. simpl in Hl. safe_steps.
Qed.

Lemma waitENIAttached_loop_safe fuel retry eni :
  maxRetryCheckENI + 1 ≤ retry + Z.of_nat fuel → retry ≤ maxRetryCheckENI →
  Safe (waitENIAttached_loop fuel retry eni).
Proof.
  revert retry. induction fuel as [|fuel IH]; intros retry Hf Hr; [lia|].
  cbn [waitENIAttached_loop]. eapply safe_bind; [apply safe_ask_any; constructor|]. intros [enis err] _.
  case_match; [safe_steps|]. cbn zeta. case_bool_decide; [safe_steps|].
  eapply safe_bind; [apply safe_time_Sleep|]. intros _ _. apply IH; lia.
Qed.

Lemma waitENIAttached_safe eni : Safe (waitENIAttached eni).
Proof. apply waitENIAttached_loop_safe; unfold maxRetryCheckENI; lia. Qed.

Lemma updateLast_safe : Safe updateLastNodeIPPoolAction.
Proof. unfold updateLastNodeIPPoolAction. safe_steps. Qed.

#[local] Hint Resolve setupENI_safe waitENIAttached_safe updateLast_safe decreaseIPPool_safe : safe.

Lemma tryAllocateENI_safe : Safe tryAllocateENI.
Proof. unfold tryAllocateENI, tryAllocateENI_with. safe_steps. Qed.

Lemma tryAssignIPs_safe : Safe tryAssignIPs.
Proof.
  unfold tryAssignIPs. repeat (cbn beta iota zeta; lazymatch goal with
  | |- safe _ (mbind _ (getENIaddresses _)) _ => fail
  | |- _ => safe_step
  end).
  eapply safe_bind; [apply getENIaddresses_safe|].
  intros [[l ip] err] Hl. simpl in Hl. pose proof (addENIaddresses_safe l _ Hl). safe_steps.
Qed.

#[local] Hint Resolve tryAllocateENI_safe tryAssignIPs_safe : safe.

Lemma increaseIPPool_safe : Safe increaseIPPool.
Proof. apply inprogress_safe. safe_steps. Qed.

#[local] Hint Resolve increaseIPPool_safe : safe.

Lemma updateIPPoolIfRequired_safe : Safe updateIPPoolIfRequired.
Proof. unfold updateIPPoolIfRequired. safe_steps. Qed.

Lemma reconcile_skip_safe eni ip : Safe (reconcile_skip eni ip).
Proof.
  unfold reconcile_skip. eapply safe_bind; [apply cache_RecentlyFreed_safe|]. intros [found freed] _.
  destruct found, freed; [safe_steps| |safe_steps..].
  eapply safe_bind; [apply getENIaddresses_safe|]. intros [[l q] err] _. safe_steps.
Qed.

#[local] Hint Resolve reconcile_skip_safe : safe.

Lemma reconcile_ip_safe eni m ip :
  ip ≠ ""%string → own ip = eni → Safe (reconcile_ip eni m ip).
Proof. intros Hne Hown. unfold reconcile_ip. safe_steps. Qed.

Definition own_metadata (md : ENIMetadata) : Prop :=
  ∀ ip, ip ∈ LocalIPv4s md → ip ≠ ""%string ∧ own ip = ENIID md.

Lemma eniIPPoolReconcile_safe m md :
  own_metadata md → Safe (eniIPPoolReconcile m md (ENIID md)).
Proof.
  intros Hmd. unfold eniIPPoolReconcile. eapply (safe_bind _ _ _ (λ _, True)).
  - apply safe_fold_loop; [done|]. intros b ip [??]%Hmd _. by apply reconcile_ip_safe.
  - intros rest _. safe_steps.
Qed.

Lemma reconcile_eni_safe m md : own_metadata md → Safe (reconcile_eni m md).
Proof.
  intros Hmd. unfold reconcile_eni. pose proof (λ m, eniIPPoolReconcile_safe m md Hmd). safe_steps.
Qed.

Lemma nodeIPPoolReconcile_safe i : Safe (nodeIPPoolReconcile i).
Proof.
  apply inprogress_safe. eapply safe_bind; [apply safe_time_Now|]. intros now _.
  eapply safe_bind; [apply safe_ctx|]. intros last _. case_bool_decide; [safe_steps|].
  eapply safe_bind; [exact (safe_attached own)|]. intros [l [e|]] Hl; [safe_steps|].
  assert (∀ md, md ∈ l → own_metadata md) as Hmd by (intros md ? ip ?; by apply Hl). clear Hl.
  eapply safe_bind; [apply safe_store, dsafe_GetENIInfos|]. intros infos _.
  eapply (safe_bind _ _ _ (λ _, True)).
  - apply safe_fold_loop; [done|]. intros b md Hin _. by apply reconcile_eni_safe, Hmd.
  - intros rest _. safe_steps.
Qed.

#[local] Hint Resolve updateIPPoolIfRequired_safe nodeIPPoolReconcile_safe : safe.

Lemma poolManagerTurn_safe : Safe poolManagerTurn.
Proof. unfold poolManagerTurn. safe_steps. Qed.

Lemma StartNodeIPPoolManager_safe n : Safe (StartNodeIPPoolManager n).
Proof.
  induction n as [|n IH]; cbn [StartNodeIPPoolManager]; [safe_steps|].
  eapply safe_bind; [apply poolManagerTurn_safe|]. done.
Qed.

(** The start of the daemon. *)
Lemma getMaxENI_safe : Safe getMaxENI.
Proof. unfold getMaxENI. safe_steps. Qed.

Lemma safe_new_store : Safe (upd (set_dataStore NewDataStore)).
Proof. intros s _. split; [apply good_new|done]. Qed.

Lemma nodeInit_setup_safe fuel retry md :
  retry + Z.of_nat fuel > maxRetryCheckENI → 0 < Z.of_nat fuel → Safe (nodeInit_setup fuel retry md).
Proof.
  revert retry. induction fuel as [|fuel IH]; intros retry Hf Hpos; [lia|]. cbn [nodeInit_setup].
  eapply safe_bind; [apply setupENI_safe|]. intros err _. case_bool_decide; [safe_steps|].
  destruct err as [e|]; [|safe_steps]. destruct (Contains _ _); [safe_steps|].
  eapply safe_bind; [apply safe_time_Sleep|]. intros _ _. apply IH; lia.
Qed.

Lemma getLocalPods_safe n pods err : Safe (getLocalPods_loop n pods err).
Proof. revert pods err. induction n as [|n IH]; intros pods err; cbn [getLocalPods_loop]; safe_steps; apply IH. Qed.

(** The last step of the start records the pods of the API server, which may claim
    one address twice: it ends, whatever it leaves. *)
Definition halts {A} (m : IM A) : Prop := ∀ s, wp (crash (W:=W)) m (λ _ _, True) s.

Lemma halts_bind {A B} (m : IM A) (f : A → IM B) : halts m → (∀ a, halts (f a)) → halts (mbind f m).
Proof. intros Hm Hf s. apply wp_bind. eapply wp_mono; [apply Hm|]. intros a s' _. apply Hf. Qed.

Lemma halts_for_loop {A} (f : A → IM unit) l : (∀ x, halts (f x)) → halts (for_loop f l).
Proof. intros Hf s. by apply (wp_for_loop _ _ _ (λ _ _, True)); [| |intros]; [|intros; apply Hf|]. Qed.

Lemma halts_store_op {A} (m : M (DSt W) A) : (∀ d, wp False m (λ _ _, True) d) → halts (store_op m).
Proof. intros Hm s. apply wp_zoom, (wp_weaken False); [done|]. eapply wp_mono; [apply Hm|done]. Qed.

Lemma assign_halts pod d : wp False (AssignPodIPv4Address (W:=W) pod) (λ _ _, True) d.
Proof. eapply wp_mono; [apply AssignPodIPv4Address_outcome|done]. Qed.

Lemma unassign_halts pod d : wp False (UnassignPodIPv4Address (W:=W) pod) (λ _ _, True) d.
Proof. eapply wp_mono; [apply UnassignPodIPv4Address_outcome|done]. Qed.

Lemma halts_serve : halts serve.
Proof.
  apply halts_bind; [intros s; unfold wp; simpl; unfold world, zoom; by destruct (w_rpcs _)|].
  intros rs. apply halts_store_op. intros d. apply (wp_for_loop _ _ _ (λ _ _, True)); [done| |done].
  intros _ r _ d' _ _. unfold rpc_effect. destruct r; apply wp_bind;
    (eapply wp_mono; [first [apply assign_halts|apply unassign_halts]|done]).
Qed.

Lemma halts_ask {A} (f : ext W A) : service A f → halts (ask f).
Proof.
  intros Hf. apply halts_bind; [apply halts_serve|]. intros _ s. apply wp_zoom. unfold wp, call.
  destruct (f (i_world s)) as [[a|] w'] eqn:Hw; [done|]. by exists A, f, (i_world s), w'.
Qed.

Lemma nodeInit_pod_halts rules pod : halts (nodeInit_pod rules pod).
Proof.
  unfold nodeInit_pod. do 2 (case_bool_decide; [by intros s|]).
  apply halts_bind; [apply halts_bind; [apply halts_serve|intros _; apply halts_store_op, assign_halts]|].
  intros [[ip dev] err]. apply halts_bind; [by destruct err; intros s|]. intros _.
  repeat (apply halts_bind; [apply halts_ask; constructor|intros ?]). by intros s.
Qed.

Lemma nodeInit_store_ends enis s : sound own s → wp (crash (W:=W)) (nodeInit_store enis) (λ _ _, True) s.
Proof.
  intros Hs. unfold nodeInit_store. apply wp_bind. eapply wp_mono; [by apply safe_new_store|].
  intros _ s1 [Hs1 _]. apply wp_bind. eapply wp_mono.
  { apply safe_for_loop; [|exact Hs1]. intros md _. apply nodeInit_setup_safe; vm_compute; reflexivity. }
  intros _ s2 [Hs2 _]. apply wp_bind. eapply wp_mono.
  { assert (Safe getLocalPodsWithRetry) as Hpods
      by (unfold getLocalPodsWithRetry; safe_steps; apply getLocalPods_safe). by apply Hpods. }
  intros [pods [e|]] s3 _; [done|]. apply wp_bind.
  eapply wp_mono; [apply halts_ask; constructor|]. intros [rules [e|]] s4 _; [done|].
  apply wp_bind. eapply wp_mono; [apply halts_for_loop, nodeInit_pod_halts|done].
Qed.

End functions.
