(* ===== verification/IpamdFrame.v ===== *)
(** * What the daemon leaves alone

    A preorder on worlds that the clock, the order of maps, the requests and the
    services keep is kept by all of ipamd, from [New] to any number of turns of the
    pool manager.  So the daemon touches of the world only what its services
    touch. *)
From S2P Require Import Prelude GoStd DataStore DataStoreInv DataStoreSpec DataStoreProps Interfaces Ipamd IpamdInv.

Open Scope Z_scope.

Definition on_i {W} (R : relation W) (s s' : IpamSt W) : Prop := R (i_world s) (i_world s').

#[global] Instance on_i_preorder {W} (R : relation W) `{!PreOrder R} : PreOrder (on_i R).
Proof. split; unfold on_i; intros ?; [done|]. intros. by etransitivity. Qed.

Section frame.
Context {W : Type} `{!World W} `{!AwsAPIs W, !NetworkAPIs W, !K8SAPIs W, !ENIConfigAPI W, !Requests W}.
Context (R : relation W) `{!Frame R} (rpcs_frame : ∀ w : W, R w (w_rpcs w).2).

Lemma upd_frame f : keeps (on_i R) (upd f).
Proof. intros s. unfold on_i. simpl. reflexivity. Qed.

Lemma prom_frame f : keeps (on_i R) (prom f).
Proof. intros s. unfold on_i. simpl. reflexivity. Qed.

Lemma world_frame {A} (m : M W A) : keeps R m → keeps (on_i R) (world m).
Proof. intros Hm. by apply (keeps_zoom _ R). Qed.

Lemma store_op_frame {A} (m : M (DSt W) A) : keeps (on_d R) m → keeps (on_i R) (store_op m).
Proof. intros Hm. by apply (keeps_zoom _ (on_d R)). Qed.

Lemma serve_frame : keeps (on_i R) serve.
Proof.
  unfold serve. apply keeps_bind; [apply _| |].
  - apply world_frame. intros w. pose proof (rpcs_frame w) as Hw. by destruct (w_rpcs w).
  - intros rs. apply store_op_frame, keeps_for_loop; [apply _|]. intros r _. unfold rpc_effect.
    destruct r; (apply keeps_bind; [apply _|(apply Assign_frame || apply Unassign_frame); apply _|intros; keeps_steps]).
Qed.

Lemma store_frame {A} (m : M (DSt W) A) : keeps (on_d R) m → keeps (on_i R) (store m).
Proof. intros Hm. apply keeps_bind; [apply _|apply serve_frame|]. intros _. by apply store_op_frame. Qed.

Lemma ask_frame {A} (f : ext W A) : (∀ w, R w (f w).2) → keeps (on_i R) (ask f).
Proof.
  intros Hf. apply keeps_bind; [apply _|apply serve_frame|]. intros _. apply world_frame.
  intros w. specialize (Hf w). unfold call. by destruct (f w) as [[] ?].
Qed.

End frame.

Section daemon.
Context {W : Type} `{!World W} `{!AwsAPIs W, !NetworkAPIs W, !K8SAPIs W, !ENIConfigAPI W, !Requests W}.
Context {env : Environ}.

(** The services but [SetupHostNetwork]. *)
Inductive rest_service : ∀ A : Type, ext W A → Prop :=
| Rest_AllocENI b l s : rest_service _ (AllocENI b l s)
| Rest_FreeENI s : rest_service _ (FreeENI s)
| Rest_GetAttachedENIs : rest_service _ GetAttachedENIs
| Rest_DescribeENI s : rest_service _ (DescribeENI s)
| Rest_AllocIPAddresses s n : rest_service _ (AllocIPAddresses s n)
| Rest_DeallocIPAddresses s l : rest_service _ (DeallocIPAddresses s l)
| Rest_GetVPCIPv4CIDR : rest_service _ GetVPCIPv4CIDR
| Rest_GetVPCIPv4CIDRs : rest_service _ GetVPCIPv4CIDRs
| Rest_GetLocalIPv4 : rest_service _ GetLocalIPv4
| Rest_GetPrimaryENI : rest_service _ GetPrimaryENI
| Rest_GetENIipLimit : rest_service _ GetENIipLimit
| Rest_GetENILimit : rest_service _ GetENILimit
| Rest_GetPrimaryENImac : rest_service _ GetPrimaryENImac
| Rest_SetupENINetwork i m t c : rest_service _ (SetupENINetwork i m t c)
| Rest_UseExternalSNAT : rest_service _ UseExternalSNAT
| Rest_GetExcludeSNATCIDRs : rest_service _ GetExcludeSNATCIDRs
| Rest_GetRuleList : rest_service _ GetRuleList
| Rest_UpdateRuleListBySrc r a l b : rest_service _ (UpdateRuleListBySrc r a l b)
| Rest_K8SGetLocalPodIPs : rest_service _ K8SGetLocalPodIPs
| Rest_MyENIConfig : rest_service _ MyENIConfig.

(** What the services but [SetupHostNetwork] keep, and what all keep. *)
Class RestFrame (R : relation W) : Prop := {
  #[global] service_frame :: Frame R;
  service_sleep : ∀ d (w : W), R w (w_sleep d w);
  rest_kept : ∀ A (f : ext W A) (w : W), rest_service A f → R w (f w).2;
  service_rpcs : ∀ w : W, R w (w_rpcs w).2;
}.

Class ServiceFrame (R : relation W) : Prop := {
  #[global] service_rest :: RestFrame R;
  host_kept : ∀ n l m a (w : W), R w (SetupHostNetwork n l m a w).2;
}.

Context (R : relation W) `{!RestFrame R}.

#[local] Instance daemon_preorder : PreOrder (on_i R).
Proof. apply _. Qed.

#[local] Instance daemon_preorder_d : PreOrder (on_d R).
Proof. apply _. Qed.

Lemma keeps_ask {A} (f : ext W A) : rest_service A f → keeps (on_i R) (ask f).
Proof. intros Hf. apply ask_frame; [apply _|apply service_rpcs|]. intros w. by apply rest_kept. Qed.

Lemma keeps_store {A} (m : M (DSt W) A) : keeps (on_d R) m → keeps (on_i R) (store m).
Proof. apply store_frame; [apply _|apply service_rpcs]. Qed.

Lemma keeps_sleep d : keeps (on_i R) (world (time_Sleep d)).
Proof. apply world_frame. intros w. apply service_sleep. Qed.

Lemma keeps_inow : keeps (on_i R) (world time_Now).
Proof. apply world_frame. intros w. unfold time_Now. pose proof (frame_now (R:=R) w). by destruct (w_now w). Qed.

Lemma keeps_irange {A} (l : list A) : keeps (on_i R) (world (range_list l)).
Proof.
  apply world_frame. intros w. unfold range_list. pose proof (frame_range (R:=R) A l w). by destruct (w_range l w).
Qed.

Lemma keeps_stats : keeps (on_d R) GetStats ∧ keeps (on_d R) GetENIInfos ∧ keeps (on_d R) GetENIs.
Proof. unfold GetStats, GetENIInfos, GetENIs. split_and!; keeps_steps. Qed.

Ltac daemon_step :=
  match goal with
  | |- keeps _ (ask _) => apply keeps_ask; constructor
  | |- keeps _ (store _) => apply keeps_store
  | |- keeps _ (upd _) => apply upd_frame, _
  | |- keeps _ (prom _) => apply prom_frame, _
  | |- keeps _ (ctx _) => apply keeps_gets, _
  | |- keeps _ (world time_Now) => apply keeps_inow
  | |- keeps _ (world (time_Sleep _)) => apply keeps_sleep
  | |- keeps _ (world (range _)) => apply keeps_irange
  | |- keeps _ (world (range_list _)) => apply keeps_irange
  | |- keeps _ GetStats => apply keeps_stats
  | |- keeps _ GetENIInfos => apply keeps_stats
  | |- keeps _ GetENIs => apply keeps_stats
  | |- keeps _ GetPodInfos => apply GetPodInfos_frame, _
  | |- keeps _ (AssignPodIPv4Address _) => apply Assign_frame, _
  | |- keeps _ (UnassignPodIPv4Address _) => apply Unassign_frame, _
  | |- keeps _ (GetENINeedsIP _ _) => apply GetENINeedsIP_frame, _
  | |- keeps _ (AddENI _ _ _) => apply AddENI_frame, _
  | |- keeps _ (AddIPv4AddressFromStore _ _) => apply AddIP_frame, _
  | |- keeps _ (DelIPv4AddressFromStore _ _) => apply DelIP_frame, _
  | |- keeps _ (RemoveENIFromDataStore _) => apply RemoveENI_frame, _
  | |- keeps _ (RemoveUnusedENIFromStore _) => apply RemoveUnused_frame, _
  | |- keeps (on_i _) (let '_ := ?x in _) => destruct x
  | |- _ => keeps_step
  end.
Ltac daemon_steps := repeat (cbn beta iota zeta; daemon_step).

Lemma setupENI_frame id md : keeps (on_i R) (setupENI id md).
Proof.
  unfold setupENI, getENIaddresses, setupENI_network, addENIaddressesToDataStore, ipamdErrInc. daemon_steps.
Qed.

Lemma nodeInit_setup_frame fuel retry md : keeps (on_i R) (nodeInit_setup fuel retry md).
Proof.
  revert retry. induction fuel as [|fuel IH]; intros retry; simpl; [daemon_steps|].
  apply keeps_bind; [apply _|apply setupENI_frame|]. intros err. unfold ipamdErrInc. daemon_steps; apply IH.
Qed.

Lemma getLocalPods_frame n pods err : keeps (on_i R) (getLocalPods_loop n pods err).
Proof.
  revert pods err. induction n as [|n IH]; intros pods err; simpl; daemon_steps; apply IH.
Qed.

Lemma nodeInit_store_frame enis : keeps (on_i R) (nodeInit_store enis).
Proof.
  unfold nodeInit_store, getLocalPodsWithRetry, nodeInit_pod, ipamdErrInc.
  daemon_steps; first [apply nodeInit_setup_frame|apply getLocalPods_frame].
Qed.

Lemma getMaxENI_frame : keeps (on_i R) getMaxENI.
Proof. unfold getMaxENI. daemon_steps. Qed.

End daemon.

Section daemon_start.
Context {W : Type} `{!World W} `{!AwsAPIs W, !NetworkAPIs W, !K8SAPIs W, !ENIConfigAPI W, !Requests W}.
Context {env : Environ} (R : relation W) `{!ServiceFrame R}.

#[local] Instance start_preorder : PreOrder (on_i R).
Proof. apply _. Qed.

Lemma keeps_host n l m a : keeps (on_i R) (ask (SetupHostNetwork n l m a)).
Proof. apply ask_frame; [apply _|apply service_rpcs|]. intros w. apply host_kept. Qed.

Lemma nodeInit_frame : keeps (on_i R) nodeInit.
Proof.
  unfold nodeInit, inprogress.
  repeat (cbn beta iota zeta; first
    [ apply getMaxENI_frame, _ | apply nodeInit_store_frame, _ | apply keeps_host
    | apply upd_frame, _ | apply prom_frame, _ | apply keeps_ask; [apply _|constructor]
    | match goal with |- keeps (on_i _) (let '_ := ?x in _) => destruct x end | keeps_step ]).
Qed.

(** The start of the daemon. *)
Lemma New_frame awsutils_New : (∀ w, R w (awsutils_New w).2) → keeps (on_i R) (New awsutils_New).
Proof.
  intros Hnew. unfold New. apply keeps_bind; [apply _|apply upd_frame, _|]. intros _.
  apply keeps_bind; [apply _|by apply ask_frame; [apply _|apply service_rpcs|]|].
  intros [e|]; [apply keeps_ret, _|]. cbn beta iota zeta.
  repeat (cbn beta iota zeta; first [apply nodeInit_frame | apply upd_frame, _ | keeps_step]).
Qed.

End daemon_start.
