(* ===== verification/IpamdQuiet.v ===== *)
(** * Running the pool manager between requests

    Rules for reasoning about what exactly the pool manager does while no
    request is served ([Quiet]), and lemmas on its building blocks. *)
From S2P Require Import Prelude GoStd DataStore DataStoreInv DataStoreSpec DataStoreProps Interfaces Ipamd IpamdInv.

Open Scope Z_scope.

(** No request arrives. *)
Class Quiet (W : Type) `{!Requests W} : Prop := quiet : ∀ w : W, w_rpcs w = ([], w).

Section rules.
Context {W : Type} `{!World W} `{!WorldOk W} `{!Requests W} `{!Quiet W} (E : Prop).
Implicit Types (c : IPAMContext) (p : Prom) (w : W).

Lemma serve_quiet (s : IpamSt W) : serve s = (Ret tt, s).
Proof.
  destruct s as [c p w]. unfold serve, world, store_op, zoom. unfold mbind, M_bind. simpl.
  rewrite quiet. simpl. by destruct c.
Qed.

Lemma wp_serve Q (s : IpamSt W) : Q tt s → wp E serve Q s.
Proof. intros HQ. unfold wp. by rewrite serve_quiet. Qed.

Lemma wp_store {A} (m : M (DSt W) A) Q c p w :
  wp E m (λ a d, Q a (mkIpamSt (set_dataStore (d_ds d) c) (d_prom d) (d_world d)))
    (mkDSt (dataStore c) p w) → wp E (store m) Q (mkIpamSt c p w).
Proof. intros HQ. apply wp_bind, wp_serve, wp_zoom. exact HQ. Qed.

Lemma wp_ask {A} (f : ext W A) Q c p w :
  (∀ w', f w = (None, w') → E) →
  (∀ a w', f w = (Some a, w') → Q a (mkIpamSt c p w')) → wp E (ask f) Q (mkIpamSt c p w).
Proof.
  intros HE HQ. apply wp_bind, wp_serve, wp_zoom. unfold wp, call. simpl.
  destruct (f w) as [[a|] w'] eqn:Hf; [by apply HQ|by eapply HE].
Qed.

Lemma wp_ctx {A} (f : IPAMContext → A) Q c p w :
  Q (f c) (mkIpamSt c p w) → wp E (ctx f) Q (mkIpamSt c p w).
Proof. done. Qed.

Lemma wp_upd f Q c p w : Q tt (mkIpamSt (f c) p w) → wp E (upd f) Q (mkIpamSt c p w).
Proof. done. Qed.

Lemma wp_prom f Q c p w : Q tt (mkIpamSt c (f p) w) → wp E (prom f) Q (mkIpamSt c p w).
Proof. done. Qed.

Lemma wp_inow Q c p w :
  (∀ w', clock w ≤ clock w' → Q (clock w) (mkIpamSt c p w')) →
  wp E (world time_Now) Q (mkIpamSt c p w).
Proof. intros HQ. apply wp_zoom, wp_time_Now. exact HQ. Qed.

Lemma wp_isleep d Q c p w :
  Q tt (mkIpamSt c p (w_sleep d w)) → wp E (world (time_Sleep d)) Q (mkIpamSt c p w).
Proof. done. Qed.

Lemma wp_irange_list {A} (l : list A) Q c p w :
  (∀ l' w', l' ≡ₚ l → clock w ≤ clock w' → Q l' (mkIpamSt c p w')) →
  wp E (world (range_list l)) Q (mkIpamSt c p w).
Proof. intros HQ. apply wp_zoom, wp_range_list. exact HQ. Qed.

Lemma wp_irange {K A} `{Countable K} (m : gmap K A) Q c p w :
  (∀ l w', l ≡ₚ map_to_list m → clock w ≤ clock w' → Q l (mkIpamSt c p w')) →
  wp E (world (range m)) Q (mkIpamSt c p w).
Proof. apply wp_irange_list. Qed.

Lemma wp_GetStats Q c p w :
  Q (total (dataStore c), assigned (dataStore c)) (mkIpamSt c p w) →
  wp E (store GetStats) Q (mkIpamSt c p w).
Proof. intros HQ. apply wp_store. unfold GetStats. wp_steps. simpl. by destruct c. Qed.

Lemma wp_GetENIInfos Q c p w :
  Q (mkENIInfos (total (dataStore c)) (assigned (dataStore c)) (eniIPPools (dataStore c)))
    (mkIpamSt c p w) → wp E (store GetENIInfos) Q (mkIpamSt c p w).
Proof. intros HQ. apply wp_store. unfold GetENIInfos. wp_steps. simpl. by destruct c. Qed.

Lemma wp_GetENIs Q c p w :
  Q (len (eniIPPools (dataStore c))) (mkIpamSt c p w) → wp E (store GetENIs) Q (mkIpamSt c p w).
Proof. intros HQ. apply wp_store. unfold GetENIs. wp_steps. simpl. by destruct c. Qed.

(** The addresses available to pods, and [ipTargetState] as a function. *)
Definition available (c : IPAMContext) : Z := total (dataStore c) - assigned (dataStore c).

Definition targetState (c : IPAMContext) : Z * Z * bool :=
  if bool_decide (warmIPTarget c = noWarmIPTarget) then (0, 0, false)
  else (Z.max (warmIPTarget c - available c) 0, Z.max (available c - warmIPTarget c) 0, true).

Lemma wp_ipTargetState Q c p w :
  Q (targetState c) (mkIpamSt c p w) → wp E ipTargetState Q (mkIpamSt c p w).
Proof.
  intros HQ. unfold ipTargetState, targetState in *. apply wp_bind, wp_ctx.
  case_bool_decide; [done|]. apply wp_bind, wp_GetStats. done.
Qed.

End rules.

Ltac wp_hook ::=
  lazymatch goal with
  | |- wp _ get_ds _ _ => apply wp_get_ds
  | |- wp _ (put_ds _) _ _ => apply wp_put_ds
  | |- wp _ (gauge_Set _ _) _ _ => apply wp_gauge_Set
  | |- wp _ (on_world time_Now) _ _ => apply wp_now; intros ? ?
  | |- wp _ (on_world (range _)) _ _ => apply wp_d_range; intros ? ? ? ?
  | |- wp _ (ctx _) _ _ => apply wp_ctx
  | |- wp _ (upd _) _ _ => apply wp_upd
  | |- wp _ (prom _) _ _ => apply wp_prom
  | |- wp _ (ipamdErrInc _) _ _ => apply wp_prom
  | |- wp _ (reconcileInc _) _ _ => apply wp_prom
  | |- wp _ (world time_Now) _ _ => apply wp_inow; intros ? ?
  | |- wp _ (world (time_Sleep _)) _ _ => apply wp_isleep
  | |- wp _ (world (range _)) _ _ => apply wp_irange; intros ? ? ? ?
  | |- wp _ (world (range_list _)) _ _ => apply wp_irange_list; intros ? ? ? ?
  | |- wp _ (store GetStats) _ _ => apply wp_GetStats
  | |- wp _ (store GetENIInfos) _ _ => apply wp_GetENIInfos
  | |- wp _ (store GetENIs) _ _ => apply wp_GetENIs
  | |- wp _ ipTargetState _ _ => apply wp_ipTargetState
  end; cbn [d_ds d_prom d_world i_ctx i_prom i_world].

(** Calls to the services take time, not less. *)
Class ServiceClock (W : Type) `{!World W, !AwsAPIs W, !NetworkAPIs W, !K8SAPIs W, !ENIConfigAPI W} : Prop :=
  service_clock : ∀ A (f : ext W A) (w : W), service A f → clock w ≤ clock (f w).2.

(** ** Giving addresses back

    [shrunk t0 c0 k pending c]: from [c0] to [c] only unassigned addresses were
    removed, each of them is in the cooldown cache until at least
    [t0 + ipReconcileCooldown] or still in [pending], and [k] more can be removed
    before the pool falls below the warm IP target. *)
Record shrunk (t0 : Z) (c0 : IPAMContext) (k : Z) (pending : list string) (c : IPAMContext) : Prop := {
  sh_pods : podsIP (dataStore c) = podsIP (dataStore c0);
  sh_assigned : assigned (dataStore c) = assigned (dataStore c0);
  sh_target : warmIPTarget c = warmIPTarget c0;
  sh_avail : warmIPTarget c0 + k ≤ available c;
  sh_addr : ∀ id ip, addr_of (dataStore c) id ip = addr_of (dataStore c0) id ip ∨
    (∃ a, addr_of (dataStore c0) id ip = Some a ∧ Assigned a = false) ∧
    addr_of (dataStore c) id ip = None ∧
    (ip ∈ pending ∨ ∃ t, reconcileCooldownCache c !! ip = Some t ∧ t0 + ipReconcileCooldown ≤ t);
}.

Lemma shrunk_less t0 c0 k k' l c : shrunk t0 c0 k l c → k' ≤ k → shrunk t0 c0 k' l c.
Proof. intros [] ?. split; try done. lia. Qed.

Section unassign.
Context {W : Type} `{!World W} `{!WorldOk W}.
Context `{!AwsAPIs W, !NetworkAPIs W, !K8SAPIs W, !ENIConfigAPI W, !Requests W} `{!Quiet W}.
Context `{!ServiceClock W}.

(** The state predicate the lemmas below carry along. *)
Definition in_shrunk (t0 : Z) (c0 : IPAMContext) (k : Z) (l : list string) (s : IpamSt W) : Prop :=
  t0 ≤ clock (i_world s) ∧ shrunk t0 c0 k l (i_ctx s).

Lemma shrunk_del t0 c0 k l c id ip e a :
  shrunk t0 c0 (k + 1) l c → eniIPPools (dataStore c) !! id = Some e →
  IPv4Addresses e !! ip = Some a → Assigned a = false →
  shrunk t0 c0 k (l ++ [ip])
    (set_dataStore (upd_addrs id e (delete ip (IPv4Addresses e))
                      (set_total (total (dataStore c) - 1) (dataStore c))) c).
Proof.
  intros [Hp Ha Ht Hav Haddr] He Hip Has. split; try done.
  - unfold available in *. simpl. lia.
  - intros j q. destruct (decide (j = id ∧ q = ip)) as [[-> ->]|Hne].
    + right. assert (addr_of (dataStore c) id ip = Some a) as Hc by (apply addr_of_Some; eauto).
      split_and!; [|unfold addr_of; simpl; rewrite lookup_insert_eq; apply lookup_delete_eq|left; set_solver].
      destruct (Haddr id ip) as [Heq|(_ & ? & _)]; [|congruence]. exists a. split; congruence.
    + assert (addr_of (dataStore (set_dataStore (upd_addrs id e (delete ip (IPv4Addresses e))
          (set_total (total (dataStore c) - 1) (dataStore c))) c)) j q = addr_of (dataStore c) j q) as ->.
      { eapply addr_of_insert_other; [done|done|]. intros ->. simpl. apply lookup_delete_ne. naive_solver. }
      destruct (Haddr j q) as [?|(? & ? & Hin)]; [by left|]. right. split_and!; [done..|].
      destruct Hin as [?|?]; [left; set_solver|by right].
Qed.

Lemma delete_freeable_spec E t0 c0 k id l ip s :
  in_shrunk t0 c0 (k + 1) l s →
  wp E (delete_freeable id l ip) (λ l' s', in_shrunk t0 c0 k l' s') s.
Proof.
  destruct s as [c p w]. intros [Hw Hs]; simpl in *. unfold delete_freeable.
  apply wp_bind, wp_store. unfold DelIPv4AddressFromStore.
  pose proof (shrunk_less _ _ _ k _ _ Hs ltac:(lia)) as Hs'.
  assert (∀ ds, ds = dataStore c → shrunk t0 c0 k l (set_dataStore ds c)) as Hsame
    by (intros ds ->; by destruct c).
  wp_step. wp_step. wp_case He; [wp_case Hip; [wp_case Has|]|]; wp_steps; (split; [done|]); simpl;
    try (by apply Hsame).
  by eapply shrunk_del.
Qed.

Lemma cache_Add_spec E t0 c0 k l s :
  in_shrunk t0 c0 k l s → wp E (cache_Add l) (λ _ s', in_shrunk t0 c0 k [] s') s.
Proof.
  destruct s as [c p w]. intros [Hw Hs]; simpl in *. unfold cache_Add. wp_steps.
  apply (wp_for_loop _ _ _ (λ dn s', t0 ≤ clock (i_world s') ∧
    ∃ m, i_ctx s' = set_cache m c ∧
    ∀ ip, m !! ip = if decide (ip ∈ dn) then Some (clock w + ipReconcileCooldown)
                    else reconcileCooldownCache c !! ip)).
  - split; [simpl; lia|]. exists (reconcileCooldownCache c). split; [by destruct c|].
    intros ip. by rewrite decide_False by set_solver.
  - intros dn ip rest [c1 p1 w1] _ (Hw1 & m & Hc1 & Hm). simpl in *. subst. wp_steps.
    split; [done|]. exists (<[ip := clock w + ipReconcileCooldown]> m). split; [done|].
    intros q. destruct (decide (q = ip)) as [->|Hq].
    + rewrite lookup_insert_eq, decide_True by set_solver. done.
    + rewrite lookup_insert_ne, Hm by done. repeat case_decide; set_solver.
  - intros [c1 p1 w1] (Hw1 & m & Hc1 & Hm). simpl in *. subst. split; [done|]. simpl.
    destruct Hs as [Hp Ha Ht Hav Haddr]. split; try done. intros id ip.
    destruct (Haddr id ip) as [?|(? & ? & Hin)]; [by left|]. right. split_and!; [done..|]. right.
    simpl. rewrite Hm. destruct (decide (ip ∈ l)).
    + eexists. split; [done|]. lia.
    + destruct Hin as [?|(t & ? & ?)]; [done|]. eauto.
Qed.

Lemma findFreeableIPs_spec E id c p w :
  wp E (findFreeableIPs id)
    (λ r s', i_ctx s' = c ∧ clock w ≤ clock (i_world s') ∧
       Z.of_nat (length r.1) ≤ (targetState c).1.2) (mkIpamSt c p w).
Proof.
  assert (0 ≤ (targetState c).1.2) as H0 by (unfold targetState; case_bool_decide; simpl; lia).
  unfold findFreeableIPs. apply wp_bind, wp_store.
  apply (wp_weaken False); [done|].
  eapply wp_mono; [apply wp_keeps; [apply (GetPodInfos_frame clock_le)|apply GetPodInfos_spec]|].
  intros infos [ds' p' w'] ([[= -> ->] _] & Hw); unfold on_d, clock_le in Hw; simpl in *.
  replace (set_dataStore (dataStore c) c) with c by (by destruct c).
  wp_step. wp_step. wp_case Hpool; cbn [ENIIPPools] in *; [|wp_steps; simpl; split_and!; [done|lia|lia]].
  wp_step. wp_step. wp_step. wp_step. destruct (targetState c) as [[short over] b] eqn:Ht.
  cbn [fst snd] in *. rewrite bool_decide_eq_false_2 by lia. wp_steps. simpl.
  split_and!; [done|lia|]. rewrite length_take. lia.
Qed.

Lemma unassign_from_eni_spec t0 c0 x s :
  warmIPTarget c0 ≠ noWarmIPTarget → in_shrunk t0 c0 0 [] s →
  wp (crash (W:=W)) (unassign_from_eni x) (λ _ s', in_shrunk t0 c0 0 [] s') s.
Proof.
  destruct x as [id pool], s as [c p w]. intros Hne [Hw Hs]; simpl in Hw, Hs. unfold unassign_from_eni.
  apply wp_bind. eapply wp_mono; [apply findFreeableIPs_spec|].
  intros [ips err] [c1 p1 w1] (Hc1 & Hw1 & Hlen); simpl in Hc1, Hlen, Hw1. subst c1.
  assert (in_shrunk t0 c0 (Z.of_nat (length ips)) [] (mkIpamSt c p1 w1)) as Hk.
  { split; [simpl; lia|]. destruct Hs as [Hp Ha Ht Hav Haddr]. split; try done.
    unfold targetState in Hlen. rewrite Ht, bool_decide_eq_false_2 in Hlen by done.
    cbn [i_ctx]. simpl in Hlen. lia. }
  wp_case Herr; [wp_steps; split; [simpl; lia|done]|].
  case_bool_decide; [wp_steps; split; [simpl; lia|done]|]. apply wp_bind.
  eapply (wp_fold_loop _ _ _ _ (λ dn acc s',
    in_shrunk t0 c0 (Z.of_nat (length ips) - Z.of_nat (length dn)) acc s')).
  - by rewrite Z.sub_0_r.
  - intros dn ip rest acc s' -> Hs'. eapply wp_mono; [eapply delete_freeable_spec|].
    + replace (Z.of_nat (length (dn ++ ip :: rest)) - Z.of_nat (length (dn ++ [ip])) + 1) with
        (Z.of_nat (length (dn ++ ip :: rest)) - Z.of_nat (length dn)); [done|].
      rewrite !length_app. simpl. lia.
    + done.
  - intros acc [c2 p2 w2] Hs'. rewrite Z.sub_diag in Hs'. apply wp_bind, wp_ask.
    { intros w' Hf. eexists _, _, _, _. split; [|exact Hf]. constructor. }
    intros derr w3 Hf. apply wp_bind. eapply wp_mono; [apply cache_Add_spec|].
    + destruct Hs' as [Hw2 Hs']. split; [|exact Hs']. simpl in *.
      pose proof (service_clock _ _ w2 (Svc_DeallocIPAddresses id acc)) as Hc.
      rewrite Hf in Hc. simpl in Hc. lia.
    + intros [] s3 Hs3. by wp_steps.
Qed.

Lemma tryUnassignIPsFromAll_spec c p w :
  warmIPTarget c ≠ noWarmIPTarget → warmIPTarget c ≤ available c →
  wp (crash (W:=W)) tryUnassignIPsFromAll
    (λ _ s', in_shrunk (clock w) c 0 [] s') (mkIpamSt c p w).
Proof.
  intros Hne Hav. assert (shrunk (clock w) c 0 [] c) as Hc by (split; try done; [lia|by left]).
  unfold tryUnassignIPsFromAll. wp_step. wp_step.
  destruct (targetState c) as [[short over] b]. case_match; [|by wp_steps].
  wp_step. wp_step. wp_step. wp_step. wp_step.
  apply (wp_find_loop _ _ _ (λ _ s', in_shrunk (clock w) c 0 [] s')).
  - split; [simpl; lia|done].
  - intros dn x rest s' _ Hs'. eapply wp_mono; [by apply unassign_from_eni_spec|].
    intros [[]|] s'' Hs''; [|done]. by wp_steps.
  - intros s' Hs'. by wp_steps.
Qed.

End unassign.

(** ** Adding addresses *)

Section adding.
Context {W : Type} `{!World W} `{!WorldOk W}.
Context `{!AwsAPIs W, !NetworkAPIs W, !K8SAPIs W, !ENIConfigAPI W, !Requests W} `{!Quiet W}.
Context `{!ServiceClock W}.

(** A call of a service: it may crash, and takes time. *)
Lemma wp_service {A} (f : ext W A) Q c p w :
  service A f →
  (∀ a w', f w = (Some a, w') → clock w ≤ clock w' → Q a (mkIpamSt c p w')) →
  wp (crash (W:=W)) (ask f) Q (mkIpamSt c p w).
Proof.
  intros Hsvc HQ. apply wp_ask; [intros w' Hf; by exists A, f, w, w'|].
  intros a w' Hf. pose proof (service_clock _ f w Hsvc) as Hc. rewrite Hf in Hc. by apply HQ.
Qed.

(** EC2 fails to describe an ENI with a primary address. *)
Definition undescribed (id : string) (w : W) : Prop :=
  ∃ l o err, (DescribeENI id w).1 = Some (l, o, err) ∧
    (err ≠ None ∨ Forall (λ a, BoolValue (Primary a) ≠ true) l).

Lemma getENIaddresses_spec id c p w :
  wp (crash (W:=W)) (getENIaddresses id)
    (λ r s', i_ctx s' = c ∧ i_prom s' = p ∧ clock w ≤ clock (i_world s') ∧
       match r with
       | (l, prim, None) => ∃ o, DescribeENI id w = (Some (l, o, None), i_world s') ∧
           ∃ a, a ∈ l ∧ BoolValue (Primary a) = true ∧ prim = StringValue (PrivateIpAddress a)
       | (l, _, Some _) => l = [] ∧ undescribed id w
       end) (mkIpamSt c p w).
Proof.
  unfold getENIaddresses. apply wp_bind, wp_service; [constructor|].
  intros [[l o] [e|]] w' Hf Hw.
  { wp_steps. split_and!; try done. exists l, o, (Some e). rewrite Hf. split; [done|by left]. }
  destruct (list_find _ l) as [[i a]|] eqn:Hl.
  2: { apply list_find_None in Hl. wp_steps. split_and!; try done. exists l, o, None. rewrite Hf.
       split; [done|by right]. }
  apply list_find_Some in Hl as (Hi & Hprim & _). wp_steps. split_and!; [done..|]. exists o. split; [done|].
  exists a. split_and!; [by eapply list_elem_of_lookup_2|done..].
Qed.

(** What [AddIPv4AddressFromStore] does to the views of the store. *)
Lemma wp_AddIP E id ip Q c p w :
  (∀ err ds' p', addip_outcome id ip (dataStore c, p) err (ds', p') →
     Q err (mkIpamSt (set_dataStore ds' c) p' w)) →
  wp E (store (AddIPv4AddressFromStore id ip)) Q (mkIpamSt c p w).
Proof.
  intros HQ. apply wp_store. unfold AddIPv4AddressFromStore. wp_step. wp_step.
  wp_case He; [wp_case Hip|]; wp_steps; apply HQ.
  - by eapply AIO_dup.
  - by eapply AIO_ok.
  - by apply AIO_noeni.
Qed.

Lemma addip_outcome_addr id ip ds p err ds' p' :
  addip_outcome id ip (ds, p) err (ds', p') →
  (∀ j q, (j, q) ≠ (id, ip) → addr_of ds' j q = addr_of ds j q) ∧
  (is_Some (eniIPPools ds !! id) → is_Some (addr_of ds' id ip)) ∧
  (∀ j, is_Some (eniIPPools ds' !! j) ↔ is_Some (eniIPPools ds !! j)) ∧
  len (eniIPPools ds') = len (eniIPPools ds) ∧ podsIP ds' = podsIP ds.
Proof.
  intros H. inversion H as [? ? He|? ? e a He Ha|? ? e He Ha]; subst.
  - split_and!; try done. intros [? ?]. congruence.
  - split_and!; try done. intros _. exists a. apply addr_of_Some. eauto.
  - split_and!; try done.
    + intros j q Hne. eapply addr_of_insert_other; [done|done|]. intros ->. simpl.
      rewrite lookup_insert_ne; [done|]. congruence.
    + intros _. eexists. unfold addr_of; simpl. rewrite lookup_insert_eq. simpl. apply lookup_insert_eq.
    + intros j. simpl. destruct (decide (j = id)) as [->|].
      * rewrite lookup_insert_eq. naive_solver.
      * by rewrite lookup_insert_ne.
    + simpl. by rewrite (len_insert _ _ _ e).
Qed.

(** All secondary addresses of an ENI of the store are in the store after
    [addENIaddressesToDataStore]; other addresses, the pods and the number of
    ENIs are not touched. *)
Lemma addENIaddresses_spec E l id c p w :
  is_Some (eniIPPools (dataStore c) !! id) →
  wp E (addENIaddressesToDataStore l id)
    (λ _ s', ∃ ds', i_ctx s' = set_dataStore ds' c ∧ i_world s' = w ∧
       is_Some (eniIPPools ds' !! id) ∧
       (∀ a, a ∈ l → BoolValue (Primary a) = false →
          is_Some (addr_of ds' id (StringValue (PrivateIpAddress a)))) ∧
       (∀ j q, j ≠ id ∨ q ∉ (StringValue ∘ PrivateIpAddress <$> l) →
          addr_of ds' j q = addr_of (dataStore c) j q) ∧
       len (eniIPPools ds') = len (eniIPPools (dataStore c)) ∧
       podsIP ds' = podsIP (dataStore c)) (mkIpamSt c p w).
Proof.
  intros Hid. unfold addENIaddressesToDataStore.
  apply (wp_fold_loop _ _ _ _ (λ dn _ s', ∃ ds', i_ctx s' = set_dataStore ds' c ∧ i_world s' = w ∧
    is_Some (eniIPPools ds' !! id) ∧
    (∀ a, a ∈ dn → BoolValue (Primary a) = false →
       is_Some (addr_of ds' id (StringValue (PrivateIpAddress a)))) ∧
    (∀ j q, j ≠ id ∨ q ∉ (StringValue ∘ PrivateIpAddress <$> l) →
       addr_of ds' j q = addr_of (dataStore c) j q) ∧
    len (eniIPPools ds') = len (eniIPPools (dataStore c)) ∧
    podsIP ds' = podsIP (dataStore c))).
  - exists (dataStore c). split_and!; try done; [by destruct c|]. intros a Ha. by apply elem_of_nil in Ha.
  - intros dn a rest prim [c1 p1 w1] -> (ds1 & Hc & Hw & Hid1 & Hdn & Hout & Hlen & Hpods). simpl in Hc, Hw.
    subst. destruct (BoolValue (Primary a)) eqn:Hprim.
    { wp_steps. exists ds1. split_and!; try done.
      intros a' [?|Ha']%elem_of_app; [by apply Hdn|]. apply list_elem_of_singleton in Ha'. congruence. }
    apply wp_bind, wp_AddIP. intros err ds2 p2 Ho. simpl in Ho.
    destruct (addip_outcome_addr _ _ _ _ _ _ _ Ho) as (Hoth & Hadd & Hdom & Hlen2 & Hpods2).
    assert (∃ ds', i_ctx (mkIpamSt (set_dataStore ds2 (set_dataStore ds1 c)) p2 w) = set_dataStore ds' c ∧
      w = w ∧ is_Some (eniIPPools ds' !! id) ∧
      (∀ a0, a0 ∈ dn ++ [a] → BoolValue (Primary a0) = false →
         is_Some (addr_of ds' id (StringValue (PrivateIpAddress a0)))) ∧
      (∀ j q, j ≠ id ∨ q ∉ (StringValue ∘ PrivateIpAddress <$> dn ++ a :: rest) →
         addr_of ds' j q = addr_of (dataStore c) j q) ∧
      len (eniIPPools ds') = len (eniIPPools (dataStore c)) ∧
      podsIP ds' = podsIP (dataStore c)) as Hpost; [|repeat case_match; by wp_steps].
    exists ds2. split_and!; try done.
    + by apply Hdom.
    + intros a' Ha' Hp'. destruct (decide (StringValue (PrivateIpAddress a') =
        StringValue (PrivateIpAddress a))) as [->|Hne]; [by apply Hadd|].
      rewrite Hoth by congruence. apply Hdn; [|done].
      apply elem_of_app in Ha' as [?|Ha']; [done|]. apply list_elem_of_singleton in Ha'. congruence.
    + intros j q Hjq. rewrite Hoth; [by apply Hout|]. intros [= -> ->].
      destruct Hjq as [?|Hn]; [done|]. apply Hn. rewrite fmap_app, fmap_cons. set_solver.
    + congruence.
    + congruence.
  - intros prim [c1 p1 w1] (ds1 & ? & ? & ? & ? & ? & ? & ?). eauto 10.
Qed.

(** The same for an ENI that may not be in the store. *)
Lemma addENIaddresses_frame E l id c p w :
  wp E (addENIaddressesToDataStore l id)
    (λ _ s', ∃ ds', i_ctx s' = set_dataStore ds' c ∧
       len (eniIPPools ds') = len (eniIPPools (dataStore c)) ∧
       podsIP ds' = podsIP (dataStore c)) (mkIpamSt c p w).
Proof.
  unfold addENIaddressesToDataStore.
  apply (wp_fold_loop _ _ _ _ (λ _ _ s', ∃ ds', i_ctx s' = set_dataStore ds' c ∧
    len (eniIPPools ds') = len (eniIPPools (dataStore c)) ∧
    podsIP ds' = podsIP (dataStore c))).
  - exists (dataStore c). split_and!; try done. by destruct c.
  - intros dn a rest prim [c1 p1 w1] _ (ds1 & Hc & Hlen & Hpods). simpl in Hc. subst.
    destruct (BoolValue (Primary a)); [wp_steps; eauto|].
    apply wp_bind, wp_AddIP. intros err ds2 p2 Ho. simpl in Ho.
    destruct (addip_outcome_addr _ _ _ _ _ _ _ Ho) as (_ & _ & _ & Hlen2 & Hpods2).
    repeat case_match; wp_steps; exists ds2; (split_and!; [done|congruence|congruence]).
  - eauto.
Qed.

Lemma wp_AddENI E id dev prim Q c p w :
  (∀ err ds' p' w', addeni_outcome id dev prim (dataStore c, p) err (ds', p') → clock w ≤ clock w' →
     Q err (mkIpamSt (set_dataStore ds' c) p' w')) →
  wp E (store (AddENI id dev prim)) Q (mkIpamSt c p w).
Proof.
  intros HQ. apply wp_store. unfold AddENI. wp_step. wp_step.
  wp_case He; wp_steps; apply HQ; try done; [by eapply AEO_dup|by apply AEO_ok].
Qed.

Lemma addeni_outcome_eni id dev prim ds p err ds' p' :
  addeni_outcome id dev prim (ds, p) err (ds', p') →
  is_Some (eniIPPools ds' !! id) ∧ len (eniIPPools ds') ≤ len (eniIPPools ds) + 1 ∧
  podsIP ds' = podsIP ds ∧ (∀ e, err = Some e → e = EStr DuplicatedENIError) ∧
  (∀ j, j ≠ id → eniIPPools ds' !! j = eniIPPools ds !! j).
Proof.
  intros H. inversion H as [? ? e He|? ? t He]; subst.
  - split_and!; [eauto|lia|done| |done]. by intros ? [= <-].
  - simpl. rewrite lookup_insert_eq, len_insert_new by done. split_and!; [eauto|lia|done|done|].
    intros j Hj. by rewrite lookup_insert_ne.
Qed.

(** [setupENI]: when it succeeds the ENI is in the store with all its secondary
    addresses; the pods are not touched and at most one ENI is added. *)
Definition setup_post (id : string) (c : IPAMContext) (w : W) (err : option error) (s' : IpamSt W) : Prop :=
  let ds' := dataStore (i_ctx s') in
  maxENI (i_ctx s') = maxENI c ∧ clock w ≤ clock (i_world s') ∧
  podsIP ds' = podsIP (dataStore c) ∧ len (eniIPPools ds') ≤ len (eniIPPools (dataStore c)) + 1 ∧
  (err = None → is_Some (eniIPPools ds' !! id) ∧
     ∃ l o w', DescribeENI id w = (Some (l, o, None), w') ∧
       ∀ a, a ∈ l → BoolValue (Primary a) = false →
         is_Some (addr_of ds' id (StringValue (PrivateIpAddress a)))).

Lemma setupENI_network_spec id md l prim c0 w0 o w1 ds c p w :
  DescribeENI id w0 = (Some (l, o, None), w1) → clock w0 ≤ clock w →
  is_Some (eniIPPools ds !! id) → podsIP ds = podsIP (dataStore c0) → maxENI c = maxENI c0 →
  len (eniIPPools ds) ≤ len (eniIPPools (dataStore c0)) + 1 →
  wp (crash (W:=W)) (setupENI_network l prim id md) (setup_post id c0 w0)
    (mkIpamSt (set_dataStore ds c) p w).
Proof.
  intros Hdesc Hw0 Hid Hpods Hmax Hlen. unfold setupENI_network.
  apply wp_bind, wp_service; [constructor|]. intros prim2 w4 _ Hw4. apply wp_bind.
  eapply (wp_mono _ _ (λ _ s', i_ctx s' = set_dataStore ds c ∧ clock w4 ≤ clock (i_world s'))).
  { case_bool_decide; [apply wp_service; [constructor|]; intros; simpl; done|by wp_steps]. }
  intros nerr [c5 p5 w5] [Hc5 Hw5]. simpl in Hc5, Hw5. subst c5. destruct nerr as [e|].
  { wp_steps. split_and!; simpl; try done. lia. }
  apply wp_bind. eapply wp_mono; [by apply addENIaddresses_spec|].
  intros prim3 [c6 p6 w6] (ds6 & Hc6 & Hw6 & Hid6 & Hadd & Hout & Hlen6 & Hpods6). simpl in Hc6, Hw6. subst.
  wp_steps. split_and!; simpl in *; try done; [lia|congruence|lia|]. eauto 10.
Qed.

Lemma setupENI_spec id md c p w :
  wp (crash (W:=W)) (setupENI id md) (setup_post id c w) (mkIpamSt c p w).
Proof.
  unfold setupENI. apply wp_bind. eapply wp_mono; [apply getENIaddresses_spec|].
  intros [[l prim] err] [c1 p1 w1] (Hc1 & Hp1 & Hw1 & Hr). simpl in Hc1, Hp1, Hw1, Hr. subst c1 p1.
  destruct err as [e|].
  { wp_steps. split_and!; simpl; try done. lia. }
  destruct Hr as (o & Hdesc & _). apply wp_bind, wp_service; [constructor|]. intros prim1 w2 _ Hw2.
  apply wp_bind, wp_AddENI. intros err ds1 p1 w3 Ho Hw3.
  destruct (addeni_outcome_eni _ _ _ _ _ _ _ _ Ho) as (Hid & Hlen & Hpods & Herr & _).
  destruct err as [e|]; [rewrite (Herr e) by done; simpl|]; by eapply setupENI_network_spec; [done|lia|..].
Qed.

(** ** Waiting for an ENI, and the limit on ENIs *)

Lemma waitENIAttached_loop_spec fuel retry id c p w :
  maxRetryCheckENI + 1 ≤ retry + Z.of_nat fuel → retry ≤ maxRetryCheckENI →
  wp (crash (W:=W)) (waitENIAttached_loop fuel retry id)
    (λ r s', i_ctx s' = c ∧ (r.2 = None → ENIID r.1 = id)) (mkIpamSt c p w).
Proof.
  revert retry p w. induction fuel as [|fuel IH]; intros retry p w Hf Hr; [lia|].
  cbn [waitENIAttached_loop]. apply wp_bind, wp_service; [constructor|]. intros [enis err] w' _ _.
  destruct (match err with Some _ => None | None => _ end) as [[i md]|] eqn:Hfind.
  - wp_steps. split; [done|]. intros _. destruct err; [done|].
    by apply list_find_Some in Hfind as (_ & ? & _).
  - cbn zeta. case_bool_decide; [by wp_steps|]. wp_step. wp_step. apply IH; lia.
Qed.

(** What [increaseIPPool] leaves alone, with at most [k] new ENIs. *)
Definition grown (c : IPAMContext) (k : Z) (s' : IpamSt W) : Prop :=
  maxENI (i_ctx s') = maxENI c ∧ podsIP (dataStore (i_ctx s')) = podsIP (dataStore c) ∧
  len (eniIPPools (dataStore (i_ctx s'))) ≤ len (eniIPPools (dataStore c)) + k.

Lemma tryAssignIPs_spec c p w :
  wp (crash (W:=W)) tryAssignIPs (λ _ s', grown c 0 s') (mkIpamSt c p w).
Proof.
  assert (∀ p w, grown c 0 (mkIpamSt c p w)) as Hsame by (intros; split_and!; simpl; [done..|lia]).
  unfold tryAssignIPs. wp_step. wp_step. destruct (targetState c) as [[short over] b].
  case_match; [wp_steps; apply Hsame|]. wp_step. wp_step. wp_step. apply wp_store.
  apply (wp_weaken False); [done|]. eapply wp_mono; [apply GetENINeedsIP_spec|].
  intros o [ds1 p1 w1] [[= -> ->] Ho]. simpl.
  replace (set_dataStore (dataStore c) c) with c by (by destruct c).
  destruct o as [e|]; [|wp_steps; apply Hsame]. destruct Ho as (id & He & _ & Hlen). cbn zeta. simpl in Hlen.
  rewrite (bool_decide_eq_true_2 _ Hlen). apply wp_bind, wp_service; [constructor|]. intros err w2 _ _.
  apply wp_bind.
  eapply (wp_mono _ _ (λ _ s', i_ctx s' = c)).
  { destruct err; [apply wp_service; [constructor|]; done|by wp_steps]. }
  intros err2 [c3 p3 w3] Hc3. simpl in Hc3. subst c3. destruct err2 as [e2|]; [wp_steps; apply Hsame|].
  apply wp_bind. eapply wp_mono; [apply getENIaddresses_spec|].
  intros [[l prim] err4] [c4 p4 w4] (Hc4 & Hp4 & _). simpl in Hc4, Hp4. subst c4 p4.
  destruct err4 as [e4|]; [wp_steps; apply Hsame|]. apply wp_bind.
  eapply wp_mono; [apply addENIaddresses_frame|].
  intros prim5 [c5 p5 w5] (ds5 & Hc5 & Hl5 & Hp5). simpl in Hc5. subst. wp_steps.
  split_and!; simpl; [done..|lia].
Qed.

Lemma tryAllocateENI_spec c p w :
  wp (crash (W:=W)) tryAllocateENI (λ _ s', grown c 1 s') (mkIpamSt c p w).
Proof.
  assert (∀ p w, grown c 1 (mkIpamSt c p w)) as Hsame by (intros; split_and!; simpl; [done..|lia]).
  assert (∀ b l sub p w, wp (crash (W:=W)) (tryAllocateENI_with b l sub) (λ _ s', grown c 1 s')
            (mkIpamSt c p w)) as Hwith.
  { clear p w. intros b l sub p w. unfold tryAllocateENI_with.
    apply wp_bind, wp_service; [constructor|]. intros [id err] w1 _ _. destruct err as [e|]; [wp_steps; apply Hsame|].
    wp_step. wp_step. destruct (targetState c) as [[short over] b']. wp_step. wp_step.
    apply wp_bind, wp_service; [constructor|]. intros err w2 _ _. apply wp_bind.
    eapply (wp_mono _ _ (λ _ s', i_ctx s' = c)); [destruct err; by wp_steps|].
    intros [] [c3 p3 w3] Hc3. simpl in Hc3. subst c3. apply wp_bind.
    eapply wp_mono; [by apply waitENIAttached_loop_spec|].
    intros [md err4] [c4 p4 w4] [Hc4 _]. simpl in Hc4. subst c4. destruct err4 as [e4|]; [wp_steps; apply Hsame|].
    apply wp_bind. eapply wp_mono; [apply setupENI_spec|].
    intros err5 [c5 p5 w5] (Hm & _ & Hp & Hl & _). destruct err5; by wp_steps. }
  unfold tryAllocateENI. wp_step. wp_step. wp_case Hcust; [|apply Hwith].
  apply wp_bind, wp_service; [constructor|]. intros [cfg err] w1 _ _.
  destruct err as [e|]; [wp_steps; apply Hsame|apply Hwith].
Qed.

End adding.

(** ** Reconciling: addresses in their cooldown *)

Section cooldown.
Context {W : Type} `{!World W} `{!WorldOk W}.
Context `{!AwsAPIs W, !NetworkAPIs W, !K8SAPIs W, !ENIConfigAPI W, !Requests W} `{!Quiet W}.
Context `{!ServiceClock W}.

(** Before [t], [ip] is not an address of [id] and is in the cache until [t];
    time has not gone back behind [t0]. *)
Definition held (t0 t : Z) (id ip : string) (s : IpamSt W) : Prop :=
  t0 ≤ clock (i_world s) ∧
  (clock (i_world s) < t → addr_of (dataStore (i_ctx s)) id ip = None ∧
     reconcileCooldownCache (i_ctx s) !! ip = Some t).

(** An address in its cooldown is skipped. *)
Lemma reconcile_skip_spec id q t0 t ip s :
  held t0 t id ip s →
  wp (crash (W:=W)) (reconcile_skip id q)
    (λ skip s', held t0 t id ip s' ∧ (q = ip → clock (i_world s') < t → skip = true)) s.
Proof.
  destruct s as [c p w]. intros [Hw Hh]. simpl in Hw, Hh.
  assert (∀ c' p' w', clock w ≤ clock w' → c' = c → held t0 t id ip (mkIpamSt c' p' w')) as Hsame
    by (intros c' p' w' ? ->; split; simpl; [lia|intros; apply Hh; lia]).
  unfold reconcile_skip, cache_RecentlyFreed. wp_steps.
  destruct (reconcileCooldownCache c !! q) as [exp|] eqn:Hc; wp_steps.
  2: { split; [by apply Hsame|]. simpl. intros -> Hlt. destruct (Hh ltac:(lia)). congruence. }
  case_bool_decide as Hsub; [wp_steps; split; [by apply Hsame|done]|].
  apply Sub_lt_false in Hsub. apply wp_bind. eapply wp_mono; [apply getENIaddresses_spec|].
  intros [[l prim] err] [c1 p1 w1] (Hc1 & _ & Hw1 & _). simpl in Hc1, Hw1. subst c1.
  assert (q = ip → ¬ clock w1 < t) as Hq.
  { intros -> Hlt. destruct (Hh ltac:(lia)) as [_ Ht]. simplify_eq. lia. }
  destruct err as [e|]; [wp_steps; split; [apply Hsame; [lia|done]|done]|].
  case_bool_decide; [|wp_steps; split; [apply Hsame; [lia|done]|done]].
  unfold cache_Remove. wp_steps. split; [|intros; naive_solver]. split; simpl; [lia|]. intros Hlt.
  destruct (Hh ltac:(lia)). split; [done|]. rewrite lookup_delete_ne; [done|]. naive_solver.
Qed.

Lemma reconcile_ip_spec id m q t0 t ip s :
  held t0 t id ip s →
  wp (crash (W:=W)) (reconcile_ip id m q) (λ _ s', held t0 t id ip s') s.
Proof.
  destruct s as [c p w]. intros Hheld. unfold reconcile_ip. wp_step. wp_step.
  case_bool_decide; [by wp_steps|]. apply wp_bind. eapply wp_mono; [by apply reconcile_skip_spec|].
  intros skip [c1 p1 w1] [[Hw1 Hh1] Hs]. simpl in Hw1, Hh1, Hs. destruct skip; [by wp_steps|].
  apply wp_bind, wp_AddIP. intros err ds2 p2 Ho.
  destruct (addip_outcome_addr _ _ _ _ _ _ _ Ho) as (Hoth & _).
  assert (∀ p', held t0 t id ip (mkIpamSt (set_dataStore ds2 c1) p' w1)) as Hpost.
  { intros p'. split; simpl; [done|]. intros Hlt. destruct (Hh1 Hlt). rewrite Hoth; [done|].
    intros [= <-]. by specialize (Hs eq_refl Hlt). }
  repeat case_match; wp_steps; apply Hpost.
Qed.

Lemma eniIPPoolReconcile_spec m md id t0 t ip s :
  held t0 t id ip s →
  wp (crash (W:=W)) (eniIPPoolReconcile m md id) (λ _ s', held t0 t id ip s') s.
Proof.
  intros Hheld. unfold eniIPPoolReconcile. apply wp_bind.
  apply (wp_fold_loop _ _ _ _ (λ _ _ s', held t0 t id ip s')); [done| |].
  { intros dn q rest b s' _ Hs'. by apply reconcile_ip_spec. }
  intros rest [c p w] Hs'. destruct Hs' as [Hw Hh]. simpl in Hw, Hh. wp_step. wp_step.
  apply (wp_for_loop _ _ _ (λ _ s', held t0 t id ip s')); [split; simpl; [lia|intros; apply Hh; lia]| |done].
  intros dn [q a] rest' [c1 p1 w1] _ [Hw1 Hh1]. simpl in Hw1, Hh1. apply wp_bind, wp_store.
  unfold DelIPv4AddressFromStore.
  assert (∀ p, held t0 t id ip (mkIpamSt c1 p w1)) as Hsame by done.
  assert (set_dataStore (dataStore c1) c1 = c1) as Hc by (by destruct c1).
  wp_step. wp_step. wp_case He; [wp_case Hip; [wp_case Has|]|]; wp_steps; rewrite ?Hc; try apply Hsame.
  split; simpl; [done|]. intros Hlt. destruct (Hh1 Hlt) as [Ha ?]. split; [|done].
  unfold addr_of in *; simpl. rewrite lookup_insert_eq. rewrite He in Ha. simpl in *.
  apply lookup_delete_None. by right.
Qed.

End cooldown.
