(* ===== verification/IpamdProps.v ===== *)
(** * Theorems about the pool manager *)
From S2P Require Import Prelude GoStd DataStore DataStoreInv DataStoreSpec DataStoreProps Interfaces Ipamd IpamdInv IpamdQuiet.

Open Scope Z_scope.

(** ** A concrete node for the witnesses

    Its services answer from a list of attached ENIs, the first address of each
    being the primary one; requests are served when they are due, if the node is
    a [busy] one. *)
Record Node (busy : bool) := mkNode {
  n_clock : Z;
  n_enis : list ENIMetadata;
  n_requests : list (Z * rpc);
  n_pods : list K8SPodInfo;
}.
Arguments mkNode {busy}.
Arguments n_clock {busy}.
Arguments n_enis {busy}.
Arguments n_requests {busy}.
Arguments n_pods {busy}.

#[global] Instance Node_World busy : World (Node busy) := {
  w_now w := (n_clock w, mkNode (n_clock w + Second) (n_enis w) (n_requests w) (n_pods w));
  w_sleep d w := mkNode (n_clock w + d) (n_enis w) (n_requests w) (n_pods w);
  w_range A l w := (reverse l, w);
}.

#[global] Instance Node_ok busy : WorldOk (Node busy).
Proof.
  split; unfold clock; simpl; intros; try lia; [by rewrite reverse_Permutation|].
  unfold Second. lia.
Qed.

Definition n_addrs (l : list string) : list EC2Address :=
  imap (λ i ip, mkEC2Address (Some (bool_decide (i = 0%nat))) (Some ip)) l.

(** The ENI an address is named after: ["eni-1"] owns the addresses starting
    with ["1."], and so on. *)
Definition n_own (ip : string) : string := ("eni-" +:+ String.substring 0 1 ip)%string.

Definition n_valid {busy} (w : Node busy) : list ENIMetadata :=
  filter (λ m, Forall (λ ip, ip ≠ ""%string ∧ n_own ip = ENIID m) (LocalIPv4s m)) (n_enis w).

#[global] Instance Node_Aws busy : AwsAPIs (Node busy) := {
  AllocENI _ _ _ w := (Some ("eni-9"%string, None), w);
  FreeENI id w :=
    (Some None, mkNode (n_clock w) (filter (λ m, ENIID m ≠ id) (n_enis w)) (n_requests w) (n_pods w));
  GetAttachedENIs w := (Some (n_valid w, None), w);
  DescribeENI id w :=
    (Some (match list_find (λ m, ENIID m = id) (n_valid w) with
           | Some (_, m) => (n_addrs (LocalIPv4s m), None, None)
           | None => ([], None, Some (EStr "not found"))
           end), w);
  AllocIPAddresses _ _ w := (Some None, w);
  DeallocIPAddresses _ _ w := (Some None, w);
  GetVPCIPv4CIDR w := (Some "10.0.0.0/16"%string, w);
  GetVPCIPv4CIDRs w := (Some ["10.0.0.0/16"%string], w);
  GetLocalIPv4 w := (Some "10.0.0.1"%string, w);
  GetPrimaryENI w := (Some "eni-1"%string, w);
  GetENIipLimit w := (Some (3, None), w);
  GetENILimit w := (Some (3, None), w);
  GetPrimaryENImac w := (Some "02:00"%string, w);
}.

#[global] Instance Node_Network busy : NetworkAPIs (Node busy) := {
  Rule := unit;
  SetupHostNetwork _ _ _ _ w := (Some None, w);
  SetupENINetwork _ _ _ _ w := (Some None, w);
  UseExternalSNAT w := (Some false, w);
  GetExcludeSNATCIDRs w := (Some ["172.16.0.0/12"%string], w);
  GetRuleList w := (Some ([], None), w);
  UpdateRuleListBySrc _ _ _ _ w := (Some None, w);
}.

#[global] Instance Node_K8S busy : K8SAPIs (Node busy) := {
  K8SGetLocalPodIPs w := (Some (n_pods w, None), w);
}.

#[global] Instance Node_ENIConfig busy : ENIConfigAPI (Node busy) := {
  MyENIConfig w := (Some (mkENIConfigSpec ["sg-1"%string] "subnet-1", None), w);
}.

#[global] Instance Node_Requests busy : Requests (Node busy) := {
  w_rpcs w :=
    if busy then
      (snd <$> filter (λ r, r.1 ≤ n_clock w) (n_requests w),
       mkNode (n_clock w) (n_enis w) (filter (λ r, ¬ r.1 ≤ n_clock w) (n_requests w)) (n_pods w))
    else ([], w);
}.

#[global] Instance Node_quiet : Quiet (Node false).
Proof. by intros w. Qed.

#[global] Instance Node_service_clock busy : ServiceClock (Node busy).
Proof. intros A f w []; unfold clock; simpl; lia. Qed.

Lemma n_addrs_elem l a : a ∈ n_addrs l → StringValue (PrivateIpAddress a) ∈ l.
Proof. intros (i & x & -> & Hx)%elem_of_lookup_imap. simpl. by eapply list_elem_of_lookup_2. Qed.

#[global] Instance Node_services busy : ServicesOk (Node busy) n_own.
Proof.
  split.
  - intros w w' l [= <- <-] m ip [Hm _]%list_elem_of_filter Hip.
    by apply (proj1 (Forall_forall _ _) Hm) in Hip.
  - intros id w w' l o Hd a Ha. cbn in Hd.
    destruct (list_find _ (n_valid w)) as [[i m]|] eqn:Hf; [|done]. injection Hd as <- <- <-.
    apply list_find_Some in Hf as (Hm & <- & _). apply list_elem_of_lookup_2 in Hm.
    apply list_elem_of_filter in Hm as [Hm _]. apply n_addrs_elem in Ha.
    by apply (proj1 (Forall_forall _ _) Hm) in Ha.
Qed.

Definition test_env : Environ := {| environ := {[ "WARM_IP_TARGET" := "2"; "MAX_ENI" := "2" ]}%string |}.

Definition test_md (n : string) (dev : Z) : ENIMetadata :=
  mkENIMetadata ("eni-" +:+ n) ("02:0" +:+ n) dev "10.0.0.0/24"
    [n +:+ ".0.0.1"; n +:+ ".0.0.2"; n +:+ ".0.0.3"; n +:+ ".0.0.4"]%string.
Definition test_node {busy} : Node busy := mkNode (1000 * Minute) [test_md "1" 0; test_md "2" 1] [] [].

(** A context as [nodeInit] leaves it, without ENIs yet. *)
Definition test_ctx (warmIP warmENI : Z) : IPAMContext :=
  mkIPAMContext NewDataStore false 3 2 warmENI warmIP ∅ zeroTime zeroTime ∅.
Definition test_boot {busy} : M (IpamSt (Node busy)) unit :=
  setupENI "eni-1" (test_md "1" 0) ;; setupENI "eni-2" (test_md "2" 1) ;; mret tt.
Definition test_at {busy} (warmIP warmENI : Z) (w : Node busy) : IpamSt (Node busy) :=
  (test_boot (mkIpamSt (test_ctx warmIP warmENI) ∅ w)).2.
Definition test_start : IpamSt (Node true) :=
  test_at 2 1
    (mkNode (1000 * Minute) [test_md "1" 0; test_md "2" 1]
       [(1000 * Minute + 12 * Second, RpcAdd "p1" "default" "c1");
        (1000 * Minute + 13 * Second, RpcAdd "p2" "default" "c2");
        (1000 * Minute + 15 * Second, RpcDel "p1" "default" "c1")] []).

Lemma test_at_sound {busy} i e (w : Node busy) : sound n_own (test_at i e w).
Proof.
  assert (safe n_own (test_boot (busy:=busy)) (λ _, True)) as Hb.
  { unfold test_boot. eapply safe_bind; [apply setupENI_safe, Node_services|]. intros ? _.
    eapply safe_bind; [apply setupENI_safe, Node_services|]. intros ? _. by apply safe_ret. }
  specialize (Hb (mkIpamSt (test_ctx i e) ∅ w) (good_new _)). unfold wp, test_at in *.
  destruct (test_boot _) as [[a| |] s']; [by destruct Hb| |done].
  by destruct Hb as (A & f & w1 & w2 & [] & [=]).
Qed.

(** ** Safety under concurrent requests *)

Section safety.
Context {W : Type} `{!World W} `{!WorldOk W}.
Context `{!AwsAPIs W, !NetworkAPIs W, !K8SAPIs W, !ENIConfigAPI W, !Requests W} {env : Environ}.

Lemma sound_pods own (s : IpamSt W) :
  sound own s →
  (∀ k k' i i', podsIP (dataStore (i_ctx s)) !! k = Some i →
     podsIP (dataStore (i_ctx s)) !! k' = Some i' → IP i = IP i' → k = k') ∧
  (∀ k i, podsIP (dataStore (i_ctx s)) !! k = Some i →
     ∃ id a, addr_of (dataStore (i_ctx s)) id (IP i) = Some a ∧ Assigned a = true ∧
       dev_of (dataStore (i_ctx s)) id = Some (pi_DeviceNumber i)).
Proof.
  intros [[sp HR] _]. split.
  - intros *. apply (refines_pod_inj HR).
  - intros k i Hk. destruct (refines_pod_entry _ _ _ _ HR Hk) as (id & a & ? & ? & _ & ? & _). eauto 6.
Qed.

(** C4: the pool manager, run for any number of turns against services that
    answer anything (as long as they report an address for no ENI but its owner)
    while RPC handlers add and release pods between any two of its steps, never
    stops for lack of attempts and never panics unless a service does; and after
    every run no two pods share an address and every pod's address is still in
    the pool, assigned, on the ENI whose device number the pod was given. *)
Theorem manager_keeps_pods_safe own n (s : IpamSt W) :
  ServicesOk W own → sound own s →
  match StartNodeIPPoolManager n s with
  | (Ret _, s') =>
      sound own s' ∧
      (∀ k k' i i', podsIP (dataStore (i_ctx s')) !! k = Some i →
         podsIP (dataStore (i_ctx s')) !! k' = Some i' → IP i = IP i' → k = k') ∧
      (∀ k i, podsIP (dataStore (i_ctx s')) !! k = Some i →
         ∃ id a, addr_of (dataStore (i_ctx s')) id (IP i) = Some a ∧ Assigned a = true ∧
           dev_of (dataStore (i_ctx s')) id = Some (pi_DeviceNumber i))
  | (Panic _, _) => crash (W:=W)
  | (NoFuel, _) => False
  end.
Proof.
  intros Hsvc Hs. pose proof (StartNodeIPPoolManager_safe own n s Hs) as Hrun. unfold wp in Hrun.
  destruct (StartNodeIPPoolManager n s) as [[a| |] s']; [|done..].
  destruct Hrun as [Hs' _]. split; [done|]. by eapply sound_pods.
Qed.

End safety.

Lemma manager_keeps_pods_safe_witness :
  sound n_own test_start ∧
  match StartNodeIPPoolManager 3 test_start with
  | (Ret _, s') => sound n_own s' ∧ len (podsIP (dataStore (i_ctx s'))) = 1
  | _ => False
  end.
Proof.
  assert (sound n_own test_start) as Hs by (apply test_at_sound). split; [exact Hs|].
  pose proof (manager_keeps_pods_safe n_own 3 test_start (Node_services true) Hs) as H.
  assert (len (podsIP (dataStore (i_ctx (StartNodeIPPoolManager 3 test_start).2))) = 1) as Hl
    by (vm_compute; reflexivity).
  assert (∃ a, (StartNodeIPPoolManager 3 test_start).1 = Ret a) as [a Ha]
    by (exists tt; vm_compute; reflexivity).
  revert H Hl Ha. destruct (StartNodeIPPoolManager 3 test_start) as [[b| |] s'];
    intros H Hl [=]. split; [exact (proj1 H)|exact Hl].
Defined.

(** ** The pool between requests *)

Section quiet.
Context {W : Type} `{!World W} `{!WorldOk W}.
Context `{!AwsAPIs W, !NetworkAPIs W, !K8SAPIs W, !ENIConfigAPI W, !Requests W} `{!Quiet W}.
Context `{!ServiceClock W}.

(** The targets as numbers that fit in an int. *)
Definition targets_fit (c : IPAMContext) : Prop :=
  0 ≤ warmENITarget c ∧ 0 ≤ maxIPsPerENI c ∧
  warmENITarget c + 1 < 2 ^ 63 ∧ (warmENITarget c + 1) * maxIPsPerENI c < 2 ^ 63.

Lemma targets_exact c : targets_fit c →
  int64 (maxIPsPerENI c * warmENITarget c) = maxIPsPerENI c * warmENITarget c ∧
  int64 (int64 (warmENITarget c + 1) * maxIPsPerENI c) = (warmENITarget c + 1) * maxIPsPerENI c.
Proof.
  intros (H0 & H1 & H2 & H3). rewrite (int64_small (warmENITarget c + 1)) by lia.
  split; apply int64_small; nia.
Qed.

(** when the pool is reported too low and too high: with a warm IP target
    [t] exactly when fewer, or more, than [t] addresses are available; without
    one it is too low when less than WARM_ENI_TARGET full ENIs are available (or
    nothing, for a target of 0), never too high, and extra ENIs are looked for
    when one ENI more than the target is available.  The checks change nothing,
    and the pool is never both too low and too high. *)
Theorem pool_thresholds (s : IpamSt W) :
  let c := i_ctx s in
  targets_fit c →
  ∃ low high extra,
    nodeIPPoolTooLow s = (Ret low, s) ∧ nodeIPPoolTooHigh s = (Ret high, s) ∧
    shouldRemoveExtraENIs s = (Ret extra, s) ∧
    ¬ (low = true ∧ high = true) ∧
    if decide (warmIPTarget c = noWarmIPTarget) then
      (low = true ↔ available c < maxIPsPerENI c * warmENITarget c ∨
                    (warmENITarget c = 0 ∧ available c = 0)) ∧
      high = false ∧
      (extra = true ↔ (warmENITarget c + 1) * maxIPsPerENI c ≤ available c)
    else
      (low = true ↔ available c < warmIPTarget c) ∧
      (high = true ↔ warmIPTarget c < available c) ∧ extra = true.
Proof.
  destruct s as [c p w]. simpl. intros [Hlow Hextra]%targets_exact.
  assert (∀ {A} (m : M (IpamSt W) A) a,
    wp False m (λ r s', r = a ∧ s' = mkIpamSt c p w) (mkIpamSt c p w) →
    m (mkIpamSt c p w) = (Ret a, mkIpamSt c p w)) as Hrun.
  { intros A m a (r & s' & Heq & -> & ->)%wp_run. done. }
  destruct (decide (warmIPTarget c = noWarmIPTarget)) as [Hno|Hyes].
  - assert (targetState c = (0, 0, false)) as Ht
      by (unfold targetState; by rewrite bool_decide_eq_true_2).
    eexists _, _, _. split_and!.
    1: { apply Hrun. unfold nodeIPPoolTooLow. wp_step. wp_step. rewrite Ht. wp_steps. done. }
    1: { apply Hrun. unfold nodeIPPoolTooHigh. wp_step. wp_step. rewrite Ht. wp_steps. done. }
    1: { apply Hrun. unfold shouldRemoveExtraENIs. wp_step. wp_step. rewrite Ht. wp_steps. done. }
    all: unfold id; fold (available c).
    + by intros [_ ?].
    + rewrite orb_true_iff, andb_true_iff, !bool_decide_eq_true. by rewrite Hlow.
    + done.
    + by rewrite bool_decide_eq_true, Hextra.
  - assert (targetState c = (Z.max (warmIPTarget c - available c) 0,
      Z.max (available c - warmIPTarget c) 0, true)) as Ht
      by (unfold targetState; by rewrite bool_decide_eq_false_2).
    eexists _, _, _. split_and!.
    1: { apply Hrun. unfold nodeIPPoolTooLow. wp_step. wp_step. rewrite Ht. wp_steps. done. }
    1: { apply Hrun. unfold nodeIPPoolTooHigh. wp_step. wp_step. rewrite Ht. wp_steps. done. }
    1: { apply Hrun. unfold shouldRemoveExtraENIs. wp_step. wp_step. rewrite Ht. wp_steps. done. }
    all: rewrite ?bool_decide_eq_true; try done; lia.
Qed.

(** C17: giving addresses back does not make the pool fall below the warm IP
    target, as long as no request is served during the call ([Quiet]) and the
    target was met before: [tryUnassignIPsFromAll] removes only addresses no pod uses, leaves
    the pods and the number of assigned addresses as they are, leaves at least
    WARM_IP_TARGET addresses available, and puts every address it removes in the
    cooldown cache for at least a minute from the start of the call. *)
Theorem unassign_respects_target (s : IpamSt W) :
  warmIPTarget (i_ctx s) ≠ noWarmIPTarget → warmIPTarget (i_ctx s) ≤ available (i_ctx s) →
  wp (crash (W:=W)) tryUnassignIPsFromAll
    (λ _ s',
      warmIPTarget (i_ctx s) ≤ available (i_ctx s') ∧
      podsIP (dataStore (i_ctx s')) = podsIP (dataStore (i_ctx s)) ∧
      ∀ id ip,
        addr_of (dataStore (i_ctx s')) id ip = addr_of (dataStore (i_ctx s)) id ip ∨
        (∃ a, addr_of (dataStore (i_ctx s)) id ip = Some a ∧ Assigned a = false) ∧
        addr_of (dataStore (i_ctx s')) id ip = None ∧
        ∃ t, reconcileCooldownCache (i_ctx s') !! ip = Some t ∧
             clock (i_world s) + ipReconcileCooldown ≤ t) s.
Proof.
  destruct s as [c p w]. simpl. intros Hne Hav.
  eapply wp_mono; [by apply tryUnassignIPsFromAll_spec|].
  intros _ s' [_ [Hp Ha Ht Hav' Haddr]]. split_and!; [lia|done|].
  intros id ip. destruct (Haddr id ip) as [?|(? & ? & [Hin|?])]; [by left| |by right].
  by apply elem_of_nil in Hin.
Qed.

(** C18: an address in its cooldown is not put back: reconciling an ENI does not
    add an address the pool manager removed from it until the cooldown is over,
    even if the instance metadata still lists it. *)
Theorem reconcile_respects_cooldown ipPool md id ip t (s : IpamSt W) :
  addr_of (dataStore (i_ctx s)) id ip = None →
  reconcileCooldownCache (i_ctx s) !! ip = Some t →
  wp (crash (W:=W)) (eniIPPoolReconcile ipPool md id)
    (λ _ s', clock (i_world s') < t → addr_of (dataStore (i_ctx s')) id ip = None) s.
Proof.
  intros Ha Hc. eapply wp_mono.
  - apply (eniIPPoolReconcile_spec _ _ _ (clock (i_world s)) t ip). split; [lia|done].
  - intros _ s' [_ Hh] Hlt. by apply Hh.
Qed.

(** C19: the pool manager does not allocate ENIs beyond the limit: increasing the
    pool leaves at most [maxENI] ENIs in the store, unless it had more already,
    and does not touch the pods. *)
Theorem increase_respects_limit (s : IpamSt W) :
  wp (crash (W:=W)) increaseIPPool
    (λ _ s', len (eniIPPools (dataStore (i_ctx s'))) ≤
               Z.max (len (eniIPPools (dataStore (i_ctx s)))) (maxENI (i_ctx s)) ∧
             podsIP (dataStore (i_ctx s')) = podsIP (dataStore (i_ctx s))) s.
Proof.
  destruct s as [c p w]. simpl. unfold increaseIPPool, inprogress. wp_step. wp_step.
  apply wp_bind. eapply (wp_mono _ _ (λ _ s', len (eniIPPools (dataStore (i_ctx s'))) ≤
    Z.max (len (eniIPPools (dataStore c))) (maxENI c) ∧
    podsIP (dataStore (i_ctx s')) = podsIP (dataStore c))).
  2: { intros [] [c' p' w'] H. by wp_steps. }
  wp_step. wp_step. destruct (targetState c) as [[short over] b].
  destruct (b && _); [wp_steps; simpl; split; [lia|done]|]. apply wp_bind.
  eapply wp_mono; [apply tryAssignIPs_spec|]. intros [inc err] [c1 p1 w1] (Hm & Hp & Hl). simpl in Hm, Hp, Hl.
  destruct inc; [unfold updateLastNodeIPPoolAction; wp_steps; simpl; split; [lia|done]|].
  wp_steps. case_bool_decide as Hlt; [|wp_steps; simpl; split; [lia|done]].
  apply wp_bind. eapply wp_mono; [apply tryAllocateENI_spec|].
  intros [] [c2 p2 w2] (Hm2 & Hp2 & Hl2). simpl in Hm2, Hp2, Hl2.
  unfold updateLastNodeIPPoolAction. wp_steps. simpl. split; [lia|congruence].
Qed.

(** The number of available addresses the settings ask for. *)
Definition wanted_available (c : IPAMContext) : Z :=
  if decide (warmIPTarget c = noWarmIPTarget) then warmENITarget c * maxIPsPerENI c else warmIPTarget c.

Lemma available_warm ds : ds_wf ds → total ds - assigned ds = map_sum warm (eniIPPools ds).
Proof. intros (_ & -> & ->). unfold warm. by rewrite map_sum_sub. Qed.

(** Removing an unused ENI leaves the warm IP target, if there is one. *)
Lemma remove_unused_keeps t now ds p id ds' p' :
  ds_wf ds → rmunused_outcome t now (ds, p) id (ds', p') →
  ds' = ds ∨ (t = 0 ∨ t ≤ total ds' - assigned ds') ∧
             ∃ e, eniIPPools ds !! id = Some e ∧ total ds' = total ds - len (IPv4Addresses e) ∧ assigned ds' = assigned ds.
Proof.
  intros Hwf Ho. pose proof (rmunused_wf _ _ _ _ _ _ _ Ho Hwf) as Hwf'.
  inversion Ho as [|? ? j e t1 t2 pool He _ _ Hd Hpool]; subst; [by left|]. right.
  pose proof (proj1 (proj1 Hwf _ _ He)). subst. rewrite He in Hpool. simplify_eq. split; [|by exists pool].
  destruct Hd as (_ & _ & _ & _ & [?|Hw]); [by left|right].
  rewrite available_warm by done. simpl. by rewrite otherWarm_drop.
Qed.

(** C21: the last part of a turn of the pool manager, [shouldRemoveExtraENIs] and,
    if it says so, [tryFreeENI], does not take the pool below its target, as long
    as no request is served meanwhile ([Quiet]), the targets fit in an int
    ([targets_fit], see [huge_target_wraps]) and no ENI has more than
    [maxIPsPerENI] addresses: either the number of available addresses is what it
    was, or at least WARM_IP_TARGET (if set), or else WARM_ENI_TARGET full ENIs,
    are left; pods keep their addresses. *)
Theorem free_eni_keeps_target (s : IpamSt W) :
  let c := i_ctx s in
  ds_wf (dataStore c) → targets_fit c →
  (∀ id e, eniIPPools (dataStore c) !! id = Some e → len (IPv4Addresses e) ≤ maxIPsPerENI c) →
  wp (crash (W:=W)) (extra ← shouldRemoveExtraENIs; if extra : bool then tryFreeENI else mret tt)
    (λ _ s', (available (i_ctx s') = available c ∨ wanted_available c ≤ available (i_ctx s')) ∧
       podsIP (dataStore (i_ctx s')) = podsIP (dataStore c) ∧
       (∀ id ip a, addr_of (dataStore c) id ip = Some a → Assigned a = true →
          addr_of (dataStore (i_ctx s')) id ip = Some a)) s.
Proof.
  cbv zeta. intros Hwf Hfit Hmax.
  destruct (pool_thresholds s Hfit) as (low & high & extra & _ & _ & Hextra & _ & Hcase).
  apply wp_bind. unfold wp at 1. rewrite Hextra. destruct extra; [|wp_steps; auto].
  assert (warmIPTarget (i_ctx s) = noWarmIPTarget →
    (warmENITarget (i_ctx s) + 1) * maxIPsPerENI (i_ctx s) ≤ available (i_ctx s)) as Hav.
  { intros Heq. rewrite decide_True in Hcase by done. by apply Hcase. }
  clear Hextra Hcase. destruct s as [c p w]. cbn [i_ctx] in *. unfold tryFreeENI. wp_steps. apply wp_store.
  apply (wp_weaken False); [done|]. eapply wp_mono; [apply RemoveUnusedENIFromStore_outcome|].
  { intros id e He. by apply Hwf. }
  intros id [ds1 p1 w1] Ho. unfold dp in Ho; simpl in Ho |- *.
  assert ((total ds1 - assigned ds1 = available c ∨ wanted_available c ≤ total ds1 - assigned ds1) ∧
    podsIP ds1 = podsIP (dataStore c) ∧
    (∀ j ip a, addr_of (dataStore c) j ip = Some a → Assigned a = true → addr_of ds1 j ip = Some a)) as Hpost.
  { split_and!.
    - destruct (remove_unused_keeps _ _ _ _ _ _ _ Hwf Ho) as [->|(Hw & e & He & Ht & Ha)]; [by left|right].
      unfold wanted_available. case_decide as Hno; [|destruct Hw; [done|lia]].
      specialize (Hav Hno). pose proof (Hmax _ _ He). unfold available in Hav. lia.
    - by inversion Ho.
    - intros j ip a Ha Has. eapply (ds_outcome_used (CRemoveUnused (warmIPTarget c)) _ 0); [|done..].
      simpl. eauto. }
  case_bool_decide; [by wp_steps|]. apply wp_bind, wp_service; [constructor|]. intros err w2 _ _.
  destruct err; by wp_steps.
Qed.

(** when [setupENI] succeeds, the ENI is in the data store together with all
    the secondary addresses EC2 describes for it; it adds at most that one ENI
    and does not touch the pods, whether it succeeds or not. *)
Theorem setup_registers_eni id md (s : IpamSt W) :
  wp (crash (W:=W)) (setupENI id md)
    (λ err s', podsIP (dataStore (i_ctx s')) = podsIP (dataStore (i_ctx s)) ∧
       len (eniIPPools (dataStore (i_ctx s'))) ≤ len (eniIPPools (dataStore (i_ctx s))) + 1 ∧
       (err = None →
          is_Some (eniIPPools (dataStore (i_ctx s')) !! id) ∧
          ∃ l o w', DescribeENI id (i_world s) = (Some (l, o, None), w') ∧
            ∀ a, a ∈ l → BoolValue (Primary a) = false →
              is_Some (addr_of (dataStore (i_ctx s')) id (StringValue (PrivateIpAddress a))))) s.
Proof.
  destruct s as [c p w]. eapply wp_mono; [apply setupENI_spec|].
  intros err s' (_ & _ & Hp & Hl & Hok). done.
Qed.

(** [waitENIAttached] ends after at most [maxRetryCheckENI + 1] attempts,
    changes no part of the context, and either returns the metadata of the ENI
    asked for or an error. *)
Theorem wait_finds_eni id (s : IpamSt W) :
  wp (crash (W:=W)) (waitENIAttached id)
    (λ r s', i_ctx s' = i_ctx s ∧ (r.2 = None → ENIID r.1 = id)) s.
Proof. destruct s as [c p w]. by apply waitENIAttached_loop_spec. Qed.

End quiet.

(** A quiet node with two ENIs of three free addresses each. *)
Definition quiet_at (warmIP warmENI : Z) : IpamSt (Node false) := test_at warmIP warmENI test_node.

Lemma no_crash busy : ¬ crash (W:=Node busy).
Proof. by intros (A & f & w & w' & [] & [=]). Qed.

(** From a weakest precondition on such a node to the run itself. *)
Lemma node_run {busy A} (m : M (IpamSt (Node busy)) A) Q s :
  wp (crash (W:=Node busy)) m Q s → ∃ a, m s = (Ret a, (m s).2) ∧ Q a (m s).2.
Proof.
  unfold wp. destruct (m s) as [[a| |] s']; simpl; [eauto| |done]. by intros ?%no_crash.
Qed.

Lemma pool_thresholds_witness :
  available (i_ctx (quiet_at 2 1)) = 6 ∧
  ∃ low high extra, nodeIPPoolTooLow (quiet_at 2 1) = (Ret low, quiet_at 2 1) ∧
    nodeIPPoolTooHigh (quiet_at 2 1) = (Ret high, quiet_at 2 1) ∧
    shouldRemoveExtraENIs (quiet_at 2 1) = (Ret extra, quiet_at 2 1).
Proof.
  split; [vm_compute; reflexivity|].
  destruct (pool_thresholds (quiet_at 2 1) ltac:(vm_compute; split_and!; first [discriminate|reflexivity])) as (low & high & extra & H1 & H2 & H3 & _).
  exists low, high, extra. split; [exact H1|]. split; [exact H2|exact H3].
Defined.

Lemma unassign_respects_target_witness :
  available (i_ctx (quiet_at 2 1)) = 6 ∧
  available (i_ctx (tryUnassignIPsFromAll (quiet_at 2 1)).2) = 2 ∧
  warmIPTarget (i_ctx (quiet_at 2 1)) ≤ available (i_ctx (tryUnassignIPsFromAll (quiet_at 2 1)).2).
Proof.
  split; [vm_compute; reflexivity|]. split; [vm_compute; reflexivity|].
  destruct (node_run _ _ _ (unassign_respects_target (quiet_at 2 1)
    ltac:(vm_compute; discriminate) ltac:(vm_compute; discriminate))) as (a & _ & H & _).
  exact H.
Defined.

(** After addresses were given back, with the metadata still listing them. *)
Definition quiet_shrunk : IpamSt (Node false) := (tryUnassignIPsFromAll (quiet_at 2 1)).2.
Definition quiet_freed : list (string * Z) := map_to_list (reconcileCooldownCache (i_ctx quiet_shrunk)).

Lemma reconcile_respects_cooldown_witness :
  ∃ ip t id, head quiet_freed = Some (ip, t) ∧ id = n_own ip ∧
    (clock (i_world (eniIPPoolReconcile ∅ (test_md "1" 0) id quiet_shrunk).2) < t →
     addr_of (dataStore (i_ctx (eniIPPoolReconcile ∅ (test_md "1" 0) id quiet_shrunk).2)) id ip = None).
Proof.
  assert (∃ ip t, head quiet_freed = Some (ip, t) ∧
    addr_of (dataStore (i_ctx quiet_shrunk)) (n_own ip) ip = None ∧
    reconcileCooldownCache (i_ctx quiet_shrunk) !! ip = Some t) as (ip & t & Hh & Ha & Hc).
  { eexists _, _. split; [vm_compute; reflexivity|]. split; vm_compute; reflexivity. }
  exists ip, t, (n_own ip). split; [exact Hh|]. split; [reflexivity|].
  destruct (node_run _ _ _ (reconcile_respects_cooldown ∅ (test_md "1" 0) (n_own ip) ip t quiet_shrunk Ha Hc))
    as (a & _ & H). exact H.
Defined.

Lemma increase_respects_limit_witness :
  len (eniIPPools (dataStore (i_ctx (quiet_at 20 1)))) = 2 ∧ maxENI (i_ctx (quiet_at 20 1)) = 2 ∧
  len (eniIPPools (dataStore (i_ctx (increaseIPPool (quiet_at 20 1)).2))) ≤
    Z.max (len (eniIPPools (dataStore (i_ctx (quiet_at 20 1))))) (maxENI (i_ctx (quiet_at 20 1))).
Proof.
  split; [vm_compute; reflexivity|]. split; [vm_compute; reflexivity|].
  destruct (node_run _ _ _ (increase_respects_limit (quiet_at 20 1))) as (a & _ & H & _). exact H.
Defined.

(** The node much later, when both ENIs are old enough to be freed. *)
Definition quiet_later (warmIP warmENI : Z) : IpamSt (Node false) :=
  i_set_world (mkNode (3000 * Minute) (n_enis (test_node (busy:=false))) [] []) (quiet_at warmIP warmENI).

Lemma sound_world_wf {W} own (w : W) (s : IpamSt W) :
  sound own s → ds_wf (dataStore (i_ctx (i_set_world w s))).
Proof. apply good_wf. Qed.

Lemma quiet_later_wf i e : ds_wf (dataStore (i_ctx (quiet_later i e))).
Proof. exact (sound_world_wf n_own _ _ (test_at_sound i e (test_node (busy:=false)))). Qed.

Lemma quiet_later_max : ∀ id e, eniIPPools (dataStore (i_ctx (quiet_later 0 1))) !! id = Some e →
  len (IPv4Addresses e) ≤ maxIPsPerENI (i_ctx (quiet_later 0 1)).
Proof.
  change (map_Forall (λ _ e, len (IPv4Addresses e) ≤ maxIPsPerENI (i_ctx (quiet_later 0 1)))
            (eniIPPools (dataStore (i_ctx (quiet_later 0 1))))).
  refine (proj1 (bool_decide_eq_true _) _). vm_compute. reflexivity.
Qed.

Lemma quiet_later_fit : targets_fit (i_ctx (quiet_later 0 1)).
Proof. split_and!; vm_compute; first [discriminate|reflexivity]. Qed.

Lemma free_eni_keeps_target_witness :
  let s' := ((extra ← shouldRemoveExtraENIs; if extra : bool then tryFreeENI else mret tt) (quiet_later 0 1)).2 in
  len (eniIPPools (dataStore (i_ctx s'))) = 1 ∧ wanted_available (i_ctx (quiet_later 0 1)) = 3 ∧
  (available (i_ctx s') = available (i_ctx (quiet_later 0 1)) ∨
   wanted_available (i_ctx (quiet_later 0 1)) ≤ available (i_ctx s')).
Proof.
  split; [vm_compute; reflexivity|]. split; [vm_compute; reflexivity|].
  destruct (node_run _ _ _ (free_eni_keeps_target (quiet_later 0 1) (quiet_later_wf 0 1) quiet_later_fit quiet_later_max))
    as (a & _ & Hav & _). exact Hav.
Defined.

Lemma setup_registers_eni_witness :
  ∃ err, setupENI "eni-1" (test_md "1" 0) (mkIpamSt (test_ctx 2 1) ∅ (test_node (busy:=false))) =
      (Ret err, (setupENI "eni-1" (test_md "1" 0) (mkIpamSt (test_ctx 2 1) ∅ test_node)).2) ∧
    podsIP (dataStore (i_ctx (setupENI "eni-1" (test_md "1" 0)
      (mkIpamSt (test_ctx 2 1) ∅ (test_node (busy:=false)))).2)) = ∅.
Proof.
  destruct (node_run _ _ _ (setup_registers_eni "eni-1" (test_md "1" 0)
    (mkIpamSt (test_ctx 2 1) ∅ (test_node (busy:=false))))) as (err & Hrun & Hp & _).
  exists err. split; [exact Hrun|exact Hp].
Defined.

Lemma wait_finds_eni_witness :
  ∃ md, (waitENIAttached "eni-2" (quiet_at 2 1)).1 = Ret (md, None) ∧ ENIID md = "eni-2"%string.
Proof.
  destruct (node_run _ _ _ (wait_finds_eni "eni-2" (quiet_at 2 1))) as ([md err] & Hrun & _ & H).
  assert (err = None) as He.
  { assert ((waitENIAttached "eni-2" (quiet_at 2 1)).1 = Ret (test_md "2" 1, None)) as Hv
      by (vm_compute; reflexivity).
    rewrite Hrun in Hv. simpl in Hv. congruence. }
  exists md. rewrite Hrun. subst err. split; [reflexivity|]. exact (H eq_refl).
Defined.

(** ** A huge WARM_ENI_TARGET *)

(** with WARM_ENI_TARGET 2^63 - 1, which [getWarmENITarget] accepts, the product
    in [shouldRemoveExtraENIs] wraps around: the pool is too low, and at the same
    time an extra ENI is found and freed. *)
Theorem huge_target_wraps :
  let s := quiet_later 0 (2 ^ 63 - 1) in
  (nodeIPPoolTooLow s).1 = Ret true ∧ (shouldRemoveExtraENIs s).1 = Ret true ∧
  len (eniIPPools (dataStore (i_ctx s))) = 2 ∧ len (eniIPPools (dataStore (i_ctx (tryFreeENI s).2))) = 1.
Proof. vm_compute. done. Qed.

(** ** WARM_ENI_TARGET = 0 *)

(** The later node with all addresses of its primary ENI in use. *)
Definition busy_primary : IpamSt (Node false) :=
  let add n ip s := (store_op (AssignPodIPv4Address (mkK8SPodInfo n "default" "c" ip "")) s).2 in
  add "p1" "1.0.0.2" (add "p2" "1.0.0.3" (add "p3" "1.0.0.4" (quiet_later 0 0)))%string.

(** with WARM_ENI_TARGET 0 the two thresholds overlap: when one free ENI is
    all that is available, the pool is not too low and yet an extra ENI is
    removed, and then the pool is too low and a new ENI is wanted: the manager
    frees and allocates an ENI in turn. *)
Theorem zero_target_oscillates :
  let s := busy_primary in
  let s' := (tryFreeENI s).2 in
  warmENITarget (i_ctx s) = 0 ∧ available (i_ctx s) = 3 ∧
  (nodeIPPoolTooLow s).1 = Ret false ∧ (shouldRemoveExtraENIs s).1 = Ret true ∧
  len (eniIPPools (dataStore (i_ctx s'))) = 1 ∧ available (i_ctx s') = 0 ∧
  (nodeIPPoolTooLow s').1 = Ret true.
Proof. vm_compute. done. Qed.

(** ** Configuration *)

(** [getMaxENI] returns the smaller of the limit of the instance type and
    MAX_ENI, if MAX_ENI is set to a number of at least 1, and else the limit of
    the instance type; the result is always between 1 and that limit. *)
Theorem max_eni_bounds {W} `{!World W} `{!AwsAPIs W} `{!Requests W} `{!Quiet W} (env : Environ)
    (s : IpamSt W) n w' :
  GetENILimit (i_world s) = (Some (n, None), w') → 1 ≤ n →
  ∃ m, getMaxENI s = (Ret (m, None), i_set_world w' s) ∧ 1 ≤ m ≤ n ∧
    match LookupEnv envMaxENI ≫= Atoi with
    | Some v => m = if decide (1 ≤ v) then Z.min v n else n
    | None => m = n
    end.
Proof.
  intros Hlim Hn. exists (limitMaxENI n). split.
  - unfold getMaxENI, ask, world, zoom, call. unfold mbind, M_bind. rewrite serve_quiet.
    by rewrite Hlim.
  - unfold limitMaxENI, defaultMaxENI. destruct (LookupEnv envMaxENI) as [str|]; simpl; [|lia].
    destruct (Atoi str) as [v|]; [|simpl; lia].
    repeat case_bool_decide; repeat case_decide; simpl; lia.
Qed.

Lemma max_eni_bounds_witness :
  ∃ m, getMaxENI (env:=test_env) (mkIpamSt (test_ctx 2 1) ∅ (test_node (busy:=false))) =
    (Ret (m, None), mkIpamSt (test_ctx 2 1) ∅ test_node) ∧ 1 ≤ m ≤ 3.
Proof.
  destruct (max_eni_bounds test_env (mkIpamSt (test_ctx 2 1) ∅ (test_node (busy:=false))) 3
    test_node) as (m & H1 & H2 & _); [reflexivity|lia|].
  exists m. split; [exact H1|exact H2].
Defined.

(** the warm pool targets are never negative: a target is the value of its
    variable if that is a number that is not negative, and else the default (1
    for WARM_ENI_TARGET, none for WARM_IP_TARGET). *)
Theorem warm_targets_parse (env : Environ) :
  getWarmENITarget = (match LookupEnv envWarmENITarget ≫= Atoi with
                      | Some v => if decide (0 ≤ v) then v else 1
                      | None => 1
                      end) ∧
  getWarmIPTarget = (match LookupEnv envWarmIPTarget ≫= Atoi with
                     | Some v => if decide (0 ≤ v) then v else 0
                     | None => 0
                     end) ∧
  0 ≤ getWarmENITarget < 2 ^ 63 ∧ 0 ≤ getWarmIPTarget < 2 ^ 63.
Proof.
  unfold getWarmENITarget, getWarmIPTarget, defaultWarmENITarget, noWarmIPTarget.
  assert (∀ str v, Atoi str = Some v → v < 2 ^ 63) as Hr.
  { intros str v Hv. apply ParseInt_range in Hv. exact (proj2 Hv). }
  destruct (LookupEnv envWarmENITarget) as [s1|], (LookupEnv envWarmIPTarget) as [s2|]; simpl.
  all: try (destruct (Atoi s1) as [v1|] eqn:H1; [apply Hr in H1|]).
  all: try (destruct (Atoi s2) as [v2|] eqn:H2; [apply Hr in H2|]).
  all: repeat case_bool_decide; repeat case_decide; split_and!; lia.
Qed.

(** ** Restart *)

Section restart.
Context {W : Type} `{!World W} `{!WorldOk W}.
Context `{!AwsAPIs W, !NetworkAPIs W, !K8SAPIs W, !ENIConfigAPI W, !Requests W} `{!Quiet W}.
Context `{!ServiceClock W}.

(** A pod of the list that the loop does not skip: it has a container and an
    address. *)
Definition running (l : list K8SPodInfo) (pod : K8SPodInfo) : Prop :=
  pod ∈ l ∧ Container pod ≠ ""%string ∧ PodIP pod ≠ ""%string.

(** No two pods with a container report the same address. *)
Definition one_pod_each (l : list K8SPodInfo) : Prop :=
  ∀ p q, running l p → running l q → PodIP p = PodIP q → podKey p = podKey q.

(** What is recovered after the pods [dn] of the list. *)
Definition recovered (own : string → string) (ds0 : DataStore) (dn : list K8SPodInfo) (s : IpamSt W) : Prop :=
  let ds := dataStore (i_ctx s) in
  ds_wf ds ∧
  (∀ id ip, is_Some (addr_of ds0 id ip) → is_Some (addr_of ds id ip)) ∧
  (∀ k i, podsIP ds !! k = Some i → ∃ pod, running dn pod ∧ podKey pod = k ∧ PodIP pod = IP i) ∧
  (∀ pod, running dn pod →
     (∃ id, is_Some (addr_of ds0 id (PodIP pod))) → ∃ i, podsIP ds !! podKey pod = Some i ∧ IP i = PodIP pod) ∧
  (one_pod_each dn → sound own s).

Lemma running_app dn pod q : running dn q → running (dn ++ [pod]) q.
Proof. unfold running. set_solver. Qed.

Lemma one_pod_each_app dn pod : one_pod_each (dn ++ [pod]) → one_pod_each dn.
Proof. intros H p q ??. apply H; by apply running_app. Qed.

Lemma assign_named_recovers pod now ds p r ds' p' :
  ds_wf ds → PodIP pod ≠ ""%string →
  (∀ i, podsIP ds !! podKey pod = Some i → IP i = PodIP pod) →
  assign_outcome pod now (ds, p) r (ds', p') →
  (∀ id ip, is_Some (addr_of ds id ip) → is_Some (addr_of ds' id ip)) ∧
  (∀ k i, podsIP ds' !! k = Some i → podsIP ds !! k = Some i ∨ (k = podKey pod ∧ IP i = PodIP pod)) ∧
  (∀ k i, podsIP ds !! k = Some i → podsIP ds' !! k = Some i) ∧
  ((∃ id, is_Some (addr_of ds id (PodIP pod))) → ∃ i, podsIP ds' !! podKey pod = Some i ∧ IP i = PodIP pod).
Proof.
  intros Hwf Hne Hown Ho.
  inversion Ho as [? ? i Hp Hi|? ? i Hp Hn|? ? id e ip a Hp He Ha Hsk Hel Has
                  |? ? id e ip a Hp He Ha Hsk Hel Has|? ? Hp Hno]; subst.
  - split_and!; eauto.
  - exfalso. apply Hn. split; [by apply Hown|done].
  - assert (Address a = PodIP pod) as Hpa by (destruct Hel as [?|(? & _)]; congruence).
    split_and!; simpl.
    + intros j q [b (e' & He' & Hb)%addr_of_Some]. unfold addr_of; simpl. destruct (decide (j = id)) as [->|].
      * simplify_eq. rewrite lookup_insert_eq. simpl. apply lookup_insert_is_Some'. eauto.
      * rewrite lookup_insert_ne, He' by done. simpl. eauto.
    + intros k i [[<- <-]|[_ ?]]%lookup_insert_Some; [by right|by left].
    + intros k i Hk. rewrite lookup_insert_ne; [done|]. congruence.
    + intros _. eexists. rewrite lookup_insert_eq. done.
  - split_and!; simpl.
    + done.
    + intros k i [[<- <-]|[_ ?]]%lookup_insert_Some; [by right|by left].
    + intros k i Hk. rewrite lookup_insert_ne; [done|]. congruence.
    + intros _. eexists. rewrite lookup_insert_eq. done.
  - split_and!; [done|by left|done|]. intros (id & a & (e & He & Ha)%addr_of_Some).
    exfalso. destruct (Hno _ _ _ _ He Ha) as [[? _]|Hel]; [done|]. apply Hel. left.
    by rewrite (proj2 (proj2 (proj1 Hwf _ _ He)) _ _ Ha).
Qed.

(** One pod of the recovery loop. *)
Lemma recovered_assign own ds0 dn pod c p w r ds' p' p2 w' now :
  recovered own ds0 dn (mkIpamSt c p w) → Container pod ≠ ""%string → PodIP pod ≠ ""%string →
  (∀ q, running dn q → podKey q = podKey pod → PodIP q = PodIP pod) →
  assign_outcome pod now (dataStore c, p) r (ds', p') →
  recovered own ds0 (dn ++ [pod]) (mkIpamSt (set_dataStore ds' c) p2 w').
Proof.
  intros (Hwf & Hk & Hfrom & Hrec & Hs) Hc Hne Hkey Ho. simpl in Hwf, Hk, Hfrom, Hrec.
  assert (running (dn ++ [pod]) pod) as Hpod by (unfold running; set_solver).
  assert (∃ x, ds_outcome (CAssign pod) now 0 (dataStore c, p) x (ds', p')) as [x Hx].
  { destruct r as [[ip dev] err]. eexists. exists ip, dev, err. split; [done|exact Ho]. }
  assert (∀ i, podsIP (dataStore c) !! podKey pod = Some i → IP i = PodIP pod) as Hpre.
  { intros i (q & Hq & Hqk & <-)%Hfrom. by apply Hkey. }
  destruct (assign_named_recovers pod _ _ _ _ _ _ Hwf Hne Hpre Ho) as (Hk2 & Hnew & Hold & Hgot).
  split_and!; simpl; [by eapply ds_outcome_wf|by eauto| | |].
  - intros k i [(q & ? & ?)%Hfrom|[-> ?]]%Hnew; [exists q|exists pod]; eauto using running_app.
  - intros q (Hq & Hqc & Hqp) (id & Hqa). apply elem_of_app in Hq as [Hq|Hq].
    + destruct (Hrec q) as (i & ? & ?); [done|eauto..].
    + apply list_elem_of_singleton in Hq. subst q. apply Hgot. eauto.
  - intros Heach. eapply (good_outcome own (CAssign pod)); [exact Hx|by eapply Hs, one_pod_each_app|right].
    intros k i (q & Hq & <- & Hqi)%Hfrom Heq. apply Heach; [by apply running_app|done|congruence].
Qed.

Lemma recovered_skip own ds0 dn pod c p w p' w' :
  recovered own ds0 dn (mkIpamSt c p w) → Container pod = ""%string ∨ PodIP pod = ""%string →
  recovered own ds0 (dn ++ [pod]) (mkIpamSt c p' w').
Proof.
  intros (Hwf & Hk & Hfrom & Hrec & Hs) Hsk. split_and!; [done..| | |].
  - intros k i (q & ? & ?)%Hfrom. exists q. eauto using running_app.
  - intros q (Hq & Hqc & Hqp). apply elem_of_app in Hq as [?|Hq]; [by apply Hrec|].
    apply list_elem_of_singleton in Hq. subst. naive_solver.
  - intros Heach. by eapply Hs, one_pod_each_app.
Qed.

Lemma nodeInit_pod_spec own ds0 dn rules pod s :
  recovered own ds0 dn s →
  (running (dn ++ [pod]) pod → ∀ q, running dn q → podKey q = podKey pod → PodIP q = PodIP pod) →
  wp (crash (W:=W)) (nodeInit_pod rules pod) (λ _ s', recovered own ds0 (dn ++ [pod]) s') s.
Proof.
  destruct s as [c p w]. intros Hr Hkey. unfold nodeInit_pod.
  case_bool_decide as Hc; [wp_steps; eapply recovered_skip; eauto|].
  case_bool_decide as Hne; [wp_steps; eapply recovered_skip; eauto|].
  apply wp_bind, wp_store, (wp_weaken False); [done|].
  eapply wp_mono; [apply AssignPodIPv4Address_outcome|].
  intros [[ip dev] err] [ds2 p2 w2] Ho. unfold dp in Ho. simpl in Ho |- *.
  apply wp_bind. eapply (wp_mono _ _ (λ _ s', i_ctx s' = set_dataStore ds2 c));
    [destruct err; by wp_steps|]. intros [] [c3 p3 w3] Hc3. simpl in Hc3. subst c3.
  do 3 (apply wp_bind, wp_service; [constructor|]; intros ? ? _ _). wp_steps.
  eapply recovered_assign; [exact Hr|done|done| |exact Ho]. apply Hkey. unfold running. set_solver.
Qed.

(** C16: a restart does not lose pods: started on a sound store without pods, and
    with no request served meanwhile ([Quiet]), the recovery loop of [nodeInit]
    records every listed pod that has a container and an address of the pool
    with that address; pods without container or address, however many, are
    skipped.  All it needs of the list is that entries for the same container agree
    on its address; if moreover no two pods with a container report the same
    address, the store stays sound (no two pods share one). *)
Theorem init_recovers_pods own rules pods (s : IpamSt W) :
  sound own s → podsIP (dataStore (i_ctx s)) = ∅ →
  (∀ p q, running pods p → running pods q → podKey p = podKey q → PodIP p = PodIP q) →
  wp (crash (W:=W)) (for_loop (nodeInit_pod rules) pods)
    (λ _ s', (one_pod_each pods → sound own s') ∧
       ∀ pod id a, running pods pod → addr_of (dataStore (i_ctx s)) id (PodIP pod) = Some a →
         ∃ i, podsIP (dataStore (i_ctx s')) !! podKey pod = Some i ∧ IP i = PodIP pod) s.
Proof.
  intros Hs Hempty Hkey.
  apply (wp_for_loop _ _ _ (λ dn s', recovered own (dataStore (i_ctx s)) dn s')).
  - split_and!; try done.
    + by eapply good_wf.
    + intros k i. by rewrite Hempty, lookup_empty.
    + intros pod [Hpod _]. by apply elem_of_nil in Hpod.
  - intros dn pod rest s' Hl Hr. apply nodeInit_pod_spec; [done|].
    intros Hp q Hq. apply Hkey; subst; unfold running in *; set_solver.
  - intros s' (_ & _ & _ & Hrec & ?). split; [done|]. intros pod id a ? Ha. apply Hrec; eauto.
Qed.

End restart.

(** A pod, two pods that wait for their container, and a finished pod that still
    reports the address the first one has now. *)
Definition restart_pods : list K8SPodInfo :=
  [mkK8SPodInfo "done" "default" "c0" "2.0.0.3" ""; mkK8SPodInfo "wait1" "default" "" "" "";
   mkK8SPodInfo "wait2" "default" "" "" ""; mkK8SPodInfo "p1" "default" "c1" "2.0.0.3" ""]%string.

Lemma restart_keys p q :
  running restart_pods p → running restart_pods q → podKey p = podKey q → PodIP p = PodIP q.
Proof.
  intros [Hp [Hpc _]] [Hq [Hqc _]]. unfold restart_pods in *.
  rewrite !elem_of_cons, elem_of_nil in Hp, Hq.
  destruct Hp as [->|[->|[->|[->|[]]]]]; try (by destruct Hpc);
    destruct Hq as [->|[->|[->|[->|[]]]]]; try (by destruct Hqc); intros Hk; first [reflexivity|discriminate Hk].
Qed.

Lemma restart_p1 : running restart_pods (mkK8SPodInfo "p1" "default" "c1" "2.0.0.3" "").
Proof. split; [unfold restart_pods; rewrite !elem_of_cons; tauto|done]. Qed.

Lemma init_recovers_pods_witness :
  ∃ i, podsIP (dataStore (i_ctx (for_loop (nodeInit_pod []) restart_pods (quiet_at 2 1)).2))
       !! mkPodKey "p1" "default" "c1" = Some i ∧ IP i = "2.0.0.3"%string.
Proof.
  pose proof (init_recovers_pods n_own [] restart_pods (quiet_at 2 1) (test_at_sound 2 1 test_node)) as H.
  assert (podsIP (dataStore (i_ctx (quiet_at 2 1))) = ∅) as He by (vm_compute; reflexivity).
  specialize (H He restart_keys). destruct (node_run _ _ _ H) as (a & _ & _ & Hrec).
  assert (∃ b, addr_of (dataStore (i_ctx (quiet_at 2 1))) "eni-2" "2.0.0.3" = Some b) as [b Hb]
    by (eexists; vm_compute; reflexivity).
  refine (Hrec (mkK8SPodInfo "p1" "default" "c1" "2.0.0.3" "") "eni-2"%string b restart_p1 Hb).
Defined.
