(* ===== verification/RpcHandler.v ===== *)
(** * The RPC handlers: ipamd/rpc_handler.go and the messages of rpc/rpc.pb.go

    [AddNetwork] and [DelNetwork] serve the CNI plugin's requests out of the data
    store.  They run concurrently with the pool manager; each operation on the
    store is one step, before which other requests may be served. *)
From S2P Require Import Prelude GoStd DataStore DataStoreInv DataStoreSpec DataStoreProps Interfaces Ipamd IpamdInv IpamdQuiet IpamdProps.

Open Scope Z_scope.

(** ** Messages *)

Record AddNetworkRequest := mkAddNetworkRequest {
  add_POD_NAME : string;
  add_POD_NAMESPACE : string;
  add_CONTAINER_ID : string;
  add_Netns : string;
  add_IfName : string;
}.

Record AddNetworkReply := mkAddNetworkReply {
  addr_Success : bool;
  addr_IPv4Addr : string;
  addr_IPv4Subnet : string;
  addr_DeviceNumber : Z;
  addr_UseExternalSNAT : bool;
  addr_VPCcidrs : list string;
}.

Record DelNetworkRequest := mkDelNetworkRequest {
  del_POD_NAME : string;
  del_POD_NAMESPACE : string;
  del_CONTAINER_ID : string;
  del_IPv4Addr : string;
  del_Reason : string;
}.

Record DelNetworkReply := mkDelNetworkReply {
  delr_Success : bool;
  delr_IPv4Addr : string;
  delr_DeviceNumber : Z;
}.

(** ** Handlers *)

Section handlers.
Context {W : Type} `{!World W, !AwsAPIs W, !NetworkAPIs W, !Requests W}.

Abbreviation IM := (M (IpamSt W)).

Definition AddNetwork (req : AddNetworkRequest) : IM AddNetworkReply :=
  '(addr, deviceNumber, err) ←
    store (AssignPodIPv4Address
             (rpc_pod (add_POD_NAME req) (add_POD_NAMESPACE req) (add_CONTAINER_ID req)));
  pbVPCcidrs ← ask GetVPCIPv4CIDRs;
  useExternalSNAT ← ask UseExternalSNAT;
  excluded ← (if useExternalSNAT : bool then mret [] else ask GetExcludeSNATCIDRs);
  prom (prom_add addIPCnt "" 1) ;;
  mret (mkAddNetworkReply (is_nil err) addr "" (int32 deviceNumber) useExternalSNAT
          (pbVPCcidrs ++ excluded)).

Definition DelNetwork (req : DelNetworkRequest) : IM DelNetworkReply :=
  prom (prom_add delIPCnt (del_Reason req) 1) ;;
  r ← store (UnassignPodIPv4Address
               (rpc_pod (del_POD_NAME req) (del_POD_NAMESPACE req) (del_CONTAINER_ID req)));
  '(ip, deviceNumber, err) ←
    (if err_is r.2 ErrUnknownPod then
       store (UnassignPodIPv4Address (rpc_pod (del_POD_NAME req) (del_POD_NAMESPACE req) ""))
     else mret r);
  mret (mkDelNetworkReply (is_nil err) ip (int32 deviceNumber)).

End handlers.

(** ** Theorems *)

Section rpc_theorems.
Context {W : Type} `{!World W} `{!WorldOk W}.
Context `{!AwsAPIs W, !NetworkAPIs W, !K8SAPIs W, !ENIConfigAPI W, !Requests W}.
Context (own : string → string).

Lemma AddNetwork_safe req : safe (W:=W) own (AddNetwork req) (λ _, True).
Proof.
  unfold AddNetwork. eapply safe_bind; [by apply safe_store, dsafe_Assign|].
  intros [[ip dev] err] _. safe_steps.
Qed.

Lemma DelNetwork_safe req : safe (W:=W) own (DelNetwork req) (λ _, True).
Proof. unfold DelNetwork. safe_steps. Qed.

(** the RPC handlers keep the store sound, whatever other requests are
    served between their steps and whatever the services answer, and they always
    reply. *)
Theorem handlers_keep_store_sound add del (s : IpamSt W) :
  sound own s →
  wp (crash (W:=W)) (AddNetwork add) (λ _ s', sound own s') s ∧
  wp (crash (W:=W)) (DelNetwork del) (λ _ s', sound own s') s.
Proof.
  intros Hs. split; (eapply wp_mono; [by apply AddNetwork_safe || by apply DelNetwork_safe|]);
    by intros r s' [? _].
Qed.

End rpc_theorems.

Section rpc_quiet.
Context {W : Type} `{!World W} `{!WorldOk W}.
Context `{!AwsAPIs W, !NetworkAPIs W, !K8SAPIs W, !ENIConfigAPI W, !Requests W} `{!Quiet W}.
Context `{!ServiceClock W} (own : string → string).

(** The pod of a request. *)
Definition add_key (req : AddNetworkRequest) : PodKey :=
  mkPodKey (add_POD_NAME req) (add_POD_NAMESPACE req) (add_CONTAINER_ID req).
Definition del_key (req : DelNetworkRequest) : PodKey :=
  mkPodKey (del_POD_NAME req) (del_POD_NAMESPACE req) (del_CONTAINER_ID req).

Lemma AddNetwork_new req (s : IpamSt W) :
  sound own s → podsIP (dataStore (i_ctx s)) !! add_key req = None →
  wp (crash (W:=W)) (AddNetwork req)
    (λ r s', let ds := dataStore (i_ctx s) in let ds' := dataStore (i_ctx s') in
       (addr_Success r = true ↔ ∃ id ip, available_at (clock (i_world s)) ds id ip) ∧
       (addr_Success r = true → ∃ id dev,
          available_at (clock (i_world s)) ds id (addr_IPv4Addr r) ∧ dev_of ds id = Some dev ∧
          addr_DeviceNumber r = int32 dev ∧
          podsIP ds' = <[add_key req := mkPodIPInfo (addr_IPv4Addr r) dev]> (podsIP ds)) ∧
       (addr_Success r = false → addr_IPv4Addr r = ""%string ∧ ds' = ds)) s.
Proof.
  destruct s as [c p w]. intros [[sp HR] _] Hnew; simpl in *. unfold AddNetwork.
  set (pod := rpc_pod _ _ _). apply wp_bind, wp_store, (wp_weaken False); [done|].
  eapply wp_mono.
  { apply wp_and; [apply (assign_new pod)|apply AssignPodIPv4Address_outcome];
      [apply HR|by eapply refines_no_empty|done|done]. }
  intros [[ip dev] err] [ds1 p1 w1] [Hr Ho]. simpl in Hr |- *. unfold dp in Ho. simpl in Ho.
  apply wp_bind, wp_service; [constructor|]. intros cidrs w2 _ _.
  apply wp_bind, wp_service; [constructor|]. intros snat w3 _ _. apply wp_bind.
  eapply (wp_mono _ _ (λ _ s', i_ctx s' = set_dataStore ds1 c)).
  { destruct snat; [by wp_steps|]. apply wp_service; [constructor|]. done. }
  intros excl [c4 p4 w4] Hc4. simpl in Hc4. subst c4. wp_steps. simpl. destruct err as [e|]; simpl.
  - destruct Hr as [-> Hno]. split_and!; [split; [done|]|done|].
    + intros (id & q & ?). by destruct (Hno id q).
    + intros _. split; [|done]. inversion Ho; by subst.
  - destruct Hr as (id & e & a & He & Ha & Has & Haddr & Hcool & Hd & ->).
    assert (available_at (clock w) (dataStore c) id ip) as Hav.
    { exists a. split; [apply addr_of_Some; eauto|done]. }
    split; [split; [by eauto|done]|]. split; [|done]. intros _. exists id, dev. split_and!; try done.
    unfold dev_of. rewrite He. simpl. congruence.
Qed.

(** [AddNetwork] for a new pod succeeds exactly when an address is available;
    the reply then names an available address and the device number of its ENI,
    and the pod is recorded with them; a failed reply names no address and
    leaves the store alone. *)
Theorem add_network_reply req (s : IpamSt W) :
  sound own s → podsIP (dataStore (i_ctx s)) !! add_key req = None →
  wp (crash (W:=W)) (AddNetwork req)
    (λ r s', let ds := dataStore (i_ctx s) in let ds' := dataStore (i_ctx s') in
       (addr_Success r = true ↔ ∃ id ip, available_at (clock (i_world s)) ds id ip) ∧
       (addr_Success r = true → ∃ id dev,
          available_at (clock (i_world s)) ds id (addr_IPv4Addr r) ∧ dev_of ds id = Some dev ∧
          addr_DeviceNumber r = int32 dev ∧
          podsIP ds' = <[add_key req := mkPodIPInfo (addr_IPv4Addr r) dev]> (podsIP ds)) ∧
       (addr_Success r = false → addr_IPv4Addr r = ""%string ∧ ds' = ds)) s.
Proof. apply AddNetwork_new. Qed.

Lemma DelNetwork_known req i (s : IpamSt W) :
  sound own s → podsIP (dataStore (i_ctx s)) !! del_key req = Some i →
  wp (crash (W:=W)) (DelNetwork req)
    (λ r s', r = mkDelNetworkReply true (IP i) (int32 (pi_DeviceNumber i)) ∧
       podsIP (dataStore (i_ctx s')) = delete (del_key req) (podsIP (dataStore (i_ctx s)))) s.
Proof.
  destruct s as [c p w]. intros [[sp HR] _] Hpod; simpl in *. unfold DelNetwork. wp_step. wp_step.
  set (pod := rpc_pod _ _ (del_CONTAINER_ID req)). apply wp_bind, wp_store.
  destruct (unassign_frees pod (mkDSt (dataStore c) (prom_add delIPCnt (del_Reason req) 1 p) w) sp HR)
    as (ip & dev & err & s' & Hex & Hr).
  unfold wp. rewrite Hex. change (podKey pod) with (del_key req) in Hr. simpl in Hr. rewrite Hpod in Hr.
  destruct Hr as (-> & -> & -> & Hp & _). simpl. done.
Qed.

(** [DelNetwork] releases what [AddNetwork] gave: for a pod recorded with an
    address, the reply is a success with that address and its device number, the
    pod is no longer recorded and no other pod's record changes. *)
Theorem del_network_releases req i (s : IpamSt W) :
  sound own s → podsIP (dataStore (i_ctx s)) !! del_key req = Some i →
  wp (crash (W:=W)) (DelNetwork req)
    (λ r s', r = mkDelNetworkReply true (IP i) (int32 (pi_DeviceNumber i)) ∧
       podsIP (dataStore (i_ctx s')) = delete (del_key req) (podsIP (dataStore (i_ctx s)))) s.
Proof. apply DelNetwork_known. Qed.

(** a pod recorded without its container is found by the second try: when
    the pod with the container is unknown and the same pod without a container
    is recorded, [DelNetwork] releases that record; when neither is known the
    reply is not a success and the store is unchanged. *)
Theorem del_network_fallback req (s : IpamSt W) :
  sound own s → podsIP (dataStore (i_ctx s)) !! del_key req = None →
  let k := mkPodKey (del_POD_NAME req) (del_POD_NAMESPACE req) "" in
  wp (crash (W:=W)) (DelNetwork req)
    (λ r s', match podsIP (dataStore (i_ctx s)) !! k with
       | Some i => r = mkDelNetworkReply true (IP i) (int32 (pi_DeviceNumber i)) ∧
           podsIP (dataStore (i_ctx s')) = delete k (podsIP (dataStore (i_ctx s)))
       | None => delr_Success r = false ∧ dataStore (i_ctx s') = dataStore (i_ctx s)
       end) s.
Proof.
  destruct s as [c p w]. intros [[sp HR] _] Hpod; simpl in *. unfold DelNetwork. wp_step. wp_step.
  set (pod := rpc_pod _ _ (del_CONTAINER_ID req)). apply wp_bind, wp_store.
  destruct (unassign_frees pod (mkDSt (dataStore c) (prom_add delIPCnt (del_Reason req) 1 p) w) sp HR)
    as (ip & dev & err & s' & Hex & Hr).
  unfold wp at 1. rewrite Hex. change (podKey pod) with (del_key req) in Hr. simpl in Hr. rewrite Hpod in Hr.
  destruct Hr as [-> Hds]. cbn [snd err_is]. rewrite bool_decide_eq_true_2 by done.
  destruct s' as [ds1 p1 w1]. simpl in Hds. subst ds1. cbn [d_ds d_prom d_world].
  set (pod' := rpc_pod _ _ ""). apply wp_bind, wp_store. cbn [dataStore set_dataStore].
  destruct (unassign_frees pod' (mkDSt (dataStore c) p1 w1) sp HR)
    as (ip2 & dev2 & err2 & s2 & Hex2 & Hr2).
  unfold wp. rewrite Hex2. change (podKey pod') with (mkPodKey (del_POD_NAME req) (del_POD_NAMESPACE req) "") in Hr2.
  simpl in Hr2. destruct (podsIP (dataStore c) !! mkPodKey (del_POD_NAME req) (del_POD_NAMESPACE req) "") as [i|].
  - destruct Hr2 as (-> & -> & -> & Hp & _). done.
  - destruct Hr2 as [-> Hds2]. simpl. by rewrite Hds2.
Qed.

End rpc_quiet.

(** *** Witnesses *)

Definition test_add : AddNetworkRequest := mkAddNetworkRequest "p1" "default" "c1" "/proc/1/ns/net" "eth0".
Definition test_del (c : string) : DelNetworkRequest := mkDelNetworkRequest "p1" "default" c "" "".

Lemma handlers_keep_store_sound_witness :
  wp (crash (W:=Node true)) (AddNetwork test_add) (λ _ s', sound n_own s') test_start ∧
  wp (crash (W:=Node true)) (DelNetwork (test_del "c1")) (λ _ s', sound n_own s') test_start.
Proof.
  exact (handlers_keep_store_sound n_own test_add (test_del "c1") test_start
           (test_at_sound 2 1 _)).
Defined.

Lemma add_network_reply_witness :
  ∃ r, AddNetwork test_add (quiet_at 2 1) = (Ret r, (AddNetwork test_add (quiet_at 2 1)).2) ∧
    (addr_Success r = true ↔
     ∃ id ip, available_at (clock (i_world (quiet_at 2 1))) (dataStore (i_ctx (quiet_at 2 1))) id ip).
Proof.
  pose proof (add_network_reply n_own test_add (quiet_at 2 1) (test_at_sound 2 1 test_node)) as H.
  specialize (H ltac:(vm_compute; reflexivity)).
  destruct (node_run _ _ _ H) as (r & Hrun & Hr & _). exists r. split; [exact Hrun|exact Hr].
Defined.

(** The node after the request was served. *)
Definition added : IpamSt (Node false) := (AddNetwork test_add (quiet_at 2 1)).2.

Lemma added_sound : sound n_own added.
Proof.
  destruct (node_run _ _ _ (AddNetwork_safe (W:=Node false) n_own test_add (quiet_at 2 1)
    (test_at_sound 2 1 test_node))) as (r & _ & H & _). exact H.
Qed.

Lemma del_network_releases_witness :
  ∃ i, podsIP (dataStore (i_ctx added)) !! del_key (test_del "c1") = Some i ∧
    (DelNetwork (test_del "c1") added).1 = Ret (mkDelNetworkReply true (IP i) (int32 (pi_DeviceNumber i))).
Proof.
  destruct (podsIP (dataStore (i_ctx added)) !! del_key (test_del "c1")) as [i|] eqn:Hi.
  - exists i. split; [reflexivity|].
    destruct (node_run _ _ _ (del_network_releases n_own (test_del "c1") i added added_sound Hi))
      as (r & Hrun & -> & _). rewrite Hrun. reflexivity.
  - exfalso. revert Hi. vm_compute. discriminate.
Defined.

Lemma del_network_fallback_witness :
  ∃ r, (DelNetwork (test_del "c2") added).1 = Ret r ∧ delr_Success r = false.
Proof.
  assert (podsIP (dataStore (i_ctx added)) !! del_key (test_del "c2") = None) as Hn by (vm_compute; reflexivity).
  destruct (node_run _ _ _ (del_network_fallback n_own (test_del "c2") added added_sound Hn)) as (r & Hrun & Hr).
  assert (podsIP (dataStore (i_ctx added)) !! mkPodKey "p1" "default" "" = None) as Hk by (vm_compute; reflexivity).
  exists r. rewrite Hrun. split; [reflexivity|]. cbn [del_POD_NAME del_POD_NAMESPACE test_del] in Hr.
  rewrite Hk in Hr. exact (proj1 Hr).
Defined.
