(* ===== verification/AwsLimits.v ===== *)
(** * Limits of the instance types: pkg/awsutils/vpc_ip_resource_limit.go

    The two tables of the source, each in two parts. *)
From S2P Require Import Prelude GoStd.

Open Scope Z_scope.

(** [InstanceENIsAvailable], the types up to the first half. *)
Definition InstanceENIsAvailable_a : list (string * Z) := [
  ("a1.medium"%string, 2); ("a1.large"%string, 3); ("a1.xlarge"%string, 4);
  ("a1.2xlarge"%string, 4); ("a1.4xlarge"%string, 8); ("c1.medium"%string, 2);
  ("c1.xlarge"%string, 4); ("c3.large"%string, 3); ("c3.xlarge"%string, 4);
  ("c3.2xlarge"%string, 4); ("c3.4xlarge"%string, 8); ("c3.8xlarge"%string, 8);
  ("c4.large"%string, 3); ("c4.xlarge"%string, 4); ("c4.2xlarge"%string, 4);
  ("c4.4xlarge"%string, 8); ("c4.8xlarge"%string, 8); ("c5.large"%string, 3);
  ("c5.xlarge"%string, 4); ("c5.2xlarge"%string, 4); ("c5.4xlarge"%string, 8);
  ("c5.9xlarge"%string, 8); ("c5.12xlarge"%string, 8); ("c5.18xlarge"%string, 15);
  ("c5.24xlarge"%string, 15); ("c5.metal"%string, 15); ("c5d.large"%string, 3);
  ("c5d.xlarge"%string, 4); ("c5d.2xlarge"%string, 4); ("c5d.4xlarge"%string, 8);
  ("c5d.9xlarge"%string, 8); ("c5d.18xlarge"%string, 15); ("c5n.large"%string, 3);
  ("c5n.xlarge"%string, 4); ("c5n.2xlarge"%string, 4); ("c5n.4xlarge"%string, 8);
  ("c5n.9xlarge"%string, 8); ("c5n.18xlarge"%string, 15); ("cc2.8xlarge"%string, 8);
  ("cr1.8xlarge"%string, 8); ("d2.xlarge"%string, 4); ("d2.2xlarge"%string, 4);
  ("d2.4xlarge"%string, 8); ("d2.8xlarge"%string, 8); ("f1.2xlarge"%string, 4);
  ("f1.4xlarge"%string, 8); ("f1.16xlarge"%string, 8); ("g2.2xlarge"%string, 4);
  ("g2.8xlarge"%string, 8); ("g3s.xlarge"%string, 4); ("g3.4xlarge"%string, 8);
  ("g3.8xlarge"%string, 8); ("g3.16xlarge"%string, 15); ("h1.2xlarge"%string, 4);
  ("h1.4xlarge"%string, 8); ("h1.8xlarge"%string, 8); ("h1.16xlarge"%string, 15);
  ("hs1.8xlarge"%string, 8); ("i2.xlarge"%string, 4); ("i2.2xlarge"%string, 4);
  ("i2.4xlarge"%string, 8); ("i2.8xlarge"%string, 8); ("i3.large"%string, 3);
  ("i3.xlarge"%string, 4); ("i3.2xlarge"%string, 4); ("i3.4xlarge"%string, 8);
  ("i3.8xlarge"%string, 8); ("i3.16xlarge"%string, 15); ("i3.metal"%string, 15);
  ("i3en.large"%string, 3); ("i3en.xlarge"%string, 4); ("i3en.2xlarge"%string, 4);
  ("i3en.3xlarge"%string, 4); ("i3en.6xlarge"%string, 8); ("i3en.12xlarge"%string, 8);
  ("i3en.24xlarge"%string, 15); ("m1.small"%string, 2); ("m1.medium"%string, 2);
  ("m1.large"%string, 3); ("m1.xlarge"%string, 4); ("m2.xlarge"%string, 4);
  ("m2.2xlarge"%string, 4); ("m2.4xlarge"%string, 8); ("m3.medium"%string, 2);
  ("m3.large"%string, 3); ("m3.xlarge"%string, 4); ("m3.2xlarge"%string, 4);
  ("m4.large"%string, 2); ("m4.xlarge"%string, 4); ("m4.2xlarge"%string, 4);
  ("m4.4xlarge"%string, 8); ("m4.10xlarge"%string, 8); ("m4.16xlarge"%string, 8);
  ("m5.large"%string, 3); ("m5.xlarge"%string, 4); ("m5.2xlarge"%string, 4);
  ("m5.4xlarge"%string, 8); ("m5.8xlarge"%string, 8); ("m5.12xlarge"%string, 8);
  ("m5.16xlarge"%string, 15); ("m5.24xlarge"%string, 15); ("m5.metal"%string, 15);
  ("m5a.large"%string, 3); ("m5a.xlarge"%string, 4); ("m5a.2xlarge"%string, 4);
  ("m5a.4xlarge"%string, 8); ("m5a.8xlarge"%string, 8); ("m5a.12xlarge"%string, 8)].

(** [InstanceENIsAvailable], the rest. *)
Definition InstanceENIsAvailable_b : list (string * Z) := [
  ("m5a.16xlarge"%string, 15); ("m5a.24xlarge"%string, 15); ("m5ad.large"%string, 3);
  ("m5ad.xlarge"%string, 4); ("m5ad.2xlarge"%string, 4); ("m5ad.4xlarge"%string, 8);
  ("m5ad.12xlarge"%string, 8); ("m5ad.24xlarge"%string, 15); ("m5d.large"%string, 3);
  ("m5d.xlarge"%string, 4); ("m5d.2xlarge"%string, 4); ("m5d.4xlarge"%string, 8);
  ("m5d.8xlarge"%string, 8); ("m5d.12xlarge"%string, 8); ("m5d.16xlarge"%string, 15);
  ("m5d.24xlarge"%string, 15); ("m5d.metal"%string, 15); ("p2.xlarge"%string, 4);
  ("p2.8xlarge"%string, 8); ("p2.16xlarge"%string, 8); ("p3.2xlarge"%string, 4);
  ("p3.8xlarge"%string, 8); ("p3.16xlarge"%string, 8); ("p3dn.24xlarge"%string, 15);
  ("r3.large"%string, 3); ("r3.xlarge"%string, 4); ("r3.2xlarge"%string, 4);
  ("r3.4xlarge"%string, 8); ("r3.8xlarge"%string, 8); ("r4.large"%string, 3);
  ("r4.xlarge"%string, 4); ("r4.2xlarge"%string, 4); ("r4.4xlarge"%string, 8);
  ("r4.8xlarge"%string, 8); ("r4.16xlarge"%string, 15); ("r5.large"%string, 3);
  ("r5.xlarge"%string, 4); ("r5.2xlarge"%string, 4); ("r5.4xlarge"%string, 8);
  ("r5.8xlarge"%string, 8); ("r5.12xlarge"%string, 8); ("r5.16xlarge"%string, 15);
  ("r5.24xlarge"%string, 15); ("r5.metal"%string, 15); ("r5a.large"%string, 3);
  ("r5a.xlarge"%string, 4); ("r5a.2xlarge"%string, 4); ("r5a.4xlarge"%string, 8);
  ("r5a.8xlarge"%string, 8); ("r5a.12xlarge"%string, 8); ("r5a.16xlarge"%string, 15);
  ("r5a.24xlarge"%string, 15); ("r5ad.large"%string, 3); ("r5ad.xlarge"%string, 4);
  ("r5ad.2xlarge"%string, 4); ("r5ad.4xlarge"%string, 8); ("r5ad.12xlarge"%string, 8);
  ("r5ad.24xlarge"%string, 15); ("r5d.large"%string, 3); ("r5d.xlarge"%string, 4);
  ("r5d.2xlarge"%string, 4); ("r5d.4xlarge"%string, 8); ("r5d.8xlarge"%string, 8);
  ("r5d.12xlarge"%string, 8); ("r5d.16xlarge"%string, 15); ("r5d.24xlarge"%string, 15);
  ("r5d.metal"%string, 15); ("t1.micro"%string, 2); ("t2.nano"%string, 2); ("t2.micro"%string, 2);
  ("t2.small"%string, 3); ("t2.medium"%string, 3); ("t2.large"%string, 3); ("t2.xlarge"%string, 3);
  ("t2.2xlarge"%string, 3); ("t3.nano"%string, 2); ("t3.micro"%string, 2); ("t3.small"%string, 3);
  ("t3.medium"%string, 3); ("t3.large"%string, 3); ("t3.xlarge"%string, 4);
  ("t3.2xlarge"%string, 4); ("t3a.nano"%string, 2); ("t3a.micro"%string, 2);
  ("t3a.small"%string, 2); ("t3a.medium"%string, 3); ("t3a.large"%string, 3);
  ("t3a.xlarge"%string, 4); ("t3a.2xlarge"%string, 4); ("u-6tb1.metal"%string, 5);
  ("u-9tb1.metal"%string, 5); ("u-12tb1.metal"%string, 5); ("x1.16xlarge"%string, 8);
  ("x1.32xlarge"%string, 8); ("x1e.xlarge"%string, 3); ("x1e.2xlarge"%string, 4);
  ("x1e.4xlarge"%string, 4); ("x1e.8xlarge"%string, 4); ("x1e.16xlarge"%string, 8);
  ("x1e.32xlarge"%string, 8); ("z1d.large"%string, 3); ("z1d.xlarge"%string, 4);
  ("z1d.2xlarge"%string, 4); ("z1d.3xlarge"%string, 8); ("z1d.6xlarge"%string, 8);
  ("z1d.12xlarge"%string, 15); ("z1d.metal"%string, 15)].

(** [InstanceIPsAvailable], the types up to the first half. *)
Definition InstanceIPsAvailable_a : list (string * Z) := [
  ("a1.medium"%string, 4); ("a1.large"%string, 10); ("a1.xlarge"%string, 15);
  ("a1.2xlarge"%string, 15); ("a1.4xlarge"%string, 30); ("c1.medium"%string, 6);
  ("c1.xlarge"%string, 15); ("c3.large"%string, 10); ("c3.xlarge"%string, 15);
  ("c3.2xlarge"%string, 15); ("c3.4xlarge"%string, 30); ("c3.8xlarge"%string, 30);
  ("c4.large"%string, 10); ("c4.xlarge"%string, 15); ("c4.2xlarge"%string, 15);
  ("c4.4xlarge"%string, 30); ("c4.8xlarge"%string, 30); ("c5.large"%string, 10);
  ("c5.xlarge"%string, 15); ("c5.2xlarge"%string, 15); ("c5.4xlarge"%string, 30);
  ("c5.9xlarge"%string, 30); ("c5.12xlarge"%string, 30); ("c5.18xlarge"%string, 50);
  ("c5.24xlarge"%string, 50); ("c5.metal"%string, 50); ("c5d.large"%string, 10);
  ("c5d.xlarge"%string, 15); ("c5d.2xlarge"%string, 15); ("c5d.4xlarge"%string, 30);
  ("c5d.9xlarge"%string, 30); ("c5d.18xlarge"%string, 31); ("c5n.large"%string, 10);
  ("c5n.xlarge"%string, 15); ("c5n.2xlarge"%string, 15); ("c5n.4xlarge"%string, 30);
  ("c5n.9xlarge"%string, 30); ("c5n.18xlarge"%string, 50); ("cc2.8xlarge"%string, 30);
  ("cr1.8xlarge"%string, 30); ("d2.xlarge"%string, 15); ("d2.2xlarge"%string, 15);
  ("d2.4xlarge"%string, 30); ("d2.8xlarge"%string, 30); ("f1.2xlarge"%string, 15);
  ("f1.4xlarge"%string, 30); ("f1.16xlarge"%string, 31); ("g2.2xlarge"%string, 15);
  ("g2.8xlarge"%string, 30); ("g3s.xlarge"%string, 15); ("g3.4xlarge"%string, 30);
  ("g3.8xlarge"%string, 30); ("g3.16xlarge"%string, 31); ("h1.2xlarge"%string, 15);
  ("h1.4xlarge"%string, 30); ("h1.8xlarge"%string, 30); ("h1.16xlarge"%string, 31);
  ("hs1.8xlarge"%string, 30); ("i2.xlarge"%string, 15); ("i2.2xlarge"%string, 15);
  ("i2.4xlarge"%string, 30); ("i2.8xlarge"%string, 30); ("i3.large"%string, 10);
  ("i3.xlarge"%string, 15); ("i3.2xlarge"%string, 15); ("i3.4xlarge"%string, 30);
  ("i3.8xlarge"%string, 30); ("i3.16xlarge"%string, 31); ("i3.metal"%string, 50);
  ("i3en.large"%string, 10); ("i3en.xlarge"%string, 15); ("i3en.2xlarge"%string, 15);
  ("i3en.3xlarge"%string, 15); ("i3en.6xlarge"%string, 30); ("i3en.12xlarge"%string, 30);
  ("i3en.24xlarge"%string, 50); ("m1.small"%string, 4); ("m1.medium"%string, 6);
  ("m1.large"%string, 10); ("m1.xlarge"%string, 15); ("m2.xlarge"%string, 15);
  ("m2.2xlarge"%string, 30); ("m2.4xlarge"%string, 30); ("m3.medium"%string, 6);
  ("m3.large"%string, 10); ("m3.xlarge"%string, 15); ("m3.2xlarge"%string, 30);
  ("m4.large"%string, 10); ("m4.xlarge"%string, 15); ("m4.2xlarge"%string, 15);
  ("m4.4xlarge"%string, 30); ("m4.10xlarge"%string, 30); ("m4.16xlarge"%string, 30);
  ("m5.large"%string, 10); ("m5.xlarge"%string, 15); ("m5.2xlarge"%string, 15);
  ("m5.4xlarge"%string, 30); ("m5.8xlarge"%string, 30); ("m5.12xlarge"%string, 30);
  ("m5.16xlarge"%string, 50); ("m5.24xlarge"%string, 50); ("m5.metal"%string, 50);
  ("m5a.large"%string, 10); ("m5a.xlarge"%string, 15); ("m5a.2xlarge"%string, 15);
  ("m5a.4xlarge"%string, 30); ("m5a.8xlarge"%string, 30); ("m5a.12xlarge"%string, 30)].

(** [InstanceIPsAvailable], the rest. *)
Definition InstanceIPsAvailable_b : list (string * Z) := [
  ("m5a.16xlarge"%string, 50); ("m5a.24xlarge"%string, 50); ("m5ad.large"%string, 10);
  ("m5ad.xlarge"%string, 15); ("m5ad.2xlarge"%string, 15); ("m5ad.4xlarge"%string, 30);
  ("m5ad.12xlarge"%string, 30); ("m5ad.24xlarge"%string, 50); ("m5d.large"%string, 10);
  ("m5d.xlarge"%string, 15); ("m5d.2xlarge"%string, 15); ("m5d.4xlarge"%string, 30);
  ("m5d.8xlarge"%string, 30); ("m5d.12xlarge"%string, 30); ("m5d.16xlarge"%string, 50);
  ("m5d.24xlarge"%string, 50); ("m5d.metal"%string, 50); ("p2.xlarge"%string, 15);
  ("p2.8xlarge"%string, 30); ("p2.16xlarge"%string, 30); ("p3.2xlarge"%string, 15);
  ("p3.8xlarge"%string, 30); ("p3.16xlarge"%string, 30); ("p3dn.24xlarge"%string, 50);
  ("r3.large"%string, 10); ("r3.xlarge"%string, 15); ("r3.2xlarge"%string, 15);
  ("r3.4xlarge"%string, 30); ("r3.8xlarge"%string, 30); ("r4.large"%string, 10);
  ("r4.xlarge"%string, 15); ("r4.2xlarge"%string, 15); ("r4.4xlarge"%string, 30);
  ("r4.8xlarge"%string, 30); ("r4.16xlarge"%string, 31); ("r5.large"%string, 10);
  ("r5.xlarge"%string, 15); ("r5.2xlarge"%string, 15); ("r5.4xlarge"%string, 30);
  ("r5.8xlarge"%string, 30); ("r5.12xlarge"%string, 30); ("r5.16xlarge"%string, 50);
  ("r5.24xlarge"%string, 50); ("r5.metal"%string, 50); ("r5a.large"%string, 10);
  ("r5a.xlarge"%string, 15); ("r5a.2xlarge"%string, 15); ("r5a.4xlarge"%string, 30);
  ("r5a.8xlarge"%string, 30); ("r5a.12xlarge"%string, 30); ("r5a.16xlarge"%string, 50);
  ("r5a.24xlarge"%string, 50); ("r5ad.large"%string, 10); ("r5ad.xlarge"%string, 15);
  ("r5ad.2xlarge"%string, 15); ("r5ad.4xlarge"%string, 30); ("r5ad.12xlarge"%string, 30);
  ("r5ad.24xlarge"%string, 50); ("r5d.large"%string, 10); ("r5d.xlarge"%string, 15);
  ("r5d.2xlarge"%string, 15); ("r5d.4xlarge"%string, 30); ("r5d.8xlarge"%string, 30);
  ("r5d.12xlarge"%string, 30); ("r5d.16xlarge"%string, 50); ("r5d.24xlarge"%string, 50);
  ("r5d.metal"%string, 50); ("t1.micro"%string, 2); ("t2.nano"%string, 2); ("t2.micro"%string, 2);
  ("t2.small"%string, 4); ("t2.medium"%string, 6); ("t2.large"%string, 12);
  ("t2.xlarge"%string, 15); ("t2.2xlarge"%string, 15); ("t3.nano"%string, 2);
  ("t3.micro"%string, 2); ("t3.small"%string, 4); ("t3.medium"%string, 6); ("t3.large"%string, 12);
  ("t3.xlarge"%string, 15); ("t3.2xlarge"%string, 15); ("t3a.nano"%string, 2);
  ("t3a.micro"%string, 2); ("t3a.small"%string, 4); ("t3a.medium"%string, 6);
  ("t3a.large"%string, 12); ("t3a.xlarge"%string, 15); ("t3a.2xlarge"%string, 15);
  ("u-6tb1.metal"%string, 30); ("u-9tb1.metal"%string, 30); ("u-12tb1.metal"%string, 30);
  ("x1.16xlarge"%string, 30); ("x1.32xlarge"%string, 30); ("x1e.xlarge"%string, 10);
  ("x1e.2xlarge"%string, 15); ("x1e.4xlarge"%string, 15); ("x1e.8xlarge"%string, 15);
  ("x1e.16xlarge"%string, 30); ("x1e.32xlarge"%string, 30); ("z1d.large"%string, 10);
  ("z1d.xlarge"%string, 15); ("z1d.2xlarge"%string, 15); ("z1d.3xlarge"%string, 30);
  ("z1d.6xlarge"%string, 30); ("z1d.12xlarge"%string, 50); ("z1d.metal"%string, 50)].

Definition InstanceENIsAvailable : gmap string Z :=
  list_to_map (InstanceENIsAvailable_a ++ InstanceENIsAvailable_b).
Definition InstanceIPsAvailable : gmap string Z :=
  list_to_map (InstanceIPsAvailable_a ++ InstanceIPsAvailable_b).

(** The two tables know the same types, every type can have an ENI besides the
    primary one, and every ENI an address besides its primary one. *)
Definition limits_ok : bool :=
  bool_decide (map_Forall (λ t n, 2 ≤ n ≤ 15 ∧ is_Some (InstanceIPsAvailable !! t)) InstanceENIsAvailable) &&
  bool_decide (map_Forall (λ t n, 2 ≤ n ≤ 50 ∧ is_Some (InstanceENIsAvailable !! t)) InstanceIPsAvailable).

Lemma limits_ok_true : limits_ok = true.
Proof. vm_compute. reflexivity. Qed.

Lemma InstanceENIs_spec t n :
  InstanceENIsAvailable !! t = Some n → 2 ≤ n ≤ 15 ∧ is_Some (InstanceIPsAvailable !! t).
Proof.
  pose proof limits_ok_true as H. unfold limits_ok in H. apply andb_true_iff in H as [H _].
  apply bool_decide_eq_true in H. apply H.
Qed.

Lemma InstanceIPs_spec t n :
  InstanceIPsAvailable !! t = Some n → 2 ≤ n ≤ 50 ∧ is_Some (InstanceENIsAvailable !! t).
Proof.
  pose proof limits_ok_true as H. unfold limits_ok in H. apply andb_true_iff in H as [_ H].
  apply bool_decide_eq_true in H. apply H.
Qed.

Example limits_ex : InstanceENIsAvailable !! "m4.4xlarge"%string = Some 8 ∧
  InstanceIPsAvailable !! "m4.4xlarge"%string = Some 30.
Proof. vm_compute. done. Qed.
