(* ===== verification/AwsUtils.v ===== *)
(** * The EC2 client: pkg/awsutils/awsutils.go

    [EC2InstanceMetadataCache] with its fields and methods, over the instance
    metadata service and the EC2 API, which are outside the repository and stay
    open ([IMDS], [EC2]).  The counters of failed calls are kept; the latency
    summaries (a clock reading before and after each call) and logging are not.
    The answers of the SDK are pointers: those the code dereferences without a
    check are options here, and a nil one panics. *)
From S2P Require Import Prelude GoStd DataStore Interfaces AwsLimits.

Open Scope Z_scope.

(** ** Constants *)

Definition metadataMACPath : string := "network/interfaces/macs/".
Definition metadataAZ : string := "placement/availability-zone/".
Definition metadataLocalIP : string := "local-ipv4".
Definition metadataInstanceID : string := "instance-id".
Definition metadataInstanceType : string := "instance-type".
Definition metadataMAC : string := "mac".
Definition metadataSGs : string := "/security-group-ids/".
Definition metadataSubnetID : string := "/subnet-id/".
Definition metadataVPCcidrs : string := "/vpc-ipv4-cidr-blocks/".
Definition metadataVPCcidr : string := "/vpc-ipv4-cidr-block/".
Definition metadataDeviceNum : string := "/device-number/".
Definition metadataInterface : string := "/interface-id/".
Definition metadataSubnetCIDR : string := "/subnet-ipv4-cidr-block".
Definition metadataIPv4s : string := "/local-ipv4s".
Definition maxENIDeleteRetries : Z := 20.
Definition eniDescriptionPrefix : string := "aws-K8S-".
Definition metadataOwnerID : string := "/owner-id".
Definition maxENIs : Z := 128.
Definition clusterNameEnvVar : string := "CLUSTER_NAME".
Definition eniNodeTagKey : string := "node.k8s.amazonaws.com/instance_id".
Definition eniClusterTagKey : string := "cluster.k8s.amazonaws.com/name".
Definition retryDeleteENIInternal : Z := 5 * Second.
Definition UnknownInstanceType : string := "vpc ip resource(eni ip limit): unknown instance type".
Definition ErrENINotFound : error := EVar "ErrENINotFound" "ENI is not found".
Definition awsAPIErr : string := "awscni_aws_api_error_count".
Definition awsUtilsErr : string := "awscni_aws_utils_error_count".

(** ** The services behind the client *)

(** [ec2.CreateNetworkInterfaceInput]. *)
Record CreateENIInput := mkCreateENIInput {
  Description : string;
  Groups : list string;
  SubnetId : string;
}.

(** [ec2.NetworkInterface]: its addresses and its attachment, which is nil for
    an interface that is not attached. *)
Record NetworkInterface := mkNetworkInterface {
  PrivateIpAddresses : list EC2Address;
  Attachment : option (option string);
}.

(** An instance as [DescribeInstances] shows it: for each of its interfaces the
    attachment and the device index in it. *)
Definition Instance_ : Type := list (option (option Z)).

Class IMDS (W : Type) : Type := {
  Region : ext W (string * option error);
  GetMetadata : string → ext W (string * option error);
  NewSession : string → ext W (option error);
}.

Class EC2 (W : Type) : Type := {
  CreateNetworkInterface : CreateENIInput → ext W (option string * option error);
  DescribeInstances : string → ext W (list (list Instance_) * option error);
  AttachNetworkInterface : Z → string → string → ext W (option string * option error);
  DeleteNetworkInterface : string → ext W (option error);
  DetachNetworkInterface : option string → ext W (option error);
  AssignPrivateIpAddresses : string → Z → ext W (option error);
  UnassignPrivateIpAddresses : string → list string → ext W (option error);
  DescribeNetworkInterfaces : string → ext W (list NetworkInterface * option error);
  ModifyNetworkInterfaceAttribute : string → string → bool → ext W (option error);
  CreateTags : string → list (string * string) → ext W (option error);
}.

(** ** State *)

Record EC2InstanceMetadataCache := mkCache {
  securityGroups : list string;
  subnetID : string;
  cidrBlock : string;
  localIPv4 : string;
  instanceID : string;
  instanceType : string;
  vpcIPv4CIDR : string;
  vpcIPv4CIDRs : list string;
  primaryENI : string;
  primaryENImac : string;
  availabilityZone : string;
  region : string;
  accountID : string;
  currentENIs : Z;
}.

Definition zeroCache : EC2InstanceMetadataCache := mkCache [] "" "" "" "" "" "" [] "" "" "" "" "" 0.

Record AwsSt (W : Type) := mkAwsSt {
  a_cache : EC2InstanceMetadataCache;
  a_prom : Prom;
  a_world : W;
}.
Arguments mkAwsSt {W}.
Arguments a_cache {W}.
Arguments a_prom {W}.
Arguments a_world {W}.

Section awsutils.
Context {W : Type} `{!World W, !IMDS W, !EC2 W} {env : Environ}.

Abbreviation AM := (M (AwsSt W)).

Definition cache {A} (f : EC2InstanceMetadataCache → A) : AM A := gets (f ∘ a_cache).
Definition set_cache_ (f : EC2InstanceMetadataCache → EC2InstanceMetadataCache) : AM unit :=
  modify (λ s, mkAwsSt (f (a_cache s)) (a_prom s) (a_world s)).
Definition aprom (f : Prom → Prom) : AM unit :=
  modify (λ s, mkAwsSt (a_cache s) (f (a_prom s)) (a_world s)).
Definition aworld {A} (m : M W A) : AM A :=
  zoom a_world (λ w s, mkAwsSt (a_cache s) (a_prom s) w) m.
Definition api {A} (f : ext W A) : AM A := aworld (call f).

(** The counters by API and error code, and by function and message. *)
Definition awsAPIErrInc (name : string) (err : error) : AM unit :=
  match aws_code err with
  | Some code => aprom (prom_add awsAPIErr (name +:+ "/" +:+ code) 1)
  | None => mret tt
  end.

Definition awsUtilsErrInc (fn : string) (err : error) : AM unit :=
  aprom (prom_add awsUtilsErr (fn +:+ "/" +:+ Error err) 1).

Definition containsAttachmentLimitExceededError (err : error) : bool :=
  match aws_code err with
  | Some code => bool_decide (code = "AttachmentLimitExceeded"%string)
  | None => false
  end.

Definition containsPrivateIPAddressLimitExceededError (err : error) : bool :=
  match aws_code err with
  | Some code => bool_decide (code = "PrivateIpAddressLimitExceeded"%string)
  | None => false
  end.

(** A [GetMetadata] whose failure is counted and wrapped. *)
Definition metadata (path msg : string) : AM (string + error) :=
  '(v, err) ← api (GetMetadata path);
  match err with
  | Some e => awsAPIErrInc "GetMetadata" e ;; mret (inr (EWrap e msg))
  | None => mret (inl v)
  end.

(** *** What is attached *)

(** [getENIDeviceNumber]: ENI ID and device number.  Device number 0 is kept
    for the primary ENI, the others are shifted by one. *)
Definition getENIDeviceNumber (eniMAC : string) : AM (string * Z * option error) :=
  device ← metadata (metadataMACPath +:+ eniMAC +:+ metadataDeviceNum)
             ("failed to retrieve device-number for ENI " +:+ eniMAC);
  match device with
  | inr e => mret (""%string, 0, Some e)
  | inl device =>
      match ParseInt device 0 32 with
      | None =>
          mret (""%string, 0, Some (EWrap (EStr ("strconv.ParseInt: parsing " +:+ device))
                  ("invalid device " +:+ device +:+ " for ENI " +:+ eniMAC)))
      | Some deviceNum =>
          eni ← metadata (metadataMACPath +:+ eniMAC +:+ metadataInterface)
                  ("get attached ENIs: failed to retrieve interface-id for ENI " +:+ eniMAC);
          match eni with
          | inr e => mret (""%string, 0, Some e)
          | inl eni =>
              prim ← cache primaryENI;
              if bool_decide (prim = eni) then mret (eni, 0, None)
              else mret (eni, deviceNum + 1, None)
          end
      end
  end.

Definition getIPsAndCIDR (eniMAC : string) : AM (list string * string * option error) :=
  cidr ← metadata (metadataMACPath +:+ eniMAC +:+ metadataSubnetCIDR)
           ("failed to retrieve subnet-ipv4-cidr-block for ENI " +:+ eniMAC);
  match cidr with
  | inr e => mret ([], ""%string, Some e)
  | inl cidr =>
      ipv4s ← metadata (metadataMACPath +:+ eniMAC +:+ metadataIPv4s)
                ("failed to retrieve ENI " +:+ eniMAC +:+ " local-ipv4s");
      match ipv4s with
      | inr e => mret ([], ""%string, Some e)
      | inl ipv4s => mret (Fields ipv4s, cidr, None)
      end
  end.

Definition getENIMetadata (macStr : string) : AM (ENIMetadata * option error) :=
  let zero := mkENIMetadata "" "" 0 "" [] in
  let eniMAC := default ""%string (head (Split macStr "/")) in
  '(eni, deviceNum, err) ← getENIDeviceNumber eniMAC;
  match err with
  | Some e =>
      mret (zero, Some (EWrap e
        ("get ENI metadata: failed to retrieve device and ENI from metadata service: " +:+ eniMAC)))
  | None =>
      '(localIPv4s, cidr, err) ← getIPsAndCIDR eniMAC;
      match err with
      | Some e =>
          mret (zero, Some (EWrap e
            ("get ENI metadata: failed to retrieve IPs and CIDR for ENI: " +:+ eniMAC)))
      | None => mret (mkENIMetadata eni eniMAC deviceNum cidr localIPv4s, None)
      end
  end.

(** The loop of [GetAttachedENIs]; [enis] are the ENIs read so far. *)
Fixpoint attached_loop (macsStrs : list string) (enis : list ENIMetadata) :
    AM (list ENIMetadata * option error) :=
  match macsStrs with
  | [] => mret (enis, None)
  | macStr :: macsStrs =>
      '(eniMetadata, err) ← getENIMetadata macStr;
      match err with
      | Some e =>
          mret ([], Some (EWrap e
            ("get attached ENIs: failed to retrieve ENI metadata for ENI: " +:+ macStr)))
      | None => attached_loop macsStrs (enis ++ [eniMetadata])
      end
  end.

Definition set_currentENIs (n : Z) (c : EC2InstanceMetadataCache) : EC2InstanceMetadataCache :=
  mkCache (securityGroups c) (subnetID c) (cidrBlock c) (localIPv4 c) (instanceID c)
    (instanceType c) (vpcIPv4CIDR c) (vpcIPv4CIDRs c) (primaryENI c) (primaryENImac c)
    (availabilityZone c) (region c) (accountID c) n.

Definition GetAttachedENIs : AM (list ENIMetadata * option error) :=
  macs ← metadata metadataMACPath "get attached ENIs: failed to retrieve interfaces data";
  match macs with
  | inr e => mret ([], Some e)
  | inl macs =>
      let macsStrs := Fields macs in
      set_cache_ (set_currentENIs (Z.of_nat (length macsStrs))) ;;
      attached_loop macsStrs []
  end.

(** Assignments to the other fields. *)
Definition set_securityGroups (v : list string) (c : EC2InstanceMetadataCache) : EC2InstanceMetadataCache :=
  mkCache v (subnetID c) (cidrBlock c) (localIPv4 c) (instanceID c) (instanceType c)
    (vpcIPv4CIDR c) (vpcIPv4CIDRs c) (primaryENI c) (primaryENImac c) (availabilityZone c)
    (region c) (accountID c) (currentENIs c).
Definition set_subnetID (v : string) (c : EC2InstanceMetadataCache) : EC2InstanceMetadataCache :=
  mkCache (securityGroups c) v (cidrBlock c) (localIPv4 c) (instanceID c) (instanceType c)
    (vpcIPv4CIDR c) (vpcIPv4CIDRs c) (primaryENI c) (primaryENImac c) (availabilityZone c)
    (region c) (accountID c) (currentENIs c).
Definition set_localIPv4 (v : string) (c : EC2InstanceMetadataCache) : EC2InstanceMetadataCache :=
  mkCache (securityGroups c) (subnetID c) (cidrBlock c) v (instanceID c) (instanceType c)
    (vpcIPv4CIDR c) (vpcIPv4CIDRs c) (primaryENI c) (primaryENImac c) (availabilityZone c)
    (region c) (accountID c) (currentENIs c).
Definition set_instanceID (v : string) (c : EC2InstanceMetadataCache) : EC2InstanceMetadataCache :=
  mkCache (securityGroups c) (subnetID c) (cidrBlock c) (localIPv4 c) v (instanceType c)
    (vpcIPv4CIDR c) (vpcIPv4CIDRs c) (primaryENI c) (primaryENImac c) (availabilityZone c)
    (region c) (accountID c) (currentENIs c).
Definition set_instanceType (v : string) (c : EC2InstanceMetadataCache) : EC2InstanceMetadataCache :=
  mkCache (securityGroups c) (subnetID c) (cidrBlock c) (localIPv4 c) (instanceID c) v
    (vpcIPv4CIDR c) (vpcIPv4CIDRs c) (primaryENI c) (primaryENImac c) (availabilityZone c)
    (region c) (accountID c) (currentENIs c).
Definition set_vpcIPv4CIDR (v : string) (c : EC2InstanceMetadataCache) : EC2InstanceMetadataCache :=
  mkCache (securityGroups c) (subnetID c) (cidrBlock c) (localIPv4 c) (instanceID c)
    (instanceType c) v (vpcIPv4CIDRs c) (primaryENI c) (primaryENImac c) (availabilityZone c)
    (region c) (accountID c) (currentENIs c).
Definition set_vpcIPv4CIDRs (v : list string) (c : EC2InstanceMetadataCache) : EC2InstanceMetadataCache :=
  mkCache (securityGroups c) (subnetID c) (cidrBlock c) (localIPv4 c) (instanceID c)
    (instanceType c) (vpcIPv4CIDR c) v (primaryENI c) (primaryENImac c) (availabilityZone c)
    (region c) (accountID c) (currentENIs c).
Definition set_primaryENI (v : string) (c : EC2InstanceMetadataCache) : EC2InstanceMetadataCache :=
  mkCache (securityGroups c) (subnetID c) (cidrBlock c) (localIPv4 c) (instanceID c)
    (instanceType c) (vpcIPv4CIDR c) (vpcIPv4CIDRs c) v (primaryENImac c) (availabilityZone c)
    (region c) (accountID c) (currentENIs c).
Definition set_primaryENImac (v : string) (c : EC2InstanceMetadataCache) : EC2InstanceMetadataCache :=
  mkCache (securityGroups c) (subnetID c) (cidrBlock c) (localIPv4 c) (instanceID c)
    (instanceType c) (vpcIPv4CIDR c) (vpcIPv4CIDRs c) (primaryENI c) v (availabilityZone c)
    (region c) (accountID c) (currentENIs c).
Definition set_availabilityZone (v : string) (c : EC2InstanceMetadataCache) : EC2InstanceMetadataCache :=
  mkCache (securityGroups c) (subnetID c) (cidrBlock c) (localIPv4 c) (instanceID c)
    (instanceType c) (vpcIPv4CIDR c) (vpcIPv4CIDRs c) (primaryENI c) (primaryENImac c) v
    (region c) (accountID c) (currentENIs c).
Definition set_region (v : string) (c : EC2InstanceMetadataCache) : EC2InstanceMetadataCache :=
  mkCache (securityGroups c) (subnetID c) (cidrBlock c) (localIPv4 c) (instanceID c)
    (instanceType c) (vpcIPv4CIDR c) (vpcIPv4CIDRs c) (primaryENI c) (primaryENImac c)
    (availabilityZone c) v (accountID c) (currentENIs c).
Definition set_accountID (v : string) (c : EC2InstanceMetadataCache) : EC2InstanceMetadataCache :=
  mkCache (securityGroups c) (subnetID c) (cidrBlock c) (localIPv4 c) (instanceID c)
    (instanceType c) (vpcIPv4CIDR c) (vpcIPv4CIDRs c) (primaryENI c) (primaryENImac c)
    (availabilityZone c) (region c) v (currentENIs c).

(** *** Start *)

(** The loop of [setPrimaryENI] over the attached ENIs; [Some r] is its return. *)
Definition setPrimaryENI_try (eniMAC : string) : AM (option (option error)) :=
  device ← metadata (metadataMACPath +:+ eniMAC +:+ metadataDeviceNum)
             ("set primary ENI: failed to retrieve the device-number data of ENI " +:+ eniMAC);
  match device with
  | inr e => mret (Some (Some e))
  | inl device =>
      match ParseInt device 0 32 with
      | None =>
          mret (Some (Some (EWrap (EStr ("strconv.ParseInt: parsing " +:+ device))
                              ("set primary ENI: invalid device " +:+ device))))
      | Some _ =>
          account ← cache accountID;
          owner ← (if bool_decide (account = ""%string) then
                     owner ← metadata (metadataMACPath +:+ eniMAC +:+ metadataOwnerID)
                               "set primary ENI: failed to retrieve ownerID";
                     match owner with
                     | inr e => mret (Some e)
                     | inl ownerID => set_cache_ (set_accountID ownerID) ;; mret None
                     end
                   else mret None);
          match owner with
          | Some e => mret (Some (Some e))
          | None =>
              eni ← metadata (metadataMACPath +:+ eniMAC +:+ metadataInterface)
                      "set primary ENI: failed to retrieve interface-id";
              match eni with
              | inr e => mret (Some (Some e))
              | inl eni =>
                  mac ← cache primaryENImac;
                  if bool_decide (mac = default ""%string (head (Split eniMAC "/"))) then
                    set_cache_ (set_primaryENI eni) ;; mret (Some None)
                  else mret None
              end
          end
      end
  end.

Definition setPrimaryENI : AM (option error) :=
  prim ← cache primaryENI;
  if negb (bool_decide (prim = ""%string)) then mret None
  else
    macs ← metadata metadataMACPath "set primary ENI: failed to retrieve interfaces data";
    match macs with
    | inr e => mret (Some e)
    | inl macs =>
        let eniMACs := Fields macs in
        set_cache_ (set_currentENIs (Z.of_nat (length eniMACs))) ;;
        r ← find_loop setPrimaryENI_try eniMACs;
        match r with
        | Some err => mret err
        | None => mret (Some (EStr "set primary ENI: primary ENI not found"))
        end
    end.

(** Reads one item into the cache; an error ends [initWithEC2Metadata], and [New]
    then drops the cache. *)
Definition init_item (path msg : string) (set : string → EC2InstanceMetadataCache → EC2InstanceMetadataCache)
    (rest : string → AM (option error)) : AM (option error) :=
  v ← metadata path ("get instance metadata: failed to retrieve " +:+ msg);
  match v with
  | inr e => mret (Some e)
  | inl v => set_cache_ (set v) ;; rest v
  end.

(** [initWithEC2Metadata] after the primary ENI is known. *)
Definition init_network (mac : string) : AM (option error) :=
  init_item (metadataMACPath +:+ mac +:+ metadataSGs) "security-group-ids"
    (λ sgs c, set_securityGroups (securityGroups c ++ Fields sgs) c) (λ _,
  init_item (metadataMACPath +:+ mac +:+ metadataSubnetID) "subnet-ids" set_subnetID (λ _,
  init_item (metadataMACPath +:+ mac +:+ metadataVPCcidr) "vpc-ipv4-cidr-block data"
    set_vpcIPv4CIDR (λ _,
  init_item (metadataMACPath +:+ mac +:+ metadataVPCcidrs) "vpc-ipv4-cidr-block data"
    (λ cidrs c, set_vpcIPv4CIDRs (vpcIPv4CIDRs c ++ Fields cidrs) c) (λ _, mret None)))).

Definition initWithEC2Metadata : AM (option error) :=
  init_item metadataAZ "availability zone data" set_availabilityZone (λ _,
  init_item metadataLocalIP "the instance primary ip address data" set_localIPv4 (λ _,
  init_item metadataInstanceID "instance-id" set_instanceID (λ _,
  init_item metadataInstanceType "instance-type" set_instanceType (λ _,
  init_item metadataMAC "primary interface MAC address" set_primaryENImac (λ mac,
    err ← setPrimaryENI;
    match err with
    | Some e => mret (Some (EWrap e "get instance metadata: failed to find primary ENI"))
    | None => init_network mac
    end))))).

Definition New : AM (option error) :=
  set_cache_ (λ _, zeroCache) ;;
  '(r, err) ← api Region;
  match err with
  | Some e => mret (Some (EWrap e "instance metadata: failed to retrieve region data"))
  | None =>
      set_cache_ (set_region r) ;;
      err ← api (NewSession r);
      match err with
      | Some e => mret (Some (EWrap e "instance metadata: failed to initialize AWS SDK session"))
      | None => initWithEC2Metadata
      end
  end.

(** *** ENIs *)

(** [device[i] = true] on the array [var device [maxENIs]bool]. *)
Definition mark_device (device : list bool) (i : Z) : AM (list bool) :=
  if bool_decide (0 ≤ i < maxENIs) then mret (<[Z.to_nat i := true]> device)
  else panic "index out of range".

(** The loop over the network interfaces of the instance. *)
Definition mark_interface (device : list bool) (eni : option (option Z)) : AM (list bool) :=
  match eni with
  | None => panic "nil pointer dereference"
  | Some deviceIndex =>
      let i := default 0 deviceIndex in
      if bool_decide (i > maxENIs) then mret device else mark_device device i
  end.

(** The loop [for freeDeviceIndex := 0; freeDeviceIndex < maxENIs; ...]. *)
Definition first_free (device : list bool) : option nat :=
  fst <$> list_find (λ b, b = false) device.

Definition awsGetFreeDeviceNumber : AM (Z * option error) :=
  id ← cache instanceID;
  '(reservations, err) ← api (DescribeInstances id);
  match err with
  | Some e =>
      awsAPIErrInc "DescribeInstances" e ;;
      mret (0, Some (EWrap e "find a free device number for ENI: not able to retrieve instance data from EC2 control plane"))
  | None =>
      match reservations with
      | [instances] =>
          match instances with
          | [] => panic "index out of range"
          | inst :: _ =>
              device ← fold_loop mark_interface (replicate (Z.to_nat maxENIs) false) inst;
              match first_free device with
              | Some i => mret (Z.of_nat i, None)
              | None => mret (0, Some (EStr "awsGetFreeDeviceNumber: no available device number"))
              end
          end
      | _ => mret (0, Some (EStr ("awsGetFreeDeviceNumber: invalid instance id " +:+ id)))
      end
  end.

Definition attachENI (eniID : string) : AM (string * option error) :=
  '(freeDevice, err) ← awsGetFreeDeviceNumber;
  match err with
  | Some e => mret (""%string, Some (EWrap e "attachENI: failed to get a free device number"))
  | None =>
      id ← cache instanceID;
      '(attachmentId, err) ← api (AttachNetworkInterface freeDevice id eniID);
      match err with
      | Some e =>
          awsAPIErrInc "AttachNetworkInterface" e ;;
          mret (""%string, Some (EWrap e "attachENI: failed to attach ENI"))
      | None => mret (StringValue attachmentId, None)
      end
  end.

Definition createENI (useCustomCfg : bool) (sg : list string) (subnet : string) :
    AM (string * option error) :=
  c ← cache id;
  let eniDescription := eniDescriptionPrefix +:+ instanceID c in
  let input := if useCustomCfg then mkCreateENIInput eniDescription sg subnet
               else mkCreateENIInput eniDescription (securityGroups c) (subnetID c) in
  '(result, err) ← api (CreateNetworkInterface input);
  match err with
  | Some e =>
      awsAPIErrInc "CreateNetworkInterface" e ;;
      mret (""%string, Some (EWrap e "failed to create network interface"))
  | None => mret (StringValue result, None)
  end.

Definition tagENI (eniID : string) : AM unit :=
  id ← cache instanceID;
  let clusterName := Getenv clusterNameEnvVar in
  let tags := (eniNodeTagKey, id) ::
    (if bool_decide (clusterName = ""%string) then [] else [(eniClusterTagKey, clusterName)]) in
  err ← api (CreateTags eniID tags);
  match err with
  | Some e => awsAPIErrInc "CreateTags" e
  | None => mret tt
  end.

(** [deleteENI]; [retry] counts the attempts made. *)
Fixpoint deleteENI_loop (fuel : nat) (retry : Z) (eniName : string) (sleep : Z) : AM (option error) :=
  match fuel with
  | O => nofuel
  | S fuel =>
      let retry := retry + 1 in
      if bool_decide (retry > maxENIDeleteRetries) then
        mret (Some (EStr "unable to delete ENI, giving up"))
      else
        err ← api (DeleteNetworkInterface eniName);
        match err with
        | None => mret None
        | Some e =>
            awsAPIErrInc "DeleteNetworkInterface" e ;;
            aworld (time_Sleep sleep) ;;
            deleteENI_loop fuel retry eniName sleep
        end
  end.

Definition deleteENI (eniName : string) (sleep : Z) : AM (option error) :=
  deleteENI_loop (Z.to_nat (maxENIDeleteRetries + 1)) 0 eniName sleep.

(** [result.NetworkInterfaces[0].Attachment.AttachmentId]: an empty answer or an
    interface without attachment panics. *)
Definition DescribeENI (eniID : string) : AM (list EC2Address * option string * option error) :=
  '(interfaces, err) ← api (DescribeNetworkInterfaces eniID);
  match err with
  | Some e =>
      if bool_decide (aws_code e = Some "InvalidNetworkInterfaceID.NotFound"%string) then
        mret ([], None, Some ErrENINotFound)
      else
        awsAPIErrInc "DescribeNetworkInterfaces" e ;;
        mret ([], None, Some (EWrap e "failed to describe network interface"))
  | None =>
      match interfaces with
      | [] => panic "index out of range"
      | i :: _ =>
          match Attachment i with
          | None => panic "nil pointer dereference"
          | Some attachmentId => mret (PrivateIpAddresses i, attachmentId, None)
          end
      end
  end.

(** The [for retry = 0; retry <= maxENIDeleteRetries; retry++] loop of
    [freeENI]; the error it returns with, if any. *)
Fixpoint detach_loop (fuel : nat) (retry : Z) (attachID : option string) (sleep : Z) :
    AM (option error) :=
  match fuel with
  | O => nofuel
  | S fuel =>
      if bool_decide (retry ≤ maxENIDeleteRetries) then
        err ← api (DetachNetworkInterface attachID);
        match err with
        | Some e =>
            awsAPIErrInc "DetachNetworkInterface" e ;;
            if bool_decide (retry = maxENIDeleteRetries) then
              mret (Some (EStr "unable to detach ENI from EC2 instance, giving up"))
            else
              aworld (time_Sleep sleep) ;;
              detach_loop fuel (retry + 1) attachID sleep
        | None => mret None
        end
      else mret None
  end.

Definition freeENI (eniName : string) (sleep : Z) : AM (option error) :=
  '(_, attachID, err) ← DescribeENI eniName;
  match err with
  | Some e =>
      if err_is err ErrENINotFound then mret None
      else
        awsUtilsErrInc "FreeENIDescribeENIFailed" e ;;
        mret (Some (EWrap e "FreeENI: failed to retrieve ENI's attachment id"))
  | None =>
      err ← detach_loop (Z.to_nat (maxENIDeleteRetries + 2)) 0 attachID sleep;
      match err with
      | Some e => mret (Some e)
      | None =>
          err ← deleteENI eniName sleep;
          match err with
          | Some e =>
              awsUtilsErrInc "FreeENIDeleteErr" e ;;
              mret (Some (EWrap e ("FreeENI: failed to free ENI: " +:+ eniName)))
          | None => mret None
          end
      end
  end.

Definition FreeENI (eniName : string) : AM (option error) := freeENI eniName retryDeleteENIInternal.

(** In the branch of a failed [ModifyNetworkInterfaceAttribute] the inner
    [err := cache.FreeENI(eniID)] hides the outer error: what is wrapped and
    returned is the error of [FreeENI]. *)
Definition AllocENI (useCustomCfg : bool) (sg : list string) (subnet : string) :
    AM (string * option error) :=
  '(eniID, err) ← createENI useCustomCfg sg subnet;
  match err with
  | Some e => mret (""%string, Some (EWrap e "AllocENI: failed to create ENI"))
  | None =>
      tagENI eniID ;;
      '(attachmentID, err) ← attachENI eniID;
      match err with
      | Some e =>
          _ ← deleteENI eniID retryDeleteENIInternal;
          mret (""%string, Some (EWrap e "AllocENI: error attaching ENI"))
      | None =>
          err ← api (ModifyNetworkInterfaceAttribute eniID attachmentID true);
          match err with
          | Some e =>
              awsAPIErrInc "ModifyNetworkInterfaceAttribute" e ;;
              err ← FreeENI eniID;
              (match err with
               | Some e => awsUtilsErrInc "ENICleanupUponModifyNetworkErr" e
               | None => mret tt
               end) ;;
              mret (""%string, Wrap err "AllocENI: unable to change the ENI's attribute")
          | None => mret (eniID, None)
          end
      end
  end.

(** *** Addresses *)

Definition AllocIPAddress (eniID : string) : AM (option error) :=
  err ← api (AssignPrivateIpAddresses eniID 1);
  match err with
  | Some e =>
      awsAPIErrInc "AssignPrivateIpAddresses" e ;;
      mret (Some (EWrap e "failed to assign private IP addresses"))
  | None => mret None
  end.

Definition GetENIipLimit : AM (Z * option error) :=
  t ← cache instanceType;
  match InstanceIPsAvailable !! t with
  | None => mret (0, Some (EStr UnknownInstanceType))
  | Some ipLimit => mret (ipLimit - 1, None)
  end.

Definition GetENILimit : AM (Z * option error) :=
  t ← cache instanceType;
  match InstanceENIsAvailable !! t with
  | None => mret (0, Some (EStr (UnknownInstanceType +:+ ": " +:+ t)))
  | Some eniLimit => mret (eniLimit, None)
  end.

Definition AllocIPAddresses (eniID : string) (numIPs : Z) : AM (option error) :=
  '(ipLimit, err) ← GetENIipLimit;
  match err with
  | Some e => awsUtilsErrInc "UnknownInstanceType" e ;; mret err
  | None =>
      let needIPs := if bool_decide (ipLimit < numIPs) then ipLimit else numIPs in
      if bool_decide (needIPs < 1) then mret None
      else
        err ← api (AssignPrivateIpAddresses eniID needIPs);
        match err with
        | Some e =>
            awsAPIErrInc "AssignPrivateIpAddresses" e ;;
            if containsPrivateIPAddressLimitExceededError e then mret None
            else
              mret (Some (EWrap e "allocate IP address: failed to allocate a private IP address"))
        | None => mret None
        end
  end.

Definition DeallocIPAddresses (eniID : string) (ips : list string) : AM (option error) :=
  err ← api (UnassignPrivateIpAddresses eniID ips);
  match err with
  | Some e =>
      awsAPIErrInc "UnassignPrivateIpAddressesWithContext" e ;;
      mret (Some (EWrap e ("deallocate IP addresses: failed to deallocate private IP addresses: ["
                           +:+ String.concat " " ips +:+ "]")))
  | None => mret None
  end.

Definition GetVPCIPv4CIDR : AM string := cache vpcIPv4CIDR.
Definition GetVPCIPv4CIDRs : AM (list string) := cache vpcIPv4CIDRs.
Definition GetLocalIPv4 : AM string := cache localIPv4.
Definition GetPrimaryENI : AM string := cache primaryENI.
Definition GetPrimaryENImac : AM string := cache primaryENImac.

End awsutils.
