(* ===== verification/AwsUtilsProps.v ===== *)
(** * Theorems about the EC2 client

    What [awsutils] promises: the device number it attaches at, the truth of what
    [FreeENI] reports, the caps on the addresses it asks for; and what it does on
    the answers it does not expect.  A small cloud ([Cloud]) at the end of the
    preamble is the instance the witnesses run on. *)
From S2P Require Import Prelude GoStd DataStore Interfaces AwsLimits AwsUtils.

Open Scope Z_scope.

(** ** A concrete cloud

    One instance with two ENIs.  The metadata never change; interfaces are
    created, attached and deleted; with [denied] the account may not modify
    attributes. *)
Record Cloud (denied : bool) := mkCloud {
  cl_clock : Z;
  cl_instance : Instance_;
  cl_interfaces : gmap string NetworkInterface;
}.
Arguments mkCloud {denied}.
Arguments cl_clock {denied}.
Arguments cl_instance {denied}.
Arguments cl_interfaces {denied}.

#[global] Instance Cloud_World denied : World (Cloud denied) := {
  w_now w := (cl_clock w, mkCloud (cl_clock w + Second) (cl_instance w) (cl_interfaces w));
  w_sleep d w := mkCloud (cl_clock w + d) (cl_instance w) (cl_interfaces w);
  w_range A l w := (reverse l, w);
}.

#[global] Instance Cloud_ok denied : WorldOk (Cloud denied).
Proof.
  split; unfold clock; simpl; intros; try lia; [by rewrite reverse_Permutation|].
  unfold Second. lia.
Qed.

Definition cloud_metadata : list (string * string) := [
  ("placement/availability-zone/", "us-west-2a"); ("local-ipv4", "1.0.0.1");
  ("instance-id", "i-1"); ("instance-type", "m4.4xlarge"); ("mac", "m1");
  ("network/interfaces/macs/", "m1/ m2/");
  ("network/interfaces/macs/m1/owner-id", "1234");
  ("network/interfaces/macs/m1//device-number/", "0");
  ("network/interfaces/macs/m1//interface-id/", "eni-1");
  ("network/interfaces/macs/m1//owner-id", "1234");
  ("network/interfaces/macs/m1/device-number/", "0");
  ("network/interfaces/macs/m1/interface-id/", "eni-1");
  ("network/interfaces/macs/m1/subnet-ipv4-cidr-block", "1.0.0.0/24");
  ("network/interfaces/macs/m1/local-ipv4s", "1.0.0.1 1.0.0.2");
  ("network/interfaces/macs/m1/security-group-ids/", "sg-1 sg-2");
  ("network/interfaces/macs/m1/subnet-id/", "subnet-1");
  ("network/interfaces/macs/m1/vpc-ipv4-cidr-block/", "1.0.0.0/8");
  ("network/interfaces/macs/m1/vpc-ipv4-cidr-blocks/", "1.0.0.0/8 2.0.0.0/8");
  ("network/interfaces/macs/m2/device-number/", "1");
  ("network/interfaces/macs/m2/interface-id/", "eni-2");
  ("network/interfaces/macs/m2/subnet-ipv4-cidr-block", "2.0.0.0/24");
  ("network/interfaces/macs/m2/local-ipv4s", "2.0.0.1 2.0.0.2")]%string.

#[global] Instance Cloud_IMDS denied : IMDS (Cloud denied) := {
  Region w := (Some ("us-west-2"%string, None), w);
  GetMetadata path w :=
    (Some (match list_find (λ kv, kv.1 = path) cloud_metadata with
           | Some (_, (_, v)) => (v, None)
           | None => (""%string, Some (EAws "EC2MetadataError" "failed to make EC2Metadata request"))
           end), w);
  NewSession _ w := (Some None, w);
}.

(** ["eni-1"] owns the addresses that start with ["1"], and so on. *)
Definition cloud_own (ip : string) : string := ("eni-" +:+ String.substring 0 1 ip)%string.
Definition cloud_owned (id : string) (a : EC2Address) : Prop :=
  StringValue (PrivateIpAddress a) ≠ ""%string ∧ cloud_own (StringValue (PrivateIpAddress a)) = id.

#[global] Instance cloud_owned_dec id a : Decision (cloud_owned id a).
Proof. apply _. Defined.

#[global] Instance Cloud_EC2 denied : EC2 (Cloud denied) := {
  CreateNetworkInterface _ w :=
    (Some (Some "eni-9"%string, None),
     mkCloud (cl_clock w) (cl_instance w) (<["eni-9"%string := mkNetworkInterface [] None]> (cl_interfaces w)));
  DescribeInstances _ w := (Some ([[cl_instance w]], None), w);
  AttachNetworkInterface n _ id w :=
    (Some (Some "attach-9"%string, None),
     mkCloud (cl_clock w) (cl_instance w ++ [Some (Some n)])
       (<[id := mkNetworkInterface [] (Some (Some "attach-9"%string))]> (cl_interfaces w)));
  DeleteNetworkInterface id w :=
    (Some None, mkCloud (cl_clock w) (cl_instance w) (delete id (cl_interfaces w)));
  DetachNetworkInterface a w :=
    (Some None, mkCloud (cl_clock w) (cl_instance w)
       ((λ i, if bool_decide (Attachment i = Some a) then mkNetworkInterface (PrivateIpAddresses i) None else i) <$>
        cl_interfaces w));
  AssignPrivateIpAddresses _ _ w := (Some None, w);
  UnassignPrivateIpAddresses _ _ w := (Some None, w);
  DescribeNetworkInterfaces id w :=
    (Some (match cl_interfaces w !! id with
           | Some i => ([mkNetworkInterface (filter (cloud_owned id) (PrivateIpAddresses i)) (Attachment i)], None)
           | None => ([], Some (EAws "InvalidNetworkInterfaceID.NotFound" "not found"))
           end), w);
  ModifyNetworkInterfaceAttribute _ _ _ w :=
    (Some (if denied then Some (EAws "UnauthorizedOperation" "denied") else None), w);
  CreateTags _ _ w := (Some None, w);
}.

(** The addresses of ["eni-1"]: ["1.0.0.1"], its primary one, and ["1.0.0.2"]. *)
Definition cloud_addrs (id : string) : list EC2Address :=
  let n := String.substring 4 1 id in
  [mkEC2Address (Some true) (Some (n +:+ ".0.0.1")%string);
   mkEC2Address (Some false) (Some (n +:+ ".0.0.2")%string)].

Definition cloud_start (indices : list Z) (attached : list string) {denied} : AwsSt (Cloud denied) :=
  mkAwsSt zeroCache ∅ (mkCloud 0 ((λ i, Some (Some i)) <$> indices)
    (list_to_map ((λ id, (id, mkNetworkInterface (cloud_addrs id) (Some (Some ("attach-" +:+ id)%string)))) <$> attached))).

#[global] Instance cloud_env : Environ := {| environ := ∅ |}.

Section rules.
Context {W : Type} `{!World W, !IMDS W, !EC2 W} (E : Prop).
Implicit Types (c : EC2InstanceMetadataCache) (p : Prom) (w : W).

Lemma wp_cache {A} (f : EC2InstanceMetadataCache → A) Q c p w :
  Q (f c) (mkAwsSt c p w) → wp E (cache f) Q (mkAwsSt c p w).
Proof. done. Qed.

Lemma wp_set_cache f Q c p w : Q tt (mkAwsSt (f c) p w) → wp E (set_cache_ f) Q (mkAwsSt c p w).
Proof. done. Qed.

Lemma wp_aprom f Q c p w : Q tt (mkAwsSt c (f p) w) → wp E (aprom f) Q (mkAwsSt c p w).
Proof. done. Qed.

Lemma wp_asleep d Q c p w :
  Q tt (mkAwsSt c p (w_sleep d w)) → wp E (aworld (time_Sleep d)) Q (mkAwsSt c p w).
Proof. done. Qed.

Lemma wp_api {A} (f : ext W A) Q c p w :
  ((f w).1 = None → E) →
  (∀ a w', f w = (Some a, w') → Q a (mkAwsSt c p w')) → wp E (api f) Q (mkAwsSt c p w).
Proof.
  intros HE HQ. apply wp_zoom. unfold wp, call. simpl.
  destruct (f w) as [[a|] w'] eqn:Hf; [by apply HQ|by apply HE].
Qed.

Lemma api_run {A} (f : ext W A) a c p w w' :
  f w = (Some a, w') → api f (mkAwsSt c p w) = (Ret a, mkAwsSt c p w').
Proof. intros Hf. unfold api, aworld, zoom, call. simpl. by rewrite Hf. Qed.

(** The counters do not matter to what follows. *)
Lemma wp_awsAPIErrInc name e Q c p w :
  (∀ p', Q tt (mkAwsSt c p' w)) → wp E (awsAPIErrInc name e) Q (mkAwsSt c p w).
Proof. intros HQ. unfold awsAPIErrInc. destruct (aws_code e); apply HQ. Qed.

Lemma wp_awsUtilsErrInc fn e Q c p w :
  (∀ p', Q tt (mkAwsSt c p' w)) → wp E (awsUtilsErrInc fn e) Q (mkAwsSt c p w).
Proof. intros HQ. apply HQ. Qed.

End rules.

Ltac wp_hook ::=
  lazymatch goal with
  | |- wp _ (cache _) _ _ => apply wp_cache
  | |- wp _ (set_cache_ _) _ _ => apply wp_set_cache
  | |- wp _ (aprom _) _ _ => apply wp_aprom
  | |- wp _ (aworld (time_Sleep _)) _ _ => apply wp_asleep
  | |- wp _ (awsAPIErrInc _ _) _ _ => apply wp_awsAPIErrInc; intros ?
  | |- wp _ (awsUtilsErrInc _ _) _ _ => apply wp_awsUtilsErrInc; intros ?
  end; cbn [a_cache a_prom a_world].

(** ** The free device number *)

(** The device indices in use, as the code reads the answer of EC2. *)
Definition device_index (eni : option (option Z)) : Z := default 0 (default None eni).
Definition index_ok (eni : option (option Z)) : Prop :=
  is_Some eni ∧ 0 ≤ device_index eni ∧ device_index eni ≠ maxENIs.

Section device.
Context {W : Type} `{!World W, !IMDS W, !EC2 W}.

Definition marks (l : list (option (option Z))) (device : list bool) : Prop :=
  length device = Z.to_nat maxENIs ∧
  ∀ i, 0 ≤ i < maxENIs →
    device !! Z.to_nat i = Some (bool_decide (i ∈ device_index <$> l)).

Lemma marks_nil : marks [] (replicate (Z.to_nat maxENIs) false).
Proof. split; [by rewrite length_replicate|]. intros i Hi. by rewrite lookup_replicate_2 by lia. Qed.

Lemma mark_interface_spec E l device eni (s : AwsSt W) :
  marks l device → index_ok eni →
  wp E (mark_interface device eni) (λ d s', s' = s ∧ marks (l ++ [eni]) d) s.
Proof.
  intros [Hlen Hd] ([oi ->] & H0 & Hne). unfold mark_interface, device_index in *. simpl in *.
  assert (∀ i, i ≠ default 0 oi →
    bool_decide (i ∈ device_index <$> l ++ [Some oi]) = bool_decide (i ∈ device_index <$> l)) as Hother.
  { intros i Hi. apply bool_decide_ext. rewrite fmap_app, elem_of_app. simpl.
    rewrite list_elem_of_singleton. unfold device_index. simpl. naive_solver. }
  case_bool_decide as Hbig.
  - wp_steps. split; [done|]. split; [done|]. intros i Hi. rewrite Hother by lia. by apply Hd.
  - unfold mark_device. rewrite bool_decide_eq_true_2 by (unfold maxENIs in *; lia).
    wp_steps. split; [done|]. split; [by rewrite length_insert|]. intros i Hi.
    destruct (decide (i = default 0 oi)) as [->|Hi'].
    + rewrite list_lookup_insert_eq by (rewrite Hlen; unfold maxENIs in *; lia). f_equal. symmetry.
      apply bool_decide_eq_true_2. rewrite fmap_app. set_solver.
    + rewrite list_lookup_insert_ne by lia. rewrite Hother by done. by apply Hd.
Qed.

Lemma first_free_spec l device :
  marks l device →
  match first_free device with
  | Some i => (i < Z.to_nat maxENIs)%nat ∧ Z.of_nat i ∉ device_index <$> l ∧
      ∀ j, 0 ≤ j < Z.of_nat i → j ∈ device_index <$> l
  | None => ∀ j, 0 ≤ j < maxENIs → j ∈ device_index <$> l
  end.
Proof.
  intros [Hlen Hd]. unfold first_free. destruct (list_find _ device) as [[i b]|] eqn:Hf; simpl.
  - apply list_find_Some in Hf as (Hi & -> & Hmin).
    pose proof (lookup_lt_Some _ _ _ Hi) as Hlt. rewrite Hlen in Hlt. split; [done|].
    assert (0 ≤ Z.of_nat i < maxENIs) as Hr by lia. split.
    + specialize (Hd _ Hr). rewrite Nat2Z.id, Hi in Hd. injection Hd as Hd. symmetry in Hd.
      by apply bool_decide_eq_false in Hd.
    + intros j Hj. specialize (Hd j ltac:(lia)).
      destruct (decide (j ∈ device_index <$> l)) as [|Hn]; [done|]. exfalso.
      rewrite bool_decide_eq_false_2 in Hd by done. eapply Hmin; [exact Hd|lia|done].
  - intros j Hj. apply list_find_None in Hf. specialize (Hd j Hj).
    destruct (decide (j ∈ device_index <$> l)) as [|Hn]; [done|]. exfalso.
    rewrite bool_decide_eq_false_2 in Hd by done.
    apply list_elem_of_lookup_2 in Hd. by destruct (proj1 (Forall_forall _ _) Hf _ Hd).
Qed.

(** [awsGetFreeDeviceNumber] returns the least device number not in use: for
    an instance whose interfaces are attached at indices that are not negative
    and not 128 it does not panic, and its result is below 128, used by no
    interface, with every smaller number in use; it reports an error exactly
    when all 128 numbers are in use. *)
Theorem free_device_number_least inst (c : EC2InstanceMetadataCache) p (w w' : W) :
  DescribeInstances (instanceID c) w = (Some ([[inst]], None), w') →
  Forall index_ok inst →
  ∃ n err, awsGetFreeDeviceNumber (mkAwsSt c p w) = (Ret (n, err), mkAwsSt c p w') ∧
    (err = None ↔ ∃ j, 0 ≤ j < maxENIs ∧ j ∉ device_index <$> inst) ∧
    (err = None → 0 ≤ n < maxENIs ∧ n ∉ device_index <$> inst ∧
       ∀ j, 0 ≤ j < n → j ∈ device_index <$> inst).
Proof.
  intros Hdesc Hok.
  assert (wp False awsGetFreeDeviceNumber (λ r s', s' = mkAwsSt c p w' ∧ ∃ device, marks inst device ∧
    r = match first_free device with
        | Some i => (Z.of_nat i, None)
        | None => (0, Some (EStr "awsGetFreeDeviceNumber: no available device number"))
        end) (mkAwsSt c p w)) as (r & s' & Hrun & -> & device & Hm & ->)%wp_run.
  { unfold awsGetFreeDeviceNumber. wp_step. wp_step. apply wp_bind, wp_api; [by rewrite Hdesc|].
    intros [rs err] w1 Hd. rewrite Hdesc in Hd. simplify_eq. apply wp_bind.
    apply (wp_fold_loop _ _ _ _ (λ dn device s', s' = mkAwsSt c p w1 ∧ marks dn device)).
    - split; [done|apply marks_nil].
    - intros dn eni rest device s' Hl [-> Hm]. apply mark_interface_spec; [done|].
      subst inst. apply Forall_app in Hok as [_ Hok]. by inversion Hok.
    - intros device s' [-> Hm]. case_match eqn:Hff; wp_steps; (split; [done|]); exists device; by rewrite Hff. }
  pose proof (first_free_spec _ _ Hm) as Hff. destruct (first_free device) as [i|]; simpl.
  - destruct Hff as (Hlt & Hnot & Hall). eexists _, _. split; [exact Hrun|]. split.
    + split; [|done]. intros _. exists (Z.of_nat i). split; [lia|done].
    + intros _. split_and!; [lia|lia|done|done].
  - eexists _, _. split; [exact Hrun|]. split; [|done]. split; [done|].
    intros (j & Hj & Hnj). by destruct (Hnj (Hff j Hj)).
Qed.

(** the guard of that loop lets device index 128 through to an array of 128
    entries: with an interface attached at index 128 (and the ones before it in
    range) [awsGetFreeDeviceNumber] panics. *)
Theorem device_index_128_panics before after (c : EC2InstanceMetadataCache) p (w w' : W) :
  DescribeInstances (instanceID c) w = (Some ([[before ++ Some (Some maxENIs) :: after]], None), w') →
  Forall index_ok before →
  ∃ s', awsGetFreeDeviceNumber (mkAwsSt c p w) = (Panic "index out of range", s').
Proof.
  intros Hdesc Hok.
  assert (∀ l rest d, marks l d → Forall index_ok rest →
    ∃ s', fold_loop mark_interface d (rest ++ Some (Some maxENIs) :: after) (mkAwsSt c p w') =
          (Panic "index out of range", s')) as Hloop.
  { intros l rest. revert l. induction rest as [|eni rest IH]; intros l d Hm Hr; simpl.
    - eexists. unfold mbind, M_bind. simpl. reflexivity.
    - inversion Hr; subst.
      destruct (wp_run _ _ _ (mark_interface_spec False l d eni (mkAwsSt c p w') Hm H1))
        as (d' & s1 & Hrun & -> & Hm').
      rewrite (run_bind _ _ _ _ _ Hrun). by eapply IH. }
  destruct (Hloop [] before (replicate (Z.to_nat maxENIs) false)) as [s' Hs']; [apply marks_nil|done|].
  exists s'. unfold awsGetFreeDeviceNumber.
  rewrite (run_bind (cache instanceID) _ (mkAwsSt c p w) (instanceID c) (mkAwsSt c p w)) by done.
  rewrite (run_bind _ _ _ _ _ (api_run _ _ c p w w' Hdesc)). cbn beta iota.
  by apply run_bind_panic.
Qed.

End device.

Lemma index_ok_list l :
  forallb (λ i, (0 <=? i) && negb (i =? maxENIs)) l = true →
  Forall index_ok ((λ i, Some (Some i)) <$> l).
Proof.
  induction l as [|i l IH]; simpl; [done|]. intros [[H1 H2]%andb_true_iff H]%andb_true_iff.
  constructor; [|by apply IH]. unfold index_ok, device_index. simpl.
  apply negb_true_iff, Z.eqb_neq in H2. split; [by eexists|lia].
Qed.

Lemma free_device_number_least_witness :
  ∃ n err, awsGetFreeDeviceNumber (cloud_start (denied:=false) [0; 1; 3; 200] []) =
      (Ret (n, err), cloud_start [0; 1; 3; 200] []) ∧ n = 2 ∧ err = None.
Proof.
  destruct (free_device_number_least ((λ i : Z, Some (Some i)) <$> [0; 1; 3; 200]) zeroCache ∅
    (a_world (cloud_start (denied:=false) [0; 1; 3; 200] []))
    (a_world (cloud_start (denied:=false) [0; 1; 3; 200] []))) as (n & err & Hrun & _).
  { reflexivity. }
  { apply index_ok_list. vm_compute; reflexivity. }
  exists n, err. split; [exact Hrun|].
  assert (awsGetFreeDeviceNumber (cloud_start (denied:=false) [0; 1; 3; 200] []) =
    (Ret (2, None), cloud_start [0; 1; 3; 200] [])) as Hc by (vm_compute; reflexivity).
  assert (Ret (n, err) = Ret (2, None)) as [= -> ->]; [|split; reflexivity].
  transitivity (awsGetFreeDeviceNumber (cloud_start (denied:=false) [0; 1; 3; 200] [])).1;
    [symmetry; exact (f_equal fst Hrun)|exact (f_equal fst Hc)].
Defined.

Lemma device_index_128_panics_witness :
  ∃ s', awsGetFreeDeviceNumber (cloud_start (denied:=false) [0; 128] []) =
        (Panic "index out of range", s').
Proof.
  apply (device_index_128_panics [Some (Some 0)] [] zeroCache ∅ _
    (a_world (cloud_start (denied:=false) [0; 128] []))); [reflexivity|].
  apply (index_ok_list [0]). vm_compute; reflexivity.
Defined.

(** ** Deleting and freeing ENIs *)

Section free.
Context {W : Type} `{!World W, !IMDS W, !EC2 W} {env : Environ}.

(** The EC2 client returns from every call (its errors are values). *)
Definition answers : Prop :=
  (∀ id (w : W), (DeleteNetworkInterface id w).1 ≠ None) ∧
  (∀ a (w : W), (DetachNetworkInterface a w).1 ≠ None) ∧
  (∀ id (w : W), (DescribeNetworkInterfaces id w).1 ≠ None).

(** What EC2 documents of its ENIs and attachments: an ENI whose deletion it
    accepted, or that it says it cannot find, is not there; an attachment whose
    detachment it accepted is gone, and does not come back while the client waits
    or deletes. *)
Record ec2_enis (known attached : W → gset string) : Prop := {
  enis_deleted : ∀ id (w w' : W), DeleteNetworkInterface id w = (Some None, w') → id ∉ known w';
  enis_unknown : ∀ id (w w' : W) l e, DescribeNetworkInterfaces id w = (Some (l, Some e), w') →
    aws_code e = Some "InvalidNetworkInterfaceID.NotFound"%string → id ∉ known w';
  enis_detached : ∀ a (w w' : W), DetachNetworkInterface (Some a) w = (Some None, w') → a ∉ attached w';
  enis_sleep : ∀ d (w : W), attached (w_sleep d w) ⊆ attached w;
  enis_delete : ∀ id (w : W), attached (DeleteNetworkInterface id w).2 ⊆ attached w;
}.

Context (known attached : W → gset string) (Hec2 : ec2_enis known attached).

Lemma deleteENI_loop_spec fuel retry id sleep c p w :
  answers → maxENIDeleteRetries + 1 ≤ retry + Z.of_nat fuel → 0 ≤ retry ≤ maxENIDeleteRetries →
  wp False (deleteENI_loop fuel retry id sleep)
    (λ err s', a_cache s' = c ∧ (err = None → id ∉ known (a_world s')) ∧ attached (a_world s') ⊆ attached w ∧
       (err ≠ None → err = Some (EStr "unable to delete ENI, giving up"))) (mkAwsSt c p w).
Proof.
  intros Hans. revert retry p w. induction fuel as [|fuel IH]; intros retry p w Hf Hr; [lia|].
  cbn [deleteENI_loop]. cbn zeta. case_bool_decide as Hgt; [by wp_steps|].
  apply wp_bind, wp_api; [intros Hn; by apply Hans in Hn|]. intros err w' Hdel.
  pose proof (enis_delete _ _ Hec2 id w) as Hs. rewrite Hdel in Hs. simpl in Hs.
  destruct err as [e|]; [|wp_steps; split_and!; try done; intros _; by eapply enis_deleted].
  wp_step. wp_step. wp_step. wp_step. eapply wp_mono; [apply IH; lia|].
  intros r s' (? & ? & Hs' & ?). split_and!; try done. pose proof (enis_sleep _ _ Hec2 sleep w'). set_solver.
Qed.

Lemma detach_loop_spec fuel retry att sleep c p w :
  answers → maxENIDeleteRetries + 1 < retry + Z.of_nat fuel → 0 ≤ retry ≤ maxENIDeleteRetries →
  wp False (detach_loop fuel retry att sleep)
    (λ err s', a_cache s' = c ∧ (err = None → ∀ a, att = Some a → a ∉ attached (a_world s')) ∧
       (∀ e, err = Some e → e ≠ ErrENINotFound))
    (mkAwsSt c p w).
Proof.
  intros Hans. revert retry p w. induction fuel as [|fuel IH]; intros retry p w Hf Hr; [lia|].
  cbn [detach_loop]. rewrite bool_decide_eq_true_2 by lia.
  apply wp_bind, wp_api; [intros Hn; by apply Hans in Hn|]. intros err w' Hdet.
  destruct err as [e|]; [|wp_steps; split_and!; try done; intros _ a ->; by eapply enis_detached].
  wp_step. wp_step. case_bool_decide; [wp_steps; split_and!; [done|done|by intros ? [= <-]]|].
  wp_step. wp_step. apply IH; lia.
Qed.

(** The answer [DescribeENI] relies on: one interface, with an attachment. *)
Definition describe_ok (id : string) (w : W) : Prop :=
  ∀ w' l, DescribeNetworkInterfaces id w = (Some (l, None), w') →
    ∃ i rest a, l = i :: rest ∧ Attachment i = Some a.


(** an ENI that is not attached makes [DescribeENI], and so [FreeENI], panic:
    the nil attachment EC2 answers for it is dereferenced. *)
Theorem describe_unattached_panics id addrs rest c p (w w' : W) :
  DescribeNetworkInterfaces id w = (Some (mkNetworkInterface addrs None :: rest, None), w') →
  FreeENI id (mkAwsSt c p w) = (Panic "nil pointer dereference", mkAwsSt c p w').
Proof.
  intros Hd. unfold FreeENI, freeENI. apply run_bind_panic. unfold AwsUtils.DescribeENI.
  by rewrite (run_bind _ _ _ _ _ (api_run _ _ c p w w' Hd)).
Qed.

(** when the attribute of a new ENI cannot be changed and freeing the ENI
    succeeds, [AllocENI] reports success with the empty ENI id: the error of the
    attribute call is shadowed by the nil error of [FreeENI]. *)
Theorem alloc_eni_empty_success custom sg subnet id att e (s s1 s2 s3 s5 : AwsSt W) w4 :
  createENI custom sg subnet s = (Ret (id, None), s1) →
  tagENI id s1 = (Ret tt, s2) →
  attachENI id s2 = (Ret (att, None), s3) →
  ModifyNetworkInterfaceAttribute id att true (a_world s3) = (Some (Some e), w4) →
  FreeENI id ((awsAPIErrInc "ModifyNetworkInterfaceAttribute" e
                 (mkAwsSt (a_cache s3) (a_prom s3) w4)).2) = (Ret None, s5) →
  AllocENI custom sg subnet s = (Ret (""%string, None), s5).
Proof.
  intros Hc Ht Ha Hm Hf. unfold AllocENI.
  rewrite (run_bind _ _ _ _ _ Hc). cbn beta iota. rewrite (run_bind _ _ _ _ _ Ht). cbn beta iota.
  rewrite (run_bind _ _ _ _ _ Ha). cbn beta iota. destruct s3 as [c3 p3 w3]. cbn [a_cache a_prom a_world] in *.
  rewrite (run_bind _ _ _ _ _ (api_run _ _ c3 p3 w3 w4 Hm)). cbn beta iota.
  destruct (awsAPIErrInc "ModifyNetworkInterfaceAttribute" e (mkAwsSt c3 p3 w4)) as [r s4] eqn:Hinc.
  assert (r = Ret tt) as ->.
  { unfold awsAPIErrInc in Hinc. destruct (aws_code e); by injection Hinc. }
  rewrite (run_bind _ _ _ _ _ Hinc). cbn beta iota. rewrite (run_bind _ _ _ _ _ Hf). done.
Qed.

End free.

(** The cloud with an ENI to free. *)
Lemma Cloud_answers denied : answers (W:=Cloud denied).
Proof. split_and!; intros; simpl; congruence. Qed.

(** The ENIs of the cloud, and their attachments. *)
Definition cloud_known {denied} (w : Cloud denied) : gset string := dom (cl_interfaces w).
Definition cloud_attached {denied} (w : Cloud denied) : gset string :=
  list_to_set (omap (λ x, default None (Attachment x.2)) (map_to_list (cl_interfaces w))).

Lemma elem_of_attached {denied} (w : Cloud denied) a :
  a ∈ cloud_attached w ↔ ∃ id i, cl_interfaces w !! id = Some i ∧ Attachment i = Some (Some a).
Proof.
  unfold cloud_attached. rewrite elem_of_list_to_set, list_elem_of_omap. split.
  - intros ([id i] & Hin%elem_of_map_to_list & Ha). simpl in Ha. exists id, i. split; [done|].
    destruct (Attachment i); simpl in Ha; congruence.
  - intros (id & i & Hi & Ha). exists (id, i). split; [by apply elem_of_map_to_list|]. simpl. by rewrite Ha.
Qed.

Lemma Cloud_enis denied : ec2_enis (W:=Cloud denied) cloud_known cloud_attached.
Proof.
  split; [| | |done|].
  - intros id w w' [= <-]. unfold cloud_known. simpl. rewrite dom_delete_L. set_solver.
  - intros id w w' l e. simpl. destruct (cl_interfaces w !! id) eqn:Hi; [done|]. intros [= _ _ <-] _.
    by apply not_elem_of_dom.
  - intros a w w' [= <-] (id & i & Hi & Ha)%elem_of_attached. simpl in Hi.
    apply lookup_fmap_Some in Hi as (j & <- & _). case_bool_decide; [done|congruence].
  - intros id w a (j & i & Hi & Ha)%elem_of_attached. simpl in Hi. apply lookup_delete_Some in Hi as [_ Hi].
    apply elem_of_attached. eauto.
Qed.


Lemma describe_unattached_panics_witness :
  ∃ s', FreeENI "eni-5" (mkAwsSt zeroCache ∅
    (mkCloud (denied:=false) 0 [] {["eni-5"%string := mkNetworkInterface [] None]})) =
    (Panic "nil pointer dereference", s').
Proof. eexists. apply (describe_unattached_panics "eni-5" [] [] zeroCache ∅). vm_compute. reflexivity. Defined.

(** [AllocENI] in an account that may not modify attributes, step by step. *)
Definition denied_s0 : AwsSt (Cloud true) := cloud_start [0; 1] [].
Definition denied_s1 := (createENI false [] "" denied_s0).2.
Definition denied_s2 := (tagENI "eni-9" denied_s1).2.
Definition denied_s3 := (attachENI "eni-9" denied_s2).2.
Definition denied_s4 := (awsAPIErrInc "ModifyNetworkInterfaceAttribute" (EAws "UnauthorizedOperation" "denied")
  (mkAwsSt (a_cache denied_s3) (a_prom denied_s3) (a_world denied_s3))).2.
Definition denied_s5 := (FreeENI "eni-9" denied_s4).2.

Lemma alloc_eni_empty_success_witness :
  AllocENI false [] "" denied_s0 = (Ret (""%string, None), denied_s5).
Proof.
  apply (alloc_eni_empty_success false [] "" "eni-9" "attach-9" (EAws "UnauthorizedOperation" "denied")
    denied_s0 denied_s1 denied_s2 denied_s3 denied_s5 (a_world denied_s3));
    vm_compute; reflexivity.
Defined.

(** ** Addresses *)

#[local] Opaque InstanceIPsAvailable InstanceENIsAvailable.

Section addresses.
Context {W : Type} `{!World W, !IMDS W, !EC2 W} {env : Environ}.

(** [AllocIPAddresses] asks EC2 for at most as many addresses as the ENI can
    have besides its primary one, and makes no call when there is nothing to ask
    for; exceeding the limit of the ENI counts as success, any other failure is
    reported, and an unknown instance type is an error without a call. *)
Theorem alloc_addresses_capped id n c p (w : W) :
  match InstanceIPsAvailable !! instanceType c with
  | None => ∃ p', AllocIPAddresses id n (mkAwsSt c p w) =
      (Ret (Some (EStr UnknownInstanceType)), mkAwsSt c p' w)
  | Some limit =>
      let k := Z.min n (limit - 1) in
      if decide (k < 1) then AllocIPAddresses id n (mkAwsSt c p w) = (Ret None, mkAwsSt c p w)
      else ∀ err w', AssignPrivateIpAddresses id k w = (Some err, w') →
        ∃ p', AllocIPAddresses id n (mkAwsSt c p w) =
          (Ret (match err with
                | Some e => if containsPrivateIPAddressLimitExceededError e then None
                            else Some (EWrap e "allocate IP address: failed to allocate a private IP address")
                | None => None
                end), mkAwsSt c p' w')
  end.
Proof.
  assert (∀ {A} (m : M (AwsSt W) A) a w', wp False m (λ r s', r = a ∧ ∃ p', s' = mkAwsSt c p' w') (mkAwsSt c p w) →
    ∃ p', m (mkAwsSt c p w) = (Ret a, mkAwsSt c p' w')) as Hrun.
  { intros A m a w' (r & s' & H & -> & p' & ->)%wp_run. eauto. }
  destruct (InstanceIPsAvailable !! instanceType c) as [limit|] eqn:Hl.
  - cbn zeta.
    assert ((if bool_decide (limit - 1 < n) then limit - 1 else n) = Z.min n (limit - 1)) as Hk
      by (case_bool_decide; lia).
    destruct (decide (Z.min n (limit - 1) < 1)) as [Hd|Hd].
    + assert (GetENIipLimit (mkAwsSt c p w) = (Ret (limit - 1, None), mkAwsSt c p w)) as Hlim
        by (unfold GetENIipLimit, mbind, M_bind; simpl; by rewrite Hl).
      unfold AllocIPAddresses. rewrite (run_bind _ _ _ _ _ Hlim). cbn beta iota zeta.
      by rewrite Hk, bool_decide_eq_true_2.
    + intros err w' Ha. apply Hrun. unfold AllocIPAddresses, GetENIipLimit. apply wp_bind. wp_step. wp_step.
      rewrite Hl. wp_steps. rewrite Hk, bool_decide_eq_false_2 by done.
      apply wp_bind, wp_api; [by rewrite Ha|]. intros err' w1 Ha'. rewrite Ha in Ha'. injection Ha' as <- <-.
      destruct err as [e|]; wp_steps; [|eauto].
      destruct (containsPrivateIPAddressLimitExceededError e); wp_steps; eauto.
  - apply Hrun. unfold AllocIPAddresses, GetENIipLimit. apply wp_bind. wp_step. wp_step. rewrite Hl.
    wp_steps. eauto.
Qed.

(** for every instance type the tables know, an ENI can have at least one
    address for pods and the instance at least two ENIs; the two limits are known
    for the same types. *)
Theorem limits_known_together c p (w : W) :
  ∃ ips ipErr enis eniErr,
    GetENIipLimit (mkAwsSt c p w) = (Ret (ips, ipErr), mkAwsSt c p w) ∧
    GetENILimit (mkAwsSt c p w) = (Ret (enis, eniErr), mkAwsSt c p w) ∧
    (ipErr = None ↔ eniErr = None) ∧
    (ipErr = None → 1 ≤ ips ≤ 49 ∧ 2 ≤ enis ≤ 15).
Proof.
  unfold GetENIipLimit, GetENILimit, mbind, M_bind. simpl.
  destruct (InstanceIPsAvailable !! instanceType c) as [n|] eqn:Hn.
  - destruct (InstanceIPs_spec _ _ Hn) as [Hr [m Hm]]. rewrite Hm.
    destruct (InstanceENIs_spec _ _ Hm) as [Hr' _].
    eexists _, _, _, _. split; [reflexivity|]. split; [reflexivity|]. split; [tauto|]. intros _. lia.
  - destruct (InstanceENIsAvailable !! instanceType c) as [m|] eqn:Hm.
    + destruct (InstanceENIs_spec _ _ Hm) as [_ [n Hn']]. congruence.
    + eexists _, _, _, _. split; [reflexivity|]. split; [reflexivity|].
      split; [|discriminate]. split; discriminate.
Qed.

End addresses.

