(* ===== verification/AwsService.v ===== *)
(** * The EC2 client as the service behind the address manager

    [ipamd] sees [awsutils] through the interface [AwsAPIs] and relies on
    [ServicesOk].  Here the client of [AwsUtils] is an instance of the interface
    (its cache and counters travel with the world), the law is derived from what
    EC2 and the metadata service say about addresses ([VpcOk]), and the safety of
    the manager is restated for the two together. *)
From S2P Require Import Prelude GoStd DataStore DataStoreInv DataStoreSpec DataStoreProps Interfaces AwsLimits AwsUtils AwsUtilsProps Ipamd IpamdInv IpamdProps.

Open Scope Z_scope.

(** A method of the client as a call of the interface: a panic does not return. *)
Definition method {S A} (m : M S A) : ext S A := λ s,
  match m s with
  | (Ret a, s') => (Some a, s')
  | (_, s') => (None, s')
  end.

Section instance.
Context {W : Type} `{!World W, !IMDS W, !EC2 W} {env : Environ}.

#[global] Instance AwsSt_World : World (AwsSt W) := {
  w_now s := let '(t, w) := w_now (a_world s) in (t, mkAwsSt (a_cache s) (a_prom s) w);
  w_sleep d s := mkAwsSt (a_cache s) (a_prom s) (w_sleep d (a_world s));
  w_range A l s := let '(l', w) := w_range l (a_world s) in (l', mkAwsSt (a_cache s) (a_prom s) w);
}.

Lemma AwsSt_clock (s : AwsSt W) : clock s = clock (a_world s).
Proof. unfold clock. simpl. by destruct (w_now (a_world s)). Qed.

#[global] Instance AwsSt_WorldOk : WorldOk W → WorldOk (AwsSt W).
Proof.
  intros Hok. split; intros; rewrite ?AwsSt_clock; simpl.
  - pose proof (range_perm _ l (a_world w)). by destruct (w_range l (a_world w)).
  - pose proof (now_mono (a_world w)) as H. by destruct (w_now (a_world w)).
  - pose proof (range_mono _ l (a_world w)). by destruct (w_range l (a_world w)).
  - by apply sleep_mono.
Qed.

#[global] Instance AwsSt_AwsAPIs : AwsAPIs (AwsSt W) := {
  Interfaces.AllocENI b l s := method (AwsUtils.AllocENI b l s);
  Interfaces.FreeENI id := method (AwsUtils.FreeENI id);
  Interfaces.GetAttachedENIs := method AwsUtils.GetAttachedENIs;
  Interfaces.DescribeENI id := method (AwsUtils.DescribeENI id);
  Interfaces.AllocIPAddresses id n := method (AwsUtils.AllocIPAddresses id n);
  Interfaces.DeallocIPAddresses id l := method (AwsUtils.DeallocIPAddresses id l);
  Interfaces.GetVPCIPv4CIDR := method AwsUtils.GetVPCIPv4CIDR;
  Interfaces.GetVPCIPv4CIDRs := method AwsUtils.GetVPCIPv4CIDRs;
  Interfaces.GetLocalIPv4 := method AwsUtils.GetLocalIPv4;
  Interfaces.GetPrimaryENI := method AwsUtils.GetPrimaryENI;
  Interfaces.GetENIipLimit := method AwsUtils.GetENIipLimit;
  Interfaces.GetENILimit := method AwsUtils.GetENILimit;
  Interfaces.GetPrimaryENImac := method AwsUtils.GetPrimaryENImac;
}.

(** The interfaces that are not about EC2 act on the world below the client. *)
Definition below {A} (f : ext W A) : ext (AwsSt W) A := λ s,
  let '(o, w) := f (a_world s) in (o, mkAwsSt (a_cache s) (a_prom s) w).

#[global] Instance AwsSt_Network `{!NetworkAPIs W} : NetworkAPIs (AwsSt W) := {
  Rule := Rule (W:=W);
  SetupHostNetwork v l m p := below (SetupHostNetwork v l m p);
  SetupENINetwork ip mac t c := below (SetupENINetwork ip mac t c);
  UseExternalSNAT := below UseExternalSNAT;
  GetExcludeSNATCIDRs := below GetExcludeSNATCIDRs;
  GetRuleList := below GetRuleList;
  UpdateRuleListBySrc r s l b := below (UpdateRuleListBySrc r s l b);
}.

#[global] Instance AwsSt_K8S `{!K8SAPIs W} : K8SAPIs (AwsSt W) := {
  K8SGetLocalPodIPs := below K8SGetLocalPodIPs;
}.

#[global] Instance AwsSt_ENIConfig `{!ENIConfigAPI W} : ENIConfigAPI (AwsSt W) := {
  MyENIConfig := below MyENIConfig;
}.

#[global] Instance AwsSt_Requests `{!Requests W} : Requests (AwsSt W) := {
  w_rpcs s := let '(l, w) := w_rpcs (a_world s) in (l, mkAwsSt (a_cache s) (a_prom s) w);
}.

(** What EC2 and the metadata service say about addresses: those listed for an
    interface belong to it, during the whole run (as in [ServicesOk]). *)
Class VpcOk (own : string → string) : Prop := {
  imds_own : ∀ mac (w1 w1' w2 w2' : W) eni ips,
    GetMetadata (metadataMACPath +:+ mac +:+ metadataInterface) w1 = (Some (eni, None), w1') →
    GetMetadata (metadataMACPath +:+ mac +:+ metadataIPv4s) w2 = (Some (ips, None), w2') →
    ∀ ip, ip ∈ Fields ips → own ip = eni;
  ec2_own : ∀ id (w w' : W) i rest,
    DescribeNetworkInterfaces id w = (Some (i :: rest, None), w') →
    ∀ a, a ∈ PrivateIpAddresses i →
      StringValue (PrivateIpAddress a) ≠ ""%string ∧ own (StringValue (PrivateIpAddress a)) = id;
}.

Context (own : string → string) `{!VpcOk own}.

Definition md_own (m : ENIMetadata) : Prop :=
  ∀ ip, ip ∈ LocalIPv4s m → ip ≠ ""%string ∧ own ip = ENIID m.

Lemma wp_metadata E path msg Q c p w :
  ((GetMetadata path w).1 = None → E) →
  (∀ v w', GetMetadata path w = (Some (v, None), w') → Q (inl v) (mkAwsSt c p w')) →
  (∀ e p' w', Q (inr e) (mkAwsSt c p' w')) →
  wp E (metadata path msg) Q (mkAwsSt c p w).
Proof.
  intros HE Hv He. unfold metadata. apply wp_bind, wp_api; [done|]. intros [v [e|]] w' Hw; wp_steps; auto.
Qed.

Lemma Fields_nonempty s x : x ∈ Fields s → x ≠ ""%string.
Proof.
  unfold Fields. destruct (split_aux is_space s) as [w ws].
  by intros [H _]%list_elem_of_filter.
Qed.

Lemma getENIDeviceNumber_spec mac c p w :
  wp True (getENIDeviceNumber mac) (λ '(eni, _, err) s', a_cache s' = c ∧
    (err = None → ∃ w1 w2,
       GetMetadata (metadataMACPath +:+ mac +:+ metadataInterface) w1 = (Some (eni, None), w2)))
    (mkAwsSt c p w).
Proof.
  unfold getENIDeviceNumber. apply wp_bind, wp_metadata; [done| |by intros; wp_steps].
  intros v w1 _. destruct (ParseInt v 0 32); [|by wp_steps].
  apply wp_bind, wp_metadata; [done| |by intros; wp_steps]. intros eni w2 Heni.
  wp_steps. case_bool_decide; wp_steps; eauto.
Qed.

Lemma getIPsAndCIDR_spec mac c p w :
  wp True (getIPsAndCIDR mac) (λ '(ips, _, err) s', a_cache s' = c ∧
    (err = None → ∃ w1 w2 v, ips = Fields v ∧
       GetMetadata (metadataMACPath +:+ mac +:+ metadataIPv4s) w1 = (Some (v, None), w2)))
    (mkAwsSt c p w).
Proof.
  unfold getIPsAndCIDR. apply wp_bind, wp_metadata; [done| |by intros; wp_steps].
  intros v w1 _. apply wp_bind, wp_metadata; [done| |by intros; wp_steps]. intros ips w2 Hips.
  wp_steps. eauto 6.
Qed.

Lemma getENIMetadata_spec mac c p w :
  wp True (getENIMetadata mac) (λ '(m, err) s', a_cache s' = c ∧ (err = None → md_own m)) (mkAwsSt c p w).
Proof.
  unfold getENIMetadata. cbn zeta. set (eniMAC := default ""%string _).
  apply wp_bind. eapply wp_mono; [apply getENIDeviceNumber_spec|].
  intros [[eni n] [e|]] [c1 p1 w1] [Hc1 Heni]; simpl in Hc1; subst c1; [by wp_steps|].
  destruct (Heni eq_refl) as (w2 & w3 & Hi). apply wp_bind.
  eapply wp_mono; [apply getIPsAndCIDR_spec|].
  intros [[ips cidr] [e|]] [c4 p4 w4] [Hc4 Hips]; simpl in Hc4; subst c4; [by wp_steps|].
  destruct (Hips eq_refl) as (w5 & w6 & v & -> & Hv). wp_steps. split; [done|].
  intros _ ip Hip. simpl in *. split; [by eapply Fields_nonempty|by eapply imds_own].
Qed.

Lemma attached_loop_spec l enis c p w :
  Forall md_own enis →
  wp True (attached_loop l enis) (λ '(r, err) s', a_cache s' = c ∧ (err = None → Forall md_own r))
    (mkAwsSt c p w).
Proof.
  revert enis p w. induction l as [|mac l IH]; intros enis p w Henis; cbn [attached_loop]; [by wp_steps|].
  apply wp_bind. eapply wp_mono; [apply getENIMetadata_spec|].
  intros [m [e|]] [c1 p1 w1] [Hc1 Hm]; simpl in Hc1; subst c1; [by wp_steps|].
  apply IH. apply Forall_app. split; [done|]. constructor; [by apply Hm|done].
Qed.

(** The promise [ipamd] relies on. *)
#[global] Instance AwsSt_services : ServicesOk (AwsSt W) own.
Proof.
  split.
  - intros [c p w] s' l Hrun m ip Hm Hip.
    assert (wp True AwsUtils.GetAttachedENIs (λ r _, r.2 = None → Forall md_own r.1) (mkAwsSt c p w)) as Hwp.
    { unfold AwsUtils.GetAttachedENIs. apply wp_bind, wp_metadata; [done| |by intros; wp_steps].
      intros macs w1 _. wp_steps. eapply wp_mono; [by apply attached_loop_spec|].
      intros [r err] s2 [_ H]. done. }
    simpl in Hrun. unfold method in Hrun.
    destruct (AwsUtils.GetAttachedENIs _) as [[r| |] s1] eqn:Hr; simplify_eq.
    pose proof (wp_elim _ _ _ _ _ _ Hwp Hr eq_refl) as Hl.
    by apply (proj1 (Forall_forall _ _) Hl m).
  - intros id [c p w] s' l o Hrun a Ha.
    assert (wp True (AwsUtils.DescribeENI id) (λ r _, r.2 = None → ∀ a, a ∈ r.1.1 →
      StringValue (PrivateIpAddress a) ≠ ""%string ∧
      own (StringValue (PrivateIpAddress a)) = id) (mkAwsSt c p w)) as Hwp.
    { unfold AwsUtils.DescribeENI. apply wp_bind, wp_api; [done|]. intros [found err] w1 Hd.
      destruct err as [e|]; [case_bool_decide; by wp_steps|].
      destruct found as [|i rest]; [by apply wp_panic|]. destruct (Attachment i); [|by apply wp_panic].
      wp_steps. intros _. by eapply ec2_own. }
    simpl in Hrun. unfold method in Hrun.
    destruct (AwsUtils.DescribeENI id _) as [[r| |] s1] eqn:Hr; simplify_eq.
    exact (wp_elim _ _ _ _ _ _ Hwp Hr eq_refl a Ha).
Qed.

End instance.

(** ** What [GetAttachedENIs] reads

    With metadata that stay as they are during the call ([md] says what is under
    a path, or how reading it fails), the loops and early returns of
    [GetAttachedENIs] come to one expression over them. *)
Section attached.
Context {W : Type} `{!World W, !IMDS W, !EC2 W} {env : Environ}.
Context (md : string → string + error).

Definition metadata_fixed : Prop := ∀ path (w : W), ∃ w',
  GetMetadata path w =
    (Some (match md path with inl v => (v, None) | inr e => (""%string, Some e) end), w').

Definition md_value (path : string) : option string :=
  match md path with inl v => Some v | inr _ => None end.

(** One ENI, by its MAC address: device number 0 for the primary one, and one more
    than its device index for the others. *)
Definition eni_of_metadata (prim mac : string) : option ENIMetadata :=
  dev ← md_value (metadataMACPath +:+ mac +:+ metadataDeviceNum); n ← ParseInt dev 0 32;
  eni ← md_value (metadataMACPath +:+ mac +:+ metadataInterface);
  cidr ← md_value (metadataMACPath +:+ mac +:+ metadataSubnetCIDR);
  ips ← md_value (metadataMACPath +:+ mac +:+ metadataIPv4s);
  Some (mkENIMetadata eni mac (if decide (prim = eni) then 0 else n + 1) cidr (Fields ips)).

(** The MAC addresses are listed with a slash at the end. *)
Definition attached_of_metadata (prim : string) : option (list ENIMetadata) :=
  macs ← md_value metadataMACPath;
  mapM (λ m, eni_of_metadata prim (default ""%string (head (Split m "/")))) (Fields macs).

Context (Hmd : metadata_fixed).

Lemma wp_fixed path msg Q c p w :
  (∀ p' w', Q (match md path with inl v => inl v | inr e => inr (EWrap e msg) end) (mkAwsSt c p' w')) →
  wp False (metadata path msg) Q (mkAwsSt c p w).
Proof.
  intros HQ. destruct (Hmd path w) as [w' Hw]. unfold metadata.
  apply wp_bind, wp_api; [by rewrite Hw|]. intros [v err] w1 Hw1. rewrite Hw in Hw1.
  destruct (md path) as [v'|e]; injection Hw1 as <- <- <-; wp_steps; apply HQ.
Qed.

Lemma getIPsAndCIDR_exact m c p w :
  wp False (getIPsAndCIDR m) (λ r s', a_cache s' = c ∧
    match md_value (metadataMACPath +:+ m +:+ metadataSubnetCIDR), md_value (metadataMACPath +:+ m +:+ metadataIPv4s) with
    | Some cidr, Some ips => r = (Fields ips, cidr, None)
    | _, _ => r.2 ≠ None
    end) (mkAwsSt c p w).
Proof.
  unfold getIPsAndCIDR, md_value. apply wp_bind, wp_fixed. intros p1 w1.
  destruct (md (metadataMACPath +:+ m +:+ metadataSubnetCIDR)) as [cidr|e]; simpl; [|by wp_steps].
  apply wp_bind, wp_fixed. intros p2 w2.
  destruct (md (metadataMACPath +:+ m +:+ metadataIPv4s)) as [ips|e]; simpl; by wp_steps.
Qed.

Lemma getENIDeviceNumber_exact m c p w :
  wp False (getENIDeviceNumber m) (λ r s', a_cache s' = c ∧
    match md_value (metadataMACPath +:+ m +:+ metadataDeviceNum) ≫= (λ dev, ParseInt dev 0 32),
          md_value (metadataMACPath +:+ m +:+ metadataInterface) with
    | Some n, Some eni => r = (eni, if decide (primaryENI c = eni) then 0 else n + 1, None)
    | _, _ => r.2 ≠ None
    end) (mkAwsSt c p w).
Proof.
  unfold getENIDeviceNumber, md_value. apply wp_bind, wp_fixed. intros p1 w1.
  destruct (md (metadataMACPath +:+ m +:+ metadataDeviceNum)) as [dev|e]; simpl; [|by wp_steps].
  destruct (ParseInt dev 0 32) as [n|]; simpl; [|by wp_steps]. apply wp_bind, wp_fixed. intros p2 w2.
  destruct (md (metadataMACPath +:+ m +:+ metadataInterface)) as [eni|e]; simpl; [|by wp_steps].
  wp_steps. case_bool_decide; wp_steps; [by rewrite decide_True|by rewrite decide_False].
Qed.

Lemma getENIMetadata_exact mac c p w :
  wp False (getENIMetadata mac) (λ r s', a_cache s' = c ∧
    match eni_of_metadata (primaryENI c) (default ""%string (head (Split mac "/"))) with
    | Some m => r = (m, None)
    | None => r.2 ≠ None
    end) (mkAwsSt c p w).
Proof.
  unfold getENIMetadata, eni_of_metadata. cbn zeta. set (m := default ""%string _).
  apply wp_bind. eapply wp_mono; [apply getENIDeviceNumber_exact|].
  intros [[eni n] err] [c1 p1 w1] [Hc Hd]. simpl in Hc. subst c1.
  destruct (md_value (metadataMACPath +:+ m +:+ metadataDeviceNum)) as [dev|]; simpl in *; [|by destruct err; wp_steps].
  destruct (ParseInt dev 0 32) as [k|]; simpl in *; [|by destruct err; wp_steps].
  destruct (md_value (metadataMACPath +:+ m +:+ metadataInterface)) as [eni'|]; simpl in *; [|by destruct err; wp_steps].
  injection Hd as -> -> ->. apply wp_bind. eapply wp_mono; [apply getIPsAndCIDR_exact|].
  intros [[ips cidr] err] [c2 p2 w2] [Hc Hi]. simpl in Hc. subst c2.
  destruct (md_value (metadataMACPath +:+ m +:+ metadataSubnetCIDR)) as [cidr'|]; simpl in *; [|by destruct err; wp_steps].
  destruct (md_value (metadataMACPath +:+ m +:+ metadataIPv4s)) as [ips'|]; simpl in *; [|by destruct err; wp_steps].
  injection Hi as -> -> ->. by wp_steps.
Qed.

Lemma attached_loop_exact l enis c p w :
  wp False (attached_loop l enis) (λ r s', a_cache s' = c ∧
    match mapM (λ m, eni_of_metadata (primaryENI c) (default ""%string (head (Split m "/")))) l with
    | Some ms => r = (enis ++ ms, None)
    | None => r.1 = [] ∧ r.2 ≠ None
    end) (mkAwsSt c p w).
Proof.
  revert enis p w. induction l as [|mac l IH]; intros enis p w; cbn [attached_loop].
  { wp_steps. simpl. by rewrite app_nil_r. }
  apply wp_bind. eapply wp_mono; [apply getENIMetadata_exact|].
  intros [m err] [c1 p1 w1] [Hc Hm]. simpl in Hc. subst c1. cbn [mapM].
  destruct (eni_of_metadata (primaryENI c) _) as [m'|]; simpl.
  - injection Hm as -> ->. eapply wp_mono; [apply IH|]. intros r s' [Hc Hr]. split; [done|].
    destruct (mapM _ l) as [ms|]; simpl; [|done]. by rewrite Hr, <-app_assoc.
  - destruct err as [e|]; [|done]. by wp_steps.
Qed.

(** C30: with metadata that do not change meanwhile, [GetAttachedENIs] is the
    function [attached_of_metadata] of them: when all that is needed can be read,
    it returns exactly one entry for each MAC address listed, in order, with the
    ENI, the device number (0 for the primary ENI, else one more than the index),
    the CIDR and the addresses under that MAC; otherwise it returns an error and no
    ENI.  It always ends, and changes nothing of the client but the number of ENIs
    it has seen. *)
Theorem attached_enis_exact (s : AwsSt W) :
  ∃ r s', AwsUtils.GetAttachedENIs s = (Ret r, s') ∧
    match attached_of_metadata (primaryENI (a_cache s)) with
    | Some ms => r = (ms, None)
    | None => r.1 = [] ∧ r.2 ≠ None
    end ∧
    a_cache s' = match md_value metadataMACPath with
                 | Some macs => set_currentENIs (Z.of_nat (length (Fields macs))) (a_cache s)
                 | None => a_cache s
                 end.
Proof.
  destruct s as [c p w]. apply wp_run. unfold AwsUtils.GetAttachedENIs, attached_of_metadata, md_value.
  apply wp_bind, wp_fixed. intros p1 w1. destruct (md metadataMACPath) as [macs|e]; simpl; [|by wp_steps].
  wp_steps. eapply wp_mono; [apply attached_loop_exact|].
  intros r s' [Hc Hr]. split; [|done]. by destruct (mapM _ (Fields macs)).
Qed.

End attached.

(** ** The manager on top of the client *)

Section daemon.
Context {W : Type} `{!World W} `{!WorldOk W} `{!IMDS W, !EC2 W} {env : Environ}.
Context `{!NetworkAPIs W, !K8SAPIs W, !ENIConfigAPI W, !Requests W}.
Context (own : string → string) `{!VpcOk (W:=W) own}.

(** The address manager together with the real EC2 client, over any EC2 and
    metadata service that list an address for one interface only, the same one
    during the whole run:
    what the client reports keeps that promise, so that any number of turns of
    the manager, with pods added and released meanwhile, leaves every pod with an
    address of its own that is assigned in the pool on the ENI whose device
    number the pod was given, and ends unless a service does not answer. *)
Theorem daemon_keeps_pods_safe n (s : IpamSt (AwsSt W)) :
  sound own s →
  ServicesOk (AwsSt W) own ∧
  match StartNodeIPPoolManager n s with
  | (Ret _, s') =>
      sound own s' ∧
      (∀ k k' i i', podsIP (dataStore (i_ctx s')) !! k = Some i →
         podsIP (dataStore (i_ctx s')) !! k' = Some i' → IP i = IP i' → k = k') ∧
      (∀ k i, podsIP (dataStore (i_ctx s')) !! k = Some i →
         ∃ id a, addr_of (dataStore (i_ctx s')) id (IP i) = Some a ∧ Assigned a = true ∧
           dev_of (dataStore (i_ctx s')) id = Some (pi_DeviceNumber i))
  | (Panic _, _) => crash (W:=AwsSt W)
  | (NoFuel, _) => False
  end.
Proof.
  intros Hs. split; [apply _|]. pose proof (StartNodeIPPoolManager_safe own n s Hs) as Hrun.
  unfold wp in Hrun. destruct (StartNodeIPPoolManager n s) as [[a| |] s']; [|done..].
  destruct Hrun as [Hs' _]. split; [done|]. by eapply sound_pods.
Qed.

End daemon.

(** ** The two over the concrete cloud *)

Lemma cloud_ipv4s k v mac :
  (k, v) ∈ cloud_metadata → k = (metadataMACPath +:+ mac +:+ metadataIPv4s)%string →
  mac = "m1"%string ∧ v = "1.0.0.1 1.0.0.2"%string ∨ mac = "m2"%string ∧ v = "2.0.0.1 2.0.0.2"%string.
Proof.
  revert k v. cut (Forall (λ kv : string * string, kv.1 = (metadataMACPath +:+ mac +:+ metadataIPv4s)%string →
    mac = "m1"%string ∧ kv.2 = "1.0.0.1 1.0.0.2"%string ∨
    mac = "m2"%string ∧ kv.2 = "2.0.0.1 2.0.0.2"%string) cloud_metadata).
  { intros H k v Hk. exact (proj1 (Forall_forall _ _) H _ Hk). }
  unfold metadataMACPath, metadataIPv4s. unfold cloud_metadata.
  repeat (apply Forall_cons_2; [intros Hk; simpl in *|]); [..|apply Forall_nil_2].
  all: try discriminate Hk; injection Hk as Hk.
  all: repeat (destruct mac as [|? mac]; simpl in Hk; try discriminate Hk; try (injection Hk as <- Hk); eauto).
Qed.

#[global] Instance Cloud_VpcOk denied : VpcOk (W:=Cloud denied) cloud_own.
Proof.
  split.
  - intros mac w1 w1' w2 w2' eni ips Heni Hips ip Hip. cbn [GetMetadata Cloud_IMDS] in *.
    destruct (list_find (λ kv, kv.1 = _ +:+ _ +:+ metadataIPv4s) _) as [[i [k v]]|] eqn:Hf;
      [|by injection Hips].
    injection Hips as -> _. apply list_find_Some in Hf as (Hk%list_elem_of_lookup_2 & Heq & _).
    destruct (cloud_ipv4s _ _ _ Hk Heq) as [[-> ->]|[-> ->]]; vm_compute in Heni, Hip; injection Heni as <- _;
      repeat (apply elem_of_cons in Hip as [->|Hip]; [reflexivity|]); by apply elem_of_nil in Hip.
  - intros id w w' i rest Hd a Ha. simpl in Hd. destruct (cl_interfaces w !! id); [|done].
    injection Hd as <- _ _. by apply list_elem_of_filter in Ha as [? _].
Qed.

#[global] Instance Cloud_Network denied : NetworkAPIs (Cloud denied) := {
  Rule := unit;
  SetupHostNetwork _ _ _ _ w := (Some None, w);
  SetupENINetwork _ _ _ _ w := (Some None, w);
  UseExternalSNAT w := (Some false, w);
  GetExcludeSNATCIDRs w := (Some [], w);
  GetRuleList w := (Some ([], None), w);
  UpdateRuleListBySrc _ _ _ _ w := (Some None, w);
}.

#[global] Instance Cloud_K8S denied : K8SAPIs (Cloud denied) := {
  K8SGetLocalPodIPs w := (Some ([], None), w);
}.

#[global] Instance Cloud_ENIConfig denied : ENIConfigAPI (Cloud denied) := {
  MyENIConfig w := (Some (mkENIConfigSpec ["sg-1"%string] "subnet-1", None), w);
}.

(** Pods keep coming. *)
#[global] Instance Cloud_Requests denied : Requests (Cloud denied) := {
  w_rpcs w := ([RpcAdd "web" "default" "c1"], w);
}.

(** The daemon after a start ([AwsUtils.New] fills the cache of the client) and a
    first pass over the attached ENIs. *)
Definition cloud_boot : IpamSt (AwsSt (Cloud false)) :=
  mkIpamSt (mkIPAMContext NewDataStore false 30 2 1 0 ∅ (- 60 * Minute) (- 60 * Minute) ∅) ∅
    ((AwsUtils.New (cloud_start [0; 1] ["eni-1"%string; "eni-2"%string])).2).
Definition cloud_daemon : IpamSt (AwsSt (Cloud false)) := (nodeIPPoolReconcile 0 cloud_boot).2.

Lemma run_ret {S A} (m : M S A) s a : (m s).1 = Ret a → m s = (Ret a, (m s).2).
Proof. destruct (m s). simpl. congruence. Qed.

Lemma cloud_daemon_sound : sound cloud_own cloud_daemon.
Proof.
  assert ((nodeIPPoolReconcile 0 cloud_boot).1 = Ret tt) as Hr by (vm_compute; reflexivity).
  exact (proj1 (wp_elim _ _ _ _ _ _
    (nodeIPPoolReconcile_safe cloud_own 0 cloud_boot (good_new _)) (run_ret _ _ _ Hr))).
Qed.

Lemma daemon_keeps_pods_safe_witness :
  sound cloud_own cloud_daemon ∧
  match StartNodeIPPoolManager 2 cloud_daemon with
  | (Ret _, s') => sound cloud_own s' ∧ len (podsIP (dataStore (i_ctx s'))) = 1
  | _ => False
  end.
Proof.
  split; [exact cloud_daemon_sound|].
  pose proof (daemon_keeps_pods_safe cloud_own 2 cloud_daemon cloud_daemon_sound) as [_ H].
  assert (len (podsIP (dataStore (i_ctx (StartNodeIPPoolManager 2 cloud_daemon).2))) = 1) as Hl
    by (vm_compute; reflexivity).
  assert ((StartNodeIPPoolManager 2 cloud_daemon).1 = Ret tt) as Ha by (vm_compute; reflexivity).
  revert H Hl Ha. destruct (StartNodeIPPoolManager 2 cloud_daemon) as [[b| |] s'];
    intros H Hl [=]. split; [exact (proj1 H)|exact Hl].
Defined.

(** The metadata of the cloud: two ENIs, the first one primary. *)
Definition cloud_md (path : string) : string + error :=
  match list_find (λ kv, kv.1 = path) cloud_metadata with
  | Some (_, (_, v)) => inl v
  | None => inr (EAws "EC2MetadataError" "failed to make EC2Metadata request")
  end.

Lemma cloud_md_fixed : metadata_fixed (W:=Cloud false) cloud_md.
Proof.
  intros path w. exists w. unfold cloud_md. cbn [GetMetadata Cloud_IMDS].
  by destruct (list_find _ _) as [[? []]|].
Qed.

Lemma attached_enis_exact_witness :
  (λ m, (ENIID m, md_DeviceNumber m, LocalIPv4s m)) <$> default [] (attached_of_metadata cloud_md "eni-1") =
    [("eni-1", 0, ["1.0.0.1"; "1.0.0.2"]); ("eni-2", 2, ["2.0.0.1"; "2.0.0.2"])]%string ∧
  ∃ r s', AwsUtils.GetAttachedENIs (i_world cloud_boot) = (Ret r, s') ∧
    r = (default [] (attached_of_metadata cloud_md "eni-1"), None).
Proof.
  split; [vm_compute; reflexivity|].
  destruct (attached_enis_exact cloud_md cloud_md_fixed (i_world cloud_boot)) as (r & s' & Hr & Hm & _).
  exists r, s'. split; [exact Hr|]. revert Hm. vm_compute. exact (λ H, H).
Defined.
