(* ===== verification/PoolGrowth.v ===== *)
(** * The pool grows: tryAssignIPs and increaseIPPool of ipamd.go

    Against an EC2 that does what it says, [tryAssignIPs] fills an ENI: the store
    and EC2 stay in step, and the number of addresses rises by what was asked
    for.  EC2 is seen through the secondary addresses of each ENI.  First for any
    client that keeps to [HonestEC2], then for the client of awsutils.go over what
    EC2 documents of its calls. *)
From S2P Require Import Prelude GoStd AwsLimits AwsUtils AwsUtilsProps DataStore DataStoreInv DataStoreSpec DataStoreProps Interfaces Ipamd IpamdInv IpamdQuiet IpamdProps AwsService.

Open Scope Z_scope.

(** The secondary addresses a description of an ENI lists. *)
Definition secondaries (l : list EC2Address) : gset string :=
  list_to_set (StringValue ∘ PrivateIpAddress <$> filter (λ a, BoolValue (Primary a) = false) l).

Section growth.
Context {W : Type} `{!World W} `{!WorldOk W}.
Context `{!AwsAPIs W, !NetworkAPIs W, !K8SAPIs W, !ENIConfigAPI W, !Requests W} `{!Quiet W}.
Context `{!ServiceClock W} (secondary : W → string → gset string) (limit : W → Z).

Definition same_ec2 (w w' : W) : Prop := secondary w' = secondary w ∧ limit w' = limit w.

(** What the pool manager needs of the client of EC2 ([client_honest] below shows
    it of the client of awsutils.go): a description lists the addresses of the
    ENI; an allocation that the ENI has room for, with its [limit] of secondary
    addresses, and that is reported as successful adds as many new ones as were
    asked for, to that ENI only; and a failed call changes nothing.  Nothing is
    said of an allocation beyond the limit, for which the client asks for less
    than it was told, or reports success although EC2 added nothing. *)
Class HonestEC2 : Prop := {
  #[global] ec2_frame :: Frame same_ec2;
  ec2_describe : ∀ id (w w' : W) l o, DescribeENI id w = (Some (l, o, None), w') →
    secondaries l = secondary w id;
  ec2_describe_same : ∀ id (w : W), same_ec2 w (DescribeENI id w).2;
  ec2_alloc : ∀ id n (w w' : W), 0 < n → Z.of_nat (size (secondary w id)) + n ≤ limit w →
    AllocIPAddresses id n w = (Some None, w') →
    secondary w id ⊆ secondary w' id ∧
    Z.of_nat (size (secondary w' id)) = Z.of_nat (size (secondary w id)) + n ∧
    (∀ j, j ≠ id → secondary w' j = secondary w j) ∧ limit w' = limit w;
  ec2_alloc_err : ∀ id n (w w' : W) e, AllocIPAddresses id n w = (Some (Some e), w') → same_ec2 w w';
}.

Context `{!HonestEC2}.

(** The store has, for each of its ENIs, the addresses EC2 has. *)
Definition in_step (ds : DataStore) (w : W) : Prop :=
  ∀ id e, eniIPPools ds !! id = Some e → dom (IPv4Addresses e) = secondary w id.

(** From [ds] to [ds'] the ENI [id] has got the addresses [new]; nothing else has
    changed. *)
Record filled (id : string) (new : gset string) (ds ds' : DataStore) : Prop := {
  filled_wf : ds_wf ds';
  filled_eni : ∃ e e', eniIPPools ds !! id = Some e ∧ eniIPPools ds' !! id = Some e' ∧
    dom (IPv4Addresses e') = dom (IPv4Addresses e) ∪ new ∧
    total ds' = total ds + (len (IPv4Addresses e') - len (IPv4Addresses e));
  filled_other : ∀ j, j ≠ id → eniIPPools ds' !! j = eniIPPools ds !! j;
  filled_pods : podsIP ds' = podsIP ds ∧ assigned ds' = assigned ds;
}.

Lemma filled_refl id ds e : ds_wf ds → eniIPPools ds !! id = Some e → filled id ∅ ds ds.
Proof. intros Hwf He. split; try done. exists e, e. split_and!; [done|done|set_solver|lia]. Qed.

Lemma filled_step id ip new ds ds1 p err ds2 p2 :
  filled id new ds ds1 → addip_outcome id ip (ds1, p) err (ds2, p2) → filled id (new ∪ {[ip]}) ds ds2.
Proof.
  intros [Hwf (e & e1 & He & He1 & Hd & Ht) Ho [Hp Ha]] Hout. pose proof (addip_wf _ _ _ _ _ _ _ Hout Hwf) as Hwf2.
  inversion Hout as [? ? Hn|? ? e2 a He2 Hip|? ? e2 He2 Hip]; subst.
  - congruence.
  - split; [done| |done|done]. exists e, e1. split_and!; try done. rewrite He1 in He2. injection He2 as ->.
    apply elem_of_dom_2 in Hip. set_solver.
  - rewrite He1 in He2. injection He2 as <-. split; [done| | |done].
    + eexists e, _. split; [done|]. split; [apply lookup_insert_eq|]. simpl. split.
      * rewrite dom_insert_L. set_solver.
      * rewrite len_insert_new by done. lia.
    + intros j Hj. simpl. rewrite lookup_insert_ne by done. by apply Ho.
Qed.

(** [addENIaddressesToDataStore] adds the secondary addresses of the list. *)
Lemma addENIaddresses_fills E l id c p w :
  ds_wf (dataStore c) → is_Some (eniIPPools (dataStore c) !! id) →
  wp E (addENIaddressesToDataStore l id)
    (λ _ s', ∃ ds', i_ctx s' = set_dataStore ds' c ∧ i_world s' = w ∧ filled id (secondaries l) (dataStore c) ds')
    (mkIpamSt c p w).
Proof.
  intros Hwf [e He]. unfold addENIaddressesToDataStore.
  apply (wp_fold_loop _ _ _ _ (λ dn _ s', ∃ ds', i_ctx s' = set_dataStore ds' c ∧ i_world s' = w ∧
    filled id (secondaries dn) (dataStore c) ds')); [|clear p|done].
  - exists (dataStore c). split_and!; [by destruct c|done|by eapply filled_refl].
  - intros dn a rest prim [c1 p w1] _ (ds1 & Hc & Hw & Hf). simpl in Hc, Hw. subst c1 w1.
    assert (secondaries (dn ++ [a]) = secondaries dn ∪
      if BoolValue (Primary a) then ∅ else {[StringValue (PrivateIpAddress a)]}) as Hs.
    { unfold secondaries. rewrite filter_app, fmap_app, list_to_set_app_L, filter_cons, filter_nil.
      f_equal. destruct (BoolValue (Primary a)); simpl; [done|]. apply right_id_L, _. }
    destruct (BoolValue (Primary a)).
    { wp_steps. exists ds1. split_and!; [done..|]. rewrite Hs. by rewrite (right_id_L ∅ (∪)). }
    apply wp_bind, wp_AddIP. intros err ds2 p2 Ho. simpl in Ho.
    assert (filled id (secondaries (dn ++ [a])) (dataStore c) ds2) as Hf2
      by (rewrite Hs; by eapply filled_step).
    repeat case_match; wp_steps; by exists ds2.
Qed.

(** After filling the ENI with what EC2 has, the store is in step again. *)
Lemma filled_in_step id n ds ds' (w w' : W) :
  in_step ds w → (∀ j, j ≠ id → secondary w' j = secondary w j) → secondary w id ⊆ secondary w' id →
  Z.of_nat (size (secondary w' id)) = Z.of_nat (size (secondary w id)) + n →
  filled id (secondary w' id) ds ds' → in_step ds' w' ∧ total ds' = total ds + n.
Proof.
  intros Hin Hoth Hsub Hn [_ (e & e' & He & He' & Hd & Ht) Ho _].
  pose proof (Hin _ _ He) as Hde. assert (dom (IPv4Addresses e') = secondary w' id) as Hde' by set_solver.
  split.
  - intros j ej Hj. destruct (decide (j = id)) as [->|Hne]; [congruence|].
    rewrite Hoth by done. rewrite Ho in Hj by done. by apply Hin.
  - assert (∀ m : gmap string AddressInfo, len m = Z.of_nat (size (dom m))) as Hsz
      by (intros m; unfold len; by rewrite size_dom).
    rewrite !Hsz, Hde, Hde' in Ht. lia.
Qed.

(** EC2 does not give even one more address. *)
Definition refused (id : string) (w : W) : Prop := ∃ e, (AllocIPAddresses id 1 w).1 = Some (Some e).

(** An ENI that may get addresses, and when nothing is left to do: the warm target
    is met, or no usable ENI has room. *)
Definition usable (c : IPAMContext) (e : ENIIPPool) : Prop :=
  ¬ (useCustomNetworking c = true ∧ IsPrimary e = true).
Definition target_met (c : IPAMContext) : Prop := (targetState c).2 = true ∧ (targetState c).1.1 = 0.
Definition no_room (c : IPAMContext) : Prop :=
  ∀ id e, eniIPPools (dataStore c) !! id = Some e → usable c e → maxIPsPerENI c ≤ len (IPv4Addresses e).
Definition settled (c : IPAMContext) : Prop := target_met c ∨ no_room c.

(** [k] addresses more on a usable ENI that had room: all it lacked, or one. *)
Definition gained (c : IPAMContext) (ds' : DataStore) (k : Z) : Prop :=
  let ds := dataStore c in
  ∃ id e e', eniIPPools ds !! id = Some e ∧ usable c e ∧ len (IPv4Addresses e) < maxIPsPerENI c ∧
    eniIPPools ds' = <[id := e']> (eniIPPools ds) ∧ len (IPv4Addresses e') = len (IPv4Addresses e) + k ∧
    total ds' = total ds + k ∧ (k = maxIPsPerENI c - len (IPv4Addresses e) ∨ k = 1).

(** What [tryAssignIPs] promises for each of its results. *)
Definition assigned_ips (s s' : IpamSt W) (r : bool * option error) : Prop :=
  let c := i_ctx s in let ds := dataStore c in let ds' := dataStore (i_ctx s') in
  i_ctx s' = set_dataStore ds' c ∧
  match r with
  | (true, None) =>
      ¬ settled c ∧ in_step ds' (i_world s') ∧ ds_wf ds' ∧ podsIP ds' = podsIP ds ∧
      assigned ds' = assigned ds ∧ limit (i_world s') = limit (i_world s) ∧ ∃ k, gained c ds' k
  | (false, None) => settled c ∧ ds' = ds ∧ in_step ds' (i_world s') ∧ limit (i_world s') = limit (i_world s)
  | (b, Some _) => ¬ settled c ∧ ds' = ds ∧
      ∃ id w, 0 < limit w ∧ if b : bool then undescribed id w else refused id w
  end.

(** The allocation: the first call asks for all that is missing, the second one for
    a single address. *)
Lemma alloc_spec id n c p (w : W) :
  0 < n → Z.of_nat (size (secondary w id)) + n ≤ limit w →
  wp (crash (W:=W)) (
      err ← ask (AllocIPAddresses id n);
      match err with Some _ => ask (AllocIPAddresses id 1) | None => mret None end)
    (λ err s', i_ctx s' = c ∧ (err ≠ None → ∃ w, 0 < limit w ∧ refused id w) ∧ (err = None → ∃ k, (k = n ∨ k = 1) ∧
       limit (i_world s') = limit w ∧ (∀ j, j ≠ id → secondary (i_world s') j = secondary w j) ∧ secondary w id ⊆ secondary (i_world s') id ∧
       Z.of_nat (size (secondary (i_world s') id)) = Z.of_nat (size (secondary w id)) + k)) (mkIpamSt c p w).
Proof.
  intros Hn Hroom. apply wp_bind, wp_service; [constructor|]. intros [e|] w1 Hw1 _.
  - apply ec2_alloc_err in Hw1 as [Hs1 Hl1]. apply wp_service; [constructor|]. intros [e'|] w2 Hw2 _.
    { split; [done|]. split; [|done]. intros _. exists w1. split; [lia|]. exists e'. by rewrite Hw2. }
    do 2 (split; [done|]). intros _. exists 1.
    destruct (ec2_alloc id 1 w1 w2 ltac:(lia) ltac:(rewrite Hs1; lia) Hw2) as (? & ? & ? & ?).
    simpl. rewrite <-Hs1, <-Hl1. split_and!; [by right|done..].
  - wp_steps. do 2 (split; [done|]). intros _. exists n. destruct (ec2_alloc _ _ _ _ Hn Hroom Hw1) as (? & ? & ? & ?).
    simpl. split_and!; [by left|done..].
Qed.

Lemma not_settled c id e :
  (targetState c).2 && bool_decide ((targetState c).1.1 = 0) = false →
  eniIPPools (dataStore c) !! id = Some e → usable c e → len (IPv4Addresses e) < maxIPsPerENI c → ¬ settled c.
Proof.
  intros Hb He Hu Hlen [[Hd Hs]|Hno]; [|specialize (Hno _ _ He Hu); lia].
  rewrite Hd, Hs in Hb. by rewrite bool_decide_eq_true_2 in Hb.
Qed.

Lemma filled_gained id new k c ds' e :
  filled id new (dataStore c) ds' →
  total ds' = total (dataStore c) + k → eniIPPools (dataStore c) !! id = Some e → usable c e →
  len (IPv4Addresses e) < maxIPsPerENI c → k = maxIPsPerENI c - len (IPv4Addresses e) ∨ k = 1 → gained c ds' k.
Proof.
  intros [_ (e0 & e' & He0 & He' & _ & Ht) Ho _] Hk He Hu Hlen Hor. rewrite He in He0. injection He0 as <-.
  exists id, e, e'. split_and!; try done; [|lia].
  apply map_eq. intros j. destruct (decide (j = id)) as [->|Hne].
  - by rewrite lookup_insert_eq.
  - rewrite lookup_insert_ne by done. by apply Ho.
Qed.

Lemma tryAssignIPs_fills (s : IpamSt W) :
  ds_wf (dataStore (i_ctx s)) → in_step (dataStore (i_ctx s)) (i_world s) →
  maxIPsPerENI (i_ctx s) ≤ limit (i_world s) →
  wp (crash (W:=W)) tryAssignIPs (λ r s', assigned_ips s s' r) s.
Proof.
  destruct s as [c p w]. cbn [i_ctx i_world]. intros Hwf Hin Hlim. unfold tryAssignIPs. wp_step. wp_step.
  assert (set_dataStore (dataStore c) c = c) as Hcc by (by destruct c).
  pose proof (not_settled c) as Hns. unfold assigned_ips. cbn [i_ctx i_world].
  destruct (targetState c) as [[short over] b] eqn:Ht. cbn [fst snd] in Hns.
  destruct (b && bool_decide (short = 0)) eqn:Hb.
  { apply andb_true_iff in Hb as [-> ->%bool_decide_eq_true]. wp_steps. split_and!; try done.
    left. unfold target_met. by rewrite Ht. }
  wp_step. wp_step. wp_step. apply wp_store. apply (wp_weaken False); [done|].
  eapply wp_mono; [apply (wp_keeps _ (on_d same_ec2)); [apply (GetENINeedsIP_frame same_ec2)|apply GetENINeedsIP_spec]|].
  intros o [ds1 p1 w1] [[[= -> ->] Ho] [Hw1 Hl1]]. cbn [d_world d_ds d_prom] in *. rewrite Hcc.
  destruct o as [e|].
  2: { wp_steps. cbn [i_world]. split_and!; try done; [|intros id e He; rewrite Hw1; by apply Hin].
       right. intros id e He Hu. destruct (Ho _ _ He); [by destruct Hu|done]. }
  destruct Ho as (id & He & Hprim & Hlen). cbn zeta. simpl in Hlen. specialize (Hns id e eq_refl He Hprim Hlen).
  assert (ID e = id) as -> by (by destruct (proj1 Hwf _ _ He)).
  rewrite (bool_decide_eq_true_2 _ Hlen). apply wp_bind_assoc, wp_bind.
  assert (Z.of_nat (size (secondary w id)) = len (IPv4Addresses e)) as Hsize.
  { rewrite <-(Hin _ _ He). unfold len. by rewrite size_dom. }
  eapply wp_mono; [apply (alloc_spec id (maxIPsPerENI c - len (IPv4Addresses e))); [lia|rewrite Hw1, Hl1; lia]|].
  rewrite Hw1, Hl1.
  intros [e2|] [c3 p3 w3] (Hc3 & Href & Hal); simpl in Hc3; subst c3.
  { destruct (Href ltac:(done)) as [w' ?]. wp_steps. split_and!; try done. by exists id, w'. }
  destruct (Hal eq_refl) as (k & Hk & Hl3 & Hoth & Hsub & Hsz). clear Hal Href. cbn [i_world] in *. apply wp_bind.
  eapply wp_mono; [apply getENIaddresses_spec|].
  intros [[l prim] [e4|]] [c4 p4 w4] (Hc4 & _ & _ & Hd); simpl in Hc4; subst c4.
  { destruct Hd. wp_steps. split_and!; try done. exists id, w3. split; [lia|done]. }
  destruct Hd as (o & Hd & _). cbn [i_world] in Hd.
  pose proof (ec2_describe _ _ _ _ _ Hd) as Hl. pose proof (ec2_describe_same id w3) as Hw4.
  rewrite Hd in Hw4. destruct Hw4 as [Hw4 Hl4]. simpl in Hw4, Hl4. apply wp_bind.
  eapply wp_mono; [by apply addENIaddresses_fills|]. intros prim5 [c5 p5 w5] (ds5 & Hc5 & Hw5 & Hf).
  simpl in Hc5, Hw5. subst c5 w5. rewrite Hl, <-Hw4 in Hf. wp_steps.
  destruct (filled_in_step id k (dataStore c) ds5 w w4 Hin) as [Hin' Ht5]; [by rewrite Hw4..|done|].
  pose proof (filled_pods _ _ _ _ Hf) as [Hp Ha]. cbn [i_ctx i_world dataStore set_dataStore].
  split_and!; try done; [by destruct Hf|congruence|]. exists k. by eapply filled_gained.
Qed.

(** *** Growing until there is nothing left to do *)

(** The room on all ENIs. *)
Definition room (c : IPAMContext) : Z :=
  map_sum (λ e, Z.max 0 (maxIPsPerENI c - len (IPv4Addresses e))) (eniIPPools (dataStore c)).

Lemma gained_room c c' k :
  maxIPsPerENI c' = maxIPsPerENI c → gained c (dataStore c') k → 0 ≤ room c' < room c.
Proof.
  intros Hm (id & e & e' & He & _ & Hlen & Hp & Hl & _ & Hk). unfold room. rewrite Hm, Hp. split.
  - apply map_sum_nonneg. lia.
  - rewrite (map_sum_insert _ _ _ _ e) by done. simpl. lia.
Qed.

Lemma settled_no_room c : room c ≤ 0 → settled c.
Proof.
  intros Hr. right. intros id e He _.
  pose proof (map_sum_ge_one (λ e, Z.max 0 (maxIPsPerENI c - len (IPv4Addresses e))) _ _ _ He) as Hg.
  simpl in Hg. specialize (Hg ltac:(lia)). unfold room in Hr. lia.
Qed.

Lemma wp_update_last E c p w :
  wp E updateLastNodeIPPoolAction
    (λ _ s', ∃ t, i_ctx s' = set_lastNodeIPPoolAction t c ∧ same_ec2 w (i_world s')) (mkIpamSt c p w).
Proof.
  unfold updateLastNodeIPPoolAction. apply wp_bind, wp_zoom. pose proof (frame_now (R:=same_ec2) w) as Hw.
  unfold wp at 1, time_Now. cbn [i_world]. destruct (w_now w) as [t w']. wp_steps. simpl. by exists t.
Qed.

(** EC2 gives at least one address when asked, and describes every ENI. *)
Definition grants : Prop := ∀ id (w : W), 0 < limit w → ¬ undescribed id w ∧ ¬ refused id w.

(** The store is consistent and in step with EC2, all ENIs are attached, and the
    manager's limit of addresses per ENI is within that of EC2. *)
Record ready (s : IpamSt W) : Prop := {
  ready_wf : ds_wf (dataStore (i_ctx s));
  ready_step : in_step (dataStore (i_ctx s)) (i_world s);
  ready_enis : maxENI (i_ctx s) ≤ len (eniIPPools (dataStore (i_ctx s)));
  ready_limit : maxIPsPerENI (i_ctx s) ≤ limit (i_world s);
}.

Definition same_settings (c c' : IPAMContext) : Prop :=
  maxIPsPerENI c' = maxIPsPerENI c ∧ maxENI c' = maxENI c ∧
  useCustomNetworking c' = useCustomNetworking c ∧ warmIPTarget c' = warmIPTarget c ∧
  podsIP (dataStore c') = podsIP (dataStore c) ∧ assigned (dataStore c') = assigned (dataStore c).

Lemma settled_same c c' : same_settings c c' → dataStore c' = dataStore c → settled c → settled c'.
Proof.
  intros (Hm & _ & Hu & Hw & _) Hd. unfold settled, target_met, no_room, usable, targetState, available.
  by rewrite Hm, Hu, Hw, Hd.
Qed.

(** One call: nothing when nothing is left to do, and otherwise less room. *)
Lemma increase_round (s : IpamSt W) :
  grants → ready s →
  wp (crash (W:=W)) increaseIPPool
    (λ _ s', ready s' ∧ same_settings (i_ctx s) (i_ctx s') ∧
       (dataStore (i_ctx s') = dataStore (i_ctx s) ∧ settled (i_ctx s) ∨
        ¬ settled (i_ctx s) ∧ 0 ≤ room (i_ctx s') < room (i_ctx s))) s.
Proof.
  destruct s as [c p w]. intros Hgr [Hwf Hin Hmax Hlim]. cbn [i_ctx i_world] in *. unfold increaseIPPool, inprogress.
  wp_step. wp_step. apply wp_bind.
  eapply (wp_mono _ _ (λ _ s', ready s' ∧ same_settings c (i_ctx s') ∧
    (dataStore (i_ctx s') = dataStore c ∧ settled c ∨ ¬ settled c ∧ 0 ≤ room (i_ctx s') < room c))).
  2: { intros [] [c' p' w'] ([] & Hs & Ho). wp_steps. by split_and!. }
  wp_step. wp_step. destruct (targetState c) as [[short over] b] eqn:Ht.
  destruct (b && bool_decide (short = 0)) eqn:Hb.
  { apply andb_true_iff in Hb as [-> ->%bool_decide_eq_true]. wp_steps. split_and!; try done. left.
    split; [done|]. left. unfold target_met. by rewrite Ht. }
  apply wp_bind. eapply wp_mono; [by apply tryAssignIPs_fills|].
  intros [inc err] [c1 p1 w1] [Hc1 Hr]. cbn [i_ctx i_world] in Hc1, Hr.
  destruct inc, err as [e|].
  - destruct Hr as (_ & _ & id & w' & Hlw & Hun). by destruct (proj1 (Hgr id w' Hlw)).
  - destruct Hr as (Hns & Hin1 & Hwf1 & Hp & Ha & Hl1 & k & Hg). eapply wp_mono; [apply wp_update_last|].
    intros [] [c2 p2 w2] (t & Hc2 & Hw2). cbn [i_ctx i_world] in Hc2, Hw2. destruct Hw2 as [Hw2 Hl2]. subst c2.
    assert (maxIPsPerENI c1 = maxIPsPerENI c ∧ maxENI c1 = maxENI c ∧ useCustomNetworking c1 = useCustomNetworking c ∧
      warmIPTarget c1 = warmIPTarget c) as (Hm1 & Hm2 & Hm3 & Hm4) by (by rewrite Hc1).
    assert (len (eniIPPools (dataStore c1)) = len (eniIPPools (dataStore c))) as Hlen.
    { destruct Hg as (id & e & e' & He & _ & _ & -> & _). by eapply len_insert. }
    split; [split; simpl; [done| |lia|lia]|].
    { intros id e He. rewrite Hw2. by apply Hin1. }
    split; [by split_and!|]. right. split; [done|]. by apply (gained_room c (set_lastNodeIPPoolAction t c1) k).
  - destruct Hr as (_ & _ & id & w' & Hlw & Hun). by destruct (proj2 (Hgr id w' Hlw)).
  - destruct Hr as (Hset & Hds & Hin1 & Hl1). rewrite Hds in *. wp_step. wp_step. wp_step. wp_step.
    assert (c1 = c) as -> by (rewrite Hc1; by destruct c).
    rewrite bool_decide_eq_false_2 by lia. wp_steps. split_and!; try done; [|by left].
    split; simpl; [done..|lia].
Qed.

Lemma increase_rounds n : ∀ s : IpamSt W,
  grants → ready s → settled (i_ctx s) ∨ room (i_ctx s) ≤ Z.of_nat (length n) →
  wp (crash (W:=W)) (for_loop (λ _ : nat, increaseIPPool) n)
    (λ _ s', ready s' ∧ same_settings (i_ctx s) (i_ctx s') ∧ settled (i_ctx s')) s.
Proof.
  induction n as [|i n IH]; intros s Hgr Hs Hor.
  { apply wp_ret. split_and!; try done. destruct Hor; [done|]. by apply settled_no_room. }
  simpl. apply wp_bind. eapply wp_mono; [by apply increase_round|]. intros [] s1 (Hs1 & Hc1 & Hstep).
  eapply wp_mono; [apply IH; [done|done|]|].
  - destruct Hstep as [[Hd Hset]|[Hns Hr]]; [left; by eapply settled_same|]. destruct Hor as [Hset|Hroom]; [done|].
    right. simpl in Hroom. lia.
  - intros [] s2 (Hs2 & Hc2 & Hset). split_and!; try done. unfold same_settings in *. intuition congruence.
Qed.

(** Calling [increaseIPPool] as often as there is room. *)
Lemma increase_converges n (s : IpamSt W) :
  grants → ready s → room (i_ctx s) ≤ Z.of_nat n →
  wp (crash (W:=W)) (for_loop (λ _ : nat, increaseIPPool) (seq 0 n))
    (λ _ s', ready s' ∧ same_settings (i_ctx s) (i_ctx s') ∧ settled (i_ctx s')) s.
Proof. intros Hgr Hs Hroom. apply increase_rounds; [done|done|]. right. by rewrite length_seq. Qed.

End growth.

(** ** Over the client of awsutils.go *)

Section client.
Context {W : Type} `{!World W} `{!WorldOk W} `{!IMDS W, !EC2 W} {env : Environ}.
Context `{!NetworkAPIs W, !K8SAPIs W, !ENIConfigAPI W, !Requests W}.
Context (sec : W → string → gset string) (eni_limit : Z).

(** The calls below the client, and the services it has no part in. *)
Inductive outside_call : ∀ A : Type, ext W A → Prop :=
| Out_GetMetadata path : outside_call _ (GetMetadata path)
| Out_CreateENI i : outside_call _ (CreateNetworkInterface i)
| Out_DescribeInstances id : outside_call _ (DescribeInstances id)
| Out_AttachENI n a b : outside_call _ (AttachNetworkInterface n a b)
| Out_DeleteENI id : outside_call _ (DeleteNetworkInterface id)
| Out_DetachENI a : outside_call _ (DetachNetworkInterface a)
| Out_AssignIPs id n : outside_call _ (AssignPrivateIpAddresses id n)
| Out_UnassignIPs id l : outside_call _ (UnassignPrivateIpAddresses id l)
| Out_DescribeENIs id : outside_call _ (DescribeNetworkInterfaces id)
| Out_ModifyENI a b d : outside_call _ (ModifyNetworkInterfaceAttribute a b d)
| Out_CreateTags a l : outside_call _ (CreateTags a l)
| Out_SetupHostNetwork n l m a : outside_call _ (SetupHostNetwork n l m a)
| Out_SetupENINetwork i m t c : outside_call _ (SetupENINetwork i m t c)
| Out_UseExternalSNAT : outside_call _ UseExternalSNAT
| Out_GetExcludeSNATCIDRs : outside_call _ GetExcludeSNATCIDRs
| Out_GetRuleList : outside_call _ GetRuleList
| Out_UpdateRules r a l b : outside_call _ (UpdateRuleListBySrc r a l b)
| Out_Pods : outside_call _ K8SGetLocalPodIPs
| Out_MyENIConfig : outside_call _ MyENIConfig.

(** What EC2 documents of the addresses of an ENI: a description lists them;
    AssignPrivateIpAddresses adds as many new ones as asked for, to that ENI only,
    or fails and adds none, and fails with PrivateIpAddressLimitExceeded only when
    the ENI would have more than the [eni_limit] of the instance type.  Nobody but
    the daemon changes the addresses, and calls take time. *)
Record ec2_documented : Prop := {
  doc_frame : Frame (λ w w' : W, sec w' = sec w);
  doc_clock : ∀ A (f : ext W A) w, outside_call A f → clock w ≤ clock (f w).2;
  doc_describe : ∀ id (w w' : W) i rest, DescribeNetworkInterfaces id w = (Some (i :: rest, None), w') →
    secondaries (PrivateIpAddresses i) = sec w id;
  doc_describe_same : ∀ id w, sec (DescribeNetworkInterfaces id w).2 = sec w;
  doc_assign : ∀ id n (w w' : W), 0 < n → AssignPrivateIpAddresses id n w = (Some None, w') →
    sec w id ⊆ sec w' id ∧ Z.of_nat (size (sec w' id)) = Z.of_nat (size (sec w id)) + n ∧
    ∀ j, j ≠ id → sec w' j = sec w j;
  doc_assign_err : ∀ id n (w w' : W) e, AssignPrivateIpAddresses id n w = (Some (Some e), w') →
    sec w' = sec w ∧
    (containsPrivateIPAddressLimitExceededError e = true → eni_limit < Z.of_nat (size (sec w id)) + n);
}.

(** EC2 has at least one address to give, and knows every ENI, which is attached
    and has a primary address. *)
Record ec2_generous : Prop := {
  gen_assign : ∀ id (w w' : W) e, AssignPrivateIpAddresses id 1 w = (Some (Some e), w') →
    containsPrivateIPAddressLimitExceededError e = true;
  gen_describe : ∀ id (w w' : W) l err, DescribeNetworkInterfaces id w = (Some (l, err), w') →
    err = None ∧ Forall (λ i, Exists (λ a, BoolValue (Primary a) = true) (PrivateIpAddresses i)) l;
}.

Definition client_secondary (s : AwsSt W) : string → gset string := sec (a_world s).

(** The limit of the table of vpc_ip_resource_limit.go, within that of EC2. *)
Definition client_limit (s : AwsSt W) : Z :=
  match InstanceIPsAvailable !! instanceType (a_cache s) with
  | Some l => Z.min eni_limit (l - 1)
  | None => 0
  end.

#[local] Opaque InstanceIPsAvailable.

Context (Hdoc : ec2_documented).

(** What [AllocIPAddresses] of the client does. *)
Lemma client_alloc id n c p (w : W) :
  wp True (AwsUtils.AllocIPAddresses id n)
    (λ r s', a_cache s' = c ∧
       match r with
       | None => 0 < n → Z.of_nat (size (sec w id)) + n ≤ client_limit (mkAwsSt c p w) →
           let w' := a_world s' in
           sec w id ⊆ sec w' id ∧ Z.of_nat (size (sec w' id)) = Z.of_nat (size (sec w id)) + n ∧
           ∀ j, j ≠ id → sec w' j = sec w j
       | Some _ => sec (a_world s') = sec w ∧ (ec2_generous → n = 1 → client_limit (mkAwsSt c p w) ≤ 0)
       end) (mkAwsSt c p w).
Proof.
  unfold AwsUtils.AllocIPAddresses, AwsUtils.GetENIipLimit, client_limit. cbn [a_cache a_world].
  apply wp_bind, wp_bind, wp_cache. destruct (InstanceIPsAvailable !! instanceType c) as [l|]; wp_steps; [|done].
  set (need := if bool_decide (l - 1 < n) then l - 1 else n).
  case_bool_decide as Hneed; [wp_steps; split; [done|]; subst need; case_bool_decide; lia|].
  apply wp_bind, wp_api; [done|]. intros [e|] w' Hw.
  - pose proof (doc_assign_err Hdoc _ _ _ _ _ Hw) as [Hsame Hlim].
    apply wp_bind. eapply (wp_mono _ _ (λ _ s', a_cache s' = c ∧ a_world s' = w')).
    { unfold awsAPIErrInc. case_match; by wp_steps. }
    intros _ [c2 p2 w2] [Hc Hw2]. cbn [a_cache a_world] in Hc, Hw2. subst c2 w2.
    destruct (containsPrivateIPAddressLimitExceededError e) eqn:Hex; wp_steps; (split; [done|]).
    + intros Hn Hroom. exfalso. specialize (Hlim eq_refl). subst need. case_bool_decide; lia.
    + split; [done|]. intros Hgen ->. destruct (decide (need = 1)) as [Hn1|Hne].
      * rewrite Hn1 in Hw. pose proof (gen_assign Hgen _ _ _ _ Hw). congruence.
      * subst need. case_bool_decide; lia.
  - wp_steps. split; [done|]. intros Hn Hroom. cbn [a_world].
    assert (need = n) as Hnn by (subst need; case_bool_decide; lia). rewrite Hnn in Hw.
    exact (doc_assign Hdoc _ _ _ _ Hn Hw).
Qed.

Lemma client_describe id c p (w : W) :
  wp True (AwsUtils.DescribeENI id)
    (λ r s', a_cache s' = c ∧ sec (a_world s') = sec w ∧
       (r.2 = None → secondaries r.1.1 = sec w id) ∧
       (ec2_generous → r.2 = None ∧ Exists (λ a, BoolValue (Primary a) = true) r.1.1)) (mkAwsSt c p w).
Proof.
  unfold AwsUtils.DescribeENI. apply wp_bind, wp_api; [done|]. intros [l err] w' Hw.
  pose proof (doc_describe_same Hdoc id w) as Hs. rewrite Hw in Hs. simpl in Hs.
  destruct err as [e|].
  - case_bool_decide; [wp_steps; split_and!; try done; intros Hg; by destruct (gen_describe Hg _ _ _ _ _ Hw)|].
    apply wp_bind. eapply (wp_mono _ _ (λ _ s', a_cache s' = c ∧ a_world s' = w')).
    { unfold awsAPIErrInc. case_match; by wp_steps. }
    intros _ [c2 p2 w2] [Hc Hw2]. cbn [a_cache a_world] in Hc, Hw2. subst c2 w2. wp_steps.
    split_and!; try done. intros Hg. by destruct (gen_describe Hg _ _ _ _ _ Hw).
  - destruct l as [|i rest]; [by apply wp_panic|]. destruct (Attachment i) as [a|]; [|by apply wp_panic].
    wp_steps. split_and!; try done.
    + intros _. exact (doc_describe Hdoc _ _ _ _ _ Hw).
    + intros Hg. destruct (gen_describe Hg _ _ _ _ _ Hw) as [_ Hall]. by apply Forall_cons in Hall as [? _].
Qed.

Lemma method_inv {A} (m : M (AwsSt W) A) Q s o s' :
  wp True m Q s → method m s = (Some o, s') → Q o s'.
Proof. unfold wp, method. destruct (m s) as [[a| |] s1]; [|done..]. by intros H [= <- <-]. Qed.

Lemma method_keeps {A} (R : relation (AwsSt W)) (m : M (AwsSt W) A) s : keeps R m → R s (method m s).2.
Proof. intros Hm. specialize (Hm s). unfold method. by destruct (m s) as [[] ?]. Qed.

(** Relations the calls and counters of the client keep. *)
Lemma api_keeps {A} (R : relation (AwsSt W)) (f : ext W A) :
  (∀ c p w, R (mkAwsSt c p w) (mkAwsSt c p (f w).2)) → keeps R (api f).
Proof.
  intros HR [c p w]. specialize (HR c p w). unfold api, aworld, zoom, call. simpl. by destruct (f w) as [[] w'].
Qed.

Definition same_view (s s' : AwsSt W) : Prop :=
  client_secondary s' = client_secondary s ∧ client_limit s' = client_limit s.

#[local] Instance same_view_pre : PreOrder same_view.
Proof. unfold same_view. split; [by intros s|]. intros ??? [] []. split; congruence. Qed.

Lemma describe_keeps_view id : keeps same_view (AwsUtils.DescribeENI id).
Proof.
  unfold AwsUtils.DescribeENI. apply keeps_bind; [apply _|..].
  - apply api_keeps. intros c p w. split; [apply (doc_describe_same Hdoc)|done].
  - intros [l [e|]].
    + case_bool_decide; [apply keeps_ret, _|]. apply keeps_bind; [apply _|..|intros; apply keeps_ret, _].
      unfold awsAPIErrInc. destruct (aws_code e); [by intros x|apply keeps_ret, _].
    + destruct l as [|i l]; [apply keeps_panic, _|]. destruct (Attachment i); [apply keeps_ret, _|apply keeps_panic, _].
Qed.

(** The client keeps to what the pool manager relies on. *)
#[local] Instance client_honest : HonestEC2 client_secondary client_limit.
Proof.
  pose proof (doc_frame Hdoc) as Hfr. split.
  - split; [split; unfold same_ec2; [by intros ?|intros ???[]; intuition congruence]|..];
      unfold same_ec2, client_secondary, client_limit; intros; simpl.
    + pose proof (frame_now (R:=λ w w' : W, sec w' = sec w) (a_world w)) as H. by destruct (w_now (a_world w)).
    + pose proof (frame_range (R:=λ w w' : W, sec w' = sec w) _ l (a_world w)) as H. by destruct (w_range l (a_world w)).
  - intros id [c p w] s' l o Hrun. apply (method_inv _ _ _ _ _ (client_describe id c p w)) in Hrun.
    by apply Hrun.
  - intros id s. apply (method_keeps same_view), describe_keeps_view.
  - intros id n [c p w] s' Hn Hroom Hrun.
    destruct (method_inv _ _ _ _ _ (client_alloc id n c p w) Hrun) as [Hc H].
    destruct (H Hn Hroom) as (? & ? & ?). split_and!; try done. unfold client_limit. by rewrite Hc.
  - intros id n [c p w] s' e Hrun. destruct (method_inv _ _ _ _ _ (client_alloc id n c p w) Hrun) as [Hc [H _]].
    split; [done|]. unfold client_limit. by rewrite Hc.
Qed.

Lemma client_grants : ec2_generous → grants (W:=AwsSt W) client_limit.
Proof.
  intros Hgen id [c p w] Hlim. split.
  - intros (l & o & err & Hrun & Hor). destruct (DescribeENI id (mkAwsSt c p w)) as [x s'] eqn:Hd. simpl in Hrun. subst x.
    destruct (method_inv _ _ _ _ _ (client_describe id c p w) Hd) as (_ & _ & _ & H). simpl in H.
    destruct (H Hgen) as [-> Hex]. destruct Hor as [?|Hall]; [done|].
    apply Exists_exists in Hex as (a & Ha & Hp). by apply (proj1 (Forall_forall _ _) Hall a Ha).
  - intros [e Hrun]. destruct (AllocIPAddresses id 1 (mkAwsSt c p w)) as [x s'] eqn:Hd. simpl in Hrun. subst x.
    destruct (method_inv _ _ _ _ _ (client_alloc id 1 c p w) Hd) as (_ & _ & H).
    specialize (H Hgen eq_refl). lia.
Qed.

(** *** The clock under the client *)

Definition later (s s' : AwsSt W) : Prop := clock (a_world s) ≤ clock (a_world s').

#[local] Instance later_pre : PreOrder later.
Proof. unfold later. split; intros ?; [lia|]. intros. lia. Qed.

Lemma api_later {A} (f : ext W A) : outside_call A f → keeps later (api f).
Proof. intros Hf. apply api_keeps. intros c p w. by apply (doc_clock Hdoc). Qed.

Lemma asleep_later d : 0 ≤ d → keeps later (aworld (time_Sleep d)).
Proof. intros Hd s. unfold later. simpl. by apply sleep_mono. Qed.

Lemma cache_later {A} (f : EC2InstanceMetadataCache → A) : keeps later (AwsUtils.cache f).
Proof. intros s. unfold later. simpl. lia. Qed.

Lemma set_cache_later f : keeps later (set_cache_ f).
Proof. intros s. unfold later. simpl. lia. Qed.

Lemma apiErr_later n e : keeps later (awsAPIErrInc n e).
Proof. intros s. unfold later, awsAPIErrInc. destruct (aws_code e); simpl; lia. Qed.

Lemma utilsErr_later n e : keeps later (awsUtilsErrInc n e).
Proof. intros s. unfold later. simpl. lia. Qed.

#[local] Hint Resolve cache_later set_cache_later apiErr_later utilsErr_later : keeps.

Ltac later_step :=
  match goal with
  | |- keeps _ (api _) => apply api_later; constructor
  | |- keeps _ (aworld (time_Sleep _)) => apply asleep_later; first [done|by vm_compute]
  | |- keeps _ (let '_ := ?x in _) => destruct x
  | |- _ => keeps_step
  end.
Ltac later_steps := repeat (cbn beta iota zeta; later_step).

Lemma metadata_later path msg : keeps later (metadata path msg).
Proof. unfold metadata. later_steps. Qed.
#[local] Hint Resolve metadata_later : keeps.

Lemma getENIMetadata_later mac : keeps later (getENIMetadata mac).
Proof. unfold getENIMetadata, getENIDeviceNumber, getIPsAndCIDR. later_steps. Qed.

Lemma attached_loop_later l enis : keeps later (attached_loop l enis).
Proof.
  revert enis. induction l as [|m l IH]; intros enis; cbn [attached_loop]; later_steps;
    first [apply getENIMetadata_later|apply IH].
Qed.

Lemma DescribeENI_later id : keeps later (AwsUtils.DescribeENI id).
Proof. unfold AwsUtils.DescribeENI. later_steps. Qed.

Lemma detach_loop_later fuel retry a d : 0 ≤ d → keeps later (detach_loop fuel retry a d).
Proof. intros Hd. revert retry. induction fuel as [|fuel IH]; intros retry; cbn [detach_loop]; later_steps; apply IH. Qed.

Lemma delete_loop_later fuel retry id d : 0 ≤ d → keeps later (deleteENI_loop fuel retry id d).
Proof. intros Hd. revert retry. induction fuel as [|fuel IH]; intros retry; cbn [deleteENI_loop]; later_steps; apply IH. Qed.

Lemma deleteENI_later id d : 0 ≤ d → keeps later (deleteENI id d).
Proof. apply delete_loop_later. Qed.

Lemma FreeENI_later id : keeps later (AwsUtils.FreeENI id).
Proof.
  unfold AwsUtils.FreeENI, freeENI. later_steps;
    first [apply DescribeENI_later|apply detach_loop_later; by vm_compute|apply deleteENI_later; by vm_compute].
Qed.

Lemma AllocENI_later b l s : keeps later (AwsUtils.AllocENI b l s).
Proof.
  unfold AwsUtils.AllocENI, createENI, tagENI, attachENI, awsGetFreeDeviceNumber, mark_interface, mark_device.
  later_steps; first [apply FreeENI_later|apply deleteENI_later; by vm_compute].
Qed.

Lemma client_later {A} (m : M (AwsSt W) A) s : keeps later m → clock s ≤ clock (method m s).2.
Proof. intros Hm. rewrite !AwsSt_clock. by apply (method_keeps later). Qed.

Lemma below_later {A} (f : ext W A) s : outside_call A f → clock s ≤ clock (below f s).2.
Proof.
  intros Hf. rewrite !AwsSt_clock. pose proof (doc_clock Hdoc _ f (a_world s) Hf). unfold below.
  by destruct (f (a_world s)).
Qed.

#[local] Instance client_clock : ServiceClock (AwsSt W).
Proof.
  intros A f s [].
  14-21: apply below_later; constructor.
  all: apply client_later.
  - apply AllocENI_later.
  - apply FreeENI_later.
  - unfold AwsUtils.GetAttachedENIs. later_steps. apply attached_loop_later.
  - apply DescribeENI_later.
  - unfold AwsUtils.AllocIPAddresses, AwsUtils.GetENIipLimit. later_steps.
  - unfold AwsUtils.DeallocIPAddresses. later_steps.
  - unfold AwsUtils.GetVPCIPv4CIDR. later_steps.
  - unfold AwsUtils.GetVPCIPv4CIDRs. later_steps.
  - unfold AwsUtils.GetLocalIPv4. later_steps.
  - unfold AwsUtils.GetPrimaryENI. later_steps.
  - unfold AwsUtils.GetENIipLimit. later_steps.
  - unfold AwsUtils.GetENILimit. later_steps.
  - unfold AwsUtils.GetPrimaryENImac. later_steps.
Qed.

#[global] Instance client_quiet : Quiet W → Quiet (AwsSt W).
Proof. intros HQ [c p w]. simpl. rewrite HQ. done. Qed.

(** C20: the pool converges, over the client of awsutils.go and what EC2
    documents of its calls ([ec2_documented]): with an EC2 that has an address to
    give and knows the ENIs ([ec2_generous]), all ENIs attached, the store in
    step with EC2, the manager's limit of addresses per ENI within the one of
    the instance type, and no request served meanwhile ([Quiet]), calling
    [increaseIPPool] as often as there is room on the ENIs ends (unless a service
    does not answer) with the warm IP target met or every usable ENI full; the
    store stays consistent and in step with EC2, and no pod's record changes.
    The calls that come too often change nothing. *)
Theorem pool_converges `{!Quiet W} n (s : IpamSt (AwsSt W)) :
  ec2_generous → ready client_secondary client_limit s → room (i_ctx s) ≤ Z.of_nat n →
  wp (crash (W:=AwsSt W)) (for_loop (λ _ : nat, increaseIPPool) (seq 0 n))
    (λ _ s', ready client_secondary client_limit s' ∧ same_settings (i_ctx s) (i_ctx s') ∧ settled (i_ctx s')) s.
Proof. intros Hgen. apply (increase_converges client_secondary client_limit), client_grants, Hgen. Qed.

End client.

(** ** A small EC2 that gives at most two addresses at a time *)

Record Ec2 := mkEc2 { c_clock : Z; c_secondary : gmap string (gset string) }.

Definition ec2_of (w : Ec2) (id : string) : gset string := default ∅ (c_secondary w !! id).

#[local] Instance Ec2_World : World Ec2 := {
  w_now w := (c_clock w, mkEc2 (c_clock w + Second) (c_secondary w));
  w_sleep d w := mkEc2 (c_clock w + d) (c_secondary w);
  w_range A l w := (reverse l, w);
}.

#[local] Instance Ec2_ok : WorldOk Ec2.
Proof.
  split; unfold clock; simpl; intros; try lia; [by rewrite reverse_Permutation|]. unfold Second. lia.
Qed.

#[local] Instance Ec2_IMDS : IMDS Ec2 := {
  Region w := (Some ("us-west-2"%string, None), w);
  GetMetadata _ w := (Some (""%string, Some (EAws "EC2MetadataError" "no metadata")), w);
  NewSession _ w := (Some None, w);
}.

(** At most three secondary addresses on an ENI, and at most two in one call. *)
#[local] Instance Ec2_EC2 : EC2 Ec2 := {
  CreateNetworkInterface _ w := (Some (None, Some (EAws "NetworkInterfaceLimitExceeded" "")), w);
  DescribeInstances _ w := (Some ([], None), w);
  AttachNetworkInterface _ _ _ w := (Some (None, Some (EAws "AttachmentLimitExceeded" "")), w);
  DeleteNetworkInterface _ w := (Some None, w);
  DetachNetworkInterface _ w := (Some None, w);
  AssignPrivateIpAddresses id n w :=
    if bool_decide (3 < Z.of_nat (size (ec2_of w id)) + n) then
      (Some (Some (EAws "PrivateIpAddressLimitExceeded" "")), w)
    else if bool_decide (2 < n) then (Some (Some (EAws "InsufficientFreeAddressesInSubnet" "")), w)
    else (Some None, mkEc2 (c_clock w)
            (<[id := list_to_set (fresh_list (Z.to_nat n) (ec2_of w id)) ∪ ec2_of w id]> (c_secondary w)));
  UnassignPrivateIpAddresses _ _ w := (Some None, w);
  DescribeNetworkInterfaces id w :=
    (Some ([mkNetworkInterface (mkEC2Address (Some true) (Some "10.0.0.1"%string) ::
              ((λ ip, mkEC2Address (Some false) (Some ip)) <$> elements (ec2_of w id))) (Some (Some "attach-1"%string))],
           None), w);
  ModifyNetworkInterfaceAttribute _ _ _ w := (Some None, w);
  CreateTags _ _ w := (Some None, w);
}.

#[local] Instance Ec2_Network : NetworkAPIs Ec2 := {
  Rule := unit;
  SetupHostNetwork _ _ _ _ w := (Some None, w);
  SetupENINetwork _ _ _ _ w := (Some None, w);
  UseExternalSNAT w := (Some false, w);
  GetExcludeSNATCIDRs w := (Some [], w);
  GetRuleList w := (Some ([], None), w);
  UpdateRuleListBySrc _ _ _ _ w := (Some None, w);
}.
#[local] Instance Ec2_K8S : K8SAPIs Ec2 := { K8SGetLocalPodIPs w := (Some ([], None), w) }.
#[local] Instance Ec2_ENIConfig : ENIConfigAPI Ec2 := { MyENIConfig w := (Some (mkENIConfigSpec [] "", None), w) }.
#[local] Instance Ec2_Requests : Requests Ec2 := { w_rpcs w := ([], w) }.
#[local] Instance Ec2_quiet : Quiet Ec2.
Proof. by intros w. Qed.

Lemma secondaries_listed (l : list string) :
  secondaries ((λ ip, mkEC2Address (Some false) (Some ip)) <$> l) = list_to_set l.
Proof.
  induction l as [|ip l IH]; [done|]. unfold secondaries in *. rewrite fmap_cons, filter_cons_True by done.
  rewrite fmap_cons, !list_to_set_cons, IH. done.
Qed.

Lemma ec2_is_documented : ec2_documented ec2_of 3.
Proof.
  split.
  - split; [split; [by intros ?|intros ???; congruence]|done|done].
  - intros A f w []; unfold clock; simpl; try lia. by repeat case_bool_decide.
  - intros id w w' i rest [= <- _ _]. simpl. etransitivity; [|apply list_to_set_elements_L].
    rewrite <-secondaries_listed. unfold secondaries. by rewrite filter_cons_False.
  - done.
  - intros id n w w' Hn. simpl. case_bool_decide; [done|]. case_bool_decide; [done|]. intros [= <-].
    set (new := list_to_set (fresh_list (Z.to_nat n) (ec2_of w id)) : gset string).
    assert (ec2_of (mkEc2 (c_clock w) (<[id := new ∪ ec2_of w id]> (c_secondary w))) id = new ∪ ec2_of w id) as ->
      by (unfold ec2_of at 1; simpl; by rewrite lookup_insert_eq).
    split_and!; [set_solver| |].
    + rewrite size_union; [|intros x Hx; apply elem_of_list_to_set in Hx; by eapply fresh_list_is_fresh].
      unfold new. rewrite size_list_to_set by apply NoDup_fresh_list. rewrite length_fresh_list. lia.
    + intros j Hj. unfold ec2_of. simpl. by rewrite lookup_insert_ne.
  - intros id n w w' e. simpl. case_bool_decide; [by intros [= <- <-]|].
    case_bool_decide; [by intros [= <- <-]|done].
Qed.

Lemma ec2_is_generous : ec2_generous (W:=Ec2).
Proof.
  split.
  - intros id w w' e. simpl. case_bool_decide; [by intros [= <- _]|done].
  - intros id w w' l err [= <- <- _]. split; [done|]. apply Forall_singleton. by left.
Qed.

(** Two ENIs without secondary addresses, on an instance of type t3.small (three
    addresses and the primary one on an ENI). *)
Definition ec2_client : AwsSt Ec2 := mkAwsSt (set_instanceType "t3.small" zeroCache) ∅ (mkEc2 (1000 * Minute) ∅).
Definition ec2_boot : M (IpamSt (AwsSt Ec2)) unit :=
  store (AddENI "eni-1" 0 true) ;; store (AddENI "eni-2" 1 false) ;; mret tt.
Definition ec2_node : IpamSt (AwsSt Ec2) :=
  (ec2_boot (mkIpamSt (test_ctx noWarmIPTarget 1) ∅ ec2_client)).2.

Lemma boot_wf : ds_wf (dataStore (i_ctx ec2_node)).
Proof.
  assert (wp False ec2_boot (λ _ s', ds_wf (dataStore (i_ctx s')))
    (mkIpamSt (test_ctx noWarmIPTarget 1) ∅ ec2_client)) as Hb.
  { unfold ec2_boot. wp_steps. apply wp_store. eapply wp_mono; [apply AddENI_outcome|].
    intros e1 [ds1 p1 w1] H1. wp_steps. apply wp_store. eapply wp_mono; [apply AddENI_outcome|].
    intros e2 [ds2 p2 w2] H2. wp_steps. unfold dp in *. simpl in *.
    eapply addeni_wf, addeni_wf, ds_wf_new; eassumption. }
  destruct (wp_run _ _ _ Hb) as (a & s' & Hr & Hwf). unfold ec2_node. by rewrite Hr.
Qed.

Lemma ec2_ready : ready (client_secondary ec2_of) (client_limit 3) ec2_node.
Proof.
  split.
  - exact boot_wf.
  - change (map_Forall (λ id e, dom (IPv4Addresses e) = client_secondary ec2_of (i_world ec2_node) id)
      (eniIPPools (dataStore (i_ctx ec2_node)))).
    refine (proj1 (bool_decide_eq_true _) _). vm_compute. reflexivity.
  - vm_compute. discriminate.
  - vm_compute. discriminate.
Qed.

Lemma ended {S A} (E : Prop) (m : M S A) (Q : A → S → Prop) s a :
  (m s).1 = Ret a → wp E m Q s → Q a (m s).2.
Proof. unfold wp. destruct (m s) as [r s']. simpl. by intros ->. Qed.

Lemma pool_converges_witness :
  room (i_ctx ec2_node) = 6 ∧ total (dataStore (i_ctx ec2_node)) = 0 ∧
  let s' := (for_loop (λ _ : nat, increaseIPPool) (seq 0 6) ec2_node).2 in
  settled (i_ctx s') ∧ total (dataStore (i_ctx s')) = 6.
Proof.
  split; [vm_compute; reflexivity|]. split; [vm_compute; reflexivity|]. split; [|vm_compute; reflexivity].
  assert ((for_loop (λ _ : nat, increaseIPPool) (seq 0 6) ec2_node).1 = Ret tt) as Hr by (vm_compute; reflexivity).
  exact (proj2 (proj2 (ended _ _ _ _ _ Hr
    (pool_converges ec2_of 3 ec2_is_documented 6 ec2_node ec2_is_generous ec2_ready ltac:(vm_compute; discriminate))))).
Defined.
