(* ===== verification/Netlink.v ===== *)
(** * The kernel's network interface: pkg/netlinkwrapper, pkg/ipwrapper, pkg/nswrapper

    The data of the netlink package as the sources use them, the calls of the
    [NetLink] interface (with [AddDefaultRoute] and [WithNetNSPath]) as a type
    class over the world, the three error predicates of [netlinkwrapper], and
    what the routing policy rules of the host promise ([RulesOk]). *)
From stdpp Require Import pretty.
From S2P Require Import Prelude GoStd.

Open Scope Z_scope.

(** ** Addresses as strings *)

(** [fmt.Sprintf("%d", n)]. *)
Definition Itoa (n : Z) : string := pretty n.

(** [(ip net.IP) String()]; the nil IP prints as [<nil>]. *)
Definition octet (ip : Z) (i : Z) : Z := Z.land (Z.shiftr ip (8 * i)) 255.
Definition IP_String (ip : option Z) : string :=
  match ip with
  | None => "<nil>"
  | Some ip =>
      if is_v4 ip then (Itoa (octet ip 3) +:+ "." +:+ Itoa (octet ip 2) +:+ "." +:+
                        Itoa (octet ip 1) +:+ "." +:+ Itoa (octet ip 0))%string
      else v6_String (ip - v6_bit)
  end.

Lemma IP_String_v4 ip : ip < 2 ^ 32 →
  IP_String (Some ip) = (Itoa (octet ip 3) +:+ "." +:+ Itoa (octet ip 2) +:+ "." +:+
                         Itoa (octet ip 1) +:+ "." +:+ Itoa (octet ip 0))%string.
Proof. intros H. unfold IP_String, is_v4. by rewrite bool_decide_eq_true_2. Qed.

(** [net.IPNet] where the address may be nil: address and prefix length. *)
Definition NetAddr : Type := option Z * Z.
Definition to_addr (n : IPNet) : NetAddr := (Some (net_IP n), net_Ones n).

(** [(n *IPNet) String()]. *)
Definition IPNet_String (n : NetAddr) : string :=
  match n.1 with
  | None => "<nil>"
  | Some _ => (IP_String n.1 +:+ "/" +:+ Itoa n.2)%string
  end.

(** [fmt.Sprintf("%q", s)] of a text without quotes, backslashes and control
    characters. *)
Definition quote : Ascii.ascii := Ascii.ascii_of_nat 34.
Definition quoted (s : string) : string := (String quote s +:+ String quote "")%string.

Example IPNet_String_ex : IPNet_String (Some 167837696, 16) = "10.1.0.0/16"%string.
Proof. vm_compute. reflexivity. Qed.

(** ** netlink *)

(** [netlink.Rule]. *)
Record Rule := mkRule {
  r_Priority : Z;
  r_Family : Z;
  r_Table : Z;
  r_Mark : Z;
  r_Mask : Z;
  r_TunID : Z;
  r_Goto : Z;
  r_Src : option NetAddr;
  r_Dst : option NetAddr;
  r_Flow : Z;
  r_IifName : string;
  r_OifName : string;
  r_SuppressIfgroup : Z;
  r_SuppressPrefixlen : Z;
  r_Invert : bool;
}.

#[global] Instance Rule_eq_dec : EqDecision Rule.
Proof. solve_decision. Defined.

(** [(r Rule) String()]. *)
Definition Rule_String (r : Rule) : string :=
  ("ip rule " +:+ Itoa (r_Priority r) +:+ ": from " +:+ from_option IPNet_String "<nil>" (r_Src r) +:+
   " table " +:+ Itoa (r_Table r))%string.

(** [netlink.NewRule()], and the fields the sources assign: destination, source,
    table, priority. *)
Definition NewRule : Rule :=
  mkRule (-1) 0 0 (-1) (-1) 0 (-1) None None (-1) "" "" (-1) (-1) false.
Definition new_rule (dst src : option NetAddr) (table priority : Z) : Rule :=
  mkRule priority 0 table (-1) (-1) 0 (-1) src dst (-1) "" "" (-1) (-1) false.

(** [netlink.Link]: what the sources read of its attributes. *)
Record Link := mkLink { l_Name : string; l_Index : Z; l_HardwareAddr : string }.

(** [netlink.Veth] as it is created: up, with its MTU and its peer. *)
Record Veth := mkVeth { v_Name : string; v_MTU : Z; v_PeerName : string }.

(** [netlink.Route]: the fields the sources set; a zero table is unspecified. *)
Record Route := mkRoute {
  t_LinkIndex : Z;
  t_Scope : Z;
  t_Dst : option NetAddr;
  t_Src : option Z;
  t_Gw : option Z;
  t_Table : Z;
}.

(** [netlink.Neigh]. *)
Record Neigh := mkNeigh { g_LinkIndex : Z; g_State : Z; g_IP : Z; g_HardwareAddr : string }.

Definition SCOPE_UNIVERSE : Z := 0.
Definition SCOPE_LINK : Z := 253.
Definition NUD_PERMANENT : Z := 128.
Definition RT_TABLE_MAIN : Z := 254.

Class NetLink (W : Type) : Type := {
  LinkByName : string → ext W (Link + error);
  LinkAdd : Veth → ext W (option error);
  LinkSetUp : Link → ext W (option error);
  LinkDel : Link → ext W (option error);
  LinkSetMTU : Link → Z → ext W (option error);
  LinkList : ext W (list Link + error);
  LinkSetNsFd : Link → Z → ext W (option error);
  AddrAdd : Link → NetAddr → ext W (option error);
  AddrDel : Link → NetAddr → ext W (option error);
  AddrList : Link → ext W (list NetAddr + error);
  RouteAdd : Route → ext W (option error);
  RouteReplace : Route → ext W (option error);
  RouteDel : Route → ext W (option error);
  NeighAdd : Neigh → ext W (option error);
  RuleAdd : Rule → ext W (option error);
  RuleDel : Rule → ext W (option error);
  RuleList : ext W (list Rule + error);
  AddDefaultRoute : Z → Link → ext W (option error);
  (** the function is given the file descriptor of the host's namespace *)
  WithNetNSPath : string → (Z → M W (option error)) → M W (option error);
}.

(** ** Error predicates *)

Definition errno_is (e : error) (n : Z) : bool := bool_decide (errno_of e = Some n).

Definition IsNotExistsError (e : error) : bool := errno_is e ESRCH.
Definition IsRouteExistsError (e : error) : bool := errno_is e EEXIST.
Definition IsNetworkUnreachableError (e : error) : bool := errno_is e ENETUNREACH.

(** The same predicate stands in driver.go and in network.go. *)
Definition containsNoSuchRule (e : error) : bool := errno_is e ENOENT.
Definition isRuleExistsError (e : error) : bool := errno_is e EEXIST.

(** [if err := m; err != nil { return wrap(err) }], then [k]. *)
Definition check {S} (m : M S (option error)) (wrap : error → error) (k : M S (option error)) :
    M S (option error) :=
  err ← m;
  match err with
  | Some e => mret (Some (wrap e))
  | None => k
  end.

(** The same for a call that gives a value. *)
Definition check_val {S A} (m : M S (A + error)) (wrap : error → error) (k : A → M S (option error)) :
    M S (option error) :=
  r ← m;
  match r with
  | inr e => mret (Some (wrap e))
  | inl a => k a
  end.

(** [errors.Wrap(err, msg)] of an error that is not nil. *)
Definition wrapped (msg : string) (e : error) : error := EWrap e msg.

(** ** The rules of the host *)

(** What netlink sends of a rule: a network without address is left out. *)
Definition sent (n : option NetAddr) : option NetAddr :=
  match n with
  | Some (Some _, _) => n
  | _ => None
  end.

Definition sent_rule (r : Rule) : Rule :=
  mkRule (r_Priority r) (r_Family r) (r_Table r) (r_Mark r) (r_Mask r) (r_TunID r) (r_Goto r)
    (sent (r_Src r)) (sent (r_Dst r)) (r_Flow r) (r_IifName r) (r_OifName r)
    (r_SuppressIfgroup r) (r_SuppressPrefixlen r) (r_Invert r).

(** A rule given to [RuleDel] selects: a field it leaves open (no network, table
    0, a negative number, an empty name) matches anything. *)
Definition rule_matches (sel r : Rule) : bool :=
  (bool_decide (r_Priority sel < 0) || bool_decide (r_Priority sel = r_Priority r)) &&
  (bool_decide (r_Table sel = 0) || bool_decide (r_Table sel = r_Table r)) &&
  (bool_decide (r_Mark sel < 0) || bool_decide (r_Mark sel = r_Mark r)) &&
  (bool_decide (r_Mask sel < 0) || bool_decide (r_Mask sel = r_Mask r)) &&
  (bool_decide (sent (r_Src sel) = None) || bool_decide (sent (r_Src sel) = r_Src r)) &&
  (bool_decide (sent (r_Dst sel) = None) || bool_decide (sent (r_Dst sel) = r_Dst r)) &&
  (bool_decide (r_IifName sel = ""%string) || bool_decide (r_IifName sel = r_IifName r)) &&
  (bool_decide (r_OifName sel = ""%string) || bool_decide (r_OifName sel = r_OifName r)).

(** Removing the first rule that a selector matches. *)
Fixpoint rule_remove (sel : Rule) (l : list Rule) : list Rule :=
  match l with
  | [] => []
  | r :: l => if rule_matches sel r then l else r :: rule_remove sel l
  end.

(** The calls that are not about rules. *)
Inductive other_call {W : Type} `{!NetLink W} : ∀ {A : Type}, ext W A → Prop :=
| Other_LinkByName n : other_call (LinkByName n)
| Other_LinkAdd v : other_call (LinkAdd v)
| Other_LinkSetUp l : other_call (LinkSetUp l)
| Other_LinkDel l : other_call (LinkDel l)
| Other_LinkSetNsFd l fd : other_call (LinkSetNsFd l fd)
| Other_AddrAdd l a : other_call (AddrAdd l a)
| Other_RouteReplace r : other_call (RouteReplace r)
| Other_RouteDel r : other_call (RouteDel r)
| Other_NeighAdd n : other_call (NeighAdd n)
| Other_AddDefaultRoute gw l : other_call (AddDefaultRoute gw l)
| Other_LinkSetMTU l n : other_call (LinkSetMTU l n)
| Other_LinkList : other_call LinkList
| Other_AddrDel l a : other_call (AddrDel l a)
| Other_AddrList l : other_call (AddrList l)
| Other_RouteAdd r : other_call (RouteAdd r).

Inductive net_call {W : Type} `{!NetLink W} : ∀ {A : Type}, ext W A → Prop :=
| Net_other {A} (f : ext W A) : other_call f → net_call f
| Net_RuleAdd r : net_call (RuleAdd r)
| Net_RuleDel r : net_call (RuleDel r)
| Net_RuleList : net_call RuleList.

Create HintDb net.
#[export] Hint Constructors other_call net_call : net.

(** Every call returns to its caller, with a value or an error. *)
Class Answers (W : Type) `{!NetLink W} : Prop := {
  answered : ∀ A (f : ext W A) (w : W), net_call f → (f w).1 ≠ None;
  answered_netns : ∀ p f (w : W), (∀ fd w, ∃ o w', f fd w = (Ret o, w')) →
    ∃ o w', WithNetNSPath p f w = (Ret o, w');
}.

(** What the sources rely on: rules are kept in an order, a new one finds its
    place in it, [RuleDel] removes the first match and reports ENOENT only if
    there is none, errors change nothing, [RuleList] shows the rules, and no other
    call touches them. *)
Class RulesOk (W : Type) `{!NetLink W} (rules : W → list Rule) : Prop := {
  rules_add : ∀ r (w w' : W), RuleAdd r w = (Some None, w') →
    ∃ l1 l2, rules w = l1 ++ l2 ∧ rules w' = l1 ++ sent_rule r :: l2;
  rules_add_err : ∀ r (w w' : W) e, RuleAdd r w = (Some (Some e), w') → rules w' = rules w;
  rules_del : ∀ r (w w' : W), RuleDel r w = (Some None, w') →
    Exists (λ r', rule_matches r r' = true) (rules w) ∧ rules w' = rule_remove r (rules w);
  rules_del_err : ∀ r (w w' : W) e, RuleDel r w = (Some (Some e), w') →
    rules w' = rules w ∧
    (containsNoSuchRule e = true → Forall (λ r', rule_matches r r' = false) (rules w));
  rules_add_exists : ∀ r (w w' : W) e, RuleAdd r w = (Some (Some e), w') →
    isRuleExistsError e = true → sent_rule r ∈ rules w;
  rules_list : ∀ (w w' : W) o, RuleList w = (Some o, w') →
    rules w' = rules w ∧ (∀ l, o = inl l → l = rules w);
  rules_sent : ∀ w, Forall (λ r, sent_rule r = r) (rules w);
  rules_other : ∀ A (f : ext W A) (w : W), other_call f → rules (f w).2 = rules w;
  rules_netns : ∀ p f (w : W), (∀ fd w, rules (f fd w).2 = rules w) →
    rules (WithNetNSPath p f w).2 = rules w;
}.

(** ** Rules of weakest preconditions *)

Section wp_net.
Context {W : Type} `{!NetLink W} `{!Answers W}.

Lemma wp_net {A} (f : ext W A) (Q : A → W → Prop) w :
  net_call f → (∀ a w', f w = (Some a, w') → Q a w') → wp False (call f) Q w.
Proof.
  intros Hc HQ. pose proof (answered _ f w Hc) as Ha. unfold wp, call.
  destruct (f w) as [[a|] w'] eqn:Hf; [by apply HQ|done].
Qed.

Lemma wp_check E {S} (m : M S (option error)) wrap k (Q : option error → S → Prop) s :
  wp E m (λ o s', match o with Some e => Q (Some (wrap e)) s' | None => wp E k Q s' end) s →
  wp E (check m wrap k) Q s.
Proof. intros H. apply wp_bind. eapply wp_mono; [exact H|]. by intros [e|] s'. Qed.

Lemma wp_check_val E {S A} (m : M S (A + error)) wrap (k : A → M S (option error)) (Q : option error → S → Prop) s :
  wp E m (λ o s', match o with inr e => Q (Some (wrap e)) s' | inl a => wp E (k a) Q s' end) s →
  wp E (check_val m wrap k) Q s.
Proof. intros H. apply wp_bind. eapply wp_mono; [exact H|]. by intros [a|e] s'. Qed.

Context (rules : W → list Rule) `{!RulesOk W rules}.

(** A call that is not about rules. *)
Lemma wp_other {A} (f : ext W A) (Q : A → W → Prop) w :
  other_call f → (∀ a w', rules w' = rules w → Q a w') → wp False (call f) Q w.
Proof.
  intros Ho HQ. apply wp_net; [by apply Net_other|]. intros a w' Hf. apply HQ.
  pose proof (rules_other _ f w Ho) as H. by rewrite Hf in H.
Qed.

Lemma wp_RuleAdd r (Q : option error → W → Prop) w :
  (∀ w' l1 l2, rules w = l1 ++ l2 → rules w' = l1 ++ sent_rule r :: l2 → Q None w') →
  (∀ e w', rules w' = rules w → (isRuleExistsError e = true → sent_rule r ∈ rules w) → Q (Some e) w') →
  wp False (call (RuleAdd r)) Q w.
Proof.
  intros Hok Herr. apply wp_net; [auto with net|]. intros [e|] w' H.
  - apply Herr; [by eapply rules_add_err|by eapply rules_add_exists].
  - destruct (rules_add _ _ _ H) as (l1 & l2 & ? & ?). eauto.
Qed.

Lemma wp_RuleDel r (Q : option error → W → Prop) w :
  (∀ w', Exists (λ r', rule_matches r r' = true) (rules w) → rules w' = rule_remove r (rules w) → Q None w') →
  (∀ e w', rules w' = rules w →
     (containsNoSuchRule e = true → Forall (λ r', rule_matches r r' = false) (rules w)) → Q (Some e) w') →
  wp False (call (RuleDel r)) Q w.
Proof.
  intros Hok Herr. apply wp_net; [auto with net|]. intros [e|] w' H.
  - destruct (rules_del_err _ _ _ _ H). by apply Herr.
  - destruct (rules_del _ _ _ H). by apply Hok.
Qed.

End wp_net.

(** ** Facts about rules *)

Lemma sent_sent n : sent (sent n) = sent n.
Proof. by destruct n as [[[]]|]. Qed.

Lemma sent_rule_sent r : sent_rule (sent_rule r) = sent_rule r.
Proof. unfold sent_rule. simpl. by rewrite !sent_sent. Qed.

Lemma rule_matches_refl r : sent_rule r = r → rule_matches r r = true.
Proof.
  intros Hr. unfold rule_matches. rewrite !andb_true_iff, !orb_true_iff, !bool_decide_eq_true.
  pose proof (f_equal r_Src Hr) as Hs. pose proof (f_equal r_Dst Hr) as Hd. simpl in Hs, Hd.
  rewrite Hs, Hd. repeat split; by right.
Qed.

(** A selector with a source or a destination selects rules that have it. *)
Lemma rule_matches_src sel r n :
  rule_matches sel r = true → sent (r_Src sel) = Some n → r_Src r = Some n.
Proof.
  unfold rule_matches. rewrite !andb_true_iff, !orb_true_iff, !bool_decide_eq_true. intros H Hs.
  destruct H as ((((_ & [H|H]) & _) & _) & _); congruence.
Qed.

Lemma rule_matches_dst sel r n :
  rule_matches sel r = true → sent (r_Dst sel) = Some n → r_Dst r = Some n.
Proof.
  unfold rule_matches. rewrite !andb_true_iff, !orb_true_iff, !bool_decide_eq_true. intros H Hs.
  destruct H as (((_ & [H|H]) & _) & _); congruence.
Qed.

Lemma rule_matches_priority sel r :
  rule_matches sel r = true → 0 ≤ r_Priority sel → r_Priority r = r_Priority sel.
Proof.
  unfold rule_matches. rewrite !andb_true_iff, !orb_true_iff, !bool_decide_eq_true. intros H Hs.
  destruct H as ((((((([H|H] & _) & _) & _) & _) & _) & _) & _); lia.
Qed.

(** Removing a rule that a selector matches splits the list at it. *)
Lemma rule_remove_split sel l :
  Exists (λ r, rule_matches sel r = true) l →
  ∃ l1 r l2, l = l1 ++ r :: l2 ∧ rule_remove sel l = l1 ++ l2 ∧ rule_matches sel r = true ∧
    Forall (λ r, rule_matches sel r = false) l1.
Proof.
  induction l as [|r l IH]; intros H; [by inversion H|]. simpl.
  destruct (rule_matches sel r) eqn:Hr; [exists [], r, l; eauto using Forall_nil_2|].
  apply Exists_cons in H as [H|H]; [congruence|].
  destruct (IH H) as (l1 & r' & l2 & -> & -> & Hm & Hf). exists (r :: l1), r', l2.
  eauto using Forall_cons_2.
Qed.

(** What an insertion or a removal does to the rules that do, and do not, have a
    property. *)
Lemma filter_insert_not (P : Rule → Prop) `{∀ r, Decision (P r)} l1 r l2 :
  ¬ P r → filter P (l1 ++ r :: l2) = filter P (l1 ++ l2).
Proof. intros HP. by rewrite !filter_app, filter_cons_False. Qed.

Lemma filter_insert_perm (P : Rule → Prop) `{∀ r, Decision (P r)} l1 r l2 :
  P r → filter P (l1 ++ r :: l2) ≡ₚ r :: filter P (l1 ++ l2).
Proof. intros HP. rewrite !filter_app, filter_cons_True by done. by rewrite Permutation_middle. Qed.
