(* ===== verification/NetworkUtils.v ===== *)
(** * The network of the node: pkg/networkutils/network.go

    The settings read from the environment, the host network (policy rules and
    the chains of iptables), the routes of an ENI, and the policy rules of a
    source address, over the kernel interface [NetLink], iptables ([IPTables])
    and the files and interfaces of the host ([HostOS]).  Logging is left out. *)
From S2P Require Import Prelude GoStd Interfaces Netlink.

Open Scope Z_scope.

Definition hostRulePriority : Z := 1024.
Definition fromPodRulePriority : Z := 1536.
Definition mainRoutingTable : Z := RT_TABLE_MAIN.
Definition envExternalSNAT : string := "AWS_VPC_K8S_CNI_EXTERNALSNAT".
Definition envExcludeSNATCIDRs : string := "AWS_VPC_K8S_CNI_EXCLUDE_SNAT_CIDRS".
Definition envRandomizeSNAT : string := "AWS_VPC_K8S_CNI_RANDOMIZESNAT".
Definition envNodePortSupport : string := "AWS_VPC_CNI_NODE_PORT_SUPPORT".
Definition envConnmark : string := "AWS_VPC_K8S_CNI_CONNMARK".
Definition defaultConnmark : Z := 128.
Definition eniMTU : Z := 9001.
Definition maxRetryRouteAdd : Z := 5.
Definition retryRouteAddInterval : Z := 5 * Second.
Definition maxAttemptsLinkByMac : Z := 5.
Definition retryLinkByMacInterval : Z := 3 * Second.

(** ** What the host offers *)

(** [iptablesIface]: the methods the sources call. *)
Class IPTables (W : Type) : Type := {
  newIptables : ext W (option error);
  ipt_Exists : string → string → list string → ext W (bool * option error);
  ipt_Append : string → string → list string → ext W (option error);
  ipt_Delete : string → string → list string → ext W (option error);
  ipt_List : string → string → ext W (list string * option error);
  ipt_NewChain : string → string → ext W (option error);
  ipt_ListChains : string → ext W (list string * option error);
  ipt_HasRandomFully : ext W bool;
}.

(** [net.Interfaces()] (name and hardware address), and a file opened for
    writing. *)
Class HostOS (W : Type) : Type := {
  net_Interfaces : ext W (list (string * string) + error);
  openFile : string → ext W (option error);
  WriteString : string → string → ext W (option error);
  Close : string → ext W (option error);
}.

(** ** Settings *)

Inductive snatType : Type :=
| sequentialSNAT
| randomHashSNAT
| randomPRNGSNAT.

#[global] Instance snatType_eq_dec : EqDecision snatType.
Proof. solve_decision. Defined.

Record linuxNetwork := mkLinuxNetwork {
  lin_useExternalSNAT : bool;
  lin_excludeSNATCIDRs : list string;
  lin_typeOfSNAT : snatType;
  lin_nodePortSupportEnabled : bool;
  lin_mainENIMark : Z;
}.

Section settings.
Context {env : Environ}.

Definition getBoolEnvVar (name : string) (defaultValue : bool) : bool :=
  let strValue := Getenv name in
  if bool_decide (strValue ≠ ""%string) then
    match ParseBool strValue with
    | None => defaultValue
    | Some b => b
    end
  else defaultValue.

Definition useExternalSNAT : bool := getBoolEnvVar envExternalSNAT false.

Definition nodePortSupportEnabled : bool := getBoolEnvVar envNodePortSupport true.

Definition getExcludeSNATCIDRs : list string :=
  if useExternalSNAT then []
  else
    let excludeCIDRs := Getenv envExcludeSNATCIDRs in
    if bool_decide (excludeCIDRs = ""%string) then []
    else omap (λ c, (IPNet_String ∘ to_addr ∘ snd) <$> ParseCIDR c) (Split excludeCIDRs ",").

Definition typeOfSNAT : snatType :=
  let strValue := Getenv envRandomizeSNAT in
  if bool_decide (strValue = ""%string) then randomHashSNAT
  else if bool_decide (strValue = "prng"%string) then randomPRNGSNAT
  else if bool_decide (strValue = "none"%string) then sequentialSNAT
  else if bool_decide (strValue = "hashrandom"%string) then randomHashSNAT
  else randomHashSNAT.

Definition getConnmark : Z :=
  let connmark := Getenv envConnmark in
  if bool_decide (connmark ≠ ""%string) then
    match ParseInt connmark 0 64 with
    | None => defaultConnmark
    | Some mark =>
        if bool_decide (mark > 2 ^ 32 - 1) || bool_decide (mark ≤ 0) then defaultConnmark
        else mark
    end
  else defaultConnmark.

Definition New : linuxNetwork :=
  mkLinuxNetwork useExternalSNAT getExcludeSNATCIDRs typeOfSNAT nodePortSupportEnabled getConnmark.

End settings.

(** ** Policy rules of a source *)

Section rules.
Context {W : Type} `{!NetLink W}.

Definition GetRuleList : M W (list Rule + error) := call RuleList.

(** [rule.Src.IP.Equal(src.IP)]: two nil addresses are equal. *)
Definition from_src (src : NetAddr) (r : Rule) : Prop := fst <$> r_Src r = Some src.1.

#[global] Instance from_src_dec src r : Decision (from_src src r).
Proof. unfold from_src. apply _. Defined.

Definition GetRuleListBySrc (ruleList : list Rule) (src : NetAddr) : list Rule :=
  filter (from_src src) ruleList.

(** One turn of the loops that delete rules. *)
Definition delete_rule (msg : string) (rule : Rule) : M W (option error) :=
  err ← call (RuleDel rule);
  match err with
  | Some e => if containsNoSuchRule e then mret None else mret (Some (EWrap e msg))
  | None => mret None
  end.

Definition DeleteRuleListBySrc (src : NetAddr) : M W (option error) :=
  l ← GetRuleList;
  match l with
  | inr e => mret (Some e)
  | inl ruleList =>
      find_loop (delete_rule "DeleteRuleListBySrc: failed to delete old rule")
        (GetRuleListBySrc ruleList src)
  end.

(** The rules [UpdateRuleListBySrc] puts in place of the old ones. *)
Definition src_rule (src : NetAddr) (table : Z) (cidr : string) : Rule :=
  new_rule (to_addr ∘ snd <$> ParseCIDR cidr) (Some src) table fromPodRulePriority.

Definition UpdateRuleListBySrc (n : linuxNetwork) (ruleList : list Rule) (src : NetAddr)
    (toCIDRs : list string) (requiresSNAT : bool) : M W (option error) :=
  let srcRuleList := GetRuleListBySrc ruleList src in
  err ← find_loop (delete_rule "UpdateRuleListBySrc: failed to delete old rule") srcRuleList;
  match err with
  | Some e => mret (Some e)
  | None =>
      match last srcRuleList with
      | None => mret None
      | Some lastRule =>
          let srcRuleTable := r_Table lastRule in
          if requiresSNAT then
            find_loop (λ cidr,
              check (call (RuleAdd (src_rule src srcRuleTable cidr)))
                (wrapped ("UpdateRuleListBySrc: failed to add pod rule for CIDR " +:+ cidr)) (mret None))
              (toCIDRs ++ lin_excludeSNATCIDRs n)
          else
            check (call (RuleAdd (new_rule None (Some src) srcRuleTable fromPodRulePriority)))
              (wrapped "UpdateRuleListBySrc: failed to add pod rule") (mret None)
      end
  end.

End rules.

(** ** The network of an ENI *)

(** [incrementIPv4Addr]: the address after, unless it is the last one. *)
Definition incrementIPv4Addr (ip : Z) : Z + error :=
  if negb (is_v4 ip) then inr (EStr (quoted (IP_String (Some ip)) +:+ " is not a valid IPv4 Address"))
  else if bool_decide (ip = 2 ^ 32 - 1) then inr (EStr (quoted (IP_String (Some ip)) +:+ " will be overflowed"))
  else inl ((ip + 1) `mod` 2 ^ 32).

Section eni.
Context {W : Type} `{!World W, !NetLink W}.

(** The [for] loop of [LinkByMac]; [attempt] counts the attempts made. *)
Fixpoint LinkByMac_loop (fuel : nat) (attempt : Z) (lastErr : option error) (mac : string)
    (retryInterval : Z) : M W (option Link * option error) :=
  match fuel with
  | O => nofuel
  | S fuel =>
      let attempt := attempt + 1 in
      let of_max := (" (attempt " +:+ Itoa attempt +:+ "/" +:+ Itoa maxAttemptsLinkByMac +:+ ")")%string in
      if bool_decide (attempt > maxAttemptsLinkByMac) then mret (None, lastErr)
      else
        (if bool_decide (attempt > 1) then time_Sleep retryInterval else mret tt) ;;
        links ← call LinkList;
        match links with
        | inr e => LinkByMac_loop fuel attempt (Some (EStr (Error e +:+ of_max))) mac retryInterval
        | inl links =>
            match list_find (λ l, mac = l_HardwareAddr l) links with
            | Some (_, link) => mret (Some link, None)
            | None =>
                LinkByMac_loop fuel attempt
                  (Some (EStr ("no interface found which uses mac address " +:+ mac +:+ of_max)))
                  mac retryInterval
            end
        end
  end.

Definition LinkByMac (mac : string) (retryInterval : Z) : M W (option Link * option error) :=
  LinkByMac_loop (Z.to_nat (maxAttemptsLinkByMac + 1)) 0 None mac retryInterval.

Definition route_msg (r : Route) (gw table : Z) : string :=
  IP_String (default None (fst <$> t_Dst r)) +:+ "/0 via " +:+ IP_String (Some gw) +:+ " table " +:+ Itoa table.

(** The [for] loop that adds one route; [retry] counts the retries. *)
Fixpoint addRoute_loop (fuel : nat) (retry : Z) (r : Route) (gw table interval : Z) : M W (option error) :=
  match fuel with
  | O => nofuel
  | S fuel =>
      err ← call (RouteAdd r);
      match err with
      | None => mret None
      | Some e =>
          if IsNetworkUnreachableError e then
            let retry := retry + 1 in
            if bool_decide (retry > maxRetryRouteAdd) then
              mret (Some (EWrap e ("setupENINetwork: failed to add route " +:+ route_msg r gw table)))
            else
              time_Sleep interval ;;
              addRoute_loop fuel retry r gw table interval
          else if IsRouteExistsError e then
            check (call (RouteReplace r))
              (wrapped ("setupENINetwork: unable to replace route entry " +:+
                        IP_String (default None (fst <$> t_Dst r)))) (mret None)
          else mret (Some (EWrap e ("setupENINetwork: unable to add route " +:+ route_msg r gw table)))
      end
  end.

(** One turn of the loop over the two routes. *)
Definition install_route (gw table interval : Z) (r : Route) : M W (option error) :=
  err ← call (RouteDel r);
  match err with
  | Some e =>
      if negb (IsNotExistsError e) then
        mret (Some (EWrap e "setupENINetwork: failed to clean up old routes"))
      else addRoute_loop (Z.to_nat (maxRetryRouteAdd + 1)) 0 r gw table interval
  | None => addRoute_loop (Z.to_nat (maxRetryRouteAdd + 1)) 0 r gw table interval
  end.

(** The routes of an ENI's table: the gateway on the link, the rest through it. *)
Definition eni_routes (deviceNumber gw table : Z) : list Route :=
  [mkRoute deviceNumber SCOPE_LINK (Some (Some gw, 32)) None None table;
   mkRoute deviceNumber SCOPE_UNIVERSE (Some (Some 0, 0)) None (Some gw) table].

(** [setupENINetwork] from the moment the link is up. *)
Definition setup_eni_link (link : Link) (eniIP : string) (table : Z) (eniSubnetCIDR : string)
    (interval : Z) : M W (option error) :=
  match ParseCIDR eniSubnetCIDR with
  | None =>
      mret (Some (EWrap (EStr ("invalid CIDR address: " +:+ eniSubnetCIDR))
                    ("setupENINetwork: invalid IPv4 CIDR block " +:+ eniSubnetCIDR)))
  | Some (_, ipnet) =>
      match incrementIPv4Addr (net_IP ipnet) with
      | inr e =>
          mret (Some (EWrap e ("setupENINetwork: failed to define gateway address from " +:+
                                IP_String (Some (net_IP ipnet)))))
      | inl gw =>
          check_val (call (AddrList link)) (wrapped "setupENINetwork: failed to list IP address for ENI")
            (λ addrs,
          err ← find_loop (λ addr,
            check (call (AddrDel link addr))
              (wrapped "setupENINetwork: failed to delete IP addr from ENI") (mret None)) addrs;
          match err with
          | Some e => mret (Some e)
          | None =>
              check (call (AddrAdd link (ParseIP eniIP, net_Ones ipnet)))
                (wrapped "setupENINetwork: failed to add IP addr to ENI") (
              err ← find_loop (install_route gw table interval) (eni_routes (l_Index link) gw table);
              match err with
              | Some e => mret (Some e)
              | None =>
                  err ← call (RouteDel (mkRoute 0 SCOPE_LINK (Some (to_addr ipnet)) (ParseIP eniIP) None
                                          mainRoutingTable));
                  match err with
                  | Some e =>
                      if negb (IsNotExistsError e) then
                        mret (Some (EWrap e ("setupENINetwork: unable to delete default route " +:+
                                IPNet_String (to_addr ipnet) +:+ " for source IP " +:+ eniIP)))
                      else mret None
                  | None => mret None
                  end
              end)
          end)
      end
  end.

Definition setupENINetwork (eniIP eniMAC : string) (eniTable : Z) (eniSubnetCIDR : string)
    (retryMac retryRoute : Z) : M W (option error) :=
  if bool_decide (eniTable = 0) then mret None
  else
    '(link, err) ← LinkByMac eniMAC retryMac;
    match err with
    | Some e =>
        mret (Some (EWrap e ("setupENINetwork: failed to find the link which uses MAC address " +:+ eniMAC)))
    | None =>
        match link with
        | None => panic "nil pointer dereference"
        | Some link =>
            check (call (LinkSetMTU link eniMTU))
              (wrapped ("setupENINetwork: failed to set MTU for " +:+ eniIP)) (
            check (call (LinkSetUp link))
              (wrapped ("setupENINetwork: failed to bring up ENI " +:+ eniIP)) (
            setup_eni_link link eniIP eniTable eniSubnetCIDR retryRoute))
        end
    end.

Definition SetupENINetwork (eniIP mac : string) (table : Z) (subnetCIDR : string) : M W (option error) :=
  setupENINetwork eniIP mac table subnetCIDR retryLinkByMacInterval retryRouteAddInterval.

End eni.

(** ** The host network *)

(** [iptablesRule]. *)
Record iptablesRule := mkIptablesRule {
  ir_name : string;
  ir_shouldExist : bool;
  ir_table : string;
  ir_chain : string;
  ir_rule : list string;
}.

(** [(r iptablesRule) String()]. *)
Definition iptablesRule_String (r : iptablesRule) : string :=
  ir_table r +:+ "/" +:+ ir_chain r +:+ " rule " +:+ ir_name r.

Definition containChainExistErr (e : error) : bool := Contains (Error e) "Chain already exists".

(** [csv.Reader] with [Comma = ' '], on one line: fields are separated by single
    blanks; a field that starts with a quote runs to the closing one, two quotes
    in it standing for one; a quote in another field, or anything but a blank or
    the end after the closing one, is an error, and so is an unclosed field. *)
Inductive csv_state : Type :=
| CsvStart
| CsvPlain (field : string)
| CsvQuoted (field : string)
| CsvClosed (field : string).

Fixpoint csv_fields (st : csv_state) (s : string) : option (list string) :=
  match s with
  | EmptyString =>
      match st with
      | CsvStart => Some [""%string]
      | CsvPlain f | CsvClosed f => Some [f]
      | CsvQuoted _ => None
      end
  | String c s =>
      let blank := bool_decide (c = " "%char) in
      let q := bool_decide (c = quote) in
      let add f := (f +:+ String c "")%string in
      match st with
      | CsvStart =>
          if blank then cons ""%string <$> csv_fields CsvStart s
          else if q then csv_fields (CsvQuoted "") s
          else csv_fields (CsvPlain (String c "")) s
      | CsvPlain f =>
          if blank then cons f <$> csv_fields CsvStart s
          else if q then None
          else csv_fields (CsvPlain (add f)) s
      | CsvQuoted f => if q then csv_fields (CsvClosed f) s else csv_fields (CsvQuoted (add f)) s
      | CsvClosed f =>
          if blank then cons f <$> csv_fields CsvStart s
          else if q then csv_fields (CsvQuoted (add f)) s
          else None
      end
  end.

(** [r.Read()]: an empty line holds no record. *)
Definition csv_Read (line : string) : option (list string) :=
  match line with
  | EmptyString => None
  | _ => csv_fields CsvStart line
  end.

Section host.
Context {W : Type} `{!NetLink W, !IPTables W, !HostOS W}.

Definition findPrimaryInterfaceName (primaryMAC : string) : M W (string * option error) :=
  interfaces ← call net_Interfaces;
  match interfaces with
  | inr e => mret (""%string, Some (EWrap e "findPrimaryInterfaceName: failed to find interfaces"))
  | inl interfaces =>
      match list_find (λ i, primaryMAC = i.2) interfaces with
      | Some (_, (name, _)) => mret (name, None)
      | None => mret (""%string, Some (EStr "no primary interface found"))
      end
  end.

Definition setProcSys (key value : string) : M W (option error) :=
  check (call (openFile key)) id (
  err ← call (WriteString key value);
  match err with
  | Some e => _ ← call (Close key); mret (Some e)
  | None => call (Close key)
  end).

(** The rules of one chain; [ruleSpec[2:]] drops the action and the chain. *)
Fixpoint parse_chain (i : Z) (chain : string) (rules : list string) (toClear : list iptablesRule) :
    M W (list iptablesRule + error) :=
  match rules with
  | [] => mret (inl toClear)
  | rule :: rules =>
      match csv_Read rule with
      | None =>
          mret (inr (EWrap (EStr "parse error")
            ("host network setup: failed to parse iptables nat chain " +:+ chain +:+ " rule " +:+ rule)))
      | Some (_ :: _ :: ruleSpec) =>
          parse_chain (i + 1) chain rules
            (toClear ++ [mkIptablesRule ("[" +:+ Itoa i +:+ "] " +:+ chain) false "nat" chain ruleSpec])
      | Some _ => panic "slice bounds out of range"
      end
  end.

Fixpoint list_chains (chains : list string) (toClear : list iptablesRule) : M W (list iptablesRule + error) :=
  match chains with
  | [] => mret (inl toClear)
  | chain :: chains =>
      if negb (HasPrefix chain "AWS-SNAT-CHAIN") then list_chains chains toClear
      else
        '(rules, err) ← call (ipt_List "nat" chain);
        match err with
        | Some e =>
            mret (inr (EWrap e ("host network setup: failed to list iptables nat chain " +:+ chain)))
        | None =>
            r ← parse_chain 0 chain rules toClear;
            match r with
            | inr e => mret (inr e)
            | inl toClear => list_chains chains toClear
            end
        end
  end.

Definition listCurrentSNATRules : M W (list iptablesRule + error) :=
  '(existingChains, err) ← call (ipt_ListChains "nat");
  match err with
  | Some e => mret (inr (EWrap e "host network setup: failed to list iptables nat chains"))
  | None => list_chains existingChains []
  end.

Definition chain_name (i : nat) : string := "AWS-SNAT-CHAIN-" +:+ Itoa (Z.of_nat i).

(** The rules of the SNAT chains: one jump from POSTROUTING, in chain [i] one
    jump to chain [i + 1] for destinations outside CIDR [i], and the SNAT itself
    in the last chain. *)
Definition snat_jump (ext : bool) (i : nat) (cidr : string * bool) : iptablesRule :=
  mkIptablesRule ("[" +:+ Itoa (Z.of_nat i) +:+ "] AWS-SNAT-CHAIN") (negb ext) "nat" (chain_name i)
    ["!"; "-d"; cidr.1; "-m"; "comment"; "--comment";
     (if cidr.2 then "AWS SNAT CHAIN EXCLUSION" else "AWS SNAT CHAIN"); "-j"; chain_name (S i)]%string.

Definition snat_rule (typ : snatType) (randomFully : bool) (primaryAddr : string) : list string :=
  ["-m"; "comment"; "--comment"; "AWS, SNAT"; "-m"; "addrtype"; "!"; "--dst-type"; "LOCAL";
   "-j"; "SNAT"; "--to-source"; primaryAddr]%string ++
  match typ with
  | sequentialSNAT => []
  | randomHashSNAT => ["--random"%string]
  | randomPRNGSNAT => if randomFully then ["--random-fully"%string] else ["--random"%string]
  end.

Definition snat_rules (n : linuxNetwork) (allCIDRs : list (string * bool)) (randomFully : bool)
    (primaryAddr : string) : list iptablesRule :=
  let ext := lin_useExternalSNAT n in
  [mkIptablesRule "first SNAT rules for non-VPC outbound traffic" (negb ext) "nat" "POSTROUTING"
     ["-m"; "comment"; "--comment"; "AWS SNAT CHAIN"; "-j"; "AWS-SNAT-CHAIN-0"]%string] ++
  imap (snat_jump ext) allCIDRs ++
  [mkIptablesRule "last SNAT rule for non-VPC outbound traffic" (negb ext) "nat"
     (chain_name (length allCIDRs)) (snat_rule (lin_typeOfSNAT n) randomFully primaryAddr)].

(** A listed rule that is none of the wanted ones. *)
Definition is_stale (wanted : list iptablesRule) (r : iptablesRule) : Prop :=
  Forall (λ n, ¬ (ir_chain r = ir_chain n ∧ ir_rule n = ir_rule r)) wanted.

#[global] Instance is_stale_dec wanted r : Decision (is_stale wanted r).
Proof. unfold is_stale. apply _. Defined.

(** [fmt.Sprintf("%#x", mark)]. *)
Definition hex (n : Z) : string := ("0x" +:+ hex_digits 16 n "")%string.

(** The rules for node ports, and the one left by old versions. *)
Definition other_rules (n : linuxNetwork) (primaryIntf vpcCIDR primaryAddr : string) : list iptablesRule :=
  let mark := hex (lin_mainENIMark n) in
  [mkIptablesRule "connmark for primary ENI" (lin_nodePortSupportEnabled n) "mangle" "PREROUTING"
     ["-m"; "comment"; "--comment"; "AWS, primary ENI"; "-i"; primaryIntf;
      "-m"; "addrtype"; "--dst-type"; "LOCAL"; "--limit-iface-in";
      "-j"; "CONNMARK"; "--set-mark"; mark +:+ "/" +:+ mark]%string;
   mkIptablesRule "connmark restore for primary ENI" (lin_nodePortSupportEnabled n) "mangle" "PREROUTING"
     ["-m"; "comment"; "--comment"; "AWS, primary ENI"; "-i"; "eni+";
      "-j"; "CONNMARK"; "--restore-mark"; "--mask"; mark]%string;
   mkIptablesRule ("rule for primary address " +:+ primaryAddr) false "nat" "POSTROUTING"
     ["!"; "-d"; vpcCIDR; "-m"; "comment"; "--comment"; "AWS, SNAT"; "-m"; "addrtype"; "!";
      "--dst-type"; "LOCAL"; "-j"; "SNAT"; "--to-source"; primaryAddr]%string].

(** One turn of the loop that applies the rules. *)
Definition apply_rule (r : iptablesRule) : M W (option error) :=
  '(exists_, err) ← call (ipt_Exists (ir_table r) (ir_chain r) (ir_rule r));
  match err with
  | Some e =>
      mret (Some (EWrap e ("host network setup: failed to check existence of " +:+ iptablesRule_String r)))
  | None =>
      if negb exists_ && ir_shouldExist r then
        check (call (ipt_Append (ir_table r) (ir_chain r) (ir_rule r)))
          (wrapped ("host network setup: failed to add " +:+ iptablesRule_String r)) (mret None)
      else if exists_ && negb (ir_shouldExist r) then
        check (call (ipt_Delete (ir_table r) (ir_chain r) (ir_rule r)))
          (wrapped ("host network setup: failed to delete " +:+ iptablesRule_String r)) (mret None)
      else mret None
  end.

Definition new_chain (i : nat) : M W (option error) :=
  err ← call (ipt_NewChain "nat" (chain_name i));
  match err with
  | Some e =>
      if negb (containChainExistErr e) then
        mret (Some (EWrap e "host network setup: failed to add chain"))
      else mret None
  | None => mret None
  end.

(** The iptables part of [SetupHostNetwork]. *)
Definition setup_iptables (n : linuxNetwork) (vpcCIDR : string) (vpcCIDRs : list string)
    (primaryIntf primaryAddr : string) : M W (option error) :=
  check (call newIptables) (wrapped "host network setup: failed to create iptables") (
  let allCIDRs := ((λ c, (c, false)) <$> vpcCIDRs) ++ ((λ c, (c, true)) <$> lin_excludeSNATCIDRs n) in
  check_val listCurrentSNATRules
    (wrapped "host network setup: failed to get SNAT chain rules to clear") (λ toCheck,
  err ← find_loop new_chain (seq 0 (S (length allCIDRs)));
  match err with
  | Some e => mret (Some e)
  | None =>
      randomFully ← (if bool_decide (lin_typeOfSNAT n = randomPRNGSNAT) then call ipt_HasRandomFully
                     else mret false);
      let wanted := snat_rules n allCIDRs randomFully primaryAddr in
      find_loop apply_rule
        (wanted ++ filter (is_stale wanted) toCheck ++ other_rules n primaryIntf vpcCIDR primaryAddr)
  end)).

(** The rule for the main ENI: marked traffic leaves through the main table. *)
Definition main_eni_rule (n : linuxNetwork) : Rule :=
  mkRule hostRulePriority 0 mainRoutingTable (lin_mainENIMark n) (lin_mainENIMark n) 0 (-1) None None (-1)
    "" "" (-1) (-1) false.

Definition host_rule (vpcCIDR : NetAddr) : Rule :=
  mkRule hostRulePriority 0 mainRoutingTable (-1) (-1) 0 (-1) None (Some vpcCIDR) (-1) "" "" (-1) (-1) true.

Definition SetupHostNetwork (n : linuxNetwork) (vpcCIDR : NetAddr) (vpcCIDRs : list string)
    (primaryMAC : string) (primaryAddr : option Z) : M W (option error) :=
  check (delete_rule "host network setup: failed to delete old host rule" (host_rule vpcCIDR)) id (
  '(primaryIntf, err) ←
    (if lin_nodePortSupportEnabled n then
       '(primaryIntf, err) ← findPrimaryInterfaceName primaryMAC;
       match err with
       | Some e => mret (primaryIntf, Some (EWrap e "failed to SetupHostNetwork"))
       | None =>
           err ← setProcSys ("/proc/sys/net/ipv4/conf/" +:+ primaryIntf +:+ "/rp_filter") "2";
           mret (primaryIntf, Wrap err ("failed to configure " +:+ primaryIntf +:+ " RPF check"))
       end
     else mret ("eth0"%string, None));
  match err with
  | Some e => mret (Some e)
  | None =>
      check (delete_rule "host network setup: failed to delete old main ENI rule" (main_eni_rule n)) id (
      check (if lin_nodePortSupportEnabled n then call (RuleAdd (main_eni_rule n)) else mret None)
        (wrapped "host network setup: failed to add main ENI rule") (
      setup_iptables n (IPNet_String vpcCIDR) vpcCIDRs primaryIntf (IP_String primaryAddr)))
  end).

End host.
