(* ===== verification/NetworkUtilsProps.v ===== *)
(** * Theorems about the network of the node

    The policy rules of a source address ([DeleteRuleListBySrc],
    [UpdateRuleListBySrc]), the network of an ENI, the chains of iptables and the
    settings.  [Kernel] is a small kernel the witnesses run on. *)
From S2P Require Import Prelude GoStd Interfaces Netlink NetworkUtils.

Open Scope Z_scope.

(** ** A concrete kernel *)

Record Kernel := mkKernel {
  k_clock : Z;
  k_rules : list Rule;
  k_links : list Link;
  k_routes : list Route;
}.

#[global] Instance Kernel_World : World Kernel := {
  w_now w := (k_clock w, mkKernel (k_clock w + Second) (k_rules w) (k_links w) (k_routes w));
  w_sleep d w := mkKernel (k_clock w + d) (k_rules w) (k_links w) (k_routes w);
  w_range A l w := (l, w);
}.

(** The rules it holds: those that can have been sent. *)
Definition kernel_rules (w : Kernel) : list Rule := filter (λ r, sent_rule r = r) (k_rules w).
Definition set_rules (l : list Rule) (w : Kernel) : Kernel :=
  mkKernel (k_clock w) l (k_links w) (k_routes w).
Definition set_links (l : list Link) (w : Kernel) : Kernel :=
  mkKernel (k_clock w) (k_rules w) l (k_routes w).
Definition set_routes (l : list Route) (w : Kernel) : Kernel :=
  mkKernel (k_clock w) (k_rules w) (k_links w) l.

#[global] Instance Kernel_NetLink : NetLink Kernel := {
  LinkByName n w :=
    (Some (match list_find (λ l, l_Name l = n) (k_links w) with
           | Some (_, l) => inl l
           | None => inr (EStr "Link not found")
           end), w);
  LinkAdd v w :=
    (Some None, set_links (k_links w ++ [mkLink (v_Name v) 7 "0a:01"; mkLink (v_PeerName v) 8 "0a:02"]) w);
  LinkSetUp _ w := (Some None, w);
  LinkDel l w := (Some None, set_links (filter (λ l', l_Name l' ≠ l_Name l) (k_links w)) w);
  LinkSetMTU _ _ w := (Some None, w);
  LinkList w := (Some (inl (k_links w)), w);
  LinkSetNsFd _ _ w := (Some None, w);
  AddrAdd _ _ w := (Some None, w);
  AddrDel _ _ w := (Some None, w);
  AddrList _ w := (Some (inl []), w);
  RouteAdd r w := (Some None, set_routes (k_routes w ++ [r]) w);
  RouteReplace r w := (Some None, set_routes (k_routes w ++ [r]) w);
  RouteDel r w := (Some (Some (EErrno ESRCH "no such process")), w);
  NeighAdd _ w := (Some None, w);
  RuleAdd r w :=
    if bool_decide (sent_rule r ∈ kernel_rules w) then (Some (Some (EErrno EEXIST "file exists")), w)
    else (Some None, set_rules (kernel_rules w ++ [sent_rule r]) w);
  RuleDel r w :=
    if existsb (rule_matches r) (kernel_rules w) then (Some None, set_rules (rule_remove r (kernel_rules w)) w)
    else (Some (Some (EErrno ENOENT "no such file or directory")), w);
  RuleList w := (Some (inl (kernel_rules w)), w);
  AddDefaultRoute _ _ w := (Some None, w);
  WithNetNSPath _ f w := f 3 w;
}.

Lemma filter_all {A} (P : A → Prop) `{∀ x, Decision (P x)} l : Forall P l → filter P l = l.
Proof. induction 1; [done|]. rewrite filter_cons_True by done. congruence. Qed.

Lemma kernel_rules_sent w : Forall (λ r, sent_rule r = r) (kernel_rules w).
Proof. apply Forall_forall. by intros r [? _]%list_elem_of_filter. Qed.

Lemma rule_remove_incl sel l r : r ∈ rule_remove sel l → r ∈ l.
Proof.
  induction l as [|r' l IH]; simpl; [done|]. destruct (rule_matches sel r'); [by right|].
  rewrite !elem_of_cons. naive_solver.
Qed.

#[global] Instance Kernel_Answers : Answers Kernel.
Proof.
  split.
  - intros A f w Hf. destruct Hf as [A f Ho|r|r|]; [destruct Ho; simpl; done| | |done].
    + simpl. by case_bool_decide.
    + simpl. by destruct (existsb _ _).
  - intros p f w Hf. apply Hf.
Qed.

#[global] Instance Kernel_RulesOk : RulesOk Kernel kernel_rules.
Proof.
  split.
  - intros r w w' H. simpl in H. case_bool_decide; [done|]. injection H as <-.
    exists (kernel_rules w), []. rewrite app_nil_r. split; [done|]. unfold kernel_rules at 1. simpl.
    apply filter_all, Forall_app. split; [apply kernel_rules_sent|]. constructor; [apply sent_rule_sent|done].
  - intros r w w' e H. simpl in H. case_bool_decide; [|done]. by injection H as <- <-.
  - intros r w w' H. simpl in H. destruct (existsb _ _) eqn:He; [|done]. injection H as <-. split.
    + apply existsb_exists in He as (r' & Hr' & Hm). apply Exists_exists. exists r'.
      by rewrite list_elem_of_In.
    + unfold kernel_rules at 1. simpl. apply filter_all, Forall_forall. intros r' Hr'%rule_remove_incl.
      exact (proj1 (Forall_forall _ _) (kernel_rules_sent w) r' Hr').
  - intros r w w' e H. simpl in H. destruct (existsb _ _) eqn:He; [done|]. injection H as <- <-.
    split; [done|]. intros _. apply Forall_forall. intros r' Hr'. apply not_true_is_false. intros Hm.
    rewrite <-not_true_iff_false, existsb_exists in He. apply He. exists r'. by rewrite <-list_elem_of_In.
  - intros r w w' e H He. simpl in H. by case_bool_decide.
  - intros w w' o [= <- <-]. split; [done|]. by intros l [= <-].
  - apply kernel_rules_sent.
  - by intros A f w [].
  - intros p f w Hf. apply Hf.
Qed.

(** ** Policy rules of a source *)

Section rules.
Context {W : Type} `{!NetLink W} `{!Answers W} (rules : W → list Rule) `{!RulesOk W rules}.

(** The rules that are not from the source. *)
Definition others (src : NetAddr) (w : W) : list Rule := filter (λ r, ¬ from_src src r) (rules w).
Definition of_src (src : NetAddr) (w : W) : list Rule := filter (from_src src) (rules w).

(** The first rule of the source is what a deletion of it removes. *)
Lemma rule_remove_src src r l L :
  filter (from_src src) l = r :: L → Forall (λ r, sent_rule r = r) l →
  Exists (λ r', rule_matches r r' = true) l ∧
  filter (from_src src) (rule_remove r l) = L ∧
  filter (λ r, ¬ from_src src r) (rule_remove r l) = filter (λ r, ¬ from_src src r) l.
Proof.
  induction l as [|r' l IH]; intros Hf Hs; [done|]. inversion Hs as [|? ? Hr' Hs']; subst. simpl.
  destruct (decide (from_src src r')) as [Hin|Hout].
  - rewrite filter_cons_True in Hf by done. injection Hf as -> <-.
    rewrite rule_matches_refl by done. split; [constructor; by apply rule_matches_refl|]. split; [done|].
    rewrite filter_cons_False; [done|]. naive_solver.
  - rewrite filter_cons_False in Hf by done. destruct (IH Hf Hs') as (He & H1 & H2).
    assert (from_src src r ∧ sent_rule r = r) as [Hsrc Hsent].
    { assert (r ∈ filter (from_src src) l) as [? Hl]%list_elem_of_filter by (rewrite Hf; by left).
      split; [done|]. exact (proj1 (Forall_forall _ _) Hs' r Hl). }
    assert (rule_matches r r' = false) as ->.
    { apply not_true_is_false. intros Hm. apply Hout. unfold from_src in *.
      destruct (r_Src r) as [n|] eqn:Hn; [|done].
      erewrite rule_matches_src; [exact Hsrc|exact Hm|].
      pose proof (f_equal r_Src Hsent) as H. simpl in H. congruence. }
    split; [by apply Exists_cons_tl|]. rewrite filter_cons_False, !filter_cons_True by done.
    by rewrite H1, H2.
Qed.

(** The loops that delete the rules of a source. *)
Lemma delete_loop_spec msg src L w :
  of_src src w = L →
  wp False (find_loop (delete_rule msg) L)
    (λ o w', others src w' = others src w ∧ (o = None → of_src src w' = [])) w.
Proof.
  revert w. induction L as [|r L IH]; intros w HL; simpl; [by wp_steps|].
  destruct (rule_remove_src _ _ _ _ HL (rules_sent w)) as (He & H1 & H2).
  apply wp_bind. unfold delete_rule. apply wp_bind. apply (wp_RuleDel rules).
  - intros w' _ Hw'. wp_steps. eapply wp_mono; [apply IH; unfold of_src; by rewrite Hw'|].
    intros o w'' [Ho Hn]. split; [|done]. rewrite Ho. unfold others. by rewrite Hw'.
  - intros e w' Hw' Hnone. destruct (containsNoSuchRule e).
    + exfalso. specialize (Hnone eq_refl). clear -He Hnone. induction He; inversion Hnone; subst; [congruence|eauto].
    + wp_steps. split; [|done]. unfold others. by rewrite Hw'.
Qed.

(** [DeleteRuleListBySrc] always returns; whatever happens it leaves the rules
    of every other source as they were, in their order, and when it reports
    success no rule of the source is left. *)
Lemma delete_rules_by_src src (w : W) :
  ∃ o w', w ⊢ DeleteRuleListBySrc src ⇓ o ⊣ w' ∧ others src w' = others src w ∧
    (o = None → of_src src w' = []).
Proof.
  apply wp_run. unfold DeleteRuleListBySrc, GetRuleList. apply wp_bind. apply wp_net; [auto with net|].
  intros r w1 Hr. destruct (rules_list _ _ _ Hr) as [Hw1 Hl]. destruct r as [l|e].
  - rewrite (Hl l eq_refl). eapply wp_mono; [apply delete_loop_spec|].
    + unfold of_src, GetRuleListBySrc. by rewrite Hw1.
    + intros o w' [Ho Hn]. split; [|done]. rewrite Ho. unfold others. by rewrite Hw1.
  - wp_steps. split; [|done]. unfold others. by rewrite Hw1.
Qed.

(** Adding one rule of the source. *)
Lemma from_src_sent src r : is_Some src.1 → r_Src r = Some src → from_src src (sent_rule r).
Proof. intros [ip Hip] Hr. unfold from_src. simpl. rewrite Hr. destruct src. simpl in *. by subst. Qed.

Lemma wp_add_src src r wrap (Q : option error → W → Prop) w :
  is_Some src.1 → r_Src r = Some src →
  (∀ o w', others src w' = others src w →
     (o = None → of_src src w' ≡ₚ sent_rule r :: of_src src w) → Q o w') →
  wp False (check (call (RuleAdd r)) wrap (mret None)) Q w.
Proof.
  intros Hip Hr HQ. pose proof (from_src_sent _ _ Hip Hr) as Hs. apply wp_check, (wp_RuleAdd rules).
  - intros w' l1 l2 H1 H2. wp_steps. apply HQ; unfold others, of_src; rewrite H1, H2.
    + apply filter_insert_not. naive_solver.
    + intros _. by apply filter_insert_perm.
  - intros e w' Hw _. apply HQ; [|done]. unfold others. by rewrite Hw.
Qed.

Lemma add_loop_spec {A} src (f : A → Rule) (wrap : A → error → error) (l : list A) w :
  is_Some src.1 → (∀ a, r_Src (f a) = Some src) →
  wp False (find_loop (λ a, check (call (RuleAdd (f a))) (wrap a) (mret None)) l)
    (λ o w', others src w' = others src w ∧
       (o = None → of_src src w' ≡ₚ (sent_rule ∘ f <$> l) ++ of_src src w)) w.
Proof.
  intros Hip Hf. revert w. induction l as [|a l IH]; intros w; simpl; [by wp_steps|].
  apply wp_bind, wp_add_src with (src:=src); [done|done|]. intros [e|] w' Ho Hn; wp_steps; [done|].
  eapply wp_mono; [apply IH|]. intros o w'' [Ho' Hn']. split; [congruence|]. intros ->.
  rewrite Hn', Hn by done. by rewrite Permutation_middle.
Qed.

(** The rules that [UpdateRuleListBySrc] is to leave for the source, given those
    there were: none for a source without rules, otherwise one for every CIDR, or
    one for all destinations, in the table of the last old rule. *)
Definition updated_rules (n : linuxNetwork) (src : NetAddr) (toCIDRs : list string) (requiresSNAT : bool)
    (old : list Rule) : list Rule :=
  match last old with
  | None => []
  | Some r =>
      if requiresSNAT then sent_rule ∘ src_rule src (r_Table r) <$> toCIDRs ++ lin_excludeSNATCIDRs n
      else [sent_rule (new_rule None (Some src) (r_Table r) fromPodRulePriority)]
  end.

(** C31: [UpdateRuleListBySrc], given the rules there are, always returns; it
    leaves the rules of every other source as they were, and when it reports
    success the rules of the source are exactly the new ones. *)
Theorem update_rules_by_src n src toCIDRs requiresSNAT (w : W) :
  is_Some src.1 →
  ∃ o w', w ⊢ UpdateRuleListBySrc n (rules w) src toCIDRs requiresSNAT ⇓ o ⊣ w' ∧
    others src w' = others src w ∧
    (o = None → of_src src w' ≡ₚ updated_rules n src toCIDRs requiresSNAT (of_src src w)).
Proof.
  intros Hip. apply wp_run. unfold UpdateRuleListBySrc. cbn zeta. apply wp_bind.
  eapply wp_mono; [by apply delete_loop_spec|]. intros [e|] w1 [Ho Hn]; [by wp_steps|].
  specialize (Hn eq_refl). unfold updated_rules, GetRuleListBySrc.
  change (filter (from_src src) (rules w)) with (of_src src w).
  destruct (last (of_src src w)) as [r|]; [|wp_steps; by rewrite Hn]. destruct requiresSNAT.
  - eapply wp_mono; [by apply (add_loop_spec src)|]. intros o w' [Ho' Hn']. split; [congruence|].
    intros ->. by rewrite Hn', Hn, app_nil_r.
  - apply wp_add_src with (src:=src); [done|done|]. intros o w' Ho' Hn'. split; [congruence|].
    intros ->. by rewrite Hn', Hn.
Qed.

End rules.

Definition pod_src : NetAddr := (Some 167772161, 32).
Definition kernel_ex : Kernel :=
  mkKernel 0 [new_rule None (Some pod_src) 3 1536; new_rule None (Some (Some 1, 32)) 4 1536;
              new_rule (Some (Some 5, 16)) (Some pod_src) 2 1536] [] [].

Lemma update_rules_by_src_witness :
  ∃ o w', kernel_ex ⊢ UpdateRuleListBySrc (mkLinuxNetwork false ["10.2.0.0/16"%string] randomHashSNAT true 128)
      (kernel_rules kernel_ex) pod_src ["10.1.0.0/16"%string] true ⇓ o ⊣ w' ∧
    others kernel_rules pod_src w' = others kernel_rules pod_src kernel_ex ∧
    (o = None → of_src kernel_rules pod_src w' ≡ₚ
       updated_rules (mkLinuxNetwork false ["10.2.0.0/16"%string] randomHashSNAT true 128) pod_src
         ["10.1.0.0/16"%string] true (of_src kernel_rules pod_src kernel_ex)).
Proof. apply (update_rules_by_src kernel_rules). by eexists. Defined.

(** The same run, in full. *)
Example update_rules_ex :
  let '(r, w) := UpdateRuleListBySrc (mkLinuxNetwork false ["10.2.0.0/16"%string] randomHashSNAT true 128)
      (kernel_rules kernel_ex) pod_src ["10.1.0.0/16"%string] true kernel_ex in
  r = Ret None ∧ k_rules w =
    [new_rule None (Some (Some 1, 32)) 4 1536;
     new_rule (Some (Some 167837696, 16)) (Some pod_src) 2 1536;
     new_rule (Some (Some 167903232, 16)) (Some pod_src) 2 1536].
Proof. vm_compute. split; reflexivity. Qed.

(** ** The network of an ENI *)

Section eni.
Context {W : Type} `{!World W, !NetLink W} `{!Answers W}.

Lemma LinkByMac_loop_spec fuel attempt lastErr mac d (w : W) :
  maxAttemptsLinkByMac + 1 ≤ attempt + Z.of_nat fuel →
  0 ≤ attempt → (attempt = 0 ∨ lastErr ≠ None) → attempt ≤ maxAttemptsLinkByMac →
  wp False (LinkByMac_loop fuel attempt lastErr mac d)
    (λ '(link, err) _, match err with
                       | None => ∃ l, link = Some l ∧ l_HardwareAddr l = mac
                       | Some _ => link = None
                       end) w.
Proof.
  revert attempt lastErr w. induction fuel as [|fuel IH]; intros attempt lastErr w Hf H0 Herr Hmax.
  { unfold maxAttemptsLinkByMac in *. lia. }
  cbn [LinkByMac_loop]. cbn zeta. case_bool_decide as Hgt.
  { wp_steps. destruct lastErr; [done|]. destruct Herr; [|done]. unfold maxAttemptsLinkByMac in *. lia. }
  apply wp_bind. eapply (wp_mono _ _ (λ _ _, True)); [by case_bool_decide|]. intros [] w1 _.
  apply wp_bind, wp_net; [auto with net|]. intros links w2 _.
  destruct links as [links|e]; [|apply IH; [lia|lia|by right|lia]].
  destruct (list_find _ links) as [[i l]|] eqn:Hl; [|apply IH; [lia|lia|by right|lia]].
  wp_steps. apply list_find_Some in Hl as (_ & -> & _). eauto.
Qed.

(** The link it finds has the MAC address asked for, and an error comes with no
    link. *)
Lemma LinkByMac_spec mac d (w : W) :
  wp False (LinkByMac mac d)
    (λ '(link, err) _, match err with
                       | None => ∃ l, link = Some l ∧ l_HardwareAddr l = mac
                       | Some _ => link = None
                       end) w.
Proof. apply LinkByMac_loop_spec; unfold maxAttemptsLinkByMac; [lia|lia|by left|lia]. Qed.

Lemma addRoute_loop_total fuel retry r gw table d (w : W) :
  maxRetryRouteAdd + 1 ≤ retry + Z.of_nat fuel → retry ≤ maxRetryRouteAdd →
  wp False (addRoute_loop fuel retry r gw table d) (λ _ _, True) w.
Proof.
  revert retry w. induction fuel as [|fuel IH]; intros retry w Hf Hr; [lia|]. cbn [addRoute_loop].
  apply wp_bind, wp_net; [auto with net|]. intros [e|] w1 _; [|by wp_steps].
  destruct (IsNetworkUnreachableError e).
  - cbn zeta. case_bool_decide as Hgt; [by wp_steps|]. apply wp_bind, wp_time_Sleep. apply IH; lia.
  - destruct (IsRouteExistsError e); [|by wp_steps].
    apply wp_check, wp_net; [auto with net|]. by intros [] w2 _.
Qed.

Lemma find_loop_total {A} (f : A → M W (option error)) l (w : W) :
  (∀ a w, wp False (f a) (λ _ _, True) w) → wp False (find_loop f l) (λ _ _, True) w.
Proof.
  intros Hf. apply (wp_find_loop _ _ _ (λ _ _, True)); [done| |done].
  intros dn x rest w' _ _. eapply wp_mono; [apply Hf|]. by intros [].
Qed.

Ltac net_total :=
  repeat lazymatch goal with
  | |- wp _ (check _ _ _) _ _ => apply wp_check
  | |- wp _ (check_val _ _ _) _ _ => apply wp_check_val
  | |- wp _ (call _) _ _ => apply wp_net; [auto with net|intros [?|?] ? _ || intros [?|] ? _]
  | |- wp _ (mret _) _ _ => by apply wp_ret
  | |- True => exact I
  end.

Lemma install_route_total gw table d r (w : W) : wp False (install_route gw table d r) (λ _ _, True) w.
Proof.
  unfold install_route. apply wp_bind, wp_net; [auto with net|]. intros [e|] w1 _.
  - destruct (negb _); [by wp_steps|]. apply addRoute_loop_total; unfold maxRetryRouteAdd; lia.
  - apply addRoute_loop_total; unfold maxRetryRouteAdd; lia.
Qed.

Lemma setup_eni_link_total link ip table cidr d (w : W) :
  wp False (setup_eni_link link ip table cidr d) (λ _ _, True) w.
Proof.
  unfold setup_eni_link. destruct (ParseCIDR cidr) as [[? ipnet]|]; [|by wp_steps].
  destruct (incrementIPv4Addr _) as [gw|]; [|by wp_steps]. net_total.
  apply wp_bind. eapply wp_mono; [apply find_loop_total; intros; net_total|]. intros [e|] w2 _; [by wp_steps|].
  net_total. apply wp_bind. eapply wp_mono; [apply find_loop_total, install_route_total|].
  intros [e|] w4 _; [by wp_steps|]. apply wp_bind, wp_net; [auto with net|].
  intros [e|] w5 _; [|by wp_steps]. destruct (negb _); by wp_steps.
Qed.

(** C32: [SetupENINetwork] ends for every ENI, whatever the kernel answers: the
    retries for the link and for the routes are bounded, and the link is used
    only when it was found (its nil is never dereferenced).  For the primary ENI
    (table 0) it does nothing. *)
Theorem setup_eni_total ip mac table cidr (w : W) :
  (∃ o w', w ⊢ SetupENINetwork ip mac table cidr ⇓ o ⊣ w') ∧
  SetupENINetwork ip mac 0 cidr w = (Ret None, w).
Proof.
  split; [|done].
  assert (wp False (SetupENINetwork ip mac table cidr) (λ _ _, True) w) as (o & w' & H & _)%wp_run; [|eauto].
  unfold SetupENINetwork, setupENINetwork. case_bool_decide; [by wp_steps|].
  apply wp_bind. eapply wp_mono; [apply LinkByMac_spec|]. intros [link [e|]] w1 H1; [by wp_steps|].
  destruct H1 as (l & -> & _). net_total. apply setup_eni_link_total.
Qed.

End eni.

Lemma setup_eni_total_witness :
  (∃ o w', kernel_ex ⊢ SetupENINetwork "10.0.1.5" "0a:01" 2 "10.0.1.0/24" ⇓ o ⊣ w') ∧
  SetupENINetwork "10.0.1.5" "0a:01" 0 "10.0.1.0/24" kernel_ex = (Ret None, kernel_ex).
Proof. exact (setup_eni_total "10.0.1.5" "0a:01" 2 "10.0.1.0/24" kernel_ex). Defined.

(** The routes of a secondary ENI with a link. *)
Example setup_eni_ex :
  let '(r, w) := SetupENINetwork "10.0.1.5" "0a:01" 2 "10.0.1.0/24"
                   (mkKernel 0 [] [mkLink "eth1" 3 "0a:01"] []) in
  r = Ret None ∧ k_routes w =
    [mkRoute 3 SCOPE_LINK (Some (Some 167772417, 32)) None None 2;
     mkRoute 3 SCOPE_UNIVERSE (Some (Some 0, 0)) None (Some 167772417) 2].
Proof. vm_compute. split; reflexivity. Qed.

(** ** The gateway of a subnet *)

Lemma parse_digits_nonneg base acc s v : 0 ≤ acc → 0 < base → parse_digits base acc s = Some v → 0 ≤ v.
Proof.
  intros Ha Hb. revert acc Ha. induction s as [|c s IH]; intros acc Ha; simpl; [by intros [= <-]|].
  destruct (digit_val c) as [d|] eqn:Hd; [|done]. case_bool_decide; [|done]. apply IH.
  assert (0 ≤ d); [|nia]. unfold digit_val in Hd. repeat case_bool_decide; simplify_eq; lia.
Qed.

Lemma parse_octet_range s v : parse_octet s = Some v → 0 ≤ v ≤ 255.
Proof.
  unfold parse_octet. destruct s as [|c s]; [done|]. intros (n & Hn & Hv)%bind_Some.
  apply parse_digits_nonneg in Hn; [|lia..]. case_bool_decide; simplify_eq. lia.
Qed.

Lemma ParseIP_range s ip : ParseIP s = Some ip → 0 ≤ ip < 2 ^ 32.
Proof.
  unfold ParseIP. intros H. repeat case_match; try discriminate.
  apply bind_Some in H as (a & Ha%parse_octet_range & H). apply bind_Some in H as (b & Hb%parse_octet_range & H).
  apply bind_Some in H as (c & Hc%parse_octet_range & H). apply bind_Some in H as (d & Hd%parse_octet_range & H).
  simplify_eq. lia.
Qed.

Lemma Mask_div ip k : 0 ≤ ip < 2 ^ 32 → 0 ≤ k ≤ 32 → Mask ip k = ip `div` 2 ^ (32 - k) * 2 ^ (32 - k).
Proof.
  intros Hip Hk. unfold Mask, is_v4, CIDRMask. rewrite bool_decide_eq_true_2 by lia. rewrite <-Z.shiftr_div_pow2, <-Z.shiftl_mul_pow2 by lia.
  apply Z.bits_inj'. intros i Hi. rewrite Z.land_spec, !Z.shiftl_spec by lia.
  destruct (decide (i < 32 - k)).
  - by rewrite !(Z.testbit_neg_r _ (i - (32 - k))), andb_false_r by lia.
  - rewrite Z.shiftr_spec by lia. replace (i - (32 - k) + (32 - k)) with i by lia.
    destruct (decide (i < 32)).
    + rewrite Z.ones_spec_low by lia. apply andb_true_r.
    + rewrite (Z.bits_above_log2 ip i); [done|lia|]. destruct (decide (ip = 0)) as [->|]; [simpl; lia|].
      apply Z.log2_lt_pow2; [lia|]. eapply Z.lt_le_trans; [apply Hip|]. apply Z.pow_le_mono_r; lia.
Qed.

(** A CIDR whose address is an IPv4 literal. *)
Definition v4_cidr (s : string) : Prop := match Split s "/" with a :: _ => is_Some (ParseIP a) | [] => False end.

Lemma ParseCIDR_inv s ip net :
  v4_cidr s → ParseCIDR s = Some (ip, net) → 0 ≤ ip < 2 ^ 32 ∧ 0 ≤ net_Ones net ≤ 32 ∧ net_IP net = Mask ip (net_Ones net).
Proof.
  unfold v4_cidr, ParseCIDR. destruct (Split s "/") as [|addr [|mask [|]]]; try discriminate.
  intros [a Ha]. destruct mask as [|c mask]; [discriminate|].
  intros (m & Hm%parse_digits_nonneg & H)%bind_Some; [|lia..]. rewrite Ha in H. apply ParseIP_range in Ha.
  case_bool_decide; simplify_eq. done.
Qed.

(** the gateway that [SetupENINetwork] computes for an IPv4 subnet of at least two
    addresses is the second one, and it lies in the subnet; the increment
    overflows for no such subnet. *)
Theorem gateway_in_subnet cidr ip net :
  v4_cidr cidr → ParseCIDR cidr = Some (ip, net) → net_Ones net ≤ 31 →
  incrementIPv4Addr (net_IP net) = inl (net_IP net + 1) ∧ net_Contains net (net_IP net + 1) = true.
Proof.
  intros Hv (Hip & Hk & Hn)%(ParseCIDR_inv _ _ _ Hv) H31. rewrite Mask_div in Hn by lia.
  set (h := 32 - net_Ones net) in *. assert (1 ≤ h) as Hh by lia.
  assert (2 ≤ 2 ^ h) as H2 by (apply (Z.pow_le_mono_r 2 1 h); lia).
  assert (2 ^ 32 = 2 ^ net_Ones net * 2 ^ h) as H32 by (rewrite <-Z.pow_add_r by lia; f_equal; lia).
  assert (0 ≤ ip `div` 2 ^ h < 2 ^ net_Ones net) as Hq.
  { split; [apply Z.div_pos; lia|]. apply Z.div_lt_upper_bound; lia. }
  assert (0 ≤ net_IP net ∧ net_IP net + 1 < 2 ^ 32) as [H0 Hlt] by (rewrite Hn, H32; nia).
  split.
  - unfold incrementIPv4Addr, is_v4. rewrite bool_decide_eq_true_2, bool_decide_eq_false_2 by lia. cbn [negb]. by rewrite Z.mod_small by lia.
  - unfold net_Contains. apply bool_decide_eq_true_2. rewrite Mask_div by lia. fold h. rewrite Hn at 2.
    f_equal. rewrite Hn. rewrite Z.div_add_l by lia. rewrite (Z.div_small 1) by lia. lia.
Qed.

Lemma gateway_in_subnet_witness :
  incrementIPv4Addr 167772416 = inl 167772417 ∧ net_Contains (mkIPNet 167772416 24) 167772417 = true.
Proof. apply (gateway_in_subnet "10.0.1.9/24" 167772425 (mkIPNet 167772416 24)); [by eexists|reflexivity|simpl; lia]. Defined.

(** ** Settings *)

(** the settings read from the environment are usable whatever it holds: the
    connection mark is a non-zero 32 bit number, and every excluded CIDR is
    printed from a network that parsed; with external SNAT none is excluded. *)
Theorem settings_usable (env : Environ) :
  0 < getConnmark < 2 ^ 32 ∧
  (useExternalSNAT = true → getExcludeSNATCIDRs = []) ∧
  ∀ c, c ∈ getExcludeSNATCIDRs → ∃ s ip net, ParseCIDR s = Some (ip, net) ∧ c = IPNet_String (to_addr net).
Proof.
  split_and!.
  - unfold getConnmark. cbn zeta. repeat case_match; try (unfold defaultConnmark; lia).
    apply orb_false_iff in H1 as [?%bool_decide_eq_false ?%bool_decide_eq_false]. lia.
  - unfold getConnmark. cbn zeta. repeat case_match; try (unfold defaultConnmark; lia).
    apply orb_false_iff in H1 as [?%bool_decide_eq_false ?%bool_decide_eq_false]. lia.
  - unfold getExcludeSNATCIDRs. by intros ->.
  - unfold getExcludeSNATCIDRs. intros c. cbn zeta. destruct useExternalSNAT; [by intros ?%elem_of_nil|].
    case_bool_decide; [by intros ?%elem_of_nil|]. intros (s & _ & Hs)%list_elem_of_omap.
    apply fmap_Some in Hs as ([ip net] & Hp & ->). eauto 6.
Qed.

(** the sources speak of IPv4 CIDRs, but [net.ParseCIDR] reads both families: an
    IPv6 CIDR among the excluded ones is kept, not ignored. *)
Theorem exclude_keeps_ipv6 (env : Environ) :
  useExternalSNAT = false → Getenv envExcludeSNATCIDRs = "10.9.1.1/16,nonsense,FD00:0::1/8"%string →
  getExcludeSNATCIDRs = ["10.9.0.0/16"; "fd00::/8"]%string.
Proof. intros H1 H2. unfold getExcludeSNATCIDRs. rewrite H1, H2. vm_compute. reflexivity. Qed.

Lemma exclude_keeps_ipv6_witness :
  @getExcludeSNATCIDRs {| environ := {[envExcludeSNATCIDRs := "10.9.1.1/16,nonsense,FD00:0::1/8"%string]} |} =
  ["10.9.0.0/16"; "fd00::/8"]%string.
Proof. apply exclude_keeps_ipv6; vm_compute; reflexivity. Defined.
