(* ===== verification/HostNetworkProps.v ===== *)
(** * Theorems about the host network

    [SetupHostNetwork] brings the iptables rules of the node in line with its
    settings: what iptables promises is [IptOk], and the state it speaks of is the
    list of rules as (table, chain, specification). *)
From S2P Require Import Prelude GoStd Interfaces Netlink NetworkUtils NetworkUtilsProps.

Open Scope Z_scope.

Definition ipt_key : Type := string * string * list string.
Definition key (r : iptablesRule) : ipt_key := (ir_table r, ir_chain r, ir_rule r).

Inductive ipt_call {W : Type} `{!IPTables W, !HostOS W} : ∀ {A : Type}, ext W A → Prop :=
| Ipt_new : ipt_call newIptables
| Ipt_List t c : ipt_call (ipt_List t c)
| Ipt_NewChain t c : ipt_call (ipt_NewChain t c)
| Ipt_ListChains t : ipt_call (ipt_ListChains t)
| Ipt_HasRandomFully : ipt_call ipt_HasRandomFully
| Ipt_Interfaces : ipt_call net_Interfaces
| Ipt_openFile n : ipt_call (openFile n)
| Ipt_WriteString n s : ipt_call (WriteString n s)
| Ipt_Close n : ipt_call (Close n).

Create HintDb ipt.
#[export] Hint Constructors ipt_call : ipt.

(** What the code relies on: every call answers; [Exists] tells the truth,
    [Append] adds the rule and [Delete] removes one occurrence of it; the listing
    of a chain has a line for each of its rules, whose fields after the action and
    the chain are the specification, every line has these two fields, and every
    chain with a rule is listed; nothing else changes the rules. *)
Class IptOk (W : Type) `{!NetLink W, !IPTables W, !HostOS W} (ipt : W → list ipt_key) : Prop := {
  ipt_answered : ∀ A (f : ext W A) (w : W), ipt_call f → (f w).1 ≠ None ∧ ipt (f w).2 = ipt w;
  ipt_net : ∀ A (f : ext W A) (w : W), net_call f → (f w).1 ≠ None ∧ ipt (f w).2 = ipt w;
  ipt_exists : ∀ t c r (w : W), ∃ b err w', ipt_Exists t c r w = (Some (b, err), w') ∧ ipt w' = ipt w ∧
    (err = None → b = true ↔ (t, c, r) ∈ ipt w);
  ipt_append : ∀ t c r (w : W), ∃ err w', ipt_Append t c r w = (Some err, w') ∧
    (err = None → ipt w' ≡ₚ (t, c, r) :: ipt w);
  ipt_delete : ∀ t c r (w : W), ∃ err w', ipt_Delete t c r w = (Some err, w') ∧
    (err = None → (t, c, r) :: ipt w' ≡ₚ ipt w);
  ipt_listed : ∀ c (w w' : W) lines, ipt_List "nat" c w = (Some (lines, None), w') →
    (∀ spec, ("nat"%string, c, spec) ∈ ipt w → ∃ line a b, line ∈ lines ∧ csv_Read line = Some (a :: b :: spec)) ∧
    Forall (λ line, ∀ l, csv_Read line = Some l → (2 ≤ length l)%nat) lines;
  ipt_chains : ∀ (w w' : W) chains, ipt_ListChains "nat" w = (Some (chains, None), w') →
    ∀ c spec, ("nat"%string, c, spec) ∈ ipt w → c ∈ chains;
}.

Section host.
Context {W : Type} `{!NetLink W, !IPTables W, !HostOS W} (ipt : W → list ipt_key) `{!IptOk W ipt}.

Lemma wp_ipt {A} (f : ext W A) (Q : A → W → Prop) w :
  ipt_call f → (∀ a w', f w = (Some a, w') → ipt w' = ipt w → Q a w') → wp False (call f) Q w.
Proof.
  intros Hc HQ. destruct (ipt_answered _ f w Hc) as [Ha Hi]. unfold wp, call.
  destruct (f w) as [[a|] w'] eqn:Hf; [by apply HQ|done].
Qed.

Lemma wp_ipt_net {A} (f : ext W A) (Q : A → W → Prop) w :
  net_call f → (∀ a w', ipt w' = ipt w → Q a w') → wp False (call f) Q w.
Proof.
  intros Hc HQ. destruct (ipt_net _ f w Hc) as [Ha Hi]. unfold wp, call.
  destruct (f w) as [[a|] w'] eqn:Hf; [by apply HQ|done].
Qed.

(** *** Applying rules *)

Lemma apply_rule_spec r w :
  NoDup (ipt w) →
  wp False (apply_rule r) (λ o w', o = None →
    NoDup (ipt w') ∧ (key r ∈ ipt w' ↔ ir_shouldExist r = true) ∧
    ∀ k, k ≠ key r → k ∈ ipt w' ↔ k ∈ ipt w) w.
Proof.
  intros Hnd. unfold apply_rule. apply wp_bind.
  destruct (ipt_exists (ir_table r) (ir_chain r) (ir_rule r) w) as (b & err & w1 & Hex & Hw1 & Hb).
  unfold wp at 1, call. rewrite Hex. destruct err as [e|]; [by wp_steps|]. specialize (Hb eq_refl).
  change (ir_table r, ir_chain r, ir_rule r) with (key r) in Hb. rewrite <-Hw1 in Hnd, Hb.
  destruct b, (ir_shouldExist r) eqn:Hs; simpl.
  - wp_steps. intros _. rewrite <-Hw1. split; [done|]. tauto.
  - apply wp_check. destruct (ipt_delete (ir_table r) (ir_chain r) (ir_rule r) w1) as (err & w2 & Hdel & Hw2).
    unfold wp at 1, call. rewrite Hdel. destruct err as [e|]; [done|]. wp_steps. intros _.
    specialize (Hw2 eq_refl). rewrite <-Hw2 in Hnd. apply NoDup_cons in Hnd as [Hnot Hnd].
    split; [done|]. split; [split; [done|discriminate]|]. intros k Hk. rewrite <-Hw1, <-Hw2, elem_of_cons.
    split; [by right|]. by intros [->|].
  - apply wp_check. destruct (ipt_append (ir_table r) (ir_chain r) (ir_rule r) w1) as (err & w2 & Happ & Hw2).
    unfold wp at 1, call. rewrite Happ. destruct err as [e|]; [done|]. wp_steps. intros _.
    specialize (Hw2 eq_refl). rewrite Hw2. split; [apply NoDup_cons; split; [|done]; intros Hin; by apply Hb in Hin|].
    split; [split; [done|]; by left|]. intros k Hk. rewrite Hw2, <-Hw1, elem_of_cons. split; [by intros [->|]|by right].
  - wp_steps. intros _. rewrite <-Hw1. split; [done|]. split; [|done]. split; [|done]. intros Hin. by apply Hb in Hin.
Qed.

(** Rules that agree on what should exist. *)
Definition agree (L : list iptablesRule) : Prop :=
  ∀ r r', r ∈ L → r' ∈ L → key r = key r' → ir_shouldExist r = ir_shouldExist r'.

Lemma apply_loop_spec L w :
  agree L → NoDup (ipt w) →
  wp False (find_loop apply_rule L) (λ o w', o = None →
    (∀ r, r ∈ L → key r ∈ ipt w' ↔ ir_shouldExist r = true) ∧
    ∀ k, k ∉ key <$> L → k ∈ ipt w' ↔ k ∈ ipt w) w.
Proof.
  intros Hag Hnd.
  apply (wp_find_loop _ _ _ (λ dn w', NoDup (ipt w') ∧
    (∀ r, r ∈ dn → key r ∈ ipt w' ↔ ir_shouldExist r = true) ∧
    ∀ k, k ∉ key <$> dn → k ∈ ipt w' ↔ k ∈ ipt w)).
  - split; [done|]. split; [|done]. intros r Hr. by apply elem_of_nil in Hr.
  - intros dn x rest w1 HL (Hnd1 & H1 & H2). eapply wp_mono; [by apply apply_rule_spec|].
    intros [e|] w2 Hx; [done|]. destruct (Hx eq_refl) as (Hnd2 & Hkx & Hother). split; [done|]. split.
    + intros r [Hr| ->%list_elem_of_singleton]%elem_of_app; [|done].
      destruct (decide (key r = key x)) as [Heq|Hne]; [|rewrite Hother by done; by apply H1].
      rewrite Heq, Hkx, (Hag r x); [done|subst L; set_solver..|done].
    + intros k Hk. rewrite fmap_app in Hk. apply not_elem_of_app in Hk as [Hk1 Hk2].
      rewrite Hother by set_solver. by apply H2.
  - intros w1 (_ & H1 & H2) _. done.
Qed.

(** *** Listing the SNAT chains *)

(** [t] has every rule of the chain [c] that a line of [lines] shows. *)
Definition covers (c : string) (lines : list string) (t : list iptablesRule) : Prop :=
  ∀ line a b spec, line ∈ lines → csv_Read line = Some (a :: b :: spec) →
    ∃ r, r ∈ t ∧ key r = ("nat"%string, c, spec).

(** All rules to clear are in the nat table, and should not exist. *)
Definition to_clear (r : iptablesRule) : Prop := ir_table r = "nat"%string ∧ ir_shouldExist r = false.

Lemma parse_chain_spec i c lines acc (w : W) :
  Forall to_clear acc →
  Forall (λ line, ∀ l, csv_Read line = Some l → (2 ≤ length l)%nat) lines →
  wp False (parse_chain i c lines acc) (λ r w', w' = w ∧
    ∀ t, r = inl t → acc ⊆ t ∧ covers c lines t ∧ Forall to_clear t) w.
Proof.
  intros Hacc Hlines. revert i acc Hacc. induction Hlines as [|line lines Hline Hlines IH]; intros i acc Hacc; simpl.
  - wp_steps. split; [done|]. intros t [= <-]. split; [done|]. split; [|done].
    intros line a b spec Hin. by apply elem_of_nil in Hin.
  - destruct (csv_Read line) as [l|] eqn:Hl; [|wp_steps; by split].
    specialize (Hline l eq_refl). destruct l as [|a [|b spec]]; simpl in Hline; [lia|lia|].
    eapply wp_mono; [apply IH|].
    { apply Forall_app. split; [done|]. by constructor. }
    intros r w' [-> Ht]. split; [done|]. intros t ->. destruct (Ht t eq_refl) as (Hsub & Hcov & Hcl).
    split; [set_solver|]. split; [|done]. intros line' a' b' spec' [->|Hin]%elem_of_cons Hr; [|by eapply Hcov].
    rewrite Hl in Hr. injection Hr as <- <- <-. eexists. split; [apply Hsub, elem_of_app; right; by apply list_elem_of_singleton|done].
Qed.

Lemma list_chains_spec chains acc w0 w :
  ipt w = ipt w0 → Forall to_clear acc →
  wp False (list_chains chains acc) (λ r w', ipt w' = ipt w0 ∧
    ∀ t, r = inl t → acc ⊆ t ∧ Forall to_clear t ∧
      ∀ c spec, c ∈ chains → HasPrefix c "AWS-SNAT-CHAIN" = true → ("nat"%string, c, spec) ∈ ipt w0 →
        ∃ x, x ∈ t ∧ key x = ("nat"%string, c, spec)) w.
Proof.
  revert acc w. induction chains as [|chain chains IH]; intros acc w Hw Hacc; cbn [list_chains].
  - wp_steps. split; [done|]. intros t [= <-]. split; [done|]. split; [done|].
    intros c spec Hc. by apply elem_of_nil in Hc.
  - destruct (HasPrefix chain "AWS-SNAT-CHAIN") eqn:Hp; simpl.
    + apply wp_bind, wp_ipt; [auto with ipt|]. intros [lines [e|]] w1 Hlist Hw1; [by wp_steps; split; [congruence|]|].
      destruct (ipt_listed _ _ _ _ Hlist) as [Hall Hlines].
      apply wp_bind. eapply wp_mono; [by apply parse_chain_spec|]. intros [t|e] w2 [-> Ht]; [|by wp_steps; split; [congruence|]].
      destruct (Ht t eq_refl) as (Hsub & Hcov & Hcl). eapply wp_mono; [apply IH; [congruence|done]|].
      intros r w3 [Hw3 Hr]. split; [done|]. intros t' ->. destruct (Hr t' eq_refl) as (Hsub' & Hcl' & Hch).
      split; [set_solver|]. split; [done|]. intros c spec [->|Hc]%elem_of_cons Hpc Hin; [|by apply Hch].
      rewrite <-Hw in Hin. destruct (Hall spec Hin) as (line & a & b & Hline & Hr').
      destruct (Hcov _ _ _ _ Hline Hr') as (x & Hx & Hk). exists x. split; [by apply Hsub'|done].
    + eapply wp_mono; [by apply IH|]. intros r w3 [Hw3 Hr]. split; [done|]. intros t' ->.
      destruct (Hr t' eq_refl) as (Hsub' & Hcl' & Hch). split; [done|]. split; [done|].
      intros c spec [->|Hc]%elem_of_cons Hpc Hin; [congruence|by apply Hch].
Qed.

(** *** The rules agree *)

Lemma chain_name_ne (i : nat) : chain_name i ≠ "POSTROUTING"%string.
Proof. by unfold chain_name. Qed.

Lemma snat_rules_elem n all rf addr r :
  r ∈ snat_rules n all rf addr →
  ir_table r = "nat"%string ∧ ir_shouldExist r = negb (lin_useExternalSNAT n) ∧
  (ir_chain r = "POSTROUTING"%string ∧ head (ir_rule r) = Some "-m"%string ∨ ∃ i, ir_chain r = chain_name i).
Proof.
  unfold snat_rules. rewrite !elem_of_app, !list_elem_of_singleton, elem_of_lookup_imap.
  intros [->|[(i & c & -> & _)| ->]]; simpl; eauto 8.
Qed.

Lemma rules_agree n all rf addr toCheck intf vpc :
  Forall to_clear toCheck →
  agree (snat_rules n all rf addr ++ filter (is_stale (snat_rules n all rf addr)) toCheck ++
         other_rules n intf vpc addr).
Proof.
  intros Hcl.
  assert (∀ r r', r ∈ snat_rules n all rf addr → r' ∈ other_rules n intf vpc addr → key r ≠ key r') as Hso.
  { intros r r' Hr Hr'. destruct (snat_rules_elem _ _ _ _ _ Hr) as (Ht & _ & Hc). unfold key. intros [= H1 H2 H3].
    unfold other_rules in Hr'. rewrite !elem_of_cons, elem_of_nil in Hr'.
    destruct Hr' as [->|[->|[->|[]]]]; simpl in *; [congruence|congruence|].
    destruct Hc as [[_ Hh]|[i Hi]]; [rewrite H3 in Hh; done|]. rewrite Hi in H2. by apply chain_name_ne in H2. }
  assert (∀ r r', r ∈ snat_rules n all rf addr → r' ∈ filter (is_stale (snat_rules n all rf addr)) toCheck →
    key r ≠ key r') as Hss.
  { intros r r' Hr [Hst _]%list_elem_of_filter. unfold key. intros [= H1 H2 H3].
    apply (proj1 (Forall_forall _ _) Hst r Hr). by split. }
  assert (∀ r r', r ∈ toCheck → r' ∈ other_rules n intf vpc addr → key r = key r' →
    ir_shouldExist r = ir_shouldExist r') as Hto.
  { intros r r' Hr Hr'. destruct (proj1 (Forall_forall _ _) Hcl r Hr) as [Ht ->]. unfold key. intros [= H1 H2 H3].
    unfold other_rules in Hr'. rewrite !elem_of_cons, elem_of_nil in Hr'.
    destruct Hr' as [->|[->|[->|[]]]]; simpl in *; congruence. }
  assert (∀ r r', r ∈ toCheck → r' ∈ toCheck → ir_shouldExist r = ir_shouldExist r') as Htt.
  { intros r r' Hr Hr'. destruct (proj1 (Forall_forall _ _) Hcl r Hr) as [_ ->].
    by destruct (proj1 (Forall_forall _ _) Hcl r' Hr') as [_ ->]. }
  assert (∀ r r', r ∈ other_rules n intf vpc addr → r' ∈ other_rules n intf vpc addr → key r = key r' →
    ir_shouldExist r = ir_shouldExist r') as Hoo.
  { intros r r'. unfold other_rules. rewrite !elem_of_cons, !elem_of_nil.
    by intros [->|[->|[->|[]]]] [->|[->|[->|[]]]]; unfold key; simpl. }
  intros r r'. rewrite !elem_of_app. intros [Hr|[Hr|Hr]] [Hr'|[Hr'|Hr']] Hk;
    try (apply list_elem_of_filter in Hr as Hr2); try (apply list_elem_of_filter in Hr' as Hr2').
  all: try by (exfalso; first [by eapply Hso | by eapply Hss | symmetry in Hk; first [by eapply Hso | by eapply Hss]]).
  - apply snat_rules_elem in Hr as (_ & -> & _), Hr' as (_ & -> & _). done.
  - by apply Htt; [destruct Hr2|destruct Hr2'].
  - destruct Hr2. by apply Hto.
  - destruct Hr2'. symmetry. by apply Hto.
  - by apply Hoo.
Qed.

(** *** The whole setup *)

(** The CIDRs that are not translated: those of the VPC and the excluded ones. *)
Definition all_cidrs (n : linuxNetwork) (vpcCIDRs : list string) : list (string * bool) :=
  ((λ c, (c, false)) <$> vpcCIDRs) ++ ((λ c, (c, true)) <$> lin_excludeSNATCIDRs n).

(** What the node reports of itself does not change while it is set up: its
    interfaces, and whether iptables knows --random-fully. *)
Record node_facts (ifs : list (string * string)) (rf : bool) : Prop := {
  facts_ifs : ∀ (w w' : W) l, net_Interfaces w = (Some (inl l), w') → l = ifs;
  facts_rf : ∀ (w w' : W) b, ipt_HasRandomFully w = (Some b, w') → b = rf;
}.

(** The primary interface: the one with the MAC address of the primary ENI, and
    eth0 when it does not matter. *)
Definition primary_intf (n : linuxNetwork) (mac : string) (ifs : list (string * string)) : option string :=
  if lin_nodePortSupportEnabled n then fst ∘ snd <$> list_find (λ i, mac = i.2) ifs else Some "eth0"%string.

(** The rules are as the settings say, for the primary interface [intf]: each
    rule the code knows is there exactly if it should be, and the SNAT chains
    hold no other. *)
Definition in_line (n : linuxNetwork) (intf : string) (rf : bool) (vpcCIDR : string) (vpcCIDRs : list string)
    (addr : string) (w' : W) : Prop :=
  (∀ r, r ∈ snat_rules n (all_cidrs n vpcCIDRs) rf addr ++ other_rules n intf vpcCIDR addr →
     key r ∈ ipt w' ↔ ir_shouldExist r = true) ∧
  (∀ c spec, HasPrefix c "AWS-SNAT-CHAIN" = true → ("nat"%string, c, spec) ∈ ipt w' →
     ∃ r, r ∈ snat_rules n (all_cidrs n vpcCIDRs) rf addr ∧ ir_chain r = c ∧ ir_rule r = spec).

(** Whether iptables knows --random-fully matters for one type of SNAT only. *)
Lemma snat_rules_rf n all rf rf' addr :
  (lin_typeOfSNAT n = randomPRNGSNAT → rf = rf') → snat_rules n all rf addr = snat_rules n all rf' addr.
Proof. intros H. unfold snat_rules, snat_rule. destruct (lin_typeOfSNAT n); [done..|]. by rewrite H. Qed.

Lemma new_chain_spec i (w : W) : wp False (new_chain i) (λ _ w', ipt w' = ipt w) w.
Proof.
  unfold new_chain. apply wp_bind, wp_ipt; [auto with ipt|]. intros [e|] w1 _ Hw; [|by wp_steps].
  destruct (negb _); by wp_steps.
Qed.

Lemma other_rules_chain n intf vpc addr r :
  r ∈ other_rules n intf vpc addr → HasPrefix (ir_chain r) "AWS-SNAT-CHAIN" = false.
Proof. unfold other_rules. rewrite !elem_of_cons, elem_of_nil. by intros [->|[->|[->|[]]]]. Qed.

Lemma setup_iptables_spec ifs rf n vpc vpcCIDRs intf addr w :
  node_facts ifs rf → NoDup (ipt w) →
  wp False (setup_iptables n vpc vpcCIDRs intf addr)
    (λ o w', o = None → in_line n intf rf vpc vpcCIDRs addr w') w.
Proof.
  intros Hf Hnd. unfold setup_iptables. fold (all_cidrs n vpcCIDRs). cbn zeta.
  apply wp_check, wp_ipt; [auto with ipt|]. intros [e|] w1 _ Hw1; [done|].
  apply wp_check_val. unfold listCurrentSNATRules. apply wp_bind, wp_ipt; [auto with ipt|].
  intros [chains [e|]] w2 Hlist Hw2; [by wp_steps|]. pose proof (ipt_chains _ _ _ Hlist) as Hchains.
  eapply wp_mono; [by apply (list_chains_spec chains [] w2)|]. intros [toCheck|e] w3 [Hw3 Ht]; [|done].
  destruct (Ht toCheck eq_refl) as (_ & Hcl & Hall). apply wp_bind.
  apply (wp_find_loop _ _ _ (λ _ w', ipt w' = ipt w)); [congruence| |].
  { intros dn i rest w4 _ Hw4. eapply wp_mono; [apply new_chain_spec|]. intros [e|] w5 Hw5; [by wp_steps|congruence]. }
  intros w4 Hw4. apply wp_bind. eapply (wp_mono _ _ (λ b w', (lin_typeOfSNAT n = randomPRNGSNAT → b = rf) ∧ ipt w' = ipt w)).
  { case_bool_decide; [|by wp_steps]. apply wp_ipt; [auto with ipt|]. intros b w5 Hb ?.
    split; [intros _; by eapply facts_rf|congruence]. }
  intros rf' w5 [Hrf Hw5]. rewrite (snat_rules_rf _ _ _ _ _ Hrf).
  set (wanted := snat_rules n (all_cidrs n vpcCIDRs) rf addr).
  eapply wp_mono; [apply apply_loop_spec; [by apply rules_agree|congruence]|].
  intros o w6 Ho Hnone. destruct (Ho Hnone) as [Hin Hout]. split.
  - intros r [Hr|Hr]%elem_of_app; apply Hin; rewrite !elem_of_app; auto.
  - intros c spec Hp Hk. fold wanted.
    assert (∀ r, r ∈ other_rules n intf vpc addr → key r ≠ ("nat"%string, c, spec)) as Hno.
    { intros r Hr%other_rules_chain. unfold key. intros [= _ Hc _]. congruence. }
    destruct (decide (("nat"%string, c, spec) ∈ key <$> wanted)) as [(r & Hkr & Hr)%list_elem_of_fmap|Hw].
    { exists r. unfold key in Hkr. split; [done|]. split; congruence. }
    exfalso. destruct (decide (("nat"%string, c, spec) ∈ key <$> filter (is_stale wanted) toCheck))
      as [(r & Hkr & Hr)%list_elem_of_fmap|Hs].
    + rewrite Hkr in Hk. apply Hin in Hk; [|rewrite !elem_of_app; auto].
      apply list_elem_of_filter in Hr as [_ Hr]. destruct (proj1 (Forall_forall _ _) Hcl r Hr). congruence.
    + rewrite Hout in Hk.
      * rewrite Hw5, <-Hw1 in Hk. destruct (Hall c spec) as (r & Hr & Hkr);
          [by apply (Hchains c spec)|done|by rewrite Hw2|].
        apply Hs, list_elem_of_fmap. exists r. split; [done|]. apply list_elem_of_filter. split; [|done].
        apply Forall_forall. intros r' Hr' [Hc Hs']. apply Hw, list_elem_of_fmap. exists r'. split; [|done].
        apply snat_rules_elem in Hr' as (Ht' & _). unfold key in *. congruence.
      * rewrite !fmap_app, !not_elem_of_app. split; [done|]. split; [done|].
        intros (r & Hkr & Hr)%list_elem_of_fmap. by apply (Hno r Hr).
Qed.

Lemma delete_rule_ipt msg r (Q : option error → W → Prop) w :
  (∀ o w', ipt w' = ipt w → Q o w') → wp False (delete_rule msg r) Q w.
Proof.
  intros HQ. unfold delete_rule. apply wp_bind, wp_ipt_net; [auto with net|]. intros [e|] w1 Hw1.
  - destruct (containsNoSuchRule e); wp_steps; by apply HQ.
  - wp_steps. by apply HQ.
Qed.

Lemma setProcSys_ipt k v (Q : option error → W → Prop) w :
  (∀ o w', ipt w' = ipt w → Q o w') → wp False (setProcSys k v) Q w.
Proof.
  intros HQ. unfold setProcSys. apply wp_check, wp_ipt; [auto with ipt|]. intros [e|] w1 _ Hw1; [by apply HQ|].
  apply wp_bind, wp_ipt; [auto with ipt|]. intros [e|] w2 _ Hw2.
  - apply wp_bind, wp_ipt; [auto with ipt|]. intros o w3 _ Hw3. wp_steps. apply HQ. congruence.
  - apply wp_ipt; [auto with ipt|]. intros o w3 _ Hw3. apply HQ. congruence.
Qed.

Lemma setup_host_spec ifs rf n vpcCIDR vpcCIDRs mac addr (w : W) :
  node_facts ifs rf → NoDup (ipt w) →
  wp False (SetupHostNetwork n vpcCIDR vpcCIDRs mac addr)
    (λ o w', o = None → ∃ intf, primary_intf n mac ifs = Some intf ∧
       in_line n intf rf (IPNet_String vpcCIDR) vpcCIDRs (IP_String addr) w') w.
Proof.
  intros Hf Hnd. unfold SetupHostNetwork. apply wp_check, delete_rule_ipt. intros [e|] w1 Hw1; [done|].
  apply wp_bind. eapply (wp_mono _ _ (λ r w', ipt w' = ipt w ∧ (r.2 = None → primary_intf n mac ifs = Some r.1))).
  { unfold primary_intf. destruct (lin_nodePortSupportEnabled n); [|by wp_steps]. unfold findPrimaryInterfaceName.
    apply wp_bind, wp_bind, wp_ipt; [auto with ipt|].
    intros [is_|e] w2 Hi Hw2; [|wp_steps; split; [congruence|done]]. apply (facts_ifs _ _ Hf) in Hi as ->.
    destruct (list_find _ _) as [[? []]|]; wp_steps; [|split; [congruence|done]]. apply setProcSys_ipt.
    intros o w3 Hw3. wp_steps. split; [congruence|done]. }
  intros [intf [e|]] w2 [Hw2 Hpi]; [by wp_steps|]. simpl in Hpi. apply wp_check, delete_rule_ipt. intros [e|] w3 Hw3; [done|].
  apply wp_check. eapply (wp_mono _ _ (λ _ w', ipt w' = ipt w)).
  { destruct (lin_nodePortSupportEnabled n); [|wp_steps; congruence]. apply wp_ipt_net; [auto with net|]. intros; congruence. }
  intros [e|] w4 Hw4; [done|]. eapply wp_mono; [apply (setup_iptables_spec ifs rf); [done|congruence]|].
  intros o w5 Ho Hn. eauto.
Qed.

(** C8: [SetupHostNetwork] always returns, and when it reports success the rules
    of iptables that it knows are in line with the settings, provided none of the
    rules before was there twice ([Delete] takes away one occurrence) and the
    interfaces do not change meanwhile: the jump from POSTROUTING, one rule for
    each CIDR of the VPC and each excluded one, the SNAT rule and the connection
    mark rules, for the interface that has the MAC address of the primary ENI, are
    there exactly if they should be, the rule of old versions is gone, and the
    chains AWS-SNAT-CHAIN hold no rule of an earlier configuration. *)
Theorem host_network_in_line ifs rf n vpcCIDR vpcCIDRs mac addr (w : W) :
  node_facts ifs rf → NoDup (ipt w) →
  ∃ o w', w ⊢ SetupHostNetwork n vpcCIDR vpcCIDRs mac addr ⇓ o ⊣ w' ∧
    (o = None → ∃ intf, primary_intf n mac ifs = Some intf ∧
       in_line n intf rf (IPNet_String vpcCIDR) vpcCIDRs (IP_String addr) w').
Proof. intros Hf Hnd. by apply wp_run, setup_host_spec. Qed.

End host.

(** ** A concrete host: the kernel with a list of iptables rules *)

Record Host := mkHost { h_kernel : Kernel; h_ipt : list ipt_key }.

Definition lift {A} (f : ext Kernel A) : ext Host A := λ h,
  let '(o, k) := f (h_kernel h) in (o, mkHost k (h_ipt h)).

#[global] Instance Host_NetLink : NetLink Host := {
  LinkByName n := lift (LinkByName n);
  LinkAdd v := lift (LinkAdd v);
  LinkSetUp l := lift (LinkSetUp l);
  LinkDel l := lift (LinkDel l);
  LinkSetMTU l n := lift (LinkSetMTU l n);
  LinkList := lift LinkList;
  LinkSetNsFd l fd := lift (LinkSetNsFd l fd);
  AddrAdd l a := lift (AddrAdd l a);
  AddrDel l a := lift (AddrDel l a);
  AddrList l := lift (AddrList l);
  RouteAdd r := lift (RouteAdd r);
  RouteReplace r := lift (RouteReplace r);
  RouteDel r := lift (RouteDel r);
  NeighAdd n := lift (NeighAdd n);
  RuleAdd r := lift (RuleAdd r);
  RuleDel r := lift (RuleDel r);
  RuleList := lift RuleList;
  AddDefaultRoute g l := lift (AddDefaultRoute g l);
  WithNetNSPath _ f h := f 3 h;
}.

(** A line of the listing, fields with blanks in quotes, and the rules whose line
    can be read back, the ones the host accepts. *)
Definition line_field (f : string) : string :=
  if Contains f " " then (String quote "" +:+ f +:+ String quote "")%string else f.
Definition line_of (k : ipt_key) : string :=
  ("-A " +:+ k.1.2 +:+ foldr (λ f s, " " +:+ line_field f +:+ s) "" k.2)%string.
Definition readable (k : ipt_key) : Prop := csv_Read (line_of k) = Some ("-A"%string :: k.1.2 :: k.2).
Definition host_ipt (h : Host) : list ipt_key := filter readable (h_ipt h).
Definition set_ipt (l : list ipt_key) (h : Host) : Host := mkHost (h_kernel h) l.

Fixpoint remove_key (k : ipt_key) (l : list ipt_key) : list ipt_key :=
  match l with
  | [] => []
  | x :: l => if decide (x = k) then l else x :: remove_key k l
  end.

#[global] Instance Host_IPTables : IPTables Host := {
  newIptables h := (Some None, h);
  ipt_Exists t c r h := (Some (bool_decide ((t, c, r) ∈ host_ipt h), None), h);
  ipt_Append t c r h :=
    if decide (readable (t, c, r)) then (Some None, set_ipt (host_ipt h ++ [(t, c, r)]) h)
    else (Some (Some (EStr "bad rule")), h);
  ipt_Delete t c r h :=
    if decide ((t, c, r) ∈ host_ipt h) then (Some None, set_ipt (remove_key (t, c, r) (host_ipt h)) h)
    else (Some (Some (EStr "no such rule")), h);
  ipt_List t c h :=
    (Some (line_of <$> filter (λ k : ipt_key, k.1.2 = c) (host_ipt h), None), h);
  ipt_NewChain _ _ h := (Some (Some (EStr "Chain already exists.")), h);
  ipt_ListChains t h := (Some ((λ k : ipt_key, k.1.2) <$> host_ipt h, None), h);
  ipt_HasRandomFully h := (Some true, h);
}.

#[global] Instance Host_HostOS : HostOS Host := {
  net_Interfaces h := (Some (inl [("lo", "00"); ("eth0", "0a:00")]%string), h);
  openFile _ h := (Some None, h);
  WriteString _ _ h := (Some None, h);
  Close _ h := (Some None, h);
}.

Lemma remove_key_perm k l : k ∈ l → k :: remove_key k l ≡ₚ l.
Proof.
  induction l as [|x l IH]; intros Hk; [by apply elem_of_nil in Hk|]. simpl.
  destruct (decide (x = k)) as [->|Hne]; [done|]. apply elem_of_cons in Hk as [->|Hk]; [done|].
  rewrite <-(IH Hk) at 2. apply perm_swap.
Qed.

Lemma host_ipt_set l h : Forall readable l → host_ipt (set_ipt l h) = l.
Proof. apply filter_all. Qed.

Lemma host_ipt_readable h : Forall readable (host_ipt h).
Proof. apply Forall_forall. by intros k [? _]%list_elem_of_filter. Qed.

#[global] Instance Host_IptOk : IptOk Host host_ipt.
Proof.
  split.
  - by intros A f w [].
  - intros A f h Hf.
    assert (∀ {B} (g : ext Kernel B), (g (h_kernel h)).1 ≠ None →
      (lift g h).1 ≠ None ∧ host_ipt (lift g h).2 = host_ipt h) as Hlift.
    { intros B g Hg. unfold lift. by destruct (g (h_kernel h)). }
    destruct Hf as [A f Ho|r|r|]; [destruct Ho| | |]; apply Hlift, answered; auto with net.
  - intros t c r h. eexists _, _, _. split; [reflexivity|]. split; [done|]. intros _. apply bool_decide_eq_true.
  - intros t c r h. simpl. destruct (decide (readable (t, c, r))); eexists _, _; (split; [reflexivity|]); [|done].
    intros _. rewrite host_ipt_set; [by rewrite Permutation_app_comm|].
    apply Forall_app. split; [apply host_ipt_readable|]. by constructor.
  - intros t c r h. simpl. destruct (decide _) as [Hin|]; eexists _, _; (split; [reflexivity|]); [|done].
    intros _. rewrite host_ipt_set; [by apply remove_key_perm|].
    pose proof (host_ipt_readable h) as Hr. rewrite <-(remove_key_perm _ _ Hin) in Hr. by inversion Hr.
  - intros c w w' lines [= <- <-]. split.
    + intros spec Hin. exists (line_of ("nat"%string, c, spec)), "-A"%string, c. split.
      * apply list_elem_of_fmap. eexists. split; [done|]. by apply list_elem_of_filter.
      * by apply (proj1 (Forall_forall _ _) (host_ipt_readable w) _ Hin).
    + apply Forall_forall. intros line (k & -> & [_ Hk]%list_elem_of_filter)%list_elem_of_fmap l Hl.
      pose proof (proj1 (Forall_forall _ _) (host_ipt_readable w) _ Hk) as Hr. unfold readable in Hr.
      rewrite Hr in Hl. injection Hl as <-. simpl. lia.
  - intros w w' chains [= <- <-] c spec Hin. apply list_elem_of_fmap. by exists ("nat"%string, c, spec).
Qed.

(** A host with rules of an earlier configuration. *)
Definition host_ex : Host :=
  mkHost kernel_ex
    [("nat", "POSTROUTING", ["-m"; "comment"; "--comment"; "AWS SNAT CHAIN"; "-j"; "AWS-SNAT-CHAIN-0"]);
     ("nat", "AWS-SNAT-CHAIN-0", ["!"; "-d"; "10.9.0.0/16"; "-m"; "comment"; "--comment"; "AWS SNAT CHAIN";
                                  "-j"; "AWS-SNAT-CHAIN-1"])]%string.
Definition network_ex : linuxNetwork := mkLinuxNetwork false ["172.16.0.0/12"%string] randomPRNGSNAT true 128.

Definition host_ifs : list (string * string) := [("lo", "00"); ("eth0", "0a:00")]%string.

Lemma host_facts : node_facts (W:=Host) host_ifs true.
Proof. split; by intros w w' l [= <- _]. Qed.

Lemma host_rules_once : NoDup (host_ipt host_ex).
Proof. apply NoDup_cons. split; [|apply NoDup_singleton]. vm_compute. by intros ?%list_elem_of_singleton. Qed.

Lemma host_network_in_line_witness :
  ∃ w', SetupHostNetwork network_ex (Some 167837696, 16) ["10.1.0.0/16"%string] "0a:00" (Some 167837697) host_ex =
      (Ret None, w') ∧
    in_line host_ipt network_ex "eth0" true (IPNet_String (Some 167837696, 16)) ["10.1.0.0/16"%string]
       (IP_String (Some 167837697)) w'.
Proof.
  destruct (host_network_in_line host_ipt host_ifs true network_ex (Some 167837696, 16) ["10.1.0.0/16"%string] "0a:00"
    (Some 167837697) host_ex host_facts host_rules_once) as (o & w' & Hr & Ho).
  exists w'. assert (o = None) as ->.
  { assert (Ret o = Ret (A:=option error) None) as Heq; [|by injection Heq].
    change (Ret o) with (fst (Ret o, w')). rewrite <-Hr. vm_compute. reflexivity. }
  split; [exact Hr|]. destruct (Ho eq_refl) as (intf & Hi & Hl). vm_compute in Hi. injection Hi as <-. exact Hl.
Defined.

(** The same run: it succeeds, and the rule for 10.9.0.0/16 is gone. *)
Example host_network_ex :
  let '(r, w) := SetupHostNetwork network_ex (Some 167837696, 16) ["10.1.0.0/16"%string] "0a:00" (Some 167837697) host_ex in
  r = Ret None ∧ (λ k : ipt_key, (k.1.2, k.2 !! 2%nat)) <$> h_ipt w =
    [("POSTROUTING", Some "--comment"); ("AWS-SNAT-CHAIN-0", Some "10.1.0.0/16");
     ("AWS-SNAT-CHAIN-1", Some "172.16.0.0/12"); ("AWS-SNAT-CHAIN-2", Some "--comment");
     ("PREROUTING", Some "--comment"); ("PREROUTING", Some "--comment")]%string.
Proof. vm_compute. split; reflexivity. Qed.

(** ** What the SNAT chains do to a packet

    A reading of the rules as iptables runs them (iptables(8) and
    iptables-extensions(8)): the matches of a rule are read from left to right,
    a rule whose matches all hold jumps to its target, the target SNAT ends the
    traversal, and a chain without a match returns to the one that jumped to it.
    A packet is what the matches look at: the destination, and whether that is
    an address of the host. *)
Record packet := mkPacket { p_dst : Z; p_local : bool }.

Definition in_cidr (cidr : string) (p : packet) : option bool :=
  (λ x, net_Contains x.2 (p_dst p)) <$> ParseCIDR cidr.

(** One match that may be negated: [-d] and [--dst-type]. *)
Definition one_match (opt arg : string) (p : packet) : option bool :=
  if decide (opt = "-d"%string) then in_cidr arg p
  else if decide (opt = "--dst-type"%string ∧ arg = "LOCAL"%string) then Some (p_local p)
  else None.

(** The matches of a specification: [-m] loads a module, [--comment] says
    nothing; an option that is not known here does not match. *)
Fixpoint spec_matches (spec : list string) (p : packet) : bool :=
  match spec with
  | a :: (b :: l2) as l1 =>
      if decide (a = "-j"%string) then true
      else if decide (a = "-m"%string ∨ a = "--comment"%string) then spec_matches l2 p
      else if decide (a = "!"%string) then
        match l2 with
        | c :: l3 => from_option negb false (one_match b c p) && spec_matches l3 p
        | [] => false
        end
      else default false (one_match a b p) && spec_matches l2 p
  | _ => false
  end.

Fixpoint target (spec : list string) : string :=
  match spec with
  | x :: (y :: _) as rest => if decide (x = "-j"%string) then y else target rest
  | _ => ""
  end.

(** Whether the traversal of chain [c] of the nat table ends in SNAT. *)
Fixpoint snat_hit (fuel : nat) (rules : list ipt_key) (c : string) (p : packet) : bool :=
  match fuel with
  | O => false
  | S fuel =>
      existsb (λ k, spec_matches k.2 p &&
                    (bool_decide (target k.2 = "SNAT"%string) || snat_hit fuel rules (target k.2) p))
        (filter (λ k : ipt_key, k.1 = ("nat"%string, c)) rules)
  end.

(** The rule by which POSTROUTING enters the chains of the daemon; other rules
    of POSTROUTING belong to others. *)
Definition snat_entry : ipt_key :=
  ("nat", "POSTROUTING", ["-m"; "comment"; "--comment"; "AWS SNAT CHAIN"; "-j"; "AWS-SNAT-CHAIN-0"])%string.

(** The packet is translated by way of the daemon's rules. *)
Definition translated (fuel : nat) (rules : list ipt_key) (p : packet) : bool :=
  existsb (λ k, bool_decide (k = snat_entry) && spec_matches k.2 p && snat_hit fuel rules (target k.2) p) rules.

Lemma chain_name_inj i j : chain_name i = chain_name j → i = j.
Proof. unfold chain_name, Itoa. intros H%(inj _). apply (inj pretty) in H. lia. Qed.

Lemma chain_name_prefix i : HasPrefix (chain_name i) "AWS-SNAT-CHAIN" = true.
Proof.
  unfold chain_name. generalize (Itoa (Z.of_nat i)). intros s. by destruct s.
Qed.

Lemma chain_name_SNAT i : bool_decide (chain_name i = "SNAT"%string) = false.
Proof. by apply bool_decide_eq_false_2. Qed.

Lemma snat_hit_spec fuel rules c p :
  snat_hit (S fuel) rules c p = true ↔
  ∃ spec, ("nat"%string, c, spec) ∈ rules ∧ spec_matches spec p = true ∧
    (target spec = "SNAT"%string ∨ snat_hit fuel rules (target spec) p = true).
Proof.
  cbn [snat_hit]. rewrite existsb_exists. setoid_rewrite <-list_elem_of_In. setoid_rewrite list_elem_of_filter.
  setoid_rewrite andb_true_iff. setoid_rewrite orb_true_iff. setoid_rewrite bool_decide_eq_true. split.
  - intros ([tc spec] & [Hk Hin] & Hm). simpl in *. subst tc. eauto.
  - intros (spec & Hin & Hm). exists ("nat"%string, c, spec). done.
Qed.

Section snat.
Context {W : Type} (ipt : W → list ipt_key).
Context (n : linuxNetwork) (intf : string) (rf : bool) (vpcCIDR : string) (vpcCIDRs : list string) (addr : string).
Let all := all_cidrs n vpcCIDRs.
Let ext := lin_useExternalSNAT n.

Lemma snat_rules_chain i r :
  (i ≤ length all)%nat → r ∈ snat_rules n all rf addr → ir_chain r = chain_name i →
  match all !! i with
  | Some c => r = snat_jump ext i c
  | None => ir_rule r = snat_rule (lin_typeOfSNAT n) rf addr ∧ ir_shouldExist r = negb ext
  end.
Proof.
  intros Hi. unfold snat_rules. rewrite !elem_of_app, !list_elem_of_singleton, elem_of_lookup_imap.
  intros [->|[(j & c & -> & Hj)| ->]]; simpl; intros Hc.
  - symmetry in Hc. by apply chain_name_ne in Hc.
  - apply chain_name_inj in Hc as ->. by rewrite Hj.
  - apply chain_name_inj in Hc as <-. by rewrite lookup_ge_None_2.
Qed.

(** The rules of chain [i], for a host in line: one if SNAT is on. *)
Lemma chain_rules w i spec :
  in_line ipt n intf rf vpcCIDR vpcCIDRs addr w → (i ≤ length all)%nat →
  ("nat"%string, chain_name i, spec) ∈ ipt w ↔
  ext = false ∧ spec = match all !! i with
                       | Some c => ir_rule (snat_jump ext i c)
                       | None => snat_rule (lin_typeOfSNAT n) rf addr
                       end.
Proof.
  intros [Hin Hout] Hi. fold all in Hin, Hout. split.
  - intros Hk. destruct (Hout _ _ (chain_name_prefix i) Hk) as (r & Hr & Hc & <-).
    pose proof (snat_rules_chain _ _ Hi Hr Hc) as Hcase.
    assert (key r ∈ ipt w) as Hkr.
    { destruct (snat_rules_elem _ _ _ _ _ Hr) as (Ht & _). unfold key. by rewrite Ht, Hc. }
    apply Hin in Hkr; [|apply elem_of_app; by left].
    destruct (all !! i) as [c|]; [subst r; simpl in *|destruct Hcase as [-> Hse]; rewrite Hse in Hkr];
      (split; [by apply negb_true_iff|done]).
  - intros [Hext ->]. destruct (all !! i) as [c|] eqn:Hc.
    + apply (Hin (snat_jump ext i c)).
      * apply elem_of_app. left. unfold snat_rules. apply elem_of_app. right. apply elem_of_app. left.
        apply elem_of_lookup_imap. by exists i, c.
      * simpl. by rewrite Hext.
    + apply lookup_ge_None in Hc. assert (i = length all) as -> by lia.
      apply (Hin (mkIptablesRule "last SNAT rule for non-VPC outbound traffic" (negb ext) "nat"
        (chain_name (length all)) (snat_rule (lin_typeOfSNAT n) rf addr))).
      * apply elem_of_app. left. unfold snat_rules. rewrite !elem_of_app, !list_elem_of_singleton. auto.
      * simpl. by rewrite Hext.
Qed.

(** What the rule of one chain says. *)
Lemma jump_matches i c p : spec_matches (ir_rule (snat_jump ext i c)) p = from_option negb false (in_cidr c.1 p).
Proof. simpl. apply andb_true_r. Qed.

Lemma jump_target i c p : in_cidr c.1 p ≠ None → target (ir_rule (snat_jump ext i c)) = chain_name (S i).
Proof.
  unfold in_cidr. intros H. simpl. rewrite (decide_False (P:=c.1 = "-j"%string)); [by destruct c.2|].
  intros Heq. by rewrite Heq in H.
Qed.

Lemma snat_matches p : spec_matches (snat_rule (lin_typeOfSNAT n) rf addr) p = negb (p_local p).
Proof. by destruct p as [dst []]. Qed.

Lemma snat_target : target (snat_rule (lin_typeOfSNAT n) rf addr) = "SNAT"%string.
Proof. done. Qed.

(** The packet is outside the network [cidr], which can be read. *)
Definition outside (p : packet) (cidr : string) : Prop := in_cidr cidr p = Some false.

Lemma snat_hit_chain w fuel i p :
  in_line ipt n intf rf vpcCIDR vpcCIDRs addr w → (i ≤ length all)%nat → (length all - i < fuel)%nat →
  snat_hit fuel (ipt w) (chain_name i) p = true ↔
  ext = false ∧ p_local p = false ∧ Forall (λ c, outside p c.1) (drop i all).
Proof.
  intros Hl. revert i. induction fuel as [|fuel IH]; intros i Hi Hf; [lia|].
  rewrite snat_hit_spec. setoid_rewrite (chain_rules _ _ _ Hl Hi). destruct (all !! i) as [c|] eqn:Hc.
  - rewrite (drop_S _ _ _ Hc), Forall_cons. apply lookup_lt_Some in Hc. unfold outside at 1. split.
    + intros (spec & [He ->] & Hm & Ht). rewrite jump_matches in Hm.
      destruct (in_cidr c.1 p) as [b|] eqn:Hcp; [|done]. simpl in Hm. apply negb_true_iff in Hm as ->.
      rewrite (jump_target _ _ p), IH in Ht by (congruence || lia). destruct Ht as [Ht|Ht]; [|by destruct Ht as (? & ? & ?)].
      pose proof (chain_name_SNAT (S i)) as Hs. by apply bool_decide_eq_false in Hs.
    + intros (He & Hloc & Hcp & Hrest). exists (ir_rule (snat_jump ext i c)). split; [done|].
      rewrite jump_matches, Hcp. split; [done|]. right. rewrite (jump_target _ _ p), IH by (congruence || lia). done.
  - apply lookup_ge_None in Hc. rewrite drop_ge by done. split.
    + intros (spec & [He ->] & Hm & _). rewrite snat_matches in Hm. by apply negb_true_iff in Hm.
    + intros (He & Hloc & _). eexists. split; [done|]. rewrite snat_matches, Hloc, snat_target. auto.
Qed.

(** C10: on a host whose rules are in line with the settings (as
    [SetupHostNetwork] leaves them), the daemon's rules in iptables translate
    exactly the traffic that leaves the VPC: by way of them a packet reaches SNAT
    if and only if external SNAT is off, its destination is not an address of
    the host, and it is in none of the VPC's CIDRs and in none of the excluded
    ones, however many there are. *)
Theorem snat_exactly_outside w p :
  in_line ipt n intf rf vpcCIDR vpcCIDRs addr w →
  translated (length all + 1) (ipt w) p = true ↔
  lin_useExternalSNAT n = false ∧ p_local p = false ∧
  ∀ cidr, cidr ∈ vpcCIDRs ++ lin_excludeSNATCIDRs n → outside p cidr.
Proof.
  intros Hl. unfold translated. rewrite existsb_exists. setoid_rewrite <-list_elem_of_In.
  assert (snat_entry ∈ ipt w ↔ ext = false) as He.
  { rewrite <-negb_true_iff. apply (proj1 Hl (mkIptablesRule "first SNAT rules for non-VPC outbound traffic" (negb ext)
      "nat" "POSTROUTING" ["-m"; "comment"; "--comment"; "AWS SNAT CHAIN"; "-j"; "AWS-SNAT-CHAIN-0"]%string)).
    apply elem_of_app. left. unfold snat_rules. apply elem_of_app. left. by apply list_elem_of_singleton. }
  assert (Forall (λ c, outside p c.1) all ↔ ∀ cidr, cidr ∈ vpcCIDRs ++ lin_excludeSNATCIDRs n → outside p cidr) as Hall.
  { unfold all, all_cidrs. rewrite Forall_app, !Forall_fmap, !Forall_forall. unfold compose; simpl.
    setoid_rewrite elem_of_app. naive_solver. }
  pose proof (snat_hit_chain w (length all + 1) 0 p Hl) as Hc. rewrite drop_0, Hall in Hc. split.
  - intros (k & _ & [[->%bool_decide_eq_true _]%andb_true_iff Hh]%andb_true_iff). apply Hc; [lia..|exact Hh].
  - intros H. exists snat_entry. split; [apply He, H|]. rewrite bool_decide_eq_true_2 by done. simpl.
    apply Hc; [lia..|exact H].
Qed.

End snat.

(** The host above, after the set-up: a packet to the internet is translated,
    one to the VPC, to an excluded network or to the host is not. *)
Lemma snat_exactly_outside_witness :
  let w := (SetupHostNetwork network_ex (Some 167837696, 16) ["10.1.0.0/16"%string] "0a:00" (Some 167837697) host_ex).2 in
  translated 3 (host_ipt w) (mkPacket 134744072 false) = true ∧
  (translated 3 (host_ipt w) (mkPacket 134744072 true) = true → False) ∧
  translated 3 (host_ipt w) (mkPacket 167837699 false) = false.
Proof.
  cbv zeta. split_and!; [|vm_compute; discriminate|vm_compute; reflexivity].
  destruct (wp_run _ _ _ (setup_host_spec host_ipt host_ifs true network_ex (Some 167837696, 16) ["10.1.0.0/16"%string]
    "0a:00" (Some 167837697) host_ex host_facts host_rules_once)) as (o & w' & Hr & Ho).
  rewrite Hr. cbn [snd]. assert (o = None) as ->.
  { assert (Ret o = Ret (A:=option error) None) as Heq; [|by injection Heq].
    change (Ret o) with (fst (Ret o, w')). rewrite <-Hr. vm_compute. reflexivity. }
  destruct (Ho eq_refl) as (intf & _ & Hl).
  apply (snat_exactly_outside host_ipt network_ex intf true _ _ _ w' (mkPacket 134744072 false) Hl).
  split_and!; [reflexivity|reflexivity|]. intros cidr Hc. simpl in Hc.
  repeat (apply elem_of_cons in Hc as [->|Hc]; [vm_compute; reflexivity|]). by apply elem_of_nil in Hc.
Defined.
