(* ===== verification/Driver.v ===== *)
(** * Wiring a pod: plugins/routed-eni/driver/driver.go

    The veth pair of a pod, its host route and its routing policy rules, through
    the [NetLink] interface.  The rules of a pod are cleaned up by
    [DeleteRuleListBySrc] of pkg/networkutils. *)
From S2P Require Import Prelude GoStd Netlink NetworkUtils.

Open Scope Z_scope.

Definition toContainerRulePriority : Z := 512.
Definition fromContainerRulePriority : Z := 1536.
Definition mainRouteTable : Z := RT_TABLE_MAIN.
Definition ethernetMTU : Z := 9001.

Section driver.
Context {W : Type} `{!NetLink W}.

(** 169.254.1.1, the next hop every pod is given. *)
Definition gw : Z := ((169 * 256 + 254) * 256 + 1) * 256 + 1.

(** [createVethPairContext.run]: in the pod's namespace, the pair is created, both
    ends are brought up, the pod's end gets its routes, its address and a static
    ARP entry, and the other end is moved to the host. *)
Definition run (contVethName hostVethName : string) (addr : NetAddr) (hostNS : Z) : M W (option error) :=
  let found n := wrapped ("setup NS network: failed to find link " +:+ quoted n) in
  let up n := wrapped ("setup NS network: failed to set link " +:+ quoted n +:+ " up") in
  check (call (LinkAdd (mkVeth contVethName ethernetMTU hostVethName))) id (
  check_val (call (LinkByName hostVethName)) (found hostVethName) (λ hostVeth,
  check (call (LinkSetUp hostVeth)) (up hostVethName) (
  check_val (call (LinkByName contVethName)) (found contVethName) (λ contVeth,
  check (call (LinkSetUp contVeth)) (up contVethName) (
  check (call (RouteReplace (mkRoute (l_Index contVeth) SCOPE_LINK (Some (Some gw, 32)) None None 0)))
    (wrapped "setup NS network: failed to add default gateway") (
  check (call (AddDefaultRoute gw contVeth))
    (wrapped "setup NS network: failed to add default route") (
  check (call (AddrAdd contVeth addr))
    (wrapped ("setup NS network: failed to add IP addr to " +:+ contVethName)) (
  check (call (NeighAdd (mkNeigh (l_Index contVeth) NUD_PERMANENT gw (l_HardwareAddr hostVeth))))
    (wrapped "setup NS network: failed to add static ARP") (
  check (call (LinkSetNsFd hostVeth hostNS))
    (wrapped "setup NS network: failed to move veth to host netns") (mret None)))))))))).

Definition container_rule (isToContainer : bool) (addr : NetAddr) (priority table : Z) : Rule :=
  if isToContainer then new_rule (Some addr) None table priority
  else new_rule None (Some addr) table priority.

Definition addContainerRule (isToContainer : bool) (addr : NetAddr) (priority table : Z) : M W (option error) :=
  let containerRule := container_rule isToContainer addr priority table in
  err ← call (RuleDel containerRule);
  match err with
  | Some e =>
      if negb (containsNoSuchRule e) then
        mret (Some (EWrap e ("addContainerRule: failed to delete old container rule for " +:+ IPNet_String addr)))
      else
        check (call (RuleAdd containerRule))
          (wrapped ("addContainerRule: failed to add container rule for " +:+ IPNet_String addr)) (mret None)
  | None =>
      check (call (RuleAdd containerRule))
        (wrapped ("addContainerRule: failed to add container rule for " +:+ IPNet_String addr)) (mret None)
  end.

(** One turn of the loop over the VPC's CIDRs; a CIDR that does not parse gives a
    rule for any destination. *)
Definition pod_rule (addr : NetAddr) (table : Z) (cidr : string) : Rule :=
  new_rule (to_addr ∘ snd <$> ParseCIDR cidr) (Some addr) table fromContainerRulePriority.

Definition add_pod_rule (addr : NetAddr) (table : Z) (cidr : string) : M W (option error) :=
  err ← call (RuleAdd (pod_rule addr table cidr));
  match err with
  | Some e =>
      if isRuleExistsError e then mret None
      else mret (Some (EWrap e ("setupNS: failed to add pod rule [" +:+ Rule_String (pod_rule addr table cidr) +:+ "]")))
  | None => mret None
  end.

(** The part of [setupNS] after the host's end of the pair is up. *)
Definition setup_rules (addr : NetAddr) (table : Z) (vpcCIDRs : list string) (useExternalSNAT : bool) :
    M W (option error) :=
  check (addContainerRule true addr toContainerRulePriority mainRouteTable)
    (wrapped "setupNS network: failed to add toContainer") (
  if bool_decide (table > 0) then
    if useExternalSNAT then
      check (addContainerRule false addr fromContainerRulePriority table)
        (wrapped "add NS network: failed to add fromContainer rule") (mret None)
    else find_loop (add_pod_rule addr table) vpcCIDRs
  else mret None).

Definition setupNS (hostVethName contVethName netnsPath : string) (addr : NetAddr) (table : Z)
    (vpcCIDRs : list string) (useExternalSNAT : bool) : M W (option error) :=
  old ← call (LinkByName hostVethName);
  cleaned ← (match old with
             | inl oldHostVeth =>
                 check (call (LinkDel oldHostVeth))
                   (wrapped ("setupNS network: failed to delete old hostVeth " +:+ quoted hostVethName)) (mret None)
             | inr _ => mret None
             end);
  match cleaned with
  | Some e => mret (Some e)
  | None =>
      check (WithNetNSPath netnsPath (run contVethName hostVethName addr))
        (wrapped "setupNS network: failed to setup NS network") (
      check_val (call (LinkByName hostVethName))
        (wrapped ("setupNS network: failed to find link " +:+ quoted hostVethName)) (λ hostVeth,
      check (call (LinkSetUp hostVeth))
        (wrapped ("setupNS network: failed to set link " +:+ quoted hostVethName +:+ " up")) (
      check (call (RouteReplace (mkRoute (l_Index hostVeth) SCOPE_LINK (Some (addr.1, 32)) None None 0)))
        (wrapped ("setupNS: unable to add or replace route entry for " +:+ IP_String addr.1)) (
      setup_rules addr table vpcCIDRs useExternalSNAT))))
  end.

Definition SetupNS := setupNS.

(** The errors of deleting the rule to the pod and its route are only logged. *)
Definition tearDownNS (addr : NetAddr) (table : Z) : M W (option error) :=
  _ ← call (RuleDel (new_rule (Some addr) None 0 toContainerRulePriority));
  err ← (if bool_decide (table > 0) then
           check (DeleteRuleListBySrc addr)
             (wrapped ("delete NS network: failed to delete fromContainer rule for " +:+ IPNet_String addr))
             (mret None)
         else mret None);
  match err with
  | Some e => mret (Some e)
  | None =>
      _ ← call (RouteDel (mkRoute 0 SCOPE_LINK (Some (addr.1, 32)) None None 0));
      mret None
  end.

Definition TeardownNS := tearDownNS.

End driver.
