(* ===== verification/DriverProps.v ===== *)
(** * Theorems about wiring pods

    What [setupNS] leaves in the kernel's policy rules, and that [tearDownNS]
    takes it away again. *)
From S2P Require Import Prelude GoStd Interfaces Netlink NetworkUtils NetworkUtilsProps Driver.

Open Scope Z_scope.

Section driver.
Context {W : Type} `{!NetLink W} `{!Answers W} (rules : W → list Rule) `{!RulesOk W rules}.

(** The rules of a pod: those to it and those from it. *)
Definition to_dst (addr : NetAddr) (r : Rule) : Prop := fst <$> r_Dst r = Some addr.1.
Definition about (addr : NetAddr) (r : Rule) : Prop := from_src addr r ∨ to_dst addr r.

#[local] Instance about_dec addr r : Decision (about addr r).
Proof. unfold about, to_dst. apply _. Defined.

Definition pod_rules (addr : NetAddr) (w : W) : list Rule := filter (about addr) (rules w).
Definition unrelated (addr : NetAddr) (w : W) : list Rule := filter (λ r, ¬ about addr r) (rules w).

(** Adding and deleting rules of the pod. *)
Lemma insert_about addr l1 r l2 :
  about addr r →
  filter (λ r, ¬ about addr r) (l1 ++ r :: l2) = filter (λ r, ¬ about addr r) (l1 ++ l2) ∧
  filter (about addr) (l1 ++ r :: l2) ≡ₚ r :: filter (about addr) (l1 ++ l2).
Proof. intros Hr. split; [apply filter_insert_not; naive_solver|by apply filter_insert_perm]. Qed.

Lemma sel_about addr sel r :
  is_Some addr.1 → rule_matches sel r = true → r_Src sel = Some addr ∨ r_Dst sel = Some addr → about addr r.
Proof.
  intros [ip Hip] Hm Hs. assert (sent (Some addr) = Some addr) as Hsent by (destruct addr; simpl in *; by subst).
  destruct Hs as [Hs|Hs]; [left|right].
  - unfold from_src. by rewrite (rule_matches_src _ _ addr Hm) by (by rewrite Hs).
  - unfold to_dst. by rewrite (rule_matches_dst _ _ addr Hm) by (by rewrite Hs).
Qed.

Lemma wp_add_about addr r (Q : option error → W → Prop) w :
  about addr (sent_rule r) →
  (∀ w', unrelated addr w' = unrelated addr w → pod_rules addr w' ≡ₚ sent_rule r :: pod_rules addr w → Q None w') →
  (∀ e w', rules w' = rules w → (isRuleExistsError e = true → sent_rule r ∈ rules w) → Q (Some e) w') →
  wp False (call (RuleAdd r)) Q w.
Proof.
  intros Hr Hok Herr. apply (wp_RuleAdd rules); [|done]. intros w' l1 l2 H1 H2.
  destruct (insert_about addr l1 _ l2 Hr) as [Hu Hp]. apply Hok; unfold unrelated, pod_rules; rewrite H1, H2; done.
Qed.

Lemma del_about addr r w w' :
  is_Some addr.1 → r_Src r = Some addr ∨ r_Dst r = Some addr →
  Exists (λ x, rule_matches r x = true) (rules w) → rules w' = rule_remove r (rules w) →
  ∃ x, unrelated addr w' = unrelated addr w ∧ pod_rules addr w ≡ₚ x :: pod_rules addr w' ∧ rule_matches r x = true.
Proof.
  intros Hip Hr (l1 & x & l2 & Hl & Hrem & Hm & _)%rule_remove_split Hw'.
  destruct (insert_about addr l1 x l2) as [Hu Hp]; [by eapply sel_about|].
  exists x. unfold unrelated, pod_rules. rewrite Hl, Hw', Hrem. done.
Qed.

Lemma wp_del_about addr r (Q : option error → W → Prop) w :
  is_Some addr.1 → r_Src r = Some addr ∨ r_Dst r = Some addr →
  (∀ w' x, unrelated addr w' = unrelated addr w → pod_rules addr w ≡ₚ x :: pod_rules addr w' →
     rule_matches r x = true → Q None w') →
  (∀ e w', rules w' = rules w →
     (containsNoSuchRule e = true → Forall (λ x, rule_matches r x = false) (rules w)) → Q (Some e) w') →
  wp False (call (RuleDel r)) Q w.
Proof.
  intros Hip Hr Hok Herr. apply (wp_RuleDel rules); [|done]. intros w' He Hw'.
  destruct (del_about addr r w w') as (x & ? & ? & ?); eauto.
Qed.

Lemma pod_rules_elem addr r w : about addr r → r ∈ rules w ↔ r ∈ pod_rules addr w.
Proof. intros Hr. unfold pod_rules. rewrite list_elem_of_filter. tauto. Qed.

(** *** The rule to and from the pod *)

Lemma container_rule_sent b addr p t : is_Some addr.1 → sent_rule (container_rule b addr p t) = container_rule b addr p t.
Proof. intros [ip Hip]. destruct addr. simpl in *. subst. by destruct b. Qed.

Lemma container_rule_about b addr p t : about addr (container_rule b addr p t).
Proof. destruct b; [by right|by left]. Qed.

Lemma addContainerRule_spec b addr p t w :
  is_Some addr.1 →
  let r := container_rule b addr p t in
  wp False (addContainerRule b addr p t)
    (λ o w', unrelated addr w' = unrelated addr w ∧
       (o = None → ∃ gone kept, Forall (λ x, rule_matches r x = true) gone ∧
          pod_rules addr w ≡ₚ gone ++ kept ∧ pod_rules addr w' ≡ₚ r :: kept)) w.
Proof.
  intros Hip r. pose proof (container_rule_sent b addr p t Hip) as Hs. fold r in Hs.
  pose proof (container_rule_about b addr p t) as Hab. fold r in Hab.
  assert (∀ w1 wrap gone, unrelated addr w1 = unrelated addr w →
    Forall (λ x, rule_matches r x = true) gone → pod_rules addr w ≡ₚ gone ++ pod_rules addr w1 →
    wp False (check (call (RuleAdd r)) wrap (mret None))
      (λ o w', unrelated addr w' = unrelated addr w ∧
         (o = None → ∃ gone kept, Forall (λ x, rule_matches r x = true) gone ∧
            pod_rules addr w ≡ₚ gone ++ kept ∧ pod_rules addr w' ≡ₚ r :: kept)) w1) as Hadd.
  { intros w1 wrap gone Hu Hg Hp. apply wp_check, wp_add_about with addr; [by rewrite Hs| |].
    - intros w2 Hu2 Hp2. wp_steps. split; [congruence|]. intros _. exists gone, (pod_rules addr w1). split; [done|].
      split; [done|]. by rewrite Hp2, Hs.
    - intros e w2 Hw2 _. split; [|done]. unfold unrelated in *. by rewrite Hw2. }
  unfold addContainerRule. cbn zeta. fold r. apply wp_bind, wp_del_about with addr; [done| | |].
  - unfold r. destruct b; [by right|by left].
  - intros w1 x Hu Hp Hm. apply Hadd with [x]; [done| |done]. by constructor.
  - intros e w1 Hw1 _. destruct (negb _); [wp_steps; split; [|done]; unfold unrelated; by rewrite Hw1|].
    apply Hadd with []; [|done|]; unfold unrelated, pod_rules; by rewrite Hw1.
Qed.

(** *** The rules to the CIDRs of the VPC *)

Lemma pod_rule_from addr t cidr : is_Some addr.1 → from_src addr (sent_rule (pod_rule addr t cidr)).
Proof. intros Hip. by apply from_src_sent. Qed.

(** [l] is [l0] with rules from the pod added. *)
Definition grown (addr : NetAddr) (l0 l : list Rule) : Prop :=
  ∃ F, l ≡ₚ F ++ l0 ∧ Forall (λ r, from_src addr r ∧ r_Priority r = fromContainerRulePriority) F.

Lemma pod_rules_loop addr t cidrs w :
  is_Some addr.1 →
  wp False (find_loop (add_pod_rule addr t) cidrs)
    (λ o w', unrelated addr w' = unrelated addr w ∧ grown addr (pod_rules addr w) (pod_rules addr w') ∧
       (o = None → ∀ c, c ∈ cidrs → sent_rule (pod_rule addr t c) ∈ rules w')) w.
Proof.
  intros Hip.
  apply (wp_find_loop _ _ _ (λ dn w', unrelated addr w' = unrelated addr w ∧
    grown addr (pod_rules addr w) (pod_rules addr w') ∧ ∀ c, c ∈ dn → sent_rule (pod_rule addr t c) ∈ rules w')).
  - split; [done|]. split; [by exists []|]. by intros c ?%elem_of_nil.
  - intros dn c rest w1 _ (Hu & Hg & Hin). pose proof (pod_rule_from addr t c Hip) as Hfrom.
    unfold add_pod_rule. apply wp_bind, wp_add_about with addr; [by left| |].
    + intros w2 Hu2 Hp2. wp_steps. split; [congruence|]. split.
      * destruct Hg as (F & HF & Hall). exists (sent_rule (pod_rule addr t c) :: F). split; [by rewrite Hp2, HF|].
        by constructor.
      * assert (∀ r, about addr r → r ∈ rules w1 → r ∈ rules w2) as Hkeep.
        { intros r Hr. rewrite !(pod_rules_elem addr) by done. rewrite Hp2. by right. }
        intros c' [Hc'| ->%list_elem_of_singleton]%elem_of_app.
        -- apply Hkeep; [left; by apply pod_rule_from|]. by apply Hin.
        -- apply (pod_rules_elem addr); [by left|]. rewrite Hp2. by left.
    + intros e w2 Hw2 Hex. unfold unrelated, pod_rules in *. rewrite <-Hw2 in Hu, Hg. destruct (isRuleExistsError e).
      * wp_steps. split; [done|]. split; [done|]. rewrite Hw2.
        intros c' [Hc'| ->%list_elem_of_singleton]%elem_of_app; [by apply Hin|by apply Hex].
      * wp_steps. by split_and!.
  - intros w1 (Hu & Hg & Hin). by split_and!.
Qed.

(** *** All rules of a pod *)

Definition to_pod (addr : NetAddr) : Rule := container_rule true addr toContainerRulePriority mainRouteTable.
Definition from_pod (addr : NetAddr) (table : Z) : Rule :=
  container_rule false addr fromContainerRulePriority table.

(** The rules of the pod are there. *)
Definition wired (addr : NetAddr) (table : Z) (vpcCIDRs : list string) (useExternalSNAT : bool) (w : W) : Prop :=
  to_pod addr ∈ rules w ∧
  (table > 0 →
     if useExternalSNAT then from_pod addr table ∈ rules w
     else ∀ c, c ∈ vpcCIDRs → sent_rule (pod_rule addr table c) ∈ rules w).

(** Nothing but the rules of the pod: the one to it, and those from it. *)
Definition clean (addr : NetAddr) (table : Z) (w : W) : Prop :=
  ∃ F, pod_rules addr w ≡ₚ to_pod addr :: F ∧ (table ≤ 0 → F = []) ∧
    Forall (λ r, from_src addr r ∧ r_Priority r = fromContainerRulePriority) F.

Lemma setup_rules_spec addr table cidrs ext w :
  is_Some addr.1 →
  wp False (setup_rules addr table cidrs ext)
    (λ o w', unrelated addr w' = unrelated addr w ∧
       (o = None → wired addr table cidrs ext w' ∧ (pod_rules addr w = [] → clean addr table w'))) w.
Proof.
  intros Hip. unfold setup_rules. apply wp_check.
  eapply wp_mono; [by apply addContainerRule_spec|]. fold (to_pod addr). intros [e|] w1 [Hu1 Hp1]; [by split|].
  destruct (Hp1 eq_refl) as (gone & kept & Hgone & Hw & Hw1). clear Hp1.
  assert (to_pod addr ∈ pod_rules addr w1) as Hto by (rewrite Hw1; by left).
  assert (pod_rules addr w = [] → pod_rules addr w1 ≡ₚ [to_pod addr]) as Hclean1.
  { intros Hnil. rewrite Hnil in Hw. symmetry in Hw. apply Permutation_nil_r, app_nil in Hw as [_ ->]. done. }
  pose proof (container_rule_about true addr toContainerRulePriority mainRouteTable) as Hab. fold (to_pod addr) in Hab.
  case_bool_decide as Ht; [destruct ext|].
  - apply wp_check. eapply wp_mono; [by apply addContainerRule_spec|]. fold (from_pod addr table).
    intros [e|] w2 [Hu2 Hp2]; [split; [congruence|done]|].
    destruct (Hp2 eq_refl) as (gone2 & kept2 & Hgone2 & Hw12 & Hw2). wp_steps. split; [congruence|]. intros _.
    assert (to_pod addr ∉ gone2) as Hng.
    { intros Hin. pose proof (proj1 (Forall_forall _ _) Hgone2 _ Hin) as Hm.
      apply rule_matches_src with (n:=addr) in Hm; [done|]. destruct Hip as [ip Hip].
      destruct addr. simpl in *. by subst. }
    split.
    + split; [|intros _].
      * apply (pod_rules_elem addr); [done|]. rewrite Hw2. right. rewrite Hw12 in Hto.
        apply elem_of_app in Hto as [?|?]; done.
      * apply (pod_rules_elem addr); [apply container_rule_about|]. rewrite Hw2. by left.
    + intros Hnil. exists [from_pod addr table]. split; [|split; [lia|by repeat constructor]].
      rewrite Hclean1 in Hw12 by done. destruct gone2 as [|x gone2].
      * simpl in Hw12. rewrite Hw2, <-Hw12. apply perm_swap.
      * exfalso. apply Hng. assert (x ∈ [to_pod addr]) as ->%list_elem_of_singleton; [|by left].
        rewrite Hw12. by left.
  - eapply wp_mono; [by apply pod_rules_loop|]. intros o w2 (Hu2 & (F & HF & HallF) & Hin). split; [congruence|].
    intros ->. split.
    + split; [|intros _; by apply Hin]. apply (pod_rules_elem addr); [done|]. rewrite HF. apply elem_of_app. by right.
    + intros Hnil. exists F. split; [|split; [lia|done]]. rewrite HF, Hclean1 by done. by rewrite Permutation_app_comm.
  - wp_steps. split; [done|]. intros _. split.
    + split; [|lia]. by apply (pod_rules_elem addr).
    + intros Hnil. exists []. split; [by apply Hclean1|]. split; [done|constructor].
Qed.

(** *** The veth pair *)

Ltac veth_step :=
  lazymatch goal with
  | |- wp _ (check _ _ _) _ _ => apply wp_check
  | |- wp _ (check_val _ _ _) _ _ => apply wp_check_val
  | |- wp _ (mret _) _ _ => apply wp_ret
  | |- wp _ (call _) _ _ => apply (wp_other rules); [auto with net|intros [?|] ? ? || intros [?|?] ? ?]
  end.

Lemma run_spec cont host addr fd w : wp False (run cont host addr fd) (λ _ w', rules w' = rules w) w.
Proof. unfold run. cbn zeta. repeat (veth_step; [congruence|] || veth_step); congruence. Qed.

Lemma wp_netns p (f : Z → M W (option error)) (Q : option error → W → Prop) w :
  (∀ fd w, wp False (f fd) (λ _ w', rules w' = rules w) w) →
  (∀ o w', rules w' = rules w → Q o w') → wp False (WithNetNSPath p f) Q w.
Proof.
  intros Hf HQ.
  assert (∀ fd w, ∃ o w', f fd w = (Ret o, w') ∧ rules w' = rules w) as Hf' by (intros; by apply wp_run).
  destruct (answered_netns p f w) as (o & w' & Hrun).
  { intros fd w1. destruct (Hf' fd w1) as (o & w' & ? & _). eauto. }
  unfold wp. rewrite Hrun. apply HQ. pose proof (rules_netns p f w) as H. rewrite Hrun in H. apply H.
  intros fd w1. destruct (Hf' fd w1) as (o' & w2 & -> & ?). done.
Qed.

Lemma setupNS_spec host cont netns addr table cidrs ext w :
  is_Some addr.1 →
  wp False (setupNS host cont netns addr table cidrs ext)
    (λ o w', unrelated addr w' = unrelated addr w ∧
       (o = None → wired addr table cidrs ext w' ∧ (pod_rules addr w = [] → clean addr table w'))) w.
Proof.
  intros Hip.
  assert (∀ w' (e : error), rules w' = rules w → unrelated addr w' = unrelated addr w ∧
    (Some e = None → wired addr table cidrs ext w' ∧ (pod_rules addr w = [] → clean addr table w'))) as Herr.
  { intros w' e Hw'. split; [|done]. unfold unrelated. by rewrite Hw'. }
  unfold setupNS. apply wp_bind, (wp_other rules); [auto with net|]. intros old w1 Hw1. apply wp_bind.
  eapply (wp_mono _ _ (λ _ w', rules w' = rules w)).
  { destruct old; [|by wp_steps]. apply wp_check, (wp_other rules); [auto with net|].
    intros [e|] w2 Hw2; [congruence|]. wp_steps. congruence. }
  intros [e|] w2 Hw2; [wp_steps; by apply Herr|].
  apply wp_check, wp_netns; [apply run_spec|]. intros [e|] w3 Hw3; [apply Herr; congruence|].
  apply wp_check_val, (wp_other rules); [auto with net|]. intros [l|e] w4 Hw4; [|apply Herr; congruence].
  apply wp_check, (wp_other rules); [auto with net|]. intros [e|] w5 Hw5; [apply Herr; congruence|].
  apply wp_check, (wp_other rules); [auto with net|]. intros [e|] w6 Hw6; [apply Herr; congruence|].
  eapply wp_mono; [by apply setup_rules_spec|]. unfold unrelated, pod_rules. intros o w7.
  by replace (rules w6) with (rules w) by congruence.
Qed.

(** [setupNS] always returns; whatever happens it leaves the policy rules of
    every other pod and of the node as they were, and when it reports success the
    pod is wired: the rule to the pod is there, and for a pod on a secondary ENI
    (its table is not 0) the rule from the pod, or one from the pod to each CIDR of
    the VPC, in the ENI's table. *)
Theorem setup_ns_wires host cont netns addr table cidrs ext (w : W) :
  is_Some addr.1 →
  ∃ o w', w ⊢ setupNS host cont netns addr table cidrs ext ⇓ o ⊣ w' ∧
    unrelated addr w' = unrelated addr w ∧ (o = None → wired addr table cidrs ext w').
Proof.
  intros Hip. destruct (wp_run _ _ _ (setupNS_spec host cont netns addr table cidrs ext w Hip))
    as (o & w' & Hrun & Hu & Ho).
  exists o, w'. split; [done|]. split; [done|]. intros Hn. by destruct (Ho Hn).
Qed.

(** *** Teardown *)

(** What [tearDownNS] asks the kernel to delete first; an error is only logged. *)
Definition to_selector (addr : NetAddr) : Rule := new_rule (Some addr) None 0 toContainerRulePriority.

Lemma clean_del_to addr table w w' o :
  is_Some addr.1 → clean addr table w → RuleDel (to_selector addr) w = (Some o, w') →
  match o with
  | None => unrelated addr w' = unrelated addr w ∧
      Forall (from_src addr) (pod_rules addr w') ∧ (table ≤ 0 → pod_rules addr w' = [])
  | Some e => rules w' = rules w ∧ containsNoSuchRule e = false
  end.
Proof.
  intros Hip (F & HF & Ht & HallF) Hdel. destruct o as [e|].
  - destruct (rules_del_err _ _ _ _ Hdel) as [Hw' Hnone]. split; [done|].
    destruct (containsNoSuchRule e) eqn:He; [|done]. exfalso.
    specialize (Hnone eq_refl). assert (to_pod addr ∈ rules w) as Hin.
    { apply (pod_rules_elem addr); [apply container_rule_about|]. rewrite HF. by left. }
    pose proof (proj1 (Forall_forall _ _) Hnone _ Hin) as Hm. destruct Hip as [ip Hip].
    destruct addr as [oip k]. simpl in Hip. subst oip. vm_compute in Hm. repeat case_match; simplify_eq.
  - destruct (rules_del _ _ _ Hdel) as [He Hw'].
    destruct (del_about addr (to_selector addr) w w') as (x & Hu & Hp & Hm); [done|by right|done|done|]. rewrite HF in Hp.
    assert (x = to_pod addr) as ->.
    { assert (x ∈ to_pod addr :: F) as [->|Hx]%elem_of_cons by (rewrite Hp; by left); [done|].
      destruct (proj1 (Forall_forall _ _) HallF x Hx) as [_ Hprio].
      apply rule_matches_priority in Hm; [|simpl; unfold toContainerRulePriority; lia]. simpl in Hm.
      unfold toContainerRulePriority, fromContainerRulePriority in *. lia. }
    apply Permutation_cons_inv in Hp. split; [done|]. split.
    + rewrite <-Hp. eapply Forall_impl; [exact HallF|]. by intros r [].
    + intros Hle. rewrite (Ht Hle) in Hp. by apply Permutation_nil_l in Hp.
Qed.

Lemma unrelated_others addr w w' : others rules addr w' = others rules addr w → unrelated addr w' = unrelated addr w.
Proof.
  assert (∀ v, unrelated addr v = filter (λ r, ¬ about addr r) (others rules addr v)) as Hsub.
  { intros v. unfold unrelated, others. rewrite list_filter_filter. apply list_filter_iff. unfold about. intros r. tauto. }
  intros Hoth. by rewrite !Hsub, Hoth.
Qed.

(** Of the pod's rules those to it are left when those from it are deleted. *)
Lemma src_rules_deleted addr w w' :
  others rules addr w' = others rules addr w → of_src rules addr w' = [] →
  pod_rules addr w' = filter (λ r, ¬ from_src addr r) (pod_rules addr w).
Proof.
  intros Hoth Hnone.
  assert (∀ v, filter (λ r, ¬ from_src addr r) (pod_rules addr v) = filter (about addr) (others rules addr v)) as Hcomm.
  { intros v. unfold pod_rules, others. rewrite !list_filter_filter. apply list_filter_iff. intros r. tauto. }
  rewrite Hcomm, <-Hoth, <-Hcomm. symmetry. apply filter_all, Forall_forall.
  intros r [_ Hr]%list_elem_of_filter Hf.
  assert (r ∈ of_src rules addr w') as Hin by (by apply list_elem_of_filter).
  rewrite Hnone in Hin. by apply elem_of_nil in Hin.
Qed.

(** Of the rules of a wired pod that is the one to it. *)
Lemma clean_kept addr table w :
  clean addr table w →
  filter (λ r, ¬ from_src addr r) (pod_rules addr w) = [to_pod addr] ∧ (table ≤ 0 → pod_rules addr w = [to_pod addr]).
Proof.
  intros (F & HF & Ht & Hall). split.
  - apply Permutation_singleton_r. rewrite HF, filter_cons_True by done.
    assert (filter (λ r, ¬ from_src addr r) F = []) as ->; [|done].
    apply elem_of_nil_inv. intros r [Hn Hr]%list_elem_of_filter. destruct Hn.
    by apply (proj1 (Forall_forall _ _) Hall r Hr).
  - intros Hle. apply Permutation_singleton_r. by rewrite HF, (Ht Hle).
Qed.

Lemma all_unrelated addr w : pod_rules addr w = [] → unrelated addr w = rules w.
Proof.
  intros Hnil. apply filter_all, Forall_forall. intros r Hr Hab.
  assert (r ∈ pod_rules addr w) as Hin by (by apply list_elem_of_filter).
  rewrite Hnil in Hin. by apply elem_of_nil in Hin.
Qed.

(** The rules are back to those of [w0], or the kernel would not delete the rule to
    the pod, in the state [w] in which it was asked to, and that rule is left. *)
Definition torn_down (addr : NetAddr) (w0 w w' : W) : Prop :=
  rules w' = rules w0 ∨
  pod_rules addr w' = [to_pod addr] ∧
  ∃ e wd, RuleDel (to_selector addr) w = (Some (Some e), wd) ∧ containsNoSuchRule e = false.

Lemma tearDownNS_spec addr table (w0 w : W) :
  is_Some addr.1 → pod_rules addr w0 = [] → unrelated addr w = unrelated addr w0 →
  clean addr table w →
  wp False (tearDownNS addr table) (λ o w', unrelated addr w' = unrelated addr w0 ∧
    (o = None → torn_down addr w0 w w')) w.
Proof.
  intros Hip Hnil Hu Hclean. unfold tearDownNS.
  apply wp_bind, wp_net; [auto with net|]. intros o w2 Hdel. fold (to_selector addr) in Hdel.
  pose proof (clean_del_to _ _ _ _ _ Hip Hclean Hdel) as Hto.
  assert (unrelated addr w2 = unrelated addr w0) as Hu2.
  { destruct o; [|by destruct Hto as [-> _]]. unfold unrelated in *. by destruct Hto as [-> _]. }
  destruct (clean_kept _ _ _ Hclean) as [Hkept Hmain].
  assert (∀ w', unrelated addr w' = unrelated addr w0 →
    pod_rules addr w' = filter (λ r, ¬ from_src addr r) (pod_rules addr w2) ∨
      pod_rules addr w' = pod_rules addr w2 ∧ table ≤ 0 → torn_down addr w0 w w') as Hdone.
  { intros w' Hu' Hp. destruct o as [e|].
    - destruct Hto as [Hr Hne]. right. split; [|by exists e, w2].
      replace (pod_rules addr w2) with (pod_rules addr w) in Hp by (unfold pod_rules; by rewrite Hr).
      destruct Hp as [->|[-> Hle]]; auto.
    - left. destruct Hto as (_ & Hfrom & Hempty).
      rewrite <-(all_unrelated addr w'), <-(all_unrelated addr w0); [done|done|].
      destruct Hp as [->|[-> Hle]]; [|auto]. apply elem_of_nil_inv. intros r [Hn Hr]%list_elem_of_filter.
      by apply Hn, (proj1 (Forall_forall _ _) Hfrom). }
  apply wp_bind. eapply (wp_mono _ _ (λ o w', unrelated addr w' = unrelated addr w0 ∧ (o = None → torn_down addr w0 w w'))).
  - case_bool_decide as Ht; [|wp_steps; split; [done|]; intros _; apply Hdone; [done|right; split; [done|lia]]].
    apply wp_check. destruct (delete_rules_by_src rules addr w2) as (o3 & w3 & Hd & Hoth & Hnone).
    pose proof (unrelated_others _ _ _ Hoth) as Hu3.
    unfold wp. rewrite Hd. destruct o3 as [e|]; (split; [congruence|]); [done|]. intros _.
    apply Hdone; [congruence|left]. by apply src_rules_deleted, Hnone.
  - intros [e|] w3 [Hu3 Hw3]; [by wp_steps|]. apply wp_bind, (wp_other rules); [auto with net|]. intros o4 w4 Hw4.
    wp_steps. unfold torn_down, unrelated, pod_rules in *. by rewrite Hw4.
Qed.

(** C7: [tearDownNS] undoes [setupNS]: for a pod with an IPv4 address that no rule
    mentioned, wired with success, the teardown always returns and never touches a
    rule of another address.  When it reports success, the policy rules of the node
    are again exactly what they were before the pod came, in the same order, with
    one exception: if the kernel answers the deletion of the rule to the pod with an
    error other than that there is none, which [tearDownNS] only logs, that one rule
    is left. *)
Theorem teardown_undoes_setup host cont netns addr table cidrs ext (w w1 : W) :
  is_Some addr.1 → pod_rules addr w = [] →
  w ⊢ setupNS host cont netns addr table cidrs ext ⇓ None ⊣ w1 →
  ∃ o w2, w1 ⊢ tearDownNS addr table ⇓ o ⊣ w2 ∧ unrelated addr w2 = unrelated addr w ∧
    (o = None → torn_down addr w w1 w2).
Proof.
  intros Hip Hnil Hrun.
  destruct (wp_elim _ _ _ _ _ _ (setupNS_spec host cont netns addr table cidrs ext w Hip) Hrun) as [Hu1 Ho].
  destruct (Ho eq_refl) as [_ Hclean]. by apply wp_run, tearDownNS_spec; [..|apply Hclean].
Qed.

(** A kernel that refuses the deletion of a rule only when there is none. *)
Definition del_honest : Prop :=
  ∀ r (w w' : W) e, RuleDel r w = (Some (Some e), w') → containsNoSuchRule e = true.

Lemma honest_torn_down addr w0 w w' : del_honest → torn_down addr w0 w w' → rules w' = rules w0.
Proof. intros Hhon [?|(_ & e & wd & Hdel & He)]; [done|]. apply Hhon in Hdel. congruence. Qed.

End driver.

(** ** A pod on the concrete kernel *)

Definition node_kernel : Kernel :=
  mkKernel 0 [new_rule None (Some (Some 1, 32)) 4 1536; new_rule (Some (Some 1, 32)) None 254 512] [] [].

Lemma setup_ns_wires_witness :
  ∃ o w', node_kernel ⊢ setupNS "eni1" "eth0" "/proc/1/ns/net" pod_src 2 ["10.1.0.0/16"%string] false ⇓ o ⊣ w' ∧
    unrelated kernel_rules pod_src w' = unrelated kernel_rules pod_src node_kernel ∧
    (o = None → wired kernel_rules pod_src 2 ["10.1.0.0/16"%string] false w').
Proof. apply (setup_ns_wires kernel_rules). by eexists. Defined.

Lemma kernel_del_honest : del_honest (W:=Kernel).
Proof.
  intros r w w' e. cbn [RuleDel Kernel_NetLink]. destruct (existsb _ _); [discriminate|]. by intros [= <- _].
Qed.

Definition node_wired : Kernel :=
  (setupNS "eni1" "eth0" "/proc/1/ns/net" pod_src 2 ["10.1.0.0/16"%string] false node_kernel).2.

Lemma teardown_undoes_setup_witness :
  ∃ o w2, node_wired ⊢ tearDownNS pod_src 2 ⇓ o ⊣ w2 ∧
    unrelated kernel_rules pod_src w2 = unrelated kernel_rules pod_src node_kernel ∧
    (o = None → torn_down kernel_rules pod_src node_kernel node_wired w2).
Proof.
  apply (teardown_undoes_setup kernel_rules "eni1" "eth0" "/proc/1/ns/net" pod_src 2 ["10.1.0.0/16"%string] false
    node_kernel node_wired); [by eexists|vm_compute; reflexivity|vm_compute; reflexivity].
Defined.
