(* ===== verification/Cni.v ===== *)
(** * The CNI plugin: plugins/routed-eni/cni.go

    [add] and [del], the two commands the container runtime runs.  They talk to
    the daemon over gRPC and wire the pod through the driver; the runtime's
    arguments, the connection and the driver are reached through the interfaces
    the source passes in.  [crypto/sha1], of which the name of the host's veth is
    made, is modelled. *)
From stdpp Require Import pretty.
From S2P Require Import Prelude GoStd Netlink NetworkUtils RpcHandler.

Open Scope Z_scope.

(** ** SHA-1 *)

Definition word (n : Z) : Z := n `mod` 2 ^ 32.
Definition rotl (k n : Z) : Z := Z.lor (word (Z.shiftl n k)) (Z.shiftr n (32 - k)).

Definition bytes (s : string) : list Z := (λ c, Z.of_nat (Ascii.nat_of_ascii c)) <$> String.list_ascii_of_string s.

(** The big-endian bytes of a number. *)
Definition be_bytes (k : nat) (n : Z) : list Z :=
  (λ i, Z.land (Z.shiftr n (8 * Z.of_nat i)) 255) <$> reverse (seq 0 k).
Definition of_be (l : list Z) : Z := foldl (λ n b, n * 256 + b) 0 l.

(** The message, a bit 1, zeros up to 56 modulo 64, and the length in bits. *)
Definition sha1_pad (m : list Z) : list Z :=
  let zeros := Z.to_nat ((55 - Z.of_nat (length m)) `mod` 64) in
  m ++ [128] ++ replicate zeros 0 ++ be_bytes 8 (8 * Z.of_nat (length m)).

(** The 80 words of a block, the last one first. *)
Fixpoint sha1_extend (k : nat) (ws : list Z) : list Z :=
  match k with
  | O => ws
  | S k =>
      let w i := default 0 (ws !! i) in
      sha1_extend k (rotl 1 (Z.lxor (Z.lxor (w 2%nat) (w 7%nat)) (Z.lxor (w 13%nat) (w 15%nat))) :: ws)
  end.

Definition sha1_state : Type := Z * Z * Z * Z * Z.

Definition sha1_round (i : nat) (st : sha1_state) (w : Z) : sha1_state :=
  let '(a, b, c, d, e) := st in
  let '(f, k) :=
    if bool_decide (i < 20)%nat then (Z.lor (Z.land b c) (Z.land (Z.lxor b (2 ^ 32 - 1)) d), 1518500249)
    else if bool_decide (i < 40)%nat then (Z.lxor b (Z.lxor c d), 1859775393)
    else if bool_decide (i < 60)%nat then (Z.lor (Z.lor (Z.land b c) (Z.land b d)) (Z.land c d), 2400959708)
    else (Z.lxor b (Z.lxor c d), 3395469782) in
  (word (rotl 5 a + f + e + k + w), a, rotl 30 b, c, d).

Fixpoint sha1_rounds (i : nat) (ws : list Z) (st : sha1_state) : sha1_state :=
  match ws with
  | [] => st
  | w :: ws => sha1_rounds (S i) ws (sha1_round i st w)
  end.

Definition sha1_block (st : sha1_state) (block : list Z) : sha1_state :=
  let ws := (λ i, of_be (take 4 (drop (4 * i) block))) <$> seq 0 16 in
  let '(a, b, c, d, e) := st in
  let '(a', b', c', d', e') := sha1_rounds 0 (reverse (sha1_extend 64 (reverse ws))) st in
  (word (a + a'), word (b + b'), word (c + c'), word (d + d'), word (e + e')).

Fixpoint sha1_blocks (k : nat) (m : list Z) (st : sha1_state) : sha1_state :=
  match k with
  | O => st
  | S k => sha1_blocks k (drop 64 m) (sha1_block st (take 64 m))
  end.

Definition sha1 (m : list Z) : list Z :=
  let p := sha1_pad m in
  let '(a, b, c, d, e) :=
    sha1_blocks (length p / 64) p (1732584193, 4023233417, 2562383102, 271733878, 3285377520) in
  be_bytes 4 a ++ be_bytes 4 b ++ be_bytes 4 c ++ be_bytes 4 d ++ be_bytes 4 e.

Example sha1_abc : EncodeToString (sha1 (bytes "abc")) = "a9993e364706816aba3e25717850c26c9cd0d89d"%string ∧
  EncodeToString (sha1 []) = "da39a3ee5e6b4b0d3255bfef95601890afd80709"%string.
Proof. vm_compute. split; reflexivity. Qed.

(** ** Arguments *)

(** [NetConf]. *)
Record NetConf := mkNetConf {
  CNIVersion : string;
  conf_Name : string;
  conf_Type : string;
  VethPrefix : string;
}.

(** [K8sArgs]. *)
Record K8sArgs := mkK8sArgs {
  arg_IP : option Z;
  K8S_POD_NAME : string;
  K8S_POD_NAMESPACE : string;
  K8S_POD_INFRA_CONTAINER_ID : string;
}.

(** [skel.CmdArgs], with the configuration as [json.Unmarshal] reads it from the
    standard input. *)
Record CmdArgs := mkCmdArgs {
  ContainerID : string;
  Netns : string;
  IfName : string;
  Args : string;
  Path : string;
  StdinData : NetConf + error;
}.

Definition ipamDAddress : string := "localhost:50051".

(** What the commands are given: [LoadArgs] and [PrintResult] of the CNI library,
    the connection and the client of the daemon (a reply is nil when the call
    fails), and the driver. *)
Class CniTypes (W : Type) : Type := {
  LoadArgs : string → ext W (K8sArgs + error);
  PrintResult : NetAddr → string → ext W (option error);
}.

Class Backend (W : Type) : Type := {
  Dial : string → ext W (option error);
  rpc_AddNetwork : AddNetworkRequest → ext W (AddNetworkReply + error);
  rpc_DelNetwork : DelNetworkRequest → ext W (DelNetworkReply + error);
}.

Class DriverAPIs (W : Type) : Type := {
  SetupNS : string → string → string → NetAddr → Z → list string → bool → ext W (option error);
  TeardownNS : NetAddr → Z → ext W (option error);
}.

(** [generateHostVethName]: the prefix and 11 hexadecimal digits of the hash. *)
Definition generateHostVethName (prefix namespace podname : string) : string :=
  (prefix +:+ String.substring 0 11 (EncodeToString (sha1 (bytes (namespace +:+ "." +:+ podname)))))%string.

Section cni.
Context {W : Type} `{!CniTypes W, !Backend W, !DriverAPIs W}.

(** [add] once the daemon has given an address.  The reply of [DelNetwork] is
    read even when the call failed and there is none. *)
Definition add_wire (args : CmdArgs) (conf : NetConf) (prefix : string) (k8sArgs : K8sArgs) (r : AddNetworkReply) :
    M W (option error) :=
  let addr := (ParseIP (addr_IPv4Addr r), 32) in
  let hostVethName := generateHostVethName prefix (K8S_POD_NAMESPACE k8sArgs) (K8S_POD_NAME k8sArgs) in
  err ← call (SetupNS hostVethName (IfName args) (Netns args) addr (addr_DeviceNumber r)
                (addr_VPCcidrs r) (addr_UseExternalSNAT r));
  match err with
  | Some e =>
      d ← call (rpc_DelNetwork (mkDelNetworkRequest (K8S_POD_NAME k8sArgs) (K8S_POD_NAMESPACE k8sArgs)
                  (K8S_POD_INFRA_CONTAINER_ID k8sArgs) (addr_IPv4Addr r) "SetupNSFailed"));
      match d with
      | inr _ => panic "nil pointer dereference"
      | inl _ => mret (Some (EWrap e "add command: failed to setup network"))
      end
  | None => call (PrintResult addr (CNIVersion conf))
  end.

Definition add (args : CmdArgs) : M W (option error) :=
  match StdinData args with
  | inr e => mret (Some (EWrap e "add cmd: error loading config from args"))
  | inl conf =>
      check_val (call (LoadArgs (Args args))) (wrapped "add cmd: failed to load k8s config from arg") (λ k8sArgs,
      let prefix := if bool_decide (VethPrefix conf = ""%string) then "eni"%string else VethPrefix conf in
      if bool_decide (4 < String.length prefix)%nat then
        mret (Some (EStr "conf.VethPrefix must be less than 4 characters long"))
      else
        check (call (Dial ipamDAddress)) (wrapped "add cmd: failed to connect to backend server") (
        check_val (call (rpc_AddNetwork (mkAddNetworkRequest (K8S_POD_NAME k8sArgs) (K8S_POD_NAMESPACE k8sArgs)
                    (K8S_POD_INFRA_CONTAINER_ID k8sArgs) (Netns args) (IfName args)))) id (λ r,
        if negb (addr_Success r) then
          mret (Some (EStr "add cmd: failed to assign an IP address to container"))
        else add_wire args conf prefix k8sArgs r)))
  end.

Definition del (args : CmdArgs) : M W (option error) :=
  match StdinData args with
  | inr e => mret (Some (EWrap e "del cmd: failed to load netconf from args"))
  | inl _ =>
      check_val (call (LoadArgs (Args args))) (wrapped "del cmd: failed to load k8s config from args") (λ k8sArgs,
      check (call (Dial ipamDAddress)) (wrapped "del cmd: failed to connect to backend server") (
      check_val (call (rpc_DelNetwork (mkDelNetworkRequest (K8S_POD_NAME k8sArgs) (K8S_POD_NAMESPACE k8sArgs)
                  (K8S_POD_INFRA_CONTAINER_ID k8sArgs) (IP_String (arg_IP k8sArgs)) "PodDeleted"))) id (λ r,
      if negb (delr_Success r) then mret (Some (EStr "del cmd: failed to process delete request"))
      else call (TeardownNS (ParseIP (delr_IPv4Addr r), 32) (delr_DeviceNumber r)))))
  end.

End cni.
