(* ===== verification/CniProps.v ===== *)
(** * Theorems about the CNI plugin

    The name of the host's veth, what [add] does when wiring fails, and the plugin
    together with the daemon's handlers: an [add] that fails leaves no address
    behind, and [del] gives back what [add] took. *)
From S2P Require Import Prelude GoStd DataStore DataStoreInv DataStoreSpec DataStoreProps Interfaces Ipamd IpamdInv IpamdFrame IpamdQuiet IpamdProps Netlink NetworkUtils RpcHandler Cni.

Open Scope Z_scope.

(** ** The name of the veth *)

Lemma hex_digit_length d : 0 ≤ d < 16 → String.length (hex_digit d) = 1%nat.
Proof.
  intros Hd. assert (d ∈ (Z.of_nat <$> seq 0 16)) as Hin.
  { apply list_elem_of_fmap. exists (Z.to_nat d). split; [lia|]. apply elem_of_seq. lia. }
  clear Hd. revert d Hin. apply Forall_forall. repeat constructor.
Qed.

Lemma EncodeToString_length l :
  Forall (λ b, 0 ≤ b < 256) l → String.length (EncodeToString l) = (2 * length l)%nat.
Proof.
  induction 1 as [|b l Hb _ IH]; [done|]. cbn [EncodeToString length]. rewrite !string_length_app, IH.
  rewrite !hex_digit_length; [lia|apply Z.mod_pos_bound; lia|].
  split; [apply Z.div_pos; lia|apply Z.div_lt_upper_bound; lia].
Qed.

Lemma be_bytes_ok k n : Forall (λ b, 0 ≤ b < 256) (be_bytes k n) ∧ length (be_bytes k n) = k.
Proof.
  unfold be_bytes. rewrite length_fmap, length_reverse, length_seq. split; [|done].
  apply Forall_fmap, Forall_forall. intros i _. simpl. change 255 with (Z.ones 8). rewrite Z.land_ones by lia.
  apply Z.mod_pos_bound. lia.
Qed.

Lemma sha1_ok m : Forall (λ b, 0 ≤ b < 256) (sha1 m) ∧ length (sha1 m) = 20%nat.
Proof.
  unfold sha1. cbn zeta. destruct (sha1_blocks _ _ _) as [[[[a b] c] d] e].
  destruct (be_bytes_ok 4 a), (be_bytes_ok 4 b), (be_bytes_ok 4 c), (be_bytes_ok 4 d), (be_bytes_ok 4 e).
  rewrite !Forall_app, !length_app. split; [by split_and!|lia].
Qed.

Lemma substring_length n s : (n ≤ String.length s)%nat → String.length (String.substring 0 n s) = n.
Proof.
  revert s. induction n as [|n IH]; intros s Hs; [by destruct s|]. destruct s as [|c s]; simpl in *; [lia|].
  rewrite IH; lia.
Qed.

(** the name of the host's veth has the length of the prefix and 11
    characters more, so that for every prefix that [add] accepts it fits the 15
    characters of a Linux interface name. *)
Theorem veth_name_fits prefix namespace podname :
  String.length (generateHostVethName prefix namespace podname) = (String.length prefix + 11)%nat ∧
  ((String.length prefix ≤ 4)%nat → (String.length (generateHostVethName prefix namespace podname) ≤ 15)%nat).
Proof.
  assert (String.length (generateHostVethName prefix namespace podname) = (String.length prefix + 11)%nat) as H.
  { unfold generateHostVethName. rewrite string_length_app, substring_length; [done|].
    destruct (sha1_ok (bytes (namespace +:+ "." +:+ podname))) as [Hb Hl].
    rewrite EncodeToString_length by done. rewrite Hl. lia. }
  split; [done|lia].
Qed.

(** ** When wiring fails *)

Section add.
Context {W : Type} `{!CniTypes W, !Backend W, !DriverAPIs W}.

(** when wiring the pod fails and the call that gives the address back fails
    too, [add] panics on the nil reply instead of reporting the error. *)
Theorem add_nil_reply_panics args conf prefix k r e e' (w w1 w2 : W) :
  SetupNS (generateHostVethName prefix (K8S_POD_NAMESPACE k) (K8S_POD_NAME k)) (IfName args) (Netns args)
    (ParseIP (addr_IPv4Addr r), 32) (addr_DeviceNumber r) (addr_VPCcidrs r) (addr_UseExternalSNAT r) w =
    (Some (Some e), w1) →
  rpc_DelNetwork (mkDelNetworkRequest (K8S_POD_NAME k) (K8S_POD_NAMESPACE k) (K8S_POD_INFRA_CONTAINER_ID k)
    (addr_IPv4Addr r) "SetupNSFailed") w1 = (Some (inr e'), w2) →
  add_wire args conf prefix k r w = (Panic "nil pointer dereference", w2).
Proof.
  intros Hs Hd. unfold add_wire. cbn zeta. unfold mbind, M_bind, call. rewrite Hs. by rewrite Hd.
Qed.

End add.

(** ** The plugin and the daemon

    The backend of the plugin is the daemon's handlers: a call that the handler
    does not answer fails. *)
Section e2e.
Context {W : Type} `{!World W} `{!WorldOk W}.
Context `{!AwsAPIs W, !NetworkAPIs W, !K8SAPIs W, !ENIConfigAPI W, !Requests W} `{!Quiet W}.
Context `{!ServiceClock W} (own : string → string).
Context `{!CniTypes W, !DriverAPIs W}.

Definition on_node {A} (f : ext W A) : ext (IpamSt W) A := λ s,
  let '(o, w) := f (i_world s) in (o, i_set_world w s).

#[local] Instance node_CniTypes : CniTypes (IpamSt W) := {
  LoadArgs a := on_node (LoadArgs a);
  PrintResult a v := on_node (PrintResult a v);
}.

#[local] Instance node_Driver : DriverAPIs (IpamSt W) := {
  SetupNS h c n a t v e := on_node (SetupNS h c n a t v e);
  TeardownNS a t := on_node (TeardownNS a t);
}.

Definition serve_rpc {A} (m : M (IpamSt W) A) : ext (IpamSt W) (A + error) := λ s,
  match m s with
  | (Ret r, s') => (Some (inl r), s')
  | (_, s') => (Some (inr (EStr "rpc error: code = Unavailable")), s')
  end.

#[local] Instance node_Backend : Backend (IpamSt W) := {
  Dial _ s := (Some None, s);
  rpc_AddNetwork req := serve_rpc (AddNetwork req);
  rpc_DelNetwork req := serve_rpc (DelNetwork req);
}.

(** The plugin reads its arguments the same way each time. *)
Definition plugin_reads (args : CmdArgs) (conf : NetConf) (k : K8sArgs) : Prop :=
  StdinData args = inl conf ∧ ∀ w : W, LoadArgs (Args args) w = (Some (inl k), w).

Definition plugin_key (k : K8sArgs) : PodKey :=
  mkPodKey (K8S_POD_NAME k) (K8S_POD_NAMESPACE k) (K8S_POD_INFRA_CONTAINER_ID k).

(** The request [add] sends. *)
Definition add_request (args : CmdArgs) (k : K8sArgs) : AddNetworkRequest :=
  mkAddNetworkRequest (K8S_POD_NAME k) (K8S_POD_NAMESPACE k) (K8S_POD_INFRA_CONTAINER_ID k) (Netns args) (IfName args).

Lemma wp_on_node {A} E (f : ext W A) (Q : A → IpamSt W → Prop) s :
  (∀ w, (f w).1 ≠ None) → (∀ a w', f (i_world s) = (Some a, w') → Q a (i_set_world w' s)) →
  wp E (call (on_node f)) Q s.
Proof.
  intros Ha HQ. unfold wp, call, on_node. specialize (Ha (i_world s)).
  destruct (f (i_world s)) as [[a|] w']; [by apply HQ|done].
Qed.

Lemma wp_serve_rpc {A} E (m : M (IpamSt W) A) (Q : A + error → IpamSt W → Prop) s :
  wp E m (λ a s', Q (inl a) s') s → (E → ∀ e s', Q (inr e) s') → wp E (call (serve_rpc m)) Q s.
Proof.
  unfold wp, call, serve_rpc. destruct (m s) as [[a| |] s']; [done| |done]. intros HE H. by apply H.
Qed.

(** *** What the handlers keep of the world *)

(** A preorder on worlds that the clock, the order of maps and the services the
    handlers ask keep. *)
Class HandlerFrame (R : relation W) : Prop := {
  #[global] handler_frame :: Frame R;
  handler_cidrs : ∀ w : W, R w (GetVPCIPv4CIDRs w).2;
  handler_snat : ∀ w : W, R w (UseExternalSNAT w).2;
  handler_excluded : ∀ w : W, R w (GetExcludeSNATCIDRs w).2;
}.

Section frame.
Context (R : relation W) `{!HandlerFrame R}.

#[local] Instance handler_preorder : PreOrder (on_i R).
Proof. apply _. Qed.

Lemma quiet_rpcs (w : W) : R w (w_rpcs w).2.
Proof. rewrite quiet. simpl. reflexivity. Qed.

Lemma handler_store {A} (m : M (DSt W) A) : keeps (on_d R) m → keeps (on_i R) (store m).
Proof. apply store_frame; [apply _|apply quiet_rpcs]. Qed.

Lemma handler_ask {A} (f : ext W A) : (∀ w, R w (f w).2) → keeps (on_i R) (ask f).
Proof. apply ask_frame; [apply _|apply quiet_rpcs]. Qed.

Lemma handler_prom f : keeps (on_i R) (prom f).
Proof. apply prom_frame, _. Qed.

#[local] Hint Resolve handler_prom : keeps.


Lemma AddNetwork_frame req : keeps (on_i R) (AddNetwork req).
Proof.
  unfold AddNetwork. apply keeps_bind; [apply _|apply handler_store, (Assign_frame R)|]. intros [[ip dev] err].
  apply keeps_bind; [apply _|apply handler_ask, handler_cidrs|]. intros cidrs.
  apply keeps_bind; [apply _|apply handler_ask, handler_snat|]. intros snat.
  apply keeps_bind; [apply _|destruct snat; [keeps_steps|apply handler_ask, handler_excluded]|]. intros ex.
  keeps_steps.
Qed.

Lemma DelNetwork_frame req : keeps (on_i R) (DelNetwork req).
Proof.
  unfold DelNetwork. apply keeps_bind; [apply _|apply handler_prom|]. intros _.
  apply keeps_bind; [apply _|apply handler_store, (Unassign_frame R)|]. intros r.
  apply keeps_bind; [apply _|destruct (err_is _ _); [apply handler_store, (Unassign_frame R)|keeps_steps]|].
  intros [[ip dev] err]. keeps_steps.
Qed.

(** *** The commands up to the driver

    [add] up to wiring: an error has changed nothing of the record; otherwise an
    available address was taken and the pod is recorded with it. *)
Lemma add_until_wired args conf k (Q : option error → IpamSt W → Prop) (s : IpamSt W) :
  plugin_reads args conf k → ¬ crash (W:=W) → sound own s → podsIP (dataStore (i_ctx s)) !! plugin_key k = None →
  (∀ e s', sound own s' → podsIP (dataStore (i_ctx s')) = podsIP (dataStore (i_ctx s)) → on_i R s s' →
     Q (Some e) s') →
  (∀ prefix r id dev s', sound own s' → on_i R s s' → s ⊢ AddNetwork (add_request args k) ⇓ r ⊣ s' →
     available_at (clock (i_world s)) (dataStore (i_ctx s)) id (addr_IPv4Addr r) →
     addr_DeviceNumber r = int32 dev →
     podsIP (dataStore (i_ctx s')) =
       <[plugin_key k := mkPodIPInfo (addr_IPv4Addr r) dev]> (podsIP (dataStore (i_ctx s))) →
     wp False (add_wire args conf prefix k r) Q s') →
  wp False (add args) Q s.
Proof.
  intros (Hconf & Hload) Hnc Hs Hnew Hfail Hwire. unfold add. rewrite Hconf.
  assert (i_set_world (i_world s) s = s) as Hsame by (by destruct s).
  apply wp_check_val, wp_on_node; [intros w; by rewrite Hload|]. intros k' w1 Hk'. rewrite Hload in Hk'.
  injection Hk' as <- <-. rewrite Hsame. cbn zeta.
  set (prefix := if bool_decide (VethPrefix conf = ""%string) then "eni"%string else VethPrefix conf).
  case_bool_decide; [wp_steps; apply Hfail; [done..|unfold on_i; reflexivity]|].
  apply wp_check. unfold wp at 1. cbn [call Dial node_Backend]. apply wp_check_val, wp_serve_rpc; [|done].
  change (mkAddNetworkRequest _ _ _ _ _) with (add_request args k). set (req := add_request args k).
  apply (wp_weaken (crash (W:=W))); [done|].
  eapply wp_mono; [apply wp_trace, (wp_keeps _ (on_i R)); [apply AddNetwork_frame|]; apply wp_and;
    [by apply (AddNetwork_new own req s)|by apply (AddNetwork_safe own req s)]|].
  intros r s2 [[[(_ & Hok & Hno) [Hs2 _]] HR] Hrun]. destruct (addr_Success r) eqn:Hsucc; cbn [negb].
  - destruct (Hok eq_refl) as (id & dev & ? & _ & ? & ?). by eapply Hwire.
  - wp_steps. apply Hfail; [done| |done]. by destruct (Hno eq_refl) as [_ ->].
Qed.

(** [DelNetwork] of a pod that is recorded. *)
Lemma wp_del_recorded req i (Q : DelNetworkReply + error → IpamSt W → Prop) (s : IpamSt W) :
  ¬ crash (W:=W) → sound own s → podsIP (dataStore (i_ctx s)) !! del_key req = Some i →
  (∀ s', sound own s' → on_i R s s' →
     podsIP (dataStore (i_ctx s')) = delete (del_key req) (podsIP (dataStore (i_ctx s))) →
     Q (inl (mkDelNetworkReply true (IP i) (int32 (pi_DeviceNumber i)))) s') →
  wp False (call (rpc_DelNetwork req)) Q s.
Proof.
  intros Hnc Hs Hpod HQ. apply wp_serve_rpc; [|done]. apply (wp_weaken (crash (W:=W))); [done|].
  eapply wp_mono; [apply (wp_keeps _ (on_i R)); [apply DelNetwork_frame|]; apply wp_and;
    [by apply (DelNetwork_known own req i s)|by apply (DelNetwork_safe own req s)]|].
  intros r s' [[[-> Hp] [Hs' _]] HR]. by apply HQ.
Qed.

Lemma del_until_torn args conf k i (Q : option error → IpamSt W → Prop) (s : IpamSt W) :
  plugin_reads args conf k → ¬ crash (W:=W) → sound own s →
  podsIP (dataStore (i_ctx s)) !! plugin_key k = Some i →
  (∀ s', sound own s' → on_i R s s' →
     podsIP (dataStore (i_ctx s')) = delete (plugin_key k) (podsIP (dataStore (i_ctx s))) →
     wp False (call (TeardownNS (ParseIP (IP i), 32) (int32 (pi_DeviceNumber i)))) Q s') →
  wp False (del args) Q s.
Proof.
  intros (Hconf & Hload) Hnc Hs Hpod Htear. unfold del. rewrite Hconf.
  assert (i_set_world (i_world s) s = s) as Hsame by (by destruct s).
  apply wp_check_val, wp_on_node; [intros w; by rewrite Hload|]. intros k' w1 Hk'. rewrite Hload in Hk'.
  injection Hk' as <- <-. rewrite Hsame.
  apply wp_check. unfold wp at 1. cbn [call Dial node_Backend]. apply wp_check_val.
  by apply wp_del_recorded with i.
Qed.

End frame.

(** *** Any driver that returns *)

Definition driver_returns : Prop :=
  (∀ a v (w : W), (PrintResult a v w).1 = Some None) ∧
  (∀ h c n a t v e (w : W), (SetupNS h c n a t v e w).1 ≠ None) ∧
  (∀ a t (w : W), (TeardownNS a t w).1 ≠ None).

#[local] Instance any_frame : HandlerFrame (λ _ _ : W, True).
Proof. split; [split; [split|..]|..]; done. Qed.

(** What [add] does to the daemon's record: nothing when it fails, and otherwise
    it records the pod. *)
Lemma add_spec args conf k (s : IpamSt W) :
  plugin_reads args conf k → driver_returns → ¬ crash (W:=W) → sound own s →
  podsIP (dataStore (i_ctx s)) !! plugin_key k = None →
  wp False (add args)
    (λ o s', sound own s' ∧
       match o with
       | Some _ => podsIP (dataStore (i_ctx s')) = podsIP (dataStore (i_ctx s))
       | None => ∃ i, podsIP (dataStore (i_ctx s')) = <[plugin_key k := i]> (podsIP (dataStore (i_ctx s)))
       end) s.
Proof.
  intros Hreads (Hprint & Hsetup & _) Hnc Hs Hnew. eapply (add_until_wired (λ _ _, True)); [done..|].
  intros prefix r id dev s2 Hs2 _ _ _ _ Hpods. unfold add_wire. cbn zeta.
  apply wp_bind, wp_on_node; [by apply Hsetup|]. intros [e|] w3 _.
  - apply wp_bind. set (dreq := mkDelNetworkRequest _ _ _ _ _).
    apply (wp_del_recorded (λ _ _, True) dreq (mkPodIPInfo (addr_IPv4Addr r) dev)); [done|done| |].
    + cbn [i_set_world i_ctx]. rewrite Hpods. apply lookup_insert_eq.
    + intros s4 Hs4 _ Hp. wp_steps. split; [done|]. rewrite Hp. cbn [i_set_world i_ctx].
      rewrite Hpods. by rewrite delete_insert_id.
  - apply wp_on_node; [intros w; by rewrite Hprint|]. intros o w4 Ho.
    pose proof (Hprint (ParseIP (addr_IPv4Addr r), 32) (CNIVersion conf) (i_world (i_set_world w3 s2))) as Hp.
    rewrite Ho in Hp. injection Hp as ->. split; [done|]. eexists. exact Hpods.
Qed.

Lemma del_spec args conf k i (s : IpamSt W) :
  plugin_reads args conf k → driver_returns → ¬ crash (W:=W) → sound own s →
  podsIP (dataStore (i_ctx s)) !! plugin_key k = Some i →
  wp False (del args)
    (λ _ s', sound own s' ∧
       podsIP (dataStore (i_ctx s')) = delete (plugin_key k) (podsIP (dataStore (i_ctx s)))) s.
Proof.
  intros Hreads (_ & _ & Htear) Hnc Hs Hpod. eapply (del_until_torn (λ _ _, True)); [done..|].
  intros s2 Hs2 _ Hp. by apply wp_on_node; [apply Htear|].
Qed.

(** the plugin with the daemon's handlers behind it: for a pod the daemon does
    not know, [add] returns; if it fails (no address, or the pod could not be
    wired) the daemon's record of pods is what it was, so no address is lost; if
    it succeeds, [del] of the same pod returns and restores the record. *)
Theorem add_del_restores args conf k (s : IpamSt W) :
  plugin_reads args conf k → driver_returns → ¬ crash (W:=W) → sound own s →
  podsIP (dataStore (i_ctx s)) !! plugin_key k = None →
  ∃ o s1, s ⊢ add args ⇓ o ⊣ s1 ∧ sound own s1 ∧
    match o with
    | Some _ => podsIP (dataStore (i_ctx s1)) = podsIP (dataStore (i_ctx s))
    | None => ∃ o' s2, s1 ⊢ del args ⇓ o' ⊣ s2 ∧ sound own s2 ∧
        podsIP (dataStore (i_ctx s2)) = podsIP (dataStore (i_ctx s))
    end.
Proof.
  intros Hr Hd Hnc Hs Hnew. destruct (wp_run _ _ _ (add_spec args conf k s Hr Hd Hnc Hs Hnew)) as (o & s1 & Hadd & Hs1 & Ho).
  exists o, s1. split; [done|]. split; [done|]. destruct o as [e|]; [done|]. destruct Ho as [i Hi].
  destruct (wp_run _ _ _ (del_spec args conf k i s1 Hr Hd Hnc Hs1 ltac:(by rewrite Hi, lookup_insert_eq)))
    as (o' & s2 & Hdel & Hs2 & Hp).
  exists o', s2. split; [done|]. split; [done|]. rewrite Hp, Hi. by rewrite delete_insert_id.
Qed.

End e2e.

(** ** The plugin on the concrete node *)

Definition web_args : K8sArgs := mkK8sArgs None "web" "default" "c7".
Definition web_conf : NetConf := mkNetConf "0.3.1" "aws-cni" "aws-cni" "".
Definition web_cmd : CmdArgs := mkCmdArgs "c7" "/proc/7/ns/net" "eth0" "" "" (inl web_conf).

#[local] Instance Node_CniTypes busy : CniTypes (Node busy) := {
  LoadArgs _ w := (Some (inl web_args), w);
  PrintResult _ _ w := (Some None, w);
}.

(** The driver of a node where pods on the primary ENI cannot be wired. *)
#[local] Instance Node_Driver busy : DriverAPIs (Node busy) := {
  SetupNS _ _ _ _ table _ _ w :=
    (Some (if bool_decide (table = 0) then Some (EStr "no such link") else None), w);
  TeardownNS _ _ w := (Some None, w);
}.

#[local] Existing Instances node_CniTypes node_Driver node_Backend.

Lemma add_del_restores_witness :
  podsIP (dataStore (i_ctx (quiet_at 2 1))) !! plugin_key web_args = None ∧
  ∃ o s1, (quiet_at 2 1) ⊢ add web_cmd ⇓ o ⊣ s1 ∧ sound n_own s1 ∧
    match o with
    | Some _ => podsIP (dataStore (i_ctx s1)) = podsIP (dataStore (i_ctx (quiet_at 2 1)))
    | None => ∃ o' s2, s1 ⊢ del web_cmd ⇓ o' ⊣ s2 ∧ sound n_own s2 ∧
        podsIP (dataStore (i_ctx s2)) = podsIP (dataStore (i_ctx (quiet_at 2 1)))
    end.
Proof.
  assert (podsIP (dataStore (i_ctx (quiet_at 2 1))) !! plugin_key web_args = None) as Hn by (vm_compute; reflexivity).
  split; [exact Hn|].
  apply (add_del_restores n_own web_cmd web_conf web_args (quiet_at 2 1));
    [split; reflexivity| |apply no_crash|exact (test_at_sound 2 1 test_node)|exact Hn].
  split_and!; [reflexivity|intros; discriminate|intros; discriminate].
Defined.

#[local] Instance Host_Backend : Backend TestWorld := {
  Dial _ w := (Some None, w);
  rpc_AddNetwork _ w := (Some (inr (EStr "unavailable")), w);
  rpc_DelNetwork _ w := (Some (inr (EStr "unavailable")), w);
}.
#[local] Instance Test_CniTypes : CniTypes TestWorld := {
  LoadArgs _ w := (Some (inl web_args), w);
  PrintResult _ _ w := (Some None, w);
}.
#[local] Instance Test_Driver : DriverAPIs TestWorld := {
  SetupNS _ _ _ _ _ _ _ w := (Some (Some (EStr "no such link")), w);
  TeardownNS _ _ w := (Some None, w);
}.

Lemma add_nil_reply_panics_witness :
  add_wire web_cmd web_conf "eni" web_args (mkAddNetworkReply true "10.0.0.5" "" 1 false []) (mkTestWorld 0 0) =
    (Panic "nil pointer dereference", mkTestWorld 0 0).
Proof.
  apply (add_nil_reply_panics web_cmd web_conf "eni" web_args (mkAddNetworkReply true "10.0.0.5" "" 1 false [])
    (EStr "no such link") (EStr "unavailable") (mkTestWorld 0 0) (mkTestWorld 0 0) (mkTestWorld 0 0)); reflexivity.
Defined.
