(* ===== verification/Rpc.v ===== *)
(** * The gRPC service: rpc/rpc.pb.go, and the plugin's calls over the wire

    The messages as protobuf messages, their getters, the client stub, the server's
    handlers and its table of methods, and how a call of the plugin reaches the
    handlers of the daemon.  The connection itself is a type class: it may fail
    before the request has reached the daemon, and after the daemon has served it. *)
From S2P Require Import Prelude GoStd Proto DataStore DataStoreInv DataStoreSpec DataStoreProps Interfaces Ipamd IpamdInv IpamdFrame IpamdQuiet IpamdProps AwsService RpcHandler Netlink NetworkUtils Cni CniProps.

Open Scope Z_scope.

(** ** Messages *)

#[global] Instance AddNetworkRequest_Message : Message AddNetworkRequest := {
  msg_name := "rpc.AddNetworkRequest";
  msg_Reset := mkAddNetworkRequest "" "" "" "" "";
  msg_fields := [
    FString 1 add_POD_NAME (λ v m, mkAddNetworkRequest v (add_POD_NAMESPACE m) (add_CONTAINER_ID m) (add_Netns m) (add_IfName m));
    FString 2 add_POD_NAMESPACE (λ v m, mkAddNetworkRequest (add_POD_NAME m) v (add_CONTAINER_ID m) (add_Netns m) (add_IfName m));
    FString 3 add_CONTAINER_ID (λ v m, mkAddNetworkRequest (add_POD_NAME m) (add_POD_NAMESPACE m) v (add_Netns m) (add_IfName m));
    FString 4 add_Netns (λ v m, mkAddNetworkRequest (add_POD_NAME m) (add_POD_NAMESPACE m) (add_CONTAINER_ID m) v (add_IfName m));
    FString 5 add_IfName (λ v m, mkAddNetworkRequest (add_POD_NAME m) (add_POD_NAMESPACE m) (add_CONTAINER_ID m) (add_Netns m) v)];
}.

#[global] Instance AddNetworkReply_Message : Message AddNetworkReply := {
  msg_name := "rpc.AddNetworkReply";
  msg_Reset := mkAddNetworkReply false "" "" 0 false [];
  msg_fields := [
    FBool 1 addr_Success (λ v m, mkAddNetworkReply v (addr_IPv4Addr m) (addr_IPv4Subnet m) (addr_DeviceNumber m) (addr_UseExternalSNAT m) (addr_VPCcidrs m));
    FString 2 addr_IPv4Addr (λ v m, mkAddNetworkReply (addr_Success m) v (addr_IPv4Subnet m) (addr_DeviceNumber m) (addr_UseExternalSNAT m) (addr_VPCcidrs m));
    FString 3 addr_IPv4Subnet (λ v m, mkAddNetworkReply (addr_Success m) (addr_IPv4Addr m) v (addr_DeviceNumber m) (addr_UseExternalSNAT m) (addr_VPCcidrs m));
    FInt32 4 addr_DeviceNumber (λ v m, mkAddNetworkReply (addr_Success m) (addr_IPv4Addr m) (addr_IPv4Subnet m) v (addr_UseExternalSNAT m) (addr_VPCcidrs m));
    FBool 5 addr_UseExternalSNAT (λ v m, mkAddNetworkReply (addr_Success m) (addr_IPv4Addr m) (addr_IPv4Subnet m) (addr_DeviceNumber m) v (addr_VPCcidrs m));
    FStrings 6 addr_VPCcidrs (λ v m, mkAddNetworkReply (addr_Success m) (addr_IPv4Addr m) (addr_IPv4Subnet m) (addr_DeviceNumber m) (addr_UseExternalSNAT m) v)];
}.

#[global] Instance DelNetworkRequest_Message : Message DelNetworkRequest := {
  msg_name := "rpc.DelNetworkRequest";
  msg_Reset := mkDelNetworkRequest "" "" "" "" "";
  msg_fields := [
    FString 1 del_POD_NAME (λ v m, mkDelNetworkRequest v (del_POD_NAMESPACE m) (del_CONTAINER_ID m) (del_IPv4Addr m) (del_Reason m));
    FString 2 del_POD_NAMESPACE (λ v m, mkDelNetworkRequest (del_POD_NAME m) v (del_CONTAINER_ID m) (del_IPv4Addr m) (del_Reason m));
    FString 3 del_CONTAINER_ID (λ v m, mkDelNetworkRequest (del_POD_NAME m) (del_POD_NAMESPACE m) v (del_IPv4Addr m) (del_Reason m));
    FString 4 del_IPv4Addr (λ v m, mkDelNetworkRequest (del_POD_NAME m) (del_POD_NAMESPACE m) (del_CONTAINER_ID m) v (del_Reason m));
    FString 5 del_Reason (λ v m, mkDelNetworkRequest (del_POD_NAME m) (del_POD_NAMESPACE m) (del_CONTAINER_ID m) (del_IPv4Addr m) v)];
}.

#[global] Instance DelNetworkReply_Message : Message DelNetworkReply := {
  msg_name := "rpc.DelNetworkReply";
  msg_Reset := mkDelNetworkReply false "" 0;
  msg_fields := [
    FBool 1 delr_Success (λ v m, mkDelNetworkReply v (delr_IPv4Addr m) (delr_DeviceNumber m));
    FString 2 delr_IPv4Addr (λ v m, mkDelNetworkReply (delr_Success m) v (delr_DeviceNumber m));
    FInt32 3 delr_DeviceNumber (λ v m, mkDelNetworkReply (delr_Success m) (delr_IPv4Addr m) v)];
}.

(** The getters, which read the zero value of a nil message. *)
Definition getter {A B} (get : A → B) (zero : B) (m : option A) : B :=
  match m with Some m => get m | None => zero end.

Definition AddNetworkRequest_GetK8S_POD_NAME (m : option AddNetworkRequest) : string := getter add_POD_NAME ""%string m.
Definition AddNetworkRequest_GetK8S_POD_NAMESPACE (m : option AddNetworkRequest) : string := getter add_POD_NAMESPACE ""%string m.
Definition AddNetworkRequest_GetK8S_POD_INFRA_CONTAINER_ID (m : option AddNetworkRequest) : string := getter add_CONTAINER_ID ""%string m.
Definition AddNetworkRequest_GetNetns (m : option AddNetworkRequest) : string := getter add_Netns ""%string m.
Definition AddNetworkRequest_GetIfName (m : option AddNetworkRequest) : string := getter add_IfName ""%string m.

Definition AddNetworkReply_GetSuccess (m : option AddNetworkReply) : bool := getter addr_Success false m.
Definition AddNetworkReply_GetIPv4Addr (m : option AddNetworkReply) : string := getter addr_IPv4Addr ""%string m.
Definition AddNetworkReply_GetIPv4Subnet (m : option AddNetworkReply) : string := getter addr_IPv4Subnet ""%string m.
Definition AddNetworkReply_GetDeviceNumber (m : option AddNetworkReply) : Z := getter addr_DeviceNumber 0 m.
Definition AddNetworkReply_GetUseExternalSNAT (m : option AddNetworkReply) : bool := getter addr_UseExternalSNAT false m.
Definition AddNetworkReply_GetVPCcidrs (m : option AddNetworkReply) : list string := getter addr_VPCcidrs [] m.

Definition DelNetworkRequest_GetK8S_POD_NAME (m : option DelNetworkRequest) : string := getter del_POD_NAME ""%string m.
Definition DelNetworkRequest_GetK8S_POD_NAMESPACE (m : option DelNetworkRequest) : string := getter del_POD_NAMESPACE ""%string m.
Definition DelNetworkRequest_GetK8S_POD_INFRA_CONTAINER_ID (m : option DelNetworkRequest) : string := getter del_CONTAINER_ID ""%string m.
Definition DelNetworkRequest_GetIPv4Addr (m : option DelNetworkRequest) : string := getter del_IPv4Addr ""%string m.
Definition DelNetworkRequest_GetReason (m : option DelNetworkRequest) : string := getter del_Reason ""%string m.

Definition DelNetworkReply_GetSuccess (m : option DelNetworkReply) : bool := getter delr_Success false m.
Definition DelNetworkReply_GetIPv4Addr (m : option DelNetworkReply) : string := getter delr_IPv4Addr ""%string m.
Definition DelNetworkReply_GetDeviceNumber (m : option DelNetworkReply) : Z := getter delr_DeviceNumber 0 m.

(** ** The service *)

(** Errors of the gRPC library: [status.Errorf(code, desc)]. *)
Definition status_Error (code desc : string) : error := EStr ("rpc error: code = " +:+ code +:+ " desc = " +:+ desc).

(** Neither side takes a message larger than the default of the library. *)
Definition maxReceiveMessageSize : Z := 1024 * 1024 * 4.
Definition too_large (b : list ascii) : option error :=
  if blen b >? maxReceiveMessageSize then
    Some (status_Error "ResourceExhausted" ("grpc: received message larger than max (" +:+ pretty (blen b) +:+
            " vs. " +:+ pretty maxReceiveMessageSize +:+ ")"))
  else None.

Section server.
Context {W : Type} `{!World W, !AwsAPIs W, !NetworkAPIs W, !Requests W}.

Abbreviation IM := (M (IpamSt W)).

(** A unary interceptor: it is given the request and the handler. *)
Definition UnaryServerInterceptor (I O : Type) : Type := I → string → (I → IM (O + error)) → IM (O + error).

(** [_CNIBackend_AddNetwork_Handler]: [dec] is what decoding the request gave. *)
Definition CNIBackend_AddNetwork_Handler (dec : AddNetworkRequest + error)
    (interceptor : option (UnaryServerInterceptor AddNetworkRequest AddNetworkReply)) : IM (AddNetworkReply + error) :=
  match dec with
  | inr err => mret (inr err)
  | inl in_ =>
      let handler req := r ← AddNetwork req; mret (inl r) in
      match interceptor with
      | None => handler in_
      | Some i => i in_ "/rpc.CNIBackend/AddNetwork"%string handler
      end
  end.

Definition CNIBackend_DelNetwork_Handler (dec : DelNetworkRequest + error)
    (interceptor : option (UnaryServerInterceptor DelNetworkRequest DelNetworkReply)) : IM (DelNetworkReply + error) :=
  match dec with
  | inr err => mret (inr err)
  | inl in_ =>
      let handler req := r ← DelNetwork req; mret (inl r) in
      match interceptor with
      | None => handler in_
      | Some i => i in_ "/rpc.CNIBackend/DelNetwork"%string handler
      end
  end.

(** [processUnaryRPC] of the gRPC server around a handler; the server of ipamd has
    no interceptor. *)
Definition unary {I O} `{!Message I, !Message O} (handler : I + error → IM (O + error)) (b : list ascii) :
    IM (list ascii + error) :=
  match proto_Unmarshal b with
  | None => nofuel
  | Some dec =>
      r ← handler (match too_large b, dec with
                   | Some e, _ => inr e
                   | None, inl m => inl m
                   | None, inr e => inr (status_Error "Internal" ("grpc: error unmarshalling request: " +:+ Error e))
                   end);
      mret (match r with inl reply => inl (proto_Marshal reply) | inr e => inr e end)
  end.

Record ServiceDesc := mkServiceDesc {
  ServiceName : string;
  Methods : list (string * (list ascii → IM (list ascii + error)));
}.

Definition CNIBackend_serviceDesc : ServiceDesc :=
  mkServiceDesc "rpc.CNIBackend"
    [("AddNetwork"%string, unary (λ dec, CNIBackend_AddNetwork_Handler dec None));
     ("DelNetwork"%string, unary (λ dec, CNIBackend_DelNetwork_Handler dec None))].

(** [handleStream] of the gRPC server: the method is called [/service/method], cut
    at the last slash. *)
Fixpoint last_slash (s : string) : option (string * string) :=
  match s with
  | EmptyString => None
  | String c s =>
      match last_slash s with
      | Some (a, b) => Some (String c a, b)
      | None => if bool_decide (c = "/"%char) then Some (""%string, s) else None
      end
  end.
Definition split_method (sm : string) : option (string * string) :=
  last_slash (match sm with
              | String c rest => if bool_decide (c = "/"%char) then rest else sm
              | EmptyString => sm
              end).

Definition handleStream (services : list ServiceDesc) (sm : string) (b : list ascii) : IM (list ascii + error) :=
  match split_method sm with
  | None => mret (inr (status_Error "ResourceExhausted" ("malformed method name: " +:+ sm)))
  | Some (service, method) =>
      match list_find (λ d, ServiceName d = service) services with
      | None => mret (inr (status_Error "Unimplemented" ("unknown service " +:+ service)))
      | Some (_, d) =>
          match list_find (λ x, x.1 = method) (Methods d) with
          | None => mret (inr (status_Error "Unimplemented" ("unknown method " +:+ method)))
          | Some (_, (_, h)) => h b
          end
      end
  end.

(** The services of [RunRPCHandler]; those of the library (health, reflection)
    have other names. *)
Context (others : list ServiceDesc).
Definition services : list ServiceDesc := CNIBackend_serviceDesc :: others.

End server.
Arguments ServiceDesc W : clear implicits.

(** ** The client *)

(** The connection of the plugin to the daemon. *)
Class Transport (W : Type) : Type := {
  tr_Dial : string → ext W (option error);
  tr_send : string → list ascii → ext W (option error);
  tr_recv : list ascii → ext W (option error);
}.

Section client.
Context {W : Type} `{!World W, !AwsAPIs W, !NetworkAPIs W, !Requests W, !Transport W}.
Context (others : list (ServiceDesc W)).

Abbreviation IM := (M (IpamSt W)).

(** [grpc.Invoke]: when the daemon dies of the call the client is told that it is
    unavailable. *)
Definition Invoke {I O} `{!Message I, !Message O} (method : string) (in_ : I) : IM (O + error) :=
  err ← call (on_node (tr_send method (proto_Marshal in_)));
  match err with
  | Some e => mret (inr e)
  | None =>
      r ← call (serve_rpc (handleStream (services others) method (proto_Marshal in_)));
      match r with
      | inr e => mret (inr e)
      | inl (inr e) => mret (inr e)
      | inl (inl b) =>
          err ← call (on_node (tr_recv b));
          match err with
          | Some e => mret (inr e)
          | None =>
              match too_large b, proto_Unmarshal b with
              | Some e, _ => mret (inr e)
              | _, None => nofuel
              | _, Some (inl out) => mret (inl out)
              | _, Some (inr e) =>
                  mret (inr (status_Error "Internal" ("grpc: failed to unmarshal the received message " +:+ Error e)))
              end
          end
      end
  end.

(** [cNIBackendClient]. *)
Definition client_AddNetwork (in_ : AddNetworkRequest) : IM (AddNetworkReply + error) :=
  r ← Invoke "/rpc.CNIBackend/AddNetwork" in_;
  match r with inr err => mret (inr err) | inl out => mret (inl out) end.

Definition client_DelNetwork (in_ : DelNetworkRequest) : IM (DelNetworkReply + error) :=
  r ← Invoke "/rpc.CNIBackend/DelNetwork" in_;
  match r with inr err => mret (inr err) | inl out => mret (inl out) end.

(** The backend of the plugin: [grpcClient.Dial] and [NewCNIBackendClient]. *)
Definition wire_Backend : Backend (IpamSt W) := {|
  Dial a := on_node (tr_Dial a);
  rpc_AddNetwork req := method (client_AddNetwork req);
  rpc_DelNetwork req := method (client_DelNetwork req);
|}.

End client.
