(* ===== verification/RpcProps.v ===== *)
(** * Theorems about the gRPC service

    The messages survive the wire; over a connection that works a call of the
    plugin is a call of the daemon's handler; over one that does not, no address is
    lost for good. *)
From S2P Require Import Prelude GoStd Proto DataStore DataStoreInv DataStoreSpec DataStoreProps Interfaces Ipamd IpamdInv IpamdFrame IpamdQuiet IpamdProps AwsService RpcHandler Netlink NetworkUtils Cni CniProps Rpc.

Open Scope Z_scope.

(** ** Messages *)

Ltac message_ok :=
  split; [repeat (constructor; [simpl; lia|]); constructor
         |apply (bool_decide_unpack _); vm_compute; reflexivity
         |intros []; cbn -[bool_decide Z.eqb]].

#[global] Instance AddNetworkRequest_ok : MessageOk AddNetworkRequest.
Proof. message_ok. repeat case_bool_decide; by subst. Qed.

#[global] Instance DelNetworkRequest_ok : MessageOk DelNetworkRequest.
Proof. message_ok. repeat case_bool_decide; by subst. Qed.

#[global] Instance DelNetworkReply_ok : MessageOk DelNetworkReply.
Proof.
  message_ok. destruct delr_Success, (Z.eqb_spec delr_DeviceNumber 0); repeat case_bool_decide; by subst.
Qed.

Lemma merge_cidrs l m :
  foldl (λ (acc : AddNetworkReply) v,
      mkAddNetworkReply (addr_Success acc) (addr_IPv4Addr acc) (addr_IPv4Subnet acc) (addr_DeviceNumber acc)
        (addr_UseExternalSNAT acc) (addr_VPCcidrs acc ++ [v])) m l =
    mkAddNetworkReply (addr_Success m) (addr_IPv4Addr m) (addr_IPv4Subnet m) (addr_DeviceNumber m)
      (addr_UseExternalSNAT m) (addr_VPCcidrs m ++ l).
Proof.
  revert m. induction l as [|v l IH]; intros m; [destruct m; simpl; by rewrite app_nil_r|].
  cbn [foldl]. rewrite IH. simpl. by rewrite <-(assoc_L (++)).
Qed.

#[global] Instance AddNetworkReply_ok : MessageOk AddNetworkReply.
Proof.
  message_ok. rewrite merge_cidrs.
  destruct addr_Success, (Z.eqb_spec addr_DeviceNumber 0), addr_UseExternalSNAT; repeat case_bool_decide; by subst.
Qed.

(** C23: what one side sends the other reads: the bytes of each of the four messages
    decode to the same message, with any bytes in its strings and with any value of
    its integers, also when a newer version of the other side has appended fields
    this one does not know. *)
Theorem messages_round_trip :
  (∀ (m : AddNetworkRequest) u, fits m → unknown_fields (A:=AddNetworkRequest) u →
     proto_Unmarshal (proto_Marshal m ++ u) = Some (inl m)) ∧
  (∀ (m : AddNetworkReply) u, fits m → unknown_fields (A:=AddNetworkReply) u →
     proto_Unmarshal (proto_Marshal m ++ u) = Some (inl m)) ∧
  (∀ (m : DelNetworkRequest) u, fits m → unknown_fields (A:=DelNetworkRequest) u →
     proto_Unmarshal (proto_Marshal m ++ u) = Some (inl m)) ∧
  (∀ (m : DelNetworkReply) u, fits m → unknown_fields (A:=DelNetworkReply) u →
     proto_Unmarshal (proto_Marshal m ++ u) = Some (inl m)).
Proof. split_and!; intros m u; apply unmarshal_marshal_unknown. Qed.

(** A reply with a negative number takes ten bytes for it. *)
Example reply_bytes :
  (of_byte <$> proto_Marshal (mkAddNetworkReply true "A" "" (-1) false ["b"%string])) =
    [8; 1; 18; 1; 65; 32; 255; 255; 255; 255; 255; 255; 255; 255; 255; 1; 50; 1; 98] ∧
  proto_Unmarshal (proto_Marshal (mkAddNetworkReply true "A" "" (-1) false ["b"%string])) =
    Some (inl (mkAddNetworkReply true "A" "" (-1) false ["b"%string])).
Proof. vm_compute. split; reflexivity. Qed.

(** ** Calls *)

Section wire.
Context {W : Type} `{!World W} `{!WorldOk W}.
Context `{!AwsAPIs W, !NetworkAPIs W, !K8SAPIs W, !ENIConfigAPI W, !Requests W} `{!Quiet W}.
Context `{!ServiceClock W} (own : string → string).
Context (others : list (ServiceDesc W)).

Abbreviation IM := (M (IpamSt W)).

(** The server finds the handlers. *)
Lemma handle_add b : handleStream (services others) "/rpc.CNIBackend/AddNetwork" b =
  unary (λ dec, CNIBackend_AddNetwork_Handler dec None) b.
Proof. reflexivity. Qed.

Lemma handle_del b : handleStream (services others) "/rpc.CNIBackend/DelNetwork" b =
  unary (λ dec, CNIBackend_DelNetwork_Handler dec None) b.
Proof. reflexivity. Qed.

(** A message the other side takes. *)
Definition small {A} `{!Message A} (m : A) : Prop := blen (proto_Marshal m) ≤ maxReceiveMessageSize.

Lemma small_not_large {A} `{!Message A} (m : A) : small m → too_large (proto_Marshal m) = None.
Proof. unfold small, too_large. intros Hm. destruct (_ >? _) eqn:Hg; [apply Z.gtb_lt in Hg; lia|done]. Qed.

Lemma not_large_small {A} `{!Message A} (m : A) : too_large (proto_Marshal m) = None → small m.
Proof. unfold small, too_large. destruct (_ >? _) eqn:Hg; [done|]. intros _. rewrite Z.gtb_ltb in Hg. by apply Z.ltb_ge. Qed.

Lemma small_fits {A} `{!Message A} (m : A) : small m → ints_fit m → fits m.
Proof. intros Hm. apply fits_small. unfold small, maxReceiveMessageSize in Hm. lia. Qed.

Lemma add_request_ints (m : AddNetworkRequest) : ints_fit m.
Proof. repeat constructor. Qed.

Lemma del_request_ints (m : DelNetworkRequest) : ints_fit m.
Proof. repeat constructor. Qed.

Lemma unary_marshalled {I O} `{!Message I, !Message O, !MessageOk I} (h : I + error → IM (O + error)) m :
  fits m → unary h (proto_Marshal m) =
    (r ← h (match too_large (proto_Marshal m) with Some e => inr e | None => inl m end);
     mret (match r with inl reply => inl (proto_Marshal reply) | inr e => inr e end)).
Proof. intros Hm. unfold unary. rewrite unmarshal_marshal by done. by destruct (too_large _). Qed.

(** The server runs [h] on the request, or refuses it. *)
Definition served {I O} `{!Message I, !Message O} (meth : string) (in_ : I) (h : I → IM O) (s : IpamSt W) : Prop :=
  handleStream (services others) meth (proto_Marshal in_) s =
    match too_large (proto_Marshal in_) with
    | Some e => (Ret (inr e), s)
    | None => (r ← h in_; mret (inl (proto_Marshal r))) s
    end.

Lemma add_served req s : fits req → served "/rpc.CNIBackend/AddNetwork" req AddNetwork s.
Proof.
  intros Hreq. unfold served. rewrite handle_add, unary_marshalled by done. destruct (too_large _); [done|].
  unfold CNIBackend_AddNetwork_Handler, mbind, M_bind. by destruct (AddNetwork req s) as [[] ?].
Qed.

Lemma del_served req s : fits req → served "/rpc.CNIBackend/DelNetwork" req DelNetwork s.
Proof.
  intros Hreq. unfold served. rewrite handle_del, unary_marshalled by done. destruct (too_large _); [done|].
  unfold CNIBackend_DelNetwork_Handler, mbind, M_bind. by destruct (DelNetwork req s) as [[] ?].
Qed.

(** A connection that works. *)
Definition reliable (T : Transport W) : Prop :=
  (∀ a w, tr_Dial a w = (Some None, w)) ∧ (∀ m b w, tr_send m b w = (Some None, w)) ∧
  (∀ b w, tr_recv b w = (Some None, w)).

Lemma on_node_same {A} (f : ext W A) a (s : IpamSt W) :
  f (i_world s) = (Some a, i_world s) → call (on_node f) s = (Ret a, s).
Proof. intros Hf. unfold call, on_node. rewrite Hf. by destruct s. Qed.

Lemma Invoke_reliable {I O} `{!Message I, !Message O, !MessageOk I, !MessageOk O} (T : Transport W) meth
    (h : I → IM O) (in_ : I) (s : IpamSt W) :
  reliable T → small in_ → served meth in_ h s →
  (∀ r s', s ⊢ h in_ ⇓ r ⊣ s' → small r ∧ ints_fit r) →
  Invoke (O:=O) others meth in_ s = let '(o, s') := serve_rpc (h in_) s in (Ret (default (inr (EStr "")) o), s').
Proof.
  intros (_ & Hsend & Hrecv) Hin Hh Hfit. unfold served in Hh. rewrite small_not_large in Hh by done.
  unfold Invoke, mbind, M_bind.
  rewrite (on_node_same _ None) by apply Hsend. unfold call at 1, serve_rpc. rewrite Hh. unfold mbind, M_bind.
  destruct (h in_ s) as [[r| |] s'] eqn:Hr; [|done..]. cbn [mret M_ret].
  rewrite (on_node_same _ None) by apply Hrecv.
  destruct (Hfit r s' eq_refl). rewrite small_not_large by done. by rewrite unmarshal_marshal by (by apply small_fits).
Qed.

Lemma int32_bound x : - 2 ^ 31 ≤ int32 x < 2 ^ 31.
Proof. unfold int32. pose proof (Z.mod_pos_bound (x + 2 ^ 31) (2 ^ 32)). lia. Qed.

Lemma AddNetwork_device req (s s' : IpamSt W) r : s ⊢ AddNetwork req ⇓ r ⊣ s' → ∃ d, addr_DeviceNumber r = int32 d.
Proof.
  unfold AddNetwork. intros ([[ip dev] err] & s1 & _ & H)%run_bind_inv.
  apply run_bind_inv in H as (cidrs & s2 & _ & H). apply run_bind_inv in H as (snat & s3 & _ & H).
  apply run_bind_inv in H as (ex & s4 & _ & H). apply run_bind_inv in H as ([] & s5 & _ & H).
  injection H as <- _. simpl. eauto.
Qed.

Lemma DelNetwork_device req (s s' : IpamSt W) r : s ⊢ DelNetwork req ⇓ r ⊣ s' → ∃ d, delr_DeviceNumber r = int32 d.
Proof.
  unfold DelNetwork. intros ([] & s1 & _ & H)%run_bind_inv. apply run_bind_inv in H as (r1 & s2 & _ & H).
  apply run_bind_inv in H as ([[ip dev] err] & s3 & _ & H). injection H as <- _. simpl. eauto.
Qed.

Lemma AddNetwork_ints req (s s' : IpamSt W) r : s ⊢ AddNetwork req ⇓ r ⊣ s' → ints_fit r.
Proof.
  intros Hr. destruct (AddNetwork_device _ _ _ _ Hr) as (d & Hd). repeat constructor; rewrite Hd; apply int32_bound.
Qed.

Lemma DelNetwork_ints req (s s' : IpamSt W) r : s ⊢ DelNetwork req ⇓ r ⊣ s' → ints_fit r.
Proof.
  intros Hr. destruct (DelNetwork_device _ _ _ _ Hr) as (d & Hd). repeat constructor; rewrite Hd; apply int32_bound.
Qed.

(** C22: over a connection that works, the client of the plugin and the handlers of
    the daemon see each other as if the plugin called the handlers directly: the
    reply, and what is left of the daemon, are those of the handler, for every
    request and every state. *)
Theorem wire_transparent (T : Transport W) req dreq (s : IpamSt W) :
  reliable T → small req → small dreq →
  (∀ r s', s ⊢ AddNetwork req ⇓ r ⊣ s' → small r) → (∀ r s', s ⊢ DelNetwork dreq ⇓ r ⊣ s' → small r) →
  rpc_AddNetwork (Backend:=wire_Backend others) req s = rpc_AddNetwork (Backend:=node_Backend) req s ∧
  rpc_DelNetwork (Backend:=wire_Backend others) dreq s = rpc_DelNetwork (Backend:=node_Backend) dreq s.
Proof.
  intros HT Hreq Hdreq Hadd Hdel. split.
  - cbn [rpc_AddNetwork wire_Backend node_Backend]. unfold method, client_AddNetwork, mbind, M_bind.
    rewrite (Invoke_reliable T _ AddNetwork); [|done..| |].
    + unfold serve_rpc. by destruct (AddNetwork req s) as [[] ?].
    + apply add_served, small_fits; [done|apply add_request_ints].
    + intros r s' Hr. split; [by eapply Hadd|by eapply AddNetwork_ints].
  - cbn [rpc_DelNetwork wire_Backend node_Backend]. unfold method, client_DelNetwork, mbind, M_bind.
    rewrite (Invoke_reliable T _ DelNetwork); [|done..| |].
    + unfold serve_rpc. by destruct (DelNetwork dreq s) as [[] ?].
    + apply del_served, small_fits; [done|apply del_request_ints].
    + intros r s' Hr. split; [by eapply Hdel|by eapply DelNetwork_ints].
Qed.

(** ** A connection that loses calls

    What a program leaves behind, also when it panics, and what it returns. *)
Definition kept {S A} (R : relation S) (m : M S A) (P : A → Prop) : Prop :=
  ∀ s, R s (m s).2 ∧ ∀ a s', m s = (Ret a, s') → P a.

Lemma kept_bind {S A B} (R : relation S) `{!PreOrder R} (m : M S A) (f : A → M S B) P Q :
  kept R m P → (∀ a, P a → kept R (f a) Q) → kept R (mbind f m) Q.
Proof.
  intros Hm Hf s. destruct (Hm s) as [HR HP]. unfold mbind, M_bind. destruct (m s) as [[a| |] s1]; [|done..].
  destruct (Hf a (HP a s1 eq_refl) s1) as [HR2 HQ]. split; [by etransitivity|done].
Qed.

Lemma kept_ret {S A} (R : relation S) `{!PreOrder R} (a : A) (P : A → Prop) : P a → kept R (mret a) P.
Proof. intros HP s. split; [simpl; reflexivity|]. by intros ? ? [= <- <-]. Qed.

Section lossy.
Context (k k0 : PodKey).

Abbreviation pods s := (podsIP (dataStore (i_ctx s))).

(** Nothing has happened to any pod but [k]. *)
Definition only_pod (s s' : IpamSt W) : Prop :=
  sound own s → pods s !! k0 = None →
  sound own s' ∧ pods s' !! k0 = None ∧ delete k (pods s') = delete k (pods s).

#[local] Instance only_pod_pre : PreOrder only_pod.
Proof.
  split; [by intros s|]. intros a b c Hab Hbc Hs H0. destruct (Hab Hs H0) as (Hs1 & H1 & He).
  destruct (Hbc Hs1 H1) as (? & ? & ?). split_and!; [done..|congruence].
Qed.

Lemma on_node_kept {A} (f : ext W A) : kept only_pod (call (on_node f)) (λ _, True).
Proof. intros s. split; [|done]. unfold call, on_node. by destruct (f (i_world s)) as [[] ?]. Qed.

Lemma AddNetwork_pods req (s : IpamSt W) :
  wp (crash (W:=W)) (AddNetwork req)
    (λ _ s', pods s' = pods s ∨ ∃ i, pods s' = <[add_key req := i]> (pods s)) s.
Proof.
  destruct s as [c p w]. unfold AddNetwork. apply wp_bind, wp_store, (wp_weaken False); [done|].
  eapply wp_mono; [apply AssignPodIPv4Address_outcome|]. intros [[ip dev] err] [ds1 p1 w1] Ho. simpl.
  unfold dp in Ho. simpl in Ho.
  apply wp_bind, wp_service; [constructor|]. intros cidrs w2 _ _.
  apply wp_bind, wp_service; [constructor|]. intros snat w3 _ _. apply wp_bind.
  eapply (wp_mono _ _ (λ _ s', i_ctx s' = set_dataStore ds1 c)).
  { destruct snat; [by wp_steps|]. apply wp_service; [constructor|]. done. }
  intros excl [c4 p4 w4] Hc4. simpl in Hc4. subst c4. wp_steps. simpl.
  inversion Ho; subst; simpl; eauto.
Qed.

Lemma AddNetwork_only req : ¬ crash (W:=W) → add_key req = k → k ≠ k0 → kept only_pod (AddNetwork req) (λ _, True).
Proof.
  intros Hnc Hk Hne s. split; [|done]. intros Hs H0.
  pose proof (AddNetwork_safe own req s Hs) as Hsafe. pose proof (AddNetwork_pods req s) as Hp.
  unfold wp in *. destruct (AddNetwork req s) as [[r| |] s']; [|done..]. destruct Hsafe as [Hs' _].
  rewrite Hk in Hp. cbn [snd]. destruct Hp as [-> |[i ->]]; [done|].
  split_and!; [done|by rewrite lookup_insert_ne|by rewrite delete_insert_eq].
Qed.

Lemma DelNetwork_only req (s : IpamSt W) :
  ¬ crash (W:=W) → del_key req = k → mkPodKey (del_POD_NAME req) (del_POD_NAMESPACE req) "" = k0 →
  sound own s → pods s !! k0 = None →
  wp False (DelNetwork req) (λ _ s', sound own s' ∧ pods s' = delete k (pods s)) s.
Proof.
  intros Hnc Hk Hk0 Hs H0. apply (wp_weaken (crash (W:=W))); [done|].
  destruct (pods s !! k) as [i|] eqn:Hpod.
  - rewrite <-Hk in Hpod |- *. eapply wp_mono; [apply wp_and;
      [by apply (DelNetwork_known own req i s)|by apply (DelNetwork_safe own req s)]|].
    by intros r s' [[_ ?] [? _]].
  - rewrite <-Hk in Hpod |- *. eapply wp_mono; [apply wp_and;
      [by apply (del_network_fallback own req s)|by apply (DelNetwork_safe own req s)]|].
    cbn zeta. rewrite Hk0, H0. intros r s' [[_ ->] [? _]]. split; [done|]. by rewrite delete_id.
Qed.

Lemma Invoke_kept {I O} `{!Message I, !Message O} (T : Transport W) meth (h : I → IM O) in_ (P : O → Prop) :
  kept only_pod (h in_) (λ _, True) → (∀ s, served meth in_ h s) →
  (∀ s r s' r', s ⊢ h in_ ⇓ r ⊣ s' → small r → proto_Unmarshal (proto_Marshal r) = Some (inl r') → P r') →
  kept only_pod (Invoke (O:=O) others meth in_) (λ o, ∀ r, o = inl r → P r).
Proof.
  intros Hk Hh HP. pose proof (λ o : O + error, kept_ret only_pod o (λ o, ∀ r, o = inl r → P r)) as Hret.
  unfold Invoke. eapply kept_bind; [apply _|apply on_node_kept|]. intros [e|] _.
  { by apply Hret. }
  eapply (kept_bind _ _ _ (λ x, ∀ b, x = inl (inl b) → ∃ s r s', s ⊢ h in_ ⇓ r ⊣ s' ∧ b = proto_Marshal r)).
  { intros s. destruct (Hk s) as [HR _]. pose proof (Hh s) as Hs. unfold served in Hs.
    unfold call, serve_rpc. rewrite Hs. clear Hs.
    destruct (too_large (proto_Marshal in_)); [split; [reflexivity|by intros ? ? [= <- <-]]|]. unfold mbind, M_bind.
    destruct (h in_ s) as [[r| |] s'] eqn:Hr; (split; [done|]); cbn [mret M_ret];
      intros ? ? [= <- <-]; [|done..]. intros b [= <-]. eauto. }
  intros [[b|e]|e] Hb; [|by apply Hret..].
  eapply kept_bind; [apply _|apply on_node_kept|]. intros [e|] _; [by apply Hret|].
  destruct (Hb b eq_refl) as (s & r & s' & Hr & ->).
  destruct (too_large (proto_Marshal r)) as [e|] eqn:Hl; [by apply Hret|]. apply not_large_small in Hl.
  destruct (proto_Unmarshal (proto_Marshal r)) as [[r'|e]|] eqn:Hu.
  - apply Hret. intros ? [= <-]. by eapply HP.
  - by apply Hret.
  - intros s1. split; [reflexivity|done].
Qed.

Lemma method_kept {A} (m : IM A) P : kept only_pod m P → kept only_pod (call (method m)) P.
Proof.
  intros Hm s. destruct (Hm s) as [HR HP]. unfold call, method. by destruct (m s) as [[a| |] s'].
Qed.

Lemma rpc_add_kept (T : Transport W) req :
  ¬ crash (W:=W) → add_key req = k → k ≠ k0 → fits req →
  kept only_pod (call (rpc_AddNetwork (Backend:=wire_Backend others) req)) (λ o, ∀ r, o = inl r → slen (addr_IPv4Addr r) < 2 ^ 63).
Proof.
  intros Hnc Hk Hne Hfit. apply method_kept. unfold client_AddNetwork. eapply kept_bind; [apply _| |].
  - eapply (Invoke_kept T _ AddNetwork _ (λ r, slen (addr_IPv4Addr r) < 2 ^ 63));
      [by apply AddNetwork_only|intros s; by apply add_served|].
    intros s r s' r' Hr Hsm. assert (fits r) as Hf by (apply small_fits; [done|by eapply AddNetwork_ints]).
    rewrite unmarshal_marshal by done. intros [= <-]. unfold fits in Hf. simpl in Hf.
    rewrite !Forall_cons in Hf. by destruct Hf as (_ & ? & _).
  - intros [r|e] Hr; by apply (kept_ret only_pod _ (λ o, ∀ r, o = inl r → slen (addr_IPv4Addr r) < 2 ^ 63)).
Qed.

Lemma rpc_del_kept (T : Transport W) req :
  ¬ crash (W:=W) → del_key req = k → mkPodKey (del_POD_NAME req) (del_POD_NAMESPACE req) "" = k0 → k ≠ k0 → fits req →
  kept only_pod (call (rpc_DelNetwork (Backend:=wire_Backend others) req)) (λ _, True).
Proof.
  intros Hnc Hk Hk0 Hne Hfit. apply method_kept. unfold client_DelNetwork. eapply kept_bind; [apply _| |].
  - eapply (Invoke_kept T _ DelNetwork _ (λ _, True)); [|intros s; by apply del_served|done].
    intros s. split; [|done]. intros Hs H0. pose proof (DelNetwork_only req s Hnc Hk Hk0 Hs H0) as H. unfold wp in H.
    destruct (DelNetwork req s) as [[r| |] s']; [|done..]. destruct H as [? Hp]. cbn [snd]. rewrite Hp.
    split_and!; [done|by rewrite lookup_delete_ne|by rewrite delete_delete_eq].
  - intros [r|e] _; by apply (kept_ret only_pod _ (λ _, True)).
Qed.
End lossy.

(** *** The plugin *)

Context `{!CniTypes W, !DriverAPIs W}.
#[local] Existing Instances node_CniTypes node_Driver.

Definition add_over (T : Transport W) (args : CmdArgs) : IM (option error) :=
  let _ := wire_Backend others in add args.
Definition del_over (T : Transport W) (args : CmdArgs) : IM (option error) :=
  let _ := wire_Backend others in del args.

(** The request of [del]. *)
Definition del_request (k : K8sArgs) : DelNetworkRequest :=
  mkDelNetworkRequest (K8S_POD_NAME k) (K8S_POD_NAMESPACE k) (K8S_POD_INFRA_CONTAINER_ID k)
    (IP_String (arg_IP k)) "PodDeleted".
(** The pod of the plugin without its container. *)
Definition bare_key (k : K8sArgs) : PodKey := mkPodKey (K8S_POD_NAME k) (K8S_POD_NAMESPACE k) "".

Lemma check_kept {S} (R : relation S) `{!PreOrder R} (m : M S (option error)) wrap (c : M S (option error)) P :
  kept R m P → kept R c (λ _, True) → kept R (check m wrap c) (λ _, True).
Proof. intros Hm Hc. eapply kept_bind; [apply _|exact Hm|]. intros [e|] _; [by apply kept_ret|done]. Qed.

Lemma check_val_kept {S A} (R : relation S) `{!PreOrder R} (m : M S (A + error)) wrap (c : A → M S (option error)) P :
  kept R m P → (∀ a, P (inl a) → kept R (c a) (λ _, True)) → kept R (check_val m wrap c) (λ _, True).
Proof. intros Hm Hc. eapply kept_bind; [apply _|exact Hm|]. intros [a|e] Ha; [by apply Hc|by apply kept_ret]. Qed.

Lemma fits_setup_failed k r : fits (del_request k) → slen (addr_IPv4Addr r) < 2 ^ 63 →
  fits (mkDelNetworkRequest (K8S_POD_NAME k) (K8S_POD_NAMESPACE k) (K8S_POD_INFRA_CONTAINER_ID k)
    (addr_IPv4Addr r) "SetupNSFailed").
Proof.
  intros Hd Hr. unfold fits in *. simpl in *. rewrite !Forall_cons in *. destruct Hd as (? & ? & ? & _).
  split_and!; try done.
Qed.

Lemma add_kept T args conf k :
  plugin_reads args conf k → ¬ crash (W:=W) → K8S_POD_INFRA_CONTAINER_ID k ≠ ""%string →
  fits (add_request args k) → fits (del_request k) →
  kept (only_pod (plugin_key k) (bare_key k)) (add_over T args) (λ _, True).
Proof.
  intros [Hconf Hload] Hnc Hc Hfa Hfd. unfold add_over, add. rewrite Hconf.
  assert (plugin_key k ≠ bare_key k) as Hne by (intros [=]; congruence).
  pose proof (only_pod_pre (plugin_key k) (bare_key k)) as Hpre.
  eapply (check_val_kept _ _ _ _ (λ x, x = inl k)).
  { intros s. split; [apply on_node_kept|]. intros a s'. unfold call. cbn [LoadArgs node_CniTypes]. unfold on_node.
    rewrite Hload. by intros [= <- <-]. }
  intros k' [= ->]. cbn zeta. set (prefix := if bool_decide (VethPrefix conf = _) then _ else _).
  case_bool_decide; [by apply kept_ret|].
  eapply check_kept; [apply _|apply on_node_kept|].
  eapply check_val_kept; [apply _|by eapply (rpc_add_kept _ _ T)|].
  intros r Hr. specialize (Hr r eq_refl). destruct (negb _); [by apply kept_ret|].
  unfold add_wire. cbn zeta. eapply kept_bind; [apply _|apply on_node_kept|].
  intros [e|] _; [|apply on_node_kept].
  eapply kept_bind; [apply _|apply (rpc_del_kept _ _ T); [done..|by apply fits_setup_failed]|].
  intros [d|e'] _; [by apply kept_ret|]. intros s. split; [reflexivity|done].
Qed.

Lemma Invoke_ends {I O} `{!Message I, !Message O, !MessageOk I} (T : Transport W) meth (h : I → IM O) in_ s r s' :
  reliable T → small in_ → served meth in_ h s → s ⊢ h in_ ⇓ r ⊣ s' → ∃ o, s ⊢ Invoke (O:=O) others meth in_ ⇓ o ⊣ s'.
Proof.
  intros (_ & Hsend & Hrecv) Hin Hh Hr. unfold served in Hh. rewrite small_not_large in Hh by done.
  unfold Invoke, mbind, M_bind.
  rewrite (on_node_same _ None) by apply Hsend. unfold call at 1, serve_rpc. rewrite Hh. unfold mbind, M_bind.
  rewrite Hr. cbn [mret M_ret]. rewrite (on_node_same _ None) by apply Hrecv.
  destruct (too_large _); [by eexists|].
  destruct (unmarshal_ends (A:=O) (proto_Marshal r)) as [[o|e] ->]; by eexists.
Qed.

Lemma del_over_spec T args conf k (s : IpamSt W) :
  reliable T → plugin_reads args conf k → driver_returns → ¬ crash (W:=W) → small (del_request k) → sound own s →
  podsIP (dataStore (i_ctx s)) !! bare_key k = None →
  wp False (del_over T args)
    (λ _ s', sound own s' ∧ podsIP (dataStore (i_ctx s')) = delete (plugin_key k) (podsIP (dataStore (i_ctx s)))) s.
Proof.
  intros HT (Hconf & Hload) (_ & _ & Htear) Hnc Hfit Hs H0. unfold del_over, del. rewrite Hconf.
  assert (i_set_world (i_world s) s = s) as Hsame by (by destruct s).
  apply wp_check_val, wp_on_node; [intros w; by rewrite Hload|]. intros k' w1 Hk'. rewrite Hload in Hk'.
  injection Hk' as <- <-. rewrite Hsame.
  apply wp_check. unfold wp at 1. cbn [Dial wire_Backend]. rewrite (on_node_same _ None) by apply HT.
  apply wp_check_val. change (mkDelNetworkRequest _ _ _ _ _) with (del_request k).
  destruct (wp_run _ _ _ (DelNetwork_only (plugin_key k) (bare_key k) (del_request k) s Hnc eq_refl eq_refl Hs H0))
    as (r & s2 & Hr & Hs2 & Hp).
  destruct (Invoke_ends T "/rpc.CNIBackend/DelNetwork" DelNetwork (del_request k) s r s2 HT Hfit
    (del_served _ _ (small_fits _ Hfit (del_request_ints _))) Hr) as [o Ho].
  assert (call (rpc_DelNetwork (Backend:=wire_Backend others) (del_request k)) s = (Ret o, s2)) as Hcall.
  { unfold call. cbn [rpc_DelNetwork wire_Backend]. unfold method, client_DelNetwork, mbind, M_bind. rewrite Ho.
    by destruct o. }
  unfold wp at 1. rewrite Hcall. destruct o as [d|e]; [|done]. destruct (negb _); [done|].
  by apply wp_on_node; [apply Htear|].
Qed.

(** C6: the connection may fail at any point of [add], before the daemon has got a
    request or after it has served it, and the plugin may even panic of it: one
    [del] of the pod that gets through leaves the daemon's record of pods as it was
    before the [add], so that a lost reply does not cost an address. *)
Theorem lost_calls_cleaned_up (T1 T2 : Transport W) args conf k (s : IpamSt W) :
  plugin_reads args conf k → driver_returns → ¬ crash (W:=W) → sound own s →
  K8S_POD_INFRA_CONTAINER_ID k ≠ ""%string →
  podsIP (dataStore (i_ctx s)) !! plugin_key k = None → podsIP (dataStore (i_ctx s)) !! bare_key k = None →
  small (add_request args k) → small (del_request k) → reliable T2 →
  ∃ o s2, (add_over T1 args s).2 ⊢ del_over T2 args ⇓ o ⊣ s2 ∧ sound own s2 ∧
    podsIP (dataStore (i_ctx s2)) = podsIP (dataStore (i_ctx s)).
Proof.
  intros Hr Hd Hnc Hs Hc Hk Hk0 Hfa Hfd HT2.
  destruct (add_kept T1 args conf k Hr Hnc Hc (small_fits _ Hfa (add_request_ints _))
    (small_fits _ Hfd (del_request_ints _)) s) as [HR _].
  destruct (HR Hs Hk0) as (Hs1 & H1 & He).
  destruct (wp_run _ _ _ (del_over_spec T2 args conf k _ HT2 Hr Hd Hnc Hfd Hs1 H1)) as (o & s2 & Hdel & Hs2 & Hp).
  exists o, s2. split; [done|]. split; [done|]. rewrite Hp, He. by rewrite delete_id.
Qed.

End wire.

(** ** On the concrete node *)

#[local] Existing Instances Node_CniTypes Node_Driver node_CniTypes node_Driver.

Definition up : Transport (Node false) := {|
  tr_Dial _ w := (Some None, w);
  tr_send _ _ w := (Some None, w);
  tr_recv _ w := (Some None, w);
|}.
(** The connection breaks before a reply arrives. *)
Definition replies_lost : Transport (Node false) := {|
  tr_Dial _ w := (Some None, w);
  tr_send _ _ w := (Some None, w);
  tr_recv _ w := (Some (Some (status_Error "Unavailable" "transport is closing")), w);
|}.

#[local] Instance small_decision {A} `{!Message A} (m : A) : Decision (small m).
Proof. unfold small. apply _. Defined.

Lemma small_dec {A} `{!Message A} (m : A) : bool_decide (small m) = true → small m.
Proof. apply bool_decide_eq_true. Qed.

Lemma ret_small {A} `{!Message A} (m : M (IpamSt (Node false)) A) s :
  match (m s).1 with Ret r => bool_decide (small r) | _ => true end = true → ∀ r s', s ⊢ m ⇓ r ⊣ s' → small r.
Proof. intros H r s' Hr. rewrite Hr in H. by apply small_dec. Qed.

Lemma wire_transparent_witness :
  rpc_AddNetwork (Backend:=wire_Backend (Transport0:=up) []) (add_request web_cmd web_args) (quiet_at 2 1) =
    rpc_AddNetwork (Backend:=node_Backend) (add_request web_cmd web_args) (quiet_at 2 1) ∧
  rpc_DelNetwork (Backend:=wire_Backend (Transport0:=up) []) (del_request web_args) (quiet_at 2 1) =
    rpc_DelNetwork (Backend:=node_Backend) (del_request web_args) (quiet_at 2 1).
Proof.
  apply (wire_transparent [] up); [by split_and!|apply small_dec; vm_compute; reflexivity|apply small_dec; vm_compute; reflexivity
    |apply ret_small; vm_compute; reflexivity|apply ret_small; vm_compute; reflexivity].
Defined.

(** The reply to the plugin is lost, the pod stays recorded until [del]. *)
Lemma lost_calls_cleaned_up_witness :
  podsIP (dataStore (i_ctx (add_over [] replies_lost web_cmd (quiet_at 2 1)).2)) !! plugin_key web_args ≠ None ∧
  ∃ o s2, (add_over [] replies_lost web_cmd (quiet_at 2 1)).2 ⊢ del_over [] up web_cmd ⇓ o ⊣ s2 ∧ sound n_own s2 ∧
    podsIP (dataStore (i_ctx s2)) = podsIP (dataStore (i_ctx (quiet_at 2 1))).
Proof.
  split; [vm_compute; discriminate|].
  apply (lost_calls_cleaned_up n_own [] replies_lost up web_cmd web_conf web_args (quiet_at 2 1));
    [split; reflexivity| |apply no_crash|exact (test_at_sound 2 1 test_node)|discriminate|vm_compute; reflexivity
    |vm_compute; reflexivity|apply small_dec; vm_compute; reflexivity|apply small_dec; vm_compute; reflexivity|by split_and!].
  split_and!; [reflexivity|intros; discriminate|intros; discriminate].
Defined.
