(* ===== verification/PodLifecycle.v ===== *)
(** * A pod from beginning to end

    The CNI plugin (cni.go), the daemon's handlers (rpc_handler.go over the data
    store) and the driver (driver.go over netlink) put together the way the node
    runs them: the plugin asks the daemon for an address and wires the pod with the
    driver; the daemon's record of pods and the kernel's policy rules change
    together and are restored together. *)
From S2P Require Import Prelude GoStd DataStore DataStoreInv DataStoreSpec DataStoreProps Interfaces Ipamd IpamdInv IpamdFrame IpamdQuiet IpamdProps RpcHandler Netlink NetworkUtils NetworkUtilsProps Driver DriverProps Cni CniProps.

Open Scope Z_scope.

(** A program as a call of an interface. *)
Definition as_ext {W A} (m : M W A) : ext W A := λ w,
  match m w with
  | (Ret a, w') => (Some a, w')
  | (_, w') => (None, w')
  end.

Lemma wp_as_ext {W A} E (m : M W A) (Q : A → W → Prop) w : wp E m Q w → wp E (call (as_ext m)) Q w.
Proof. unfold wp, call, as_ext. by destruct (m w) as [[] ?]. Qed.

(** [driver.New()]: the driver the plugin is given. *)
Definition driver_New {W} `{!NetLink W} : DriverAPIs W := {|
  Cni.SetupNS host cont netns addr table cidrs ext := as_ext (Driver.SetupNS host cont netns addr table cidrs ext);
  Cni.TeardownNS addr table := as_ext (Driver.TeardownNS addr table);
|}.
#[global] Existing Instance driver_New.

#[local] Existing Instances node_CniTypes node_Driver node_Backend.

Section lifecycle.
Context {W : Type} `{!World W} `{!WorldOk W}.
Context `{!AwsAPIs W, !Interfaces.NetworkAPIs W, !K8SAPIs W, !ENIConfigAPI W, !Requests W} `{!Quiet W}.
Context `{!ServiceClock W} (own : string → string).
Context `{!CniTypes W} `{!NetLink W} `{!Answers W} (rules : W → list Netlink.Rule) `{!RulesOk W rules}.

(** Neither the clock nor the services of the handlers touch the policy rules,
    and the settings they report do not change. *)
Definition same_rules (w w' : W) : Prop := rules w' = rules w.

Context `{!HandlerFrame same_rules}.
Context (vpc excluded : list string) (snat : bool).

Record settings : Prop := {
  settings_vpc : ∀ w : W, (GetVPCIPv4CIDRs w).1 = Some vpc;
  settings_snat : ∀ w : W, (UseExternalSNAT w).1 = Some snat;
  settings_excluded : ∀ w : W, (GetExcludeSNATCIDRs w).1 = Some excluded;
}.

(** The CIDRs a pod is given. *)
Definition pod_cidrs : list string := vpc ++ (if snat then [] else excluded).

Lemma ask_inv {A} (f : ext W A) (s s' : IpamSt W) a :
  s ⊢ ask f ⇓ a ⊣ s' → ∃ w, (f w).1 = Some a.
Proof.
  intros (u & s1 & _ & Hx)%run_bind_inv. exists (i_world s1). unfold world, zoom, call in Hx.
  destruct (f (i_world s1)) as [[b|] w']; [|done]. by injection Hx as -> _.
Qed.

(** The reply carries the settings. *)
Lemma AddNetwork_settings req (s s' : IpamSt W) r :
  settings → s ⊢ AddNetwork req ⇓ r ⊣ s' → addr_VPCcidrs r = pod_cidrs ∧ addr_UseExternalSNAT r = snat.
Proof.
  intros Hset ([[ip dev] err] & s1 & _ & Hx)%run_bind_inv. cbn beta iota in Hx.
  apply run_bind_inv in Hx as (cidrs & s2 & [w1 H1]%ask_inv & Hx). rewrite (settings_vpc Hset) in H1.
  injection H1 as <-. apply run_bind_inv in Hx as (b & s3 & [w2 H2]%ask_inv & Hx).
  rewrite (settings_snat Hset) in H2. injection H2 as <-. apply run_bind_inv in Hx as (ex & s4 & H4 & Hx).
  apply run_bind_inv in Hx as (u & s5 & _ & Hx). injection Hx as <- _. simpl. split; [|done]. unfold pod_cidrs.
  destruct snat; [by injection H4 as <-|]. apply ask_inv in H4 as [w4 H4].
  rewrite (settings_excluded Hset) in H4. by injection H4 as ->.
Qed.

(** *** The driver on the node *)

Lemma wp_on_node_m {A} (m : M W A) (Q : A → IpamSt W → Prop) s :
  wp False m (λ a w', Q a (i_set_world w' s)) (i_world s) → wp False (call (on_node (as_ext m))) Q s.
Proof.
  unfold wp, call, on_node, as_ext. by destruct (m (i_world s)) as [[] ?].
Qed.

(** The address of a pod as the driver takes it. *)
Definition pod_net (ip : string) : NetAddr := (ParseIP ip, 32).

(** Before the pod comes: the addresses that can be handed out are IPv4 addresses
    that no policy rule mentions. *)
Definition fresh (s : IpamSt W) : Prop :=
  ∀ id ip, available_at (clock (i_world s)) (dataStore (i_ctx s)) id ip →
    is_Some (ParseIP ip) ∧ pod_rules rules (pod_net ip) (i_world s) = [].

(** The runtime's end of the plugin, for results of version [v]. *)
Definition prints (v : string) : Prop :=
  ∀ a (w : W), (PrintResult a v w).1 = Some None ∧ rules (PrintResult a v w).2 = rules w.

Lemma clean_rules addr table w w' : rules w' = rules w → clean rules addr table w → clean rules addr table w'.
Proof. unfold clean, pod_rules. by intros ->. Qed.

(** What [add] leaves in the record and in the kernel. *)
Definition added (k : K8sArgs) (s s' : IpamSt W) (o : option error) : Prop :=
  match o with
  | Some _ =>
      podsIP (dataStore (i_ctx s')) = podsIP (dataStore (i_ctx s)) ∧
      (rules (i_world s') = rules (i_world s) ∨
       ∃ id ip, available_at (clock (i_world s)) (dataStore (i_ctx s)) id ip ∧
         unrelated rules (pod_net ip) (i_world s') = unrelated rules (pod_net ip) (i_world s))
  | None =>
      ∃ id ip dev, available_at (clock (i_world s)) (dataStore (i_ctx s)) id ip ∧
        podsIP (dataStore (i_ctx s')) = <[plugin_key k := mkPodIPInfo ip dev]> (podsIP (dataStore (i_ctx s))) ∧
        unrelated rules (pod_net ip) (i_world s') = unrelated rules (pod_net ip) (i_world s) ∧
        wired rules (pod_net ip) (int32 dev) pod_cidrs snat (i_world s') ∧
        clean rules (pod_net ip) (int32 dev) (i_world s')
  end.

Lemma add_wires args conf k (s : IpamSt W) :
  plugin_reads args conf k → prints (CNIVersion conf) → settings → ¬ crash (W:=W) → sound own s → fresh s →
  podsIP (dataStore (i_ctx s)) !! plugin_key k = None →
  wp False (add args) (λ o s', sound own s' ∧ added k s s' o) s.
Proof.
  intros Hreads Hprint Hset Hnc Hs Hfresh Hnew. eapply (add_until_wired own same_rules); [done..| |].
  { intros e s' Hs' Hp HR. split; [done|]. split; [done|]. by left. }
  intros prefix r id dev s2 Hs2 HR Hrun Hav Hdev Hpods. unfold on_i, same_rules in HR.
  destruct (AddNetwork_settings _ _ _ _ Hset Hrun) as [Hc He].
  destruct (Hfresh _ _ Hav) as [Hip Hnil].
  unfold add_wire. cbn zeta. apply wp_bind. cbn [Cni.SetupNS node_Driver driver_New].
  apply wp_on_node_m. rewrite Hc, He, Hdev. fold (pod_net (addr_IPv4Addr r)).
  eapply wp_mono; [by apply (setupNS_spec rules)|]. unfold unrelated, pod_rules at 1. rewrite HR.
  intros [e|] w3 [Hu Hw].
  - apply wp_bind. set (dreq := mkDelNetworkRequest _ _ _ _ _).
    apply (wp_del_recorded own same_rules dreq (mkPodIPInfo (addr_IPv4Addr r) dev)); [done|done| |].
    + cbn [i_set_world i_ctx]. rewrite Hpods. apply lookup_insert_eq.
    + intros s4 Hs4 HR4 Hp. unfold on_i, same_rules in HR4. cbn [i_set_world i_world i_ctx] in HR4, Hp.
      wp_steps. split; [done|]. split; [rewrite Hp, Hpods; by rewrite delete_insert_id|].
      right. exists id, (addr_IPv4Addr r). split; [done|]. unfold unrelated. by rewrite HR4.
  - destruct (Hw eq_refl) as [Hwired Hclean].
    apply wp_on_node; [intros w; by rewrite (proj1 (Hprint _ _))|]. intros o w4 Ho.
    cbn [i_set_world i_world i_ctx] in Ho |- *.
    destruct (Hprint (pod_net (addr_IPv4Addr r)) w3) as [Hp Hr4].
    rewrite Ho in Hp, Hr4. simpl in Hp, Hr4. injection Hp as ->. split; [done|].
    exists id, (addr_IPv4Addr r), dev. unfold unrelated, wired. cbn [i_set_world i_world i_ctx]. rewrite Hr4.
    do 3 (split; [done|]). split; [exact Hwired|]. apply clean_rules with w3; [done|]. by apply Hclean.
Qed.

(** What [del] does to a pod that [add] has wired: the record and, when it reports
    success, the rules are those from before. *)
Lemma del_unwires args conf k (s s1 : IpamSt W) :
  plugin_reads args conf k → ¬ crash (W:=W) → fresh s →
  podsIP (dataStore (i_ctx s)) !! plugin_key k = None → sound own s1 → added k s s1 None →
  wp False (del args) (λ o s2, sound own s2 ∧
    podsIP (dataStore (i_ctx s2)) = podsIP (dataStore (i_ctx s)) ∧
    (o = None → del_honest (W:=W) → rules (i_world s2) = rules (i_world s))) s1.
Proof.
  intros Hreads Hnc Hfresh Hnew Hs1 (id & ip & dev & Hav & Hpods & Hu & _ & Hclean).
  destruct (Hfresh _ _ Hav) as [Hip Hnil].
  eapply (del_until_torn own same_rules); [done|done|done|by rewrite Hpods, lookup_insert_eq|].
  intros s2 Hs2 HR Hdel. unfold on_i, same_rules in HR. cbn [Cni.TeardownNS node_Driver driver_New IP pi_DeviceNumber].
  apply wp_on_node_m. eapply wp_mono.
  { apply (tearDownNS_spec rules (pod_net ip) (int32 dev) (i_world s)); [done|done| |].
    - unfold unrelated. rewrite HR. exact Hu.
    - by apply clean_rules with (i_world s1). }
  intros o' w' [_ Hw']. cbn [i_set_world i_ctx i_world]. split; [done|].
  split; [|intros Ho' Hhon; by eapply honest_torn_down, Hw'].
  rewrite Hdel, Hpods. by rewrite delete_insert_id.
Qed.

(** the whole node: the plugin with the daemon's handlers and the real driver.
    For a pod the daemon does not know, on a node where the addresses that can be
    handed out are IPv4 addresses no policy rule mentions, [add] returns.  If it
    fails, the daemon's record is what it was and no rule of another address has
    changed.  If it succeeds, the pod is recorded with an address that was
    available, the kernel routes that address to the pod and, on a secondary ENI,
    from the pod through the table of its ENI for every CIDR of the settings; then
    [del] of the same pod returns and restores the record, and when it reports
    success, on a kernel that fails to delete a rule only when there is none
    ([del_honest]), the policy rules of the node are exactly those from before [add]. *)
Theorem pod_lifecycle_restores args conf k (s : IpamSt W) :
  plugin_reads args conf k → prints (CNIVersion conf) → settings → ¬ crash (W:=W) →
  sound own s → fresh s → podsIP (dataStore (i_ctx s)) !! plugin_key k = None →
  ∃ o s1, s ⊢ add args ⇓ o ⊣ s1 ∧ sound own s1 ∧ added k s s1 o ∧
    (o = None → ∃ o' s2, s1 ⊢ del args ⇓ o' ⊣ s2 ∧ sound own s2 ∧
       podsIP (dataStore (i_ctx s2)) = podsIP (dataStore (i_ctx s)) ∧
       (o' = None → del_honest (W:=W) → rules (i_world s2) = rules (i_world s))).
Proof.
  intros Hreads Hprint Hset Hnc Hs Hfresh Hnew.
  destruct (wp_run _ _ _ (add_wires args conf k s Hreads Hprint Hset Hnc Hs Hfresh Hnew)) as (o & s1 & Hadd & Hs1 & Ho).
  exists o, s1. do 3 (split; [done|]). intros ->. apply wp_run. by apply del_unwires with conf k.
Qed.

End lifecycle.

(** ** A node with a kernel *)

#[local] Instance Kernel_ok : WorldOk Kernel.
Proof. split; unfold clock; simpl; intros; unfold Second; [done|lia..]. Qed.

#[local] Instance Kernel_Aws : AwsAPIs Kernel := {
  AllocENI _ _ _ w := (Some ("eni-2"%string, None), w);
  FreeENI _ w := (Some None, w);
  GetAttachedENIs w := (Some ([], None), w);
  DescribeENI _ w := (Some ([], None, None), w);
  AllocIPAddresses _ _ w := (Some None, w);
  DeallocIPAddresses _ _ w := (Some None, w);
  GetVPCIPv4CIDR w := (Some "10.1.0.0/16"%string, w);
  GetVPCIPv4CIDRs w := (Some ["10.1.0.0/16"%string], w);
  GetLocalIPv4 w := (Some "10.1.0.4"%string, w);
  GetPrimaryENI w := (Some "eni-1"%string, w);
  GetENIipLimit w := (Some (10, None), w);
  GetENILimit w := (Some (3, None), w);
  GetPrimaryENImac w := (Some "0a:01"%string, w);
}.

#[local] Instance Kernel_Network : Interfaces.NetworkAPIs Kernel := {
  Rule := Netlink.Rule;
  SetupHostNetwork _ _ _ _ w := (Some None, w);
  SetupENINetwork _ _ _ _ w := (Some None, w);
  UseExternalSNAT w := (Some false, w);
  GetExcludeSNATCIDRs w := (Some ["172.16.0.0/12"%string], w);
  GetRuleList w := (Some (kernel_rules w, None), w);
  UpdateRuleListBySrc _ _ _ _ w := (Some None, w);
}.

#[local] Instance Kernel_K8S : K8SAPIs Kernel := { K8SGetLocalPodIPs w := (Some ([], None), w) }.
#[local] Instance Kernel_ENIConfig : ENIConfigAPI Kernel := {
  MyENIConfig w := (Some (mkENIConfigSpec [] "", None), w);
}.
#[local] Instance Kernel_Requests : Requests Kernel := { w_rpcs w := ([], w) }.
#[local] Instance Kernel_quiet : Quiet Kernel.
Proof. by intros w. Qed.
#[local] Instance Kernel_service_clock : ServiceClock Kernel.
Proof. intros A f w []; unfold clock; simpl; lia. Qed.
#[local] Instance Kernel_CniTypes : CniTypes Kernel := {
  LoadArgs _ w := (Some (inl web_args), w);
  PrintResult _ _ w := (Some None, w);
}.
#[local] Instance Kernel_frame : HandlerFrame (same_rules kernel_rules).
Proof. split; [split; [split; unfold same_rules; intros ?; congruence|..]|..]; done. Qed.

(** Two ENIs, with one address on the second. *)
Definition kernel_own (ip : string) : string := "eni-2".
Definition kernel_boot : M (IpamSt Kernel) unit :=
  store (AddENI "eni-1" 0 true) ;; store (AddENI "eni-2" 1 false) ;;
  store (AddIPv4AddressFromStore "eni-2" "10.1.0.9") ;; mret tt.
Definition kernel_node : IpamSt Kernel :=
  (kernel_boot (mkIpamSt (test_ctx 2 1) ∅ (mkKernel (1000 * Minute) (k_rules node_kernel) [] []))).2.

Lemma kernel_sound : sound kernel_own kernel_node.
Proof.
  assert (safe kernel_own kernel_boot (λ _, True)) as Hb.
  { unfold kernel_boot. do 2 (eapply safe_bind; [apply safe_store, dsafe_AddENI|]; intros ? _).
    eapply safe_bind; [by apply safe_store, dsafe_AddIP|]. intros ? _. by apply safe_ret. }
  specialize (Hb (mkIpamSt (test_ctx 2 1) ∅ (mkKernel (1000 * Minute) (k_rules node_kernel) [] [])) (good_new _)).
  unfold kernel_node, wp in *. destruct (kernel_boot _) as [[a| |] s']; [by destruct Hb| |done].
  by destruct Hb as (A & f & w1 & w2 & [] & [=]).
Qed.

Lemma kernel_fresh : fresh kernel_rules kernel_node.
Proof.
  intros id ip (a & Ha & _). apply addr_of_Some in Ha as (e & He & Hip).
  apply elem_of_map_to_list in He, Hip. vm_compute in He.
  repeat (apply elem_of_cons in He as [[= -> ->]|He]); [..|by apply elem_of_nil in He]; vm_compute in Hip;
    repeat (apply elem_of_cons in Hip as [[= -> ->]|Hip]); try by apply elem_of_nil in Hip.
  split; [by eexists|vm_compute; reflexivity].
Qed.

Lemma kernel_no_crash : ¬ crash (W:=Kernel).
Proof. by intros (A & f & w & w' & [] & [=]). Qed.

Lemma pod_lifecycle_restores_witness :
  (add web_cmd kernel_node).1 = Ret None ∧
  ∃ o s1, kernel_node ⊢ add web_cmd ⇓ o ⊣ s1 ∧ sound kernel_own s1 ∧
    added kernel_rules ["10.1.0.0/16"%string] ["172.16.0.0/12"%string] false web_args kernel_node s1 o ∧
    (o = None → ∃ o' s2, s1 ⊢ del web_cmd ⇓ o' ⊣ s2 ∧ sound kernel_own s2 ∧
       podsIP (dataStore (i_ctx s2)) = podsIP (dataStore (i_ctx kernel_node)) ∧
       (o' = None → del_honest (W:=Kernel) → kernel_rules (i_world s2) = kernel_rules (i_world kernel_node))).
Proof.
  split; [vm_compute; reflexivity|].
  apply (pod_lifecycle_restores kernel_own kernel_rules _ _ _ web_cmd web_conf web_args kernel_node).
  - split; reflexivity.
  - split; reflexivity.
  - split; reflexivity.
  - exact kernel_no_crash.
  - exact kernel_sound.
  - exact kernel_fresh.
  - vm_compute. reflexivity.
Defined.
