(* ===== verification/PluginMain.v ===== *)
(** * The plugin as a process: main of plugins/routed-eni/cni.go

    The container runtime starts the plugin with its command and the pod in the
    environment and the configuration on the standard input, and reads a JSON
    document and the exit code.  This is the way of the vendored CNI library between
    them and [add] and [del]: the checks of the environment and of the version
    (skel.go, version/), the arguments of the pod (types/args.go), and the documents
    that are printed (types/).  Standard error and the log are left out; addresses
    are IPv4. *)
From S2P Require Import Prelude GoStd Json JsonDecode Netlink Interfaces RpcHandler Cni.

Open Scope Z_scope.

(** ** Versions *)

Definition Current : string := "0.3.1".
Definition All : list string := ["0.1.0"; "0.2.0"; "0.3.0"; "0.3.1"]%string.

(** [ConfigDecoder.Decode]. *)
Definition Decode (jsonBytes : string) : string + error :=
  match Unmarshal_strings ["cniVersion"%string] jsonBytes with
  | inr err => inr (EStr ("decoding version from network config: " +:+ Error err))
  | inl conf =>
      let v := default ""%string (conf !! "cniVersion"%string) in
      if bool_decide (v = ""%string) then inl "0.1.0"%string else inl v
  end.

(** [Reconciler.CheckRaw]: [None] is a version that is supported. *)
Fixpoint CheckRaw (configVersion : string) (supportedVersions : list string) : option string :=
  match supportedVersions with
  | [] => Some configVersion
  | v :: rest => if bool_decide (configVersion = v) then None else CheckRaw configVersion rest
  end.

(** [json.Unmarshal(args.StdinData, &conf)] of [add] and [del]. *)
Definition unmarshal_NetConf (data : string) : NetConf + error :=
  match Unmarshal_strings ["cniVersion"; "name"; "type"; "vethPrefix"]%string data with
  | inr err => inr err
  | inl m =>
      let f name := default ""%string (m !! (name : string)) in
      inl (mkNetConf (f "cniVersion") (f "name") (f "type") (f "vethPrefix"))
  end.

(** ** The arguments of the pod: types/args.go *)

(** [UnmarshallableBool.UnmarshalText]; no other letters have these lower cases. *)
Definition lower (c : ascii) : ascii := if in_range 65 90 c then chr (byte c + 32) else c.
Fixpoint ToLower (s : string) : string :=
  match s with EmptyString => s | String c r => String (lower c) (ToLower r) end.

Definition UnmarshalText_bool (data : string) : bool + error :=
  let s := ToLower data in
  if bool_decide (s ∈ ["1"; "true"]%string) then inl true
  else if bool_decide (s ∈ ["0"; "false"]%string) then inl false
  else inr (EStr ("Boolean unmarshal error: invalid input " +:+ s)).

(** [net.IP.UnmarshalText]. *)
Definition UnmarshalText_IP (text : string) : option Z + error :=
  if bool_decide (text = ""%string) then inl None
  else match ParseIP_any text with
       | None => inr (EStr ("invalid IP address: " +:+ text))
       | Some ip => inl (Some ip)
       end.

(** The struct that is filled, with its field [IgnoreUnknown]. *)
Definition container : Type := bool * K8sArgs.

(** One pair [K=V] of the arguments; the fields are found by name.  The embedded
    struct is a field, too, but has no text form. *)
Definition load_pair {S} (c : container) (kv : string) : M S ((container * bool) + error) :=
  let '(ignore, k) := c in
  match Split kv "=" with
  | [key; value] =>
      let bad (e : error) : M S ((container * bool) + error) :=
        mret (inr (EStr ("ARGS: error parsing value of pair " +:+ Netlink.quoted kv +:+ ": " +:+ Error e +:+ ")"))) in
      let ok k : M S ((container * bool) + error) := mret (inl ((ignore, k), true)) in
      if bool_decide (key = "IgnoreUnknown"%string) then
        match UnmarshalText_bool value with inr e => bad e | inl b => mret (inl ((b, k), true)) end
      else if bool_decide (key = "IP"%string) then
        match UnmarshalText_IP value with
        | inr e => bad e
        | inl ip => ok (mkK8sArgs ip (K8S_POD_NAME k) (K8S_POD_NAMESPACE k) (K8S_POD_INFRA_CONTAINER_ID k))
        end
      else if bool_decide (key = "K8S_POD_NAME"%string) then
        ok (mkK8sArgs (arg_IP k) value (K8S_POD_NAMESPACE k) (K8S_POD_INFRA_CONTAINER_ID k))
      else if bool_decide (key = "K8S_POD_NAMESPACE"%string) then
        ok (mkK8sArgs (arg_IP k) (K8S_POD_NAME k) value (K8S_POD_INFRA_CONTAINER_ID k))
      else if bool_decide (key = "K8S_POD_INFRA_CONTAINER_ID"%string) then
        ok (mkK8sArgs (arg_IP k) (K8S_POD_NAME k) (K8S_POD_NAMESPACE k) value)
      else if bool_decide (key = "CommonArgs"%string) then
        panic "interface conversion: *types.CommonArgs is not encoding.TextUnmarshaler"
      else mret (inl (c, false))
  | _ => mret (inr (EStr ("ARGS: invalid pair " +:+ Netlink.quoted kv)))
  end.

(** The pairs one after the other, with those that had no field. *)
Fixpoint load_pairs {S} (c : container) (unknownArgs : list string) (pairs : list string) :
    M S ((container * list string) + error) :=
  match pairs with
  | [] => mret (inl (c, unknownArgs))
  | kv :: pairs =>
      r ← load_pair c kv;
      match r with
      | inr e => mret (inr e)
      | inl (c, true) => load_pairs c unknownArgs pairs
      | inl (c, false) => load_pairs c (unknownArgs ++ [kv]) pairs
      end
  end.

(** A list of texts under the verb %q. *)
Definition quoted_list (l : list string) : string := ("[" +:+ String.concat " " (Netlink.quoted <$> l) +:+ "]")%string.

Definition K8sArgs_zero : K8sArgs := mkK8sArgs None "" "" "".

Definition types_LoadArgs {S} (args : string) : M S (K8sArgs + error) :=
  if bool_decide (args = ""%string) then mret (inl K8sArgs_zero)
  else
    r ← load_pairs (false, K8sArgs_zero) [] (Split args ";");
    match r with
    | inr e => mret (inr e)
    | inl ((ignore, k), unknownArgs) =>
        if bool_decide (0 < length unknownArgs)%nat && negb ignore
        then mret (inr (EStr ("ARGS: unknown args " +:+ quoted_list unknownArgs))) else mret (inl k)
    end.

(** ** Documents *)

(** [current.Result] with one address, and what [convertTo020] makes of it. *)
Definition result_current (addr : NetAddr) : json :=
  JObj [("ips", JArr [JObj [("version", JStr "4"); ("address", JStr (IPNet_String addr))]]); ("dns", JObj [])]%string.
Definition result_020 (addr : NetAddr) : json :=
  JObj [("ip4", JObj [("ip", JStr (IPNet_String addr))]); ("dns", JObj [])]%string.

(** [Result.GetAsVersion]. *)
Definition GetAsVersion (addr : NetAddr) (version : string) : json + error :=
  if bool_decide (version ∈ ["0.3.0"; "0.3.1"]%string) then inl (result_current addr)
  else if bool_decide (version ∈ [""; "0.1.0"; "0.2.0"]%string) then inl (result_020 addr)
  else inr (EStr ("cannot convert version 0.3.x to " +:+ Netlink.quoted version)).

(** [types.Error]. *)
Record cni_error := mkCniError { Code : Z; Msg : string; Details : string }.

Definition cni_error_json (e : cni_error) : json :=
  JObj ([("code"%string, JNum (Code e)); ("msg"%string, JStr (Msg e))] ++
        (if bool_decide (Details e = ""%string) then [] else [("details"%string, JStr (Details e))])).

(** [pluginInfo.Encode]. *)
Definition version_info : json :=
  JObj [("cniVersion", JStr Current); ("supportedVersions", JArr (JStr <$> All))]%string.

(** ** The process *)

Class Stdio (W : Type) : Type := {
  Stdin_ReadAll : ext W (string + error);
  Stdout_Write : string → ext W (option error);
}.

(** [fmt.Sprintf(s)] without arguments: a text with percent signs is taken for a
    format, and what becomes of it is not modelled. *)
Class Fmt : Type := { Sprintf_percent : string → string }.
Fixpoint has_percent (s : string) : bool :=
  match s with EmptyString => false | String c r => bool_decide (c = "%"%char) || has_percent r end.
Definition Sprintf `{!Fmt} (s : string) : string := if has_percent s then Sprintf_percent s else s.

(** [typeswrapper.New()]. *)
Definition typeswrapper_New {W} `{!Stdio W} : CniTypes W := {|
  LoadArgs args w :=
    match types_LoadArgs args w with
    | (Ret r, w') => (Some r, w')
    | (_, w') => (None, w')
    end;
  PrintResult addr version w :=
    match GetAsVersion addr version with
    | inr err => (Some (Some err), w)
    | inl doc => Stdout_Write (json_indent "" doc) w
    end;
|}.

Section process.
Context {W : Type} `{!Stdio W, !CniTypes W, !Backend W, !DriverAPIs W, !Fmt}.

(** The variables in the order they are read, each with the commands that need it. *)
Definition cmd_vars : list (string * list string) :=
  [("CNI_COMMAND", ["ADD"; "DEL"]); ("CNI_CONTAINERID", []); ("CNI_NETNS", ["ADD"]);
   ("CNI_IFNAME", ["ADD"; "DEL"]); ("CNI_ARGS", []); ("CNI_PATH", ["ADD"; "DEL"])]%string.

Definition missing `{!Environ} (cmd : string) (v : string * list string) : bool :=
  bool_decide (Getenv v.1 = ""%string) && (bool_decide (cmd ∈ v.2) || bool_decide (v.1 = "CNI_COMMAND"%string)).

(** [getCmdArgsFromEnv], with the raw configuration beside the arguments. *)
Definition getCmdArgsFromEnv `{!Environ} : M W ((string * string * CmdArgs) + error) :=
  let cmd := Getenv "CNI_COMMAND" in
  if existsb (missing cmd) cmd_vars then mret (inr (EStr "required env variables missing"))
  else
    stdinData ← call Stdin_ReadAll;
    match stdinData with
    | inr err => mret (inr (EStr ("error reading from stdin: " +:+ Error err)))
    | inl data =>
        mret (inl (cmd, data, mkCmdArgs (Getenv "CNI_CONTAINERID") (Getenv "CNI_NETNS") (Getenv "CNI_IFNAME")
                                (Getenv "CNI_ARGS") (Getenv "CNI_PATH") (unmarshal_NetConf data)))
    end.

Definition createTypedError (f : string) : cni_error := mkCniError 100 (Sprintf f) "".

Definition checkVersionAndCall (data : string) (cmdArgs : CmdArgs) (toCall : CmdArgs → M W (option error)) :
    M W (option cni_error) :=
  match Decode data with
  | inr err => mret (Some (createTypedError (Error err)))
  | inl configVersion =>
      match CheckRaw configVersion All with
      | Some config =>
          mret (Some (mkCniError 1 "incompatible CNI versions"
            ("config is " +:+ Netlink.quoted config +:+ ", plugin supports " +:+ quoted_list All)))
      | None =>
          err ← toCall cmdArgs;
          mret ((λ e, createTypedError (Error e)) <$> err)
      end
  end.

(** [cmdAdd] and [cmdDel]: the commands with the types, the connection and the driver
    they are given. *)
Definition cmdAdd (args : CmdArgs) : M W (option error) := add args.
Definition cmdDel (args : CmdArgs) : M W (option error) := del args.

(** [PluginMainWithError]: [None] is success. *)
Definition pluginMain `{!Environ} : M W (option cni_error) :=
  r ← getCmdArgsFromEnv;
  match r with
  | inr err => mret (Some (createTypedError (Error err)))
  | inl (cmd, data, cmdArgs) =>
      if bool_decide (cmd = "ADD"%string) then checkVersionAndCall data cmdArgs cmdAdd
      else if bool_decide (cmd = "DEL"%string) then checkVersionAndCall data cmdArgs cmdDel
      else if bool_decide (cmd = "VERSION"%string) then
        err ← call (Stdout_Write (json_encode version_info +:+ nl));
        mret ((λ e, createTypedError (Error e)) <$> err)
      else mret (Some (mkCniError 100 ("unknown CNI_COMMAND: " +:+ cmd) ""))
  end.

(** [main]: the exit code. *)
Definition plugin_main `{!Environ} : M W Z :=
  e ← pluginMain;
  match e with
  | None => mret 0
  | Some e => _ ← call (Stdout_Write (json_indent "" (cni_error_json e))); mret 1
  end.

End process.

(** What a kubelet passes for a pod. *)
Definition kubelet_args (namespace name container : string) : string :=
  ("IgnoreUnknown=1;K8S_POD_NAMESPACE=" +:+ namespace +:+ ";K8S_POD_NAME=" +:+ name +:+
   ";K8S_POD_INFRA_CONTAINER_ID=" +:+ container)%string.

Example load_ex :
  types_LoadArgs (kubelet_args "default" "web" "c7") tt = (Ret (inl (mkK8sArgs None "web" "default" "c7")), tt) ∧
  (types_LoadArgs "K8S_POD_NAME=web;K8S_POD_UID=1" tt).1 =
    Ret (inr (EStr ("ARGS: unknown args " +:+ quoted_list ["K8S_POD_UID=1"%string]))) ∧
  (types_LoadArgs "CommonArgs=1" tt).1 = Panic "interface conversion: *types.CommonArgs is not encoding.TextUnmarshaler" ∧
  (types_LoadArgs "IP=10.0.0.1;IgnoreUnknown=TRUE;x=y" tt).1 = Ret (inl (mkK8sArgs (Some 167772161) "" "" "")).
Proof. vm_compute. repeat split; reflexivity. Qed.

Example go_parse_result :
  go_parse (json_indent "" (result_current (Some 167837705, 32))) =
    Some (VObj [("ips", VArr [VObj [("version", VStr "4"); ("address", VStr "10.1.0.9/32")]]); ("dns", VObj [])])%string ∧
  String.length (json_indent "" (result_020 (Some 167837705, 32))) = 65%nat.
Proof. vm_compute. split; reflexivity. Qed.
