(* ===== verification/PluginProps.v ===== *)
(** * The plugin as a process: theorems

    What a kubelet passes for a pod is read back; the version the CNI library checks
    is the one of the configuration that [add] reads; and the process, from its
    environment and input to its exit code, keeps the promise of [add] and [del] over
    the daemon and the driver. *)
From S2P Require Import Prelude GoStd Json JsonDecode GoTime DataStore DataStoreInv DataStoreSpec DataStoreProps Interfaces Ipamd IpamdInv IpamdFrame IpamdQuiet IpamdProps RpcHandler Netlink NetworkUtils NetworkUtilsProps Driver DriverProps Cni CniProps PodLifecycle PluginMain.

Open Scope Z_scope.

(** ** The arguments of the pod *)

(** A text without the character [sep]. *)
Fixpoint lacks (sep : ascii) (s : string) : bool :=
  match s with EmptyString => true | String c r => negb (Ascii.eqb sep c) && lacks sep r end.

Lemma Split_app sep a rest :
  lacks sep a = true → Split (a +:+ String sep rest) sep = a :: Split rest sep.
Proof.
  unfold Split. induction a as [|c a IH]; intros Hl.
  - change ("" +:+ String sep rest)%string with (String sep rest). cbn [split_aux]. rewrite Ascii.eqb_refl. by destruct (split_aux _ rest).
  - rewrite string_app_cons. simpl in Hl. apply andb_true_iff in Hl as [Hc%negb_true_iff Ha]. cbn [split_aux].
    specialize (IH Ha). destruct (split_aux (Ascii.eqb sep) (a +:+ String sep rest)) as [w ws].
    rewrite Hc. destruct (split_aux (Ascii.eqb sep) rest). injection IH as -> ->. done.
Qed.

Lemma Split_lacks sep a : lacks sep a = true → Split a sep = [a].
Proof.
  unfold Split. induction a as [|c a IH]; intros Hl; [done|]. simpl in Hl.
  apply andb_true_iff in Hl as [Hc%negb_true_iff Ha]. cbn [split_aux]. specialize (IH Ha).
  destruct (split_aux (Ascii.eqb sep) a). rewrite Hc. by injection IH as -> ->.
Qed.

Lemma lacks_app sep a b : lacks sep (a +:+ b) = lacks sep a && lacks sep b.
Proof.
  induction a as [|c a IH]; [done|]. rewrite string_app_cons. simpl. rewrite IH. by rewrite andb_assoc.
Qed.

Definition plain (s : string) : Prop := lacks ";" s = true ∧ lacks "=" s = true.

Lemma kubelet_pairs ns name cont :
  plain ns → plain name → plain cont →
  Split (kubelet_args ns name cont) ";" =
    ["IgnoreUnknown=1"; "K8S_POD_NAMESPACE=" +:+ ns; "K8S_POD_NAME=" +:+ name;
     "K8S_POD_INFRA_CONTAINER_ID=" +:+ cont]%string.
Proof.
  intros [Hns _] [Hn _] [Hc _].
  change (kubelet_args ns name cont) with ("IgnoreUnknown=1" +:+ String ";" ("K8S_POD_NAMESPACE=" +:+ ns +:+
    String ";" ("K8S_POD_NAME=" +:+ name +:+ String ";" ("K8S_POD_INFRA_CONTAINER_ID=" +:+ cont))))%string.
  rewrite Split_app by done. f_equal.
  rewrite <-string_app_assoc, Split_app by (by rewrite lacks_app, Hns). f_equal.
  rewrite <-string_app_assoc, Split_app by (by rewrite lacks_app, Hn). f_equal.
  by rewrite Split_lacks by (by rewrite lacks_app, Hc).
Qed.

Lemma Split_pair key v :
  lacks "=" key = true → plain v → Split (key +:+ String "=" v) "=" = [key; v].
Proof. intros Hk [_ Hv]. by rewrite Split_app, Split_lacks. Qed.

(** The pod a kubelet names is read back. *)
Lemma kubelet_args_load {S} ns name cont (s : S) :
  plain ns → plain name → plain cont →
  types_LoadArgs (kubelet_args ns name cont) s = (Ret (inl (mkK8sArgs None name ns cont)), s).
Proof.
  intros Hns Hn Hc. unfold types_LoadArgs. rewrite bool_decide_false by done.
  rewrite kubelet_pairs by done.
  pose proof (Split_pair "K8S_POD_NAMESPACE" ns eq_refl Hns) as H1.
  pose proof (Split_pair "K8S_POD_NAME" name eq_refl Hn) as H2.
  pose proof (Split_pair "K8S_POD_INFRA_CONTAINER_ID" cont eq_refl Hc) as H3.
  cbn [load_pairs]. unfold mbind, M_bind, load_pair at 1. cbn -[Split String.append].
  unfold load_pair at 1.
  change ("K8S_POD_NAMESPACE=" +:+ ns)%string with ("K8S_POD_NAMESPACE" +:+ String "=" ns)%string. rewrite H1.
  cbn -[Split String.append]. unfold load_pair at 1.
  change ("K8S_POD_NAME=" +:+ name)%string with ("K8S_POD_NAME" +:+ String "=" name)%string. rewrite H2.
  cbn -[Split String.append]. unfold load_pair at 1.
  change ("K8S_POD_INFRA_CONTAINER_ID=" +:+ cont)%string with ("K8S_POD_INFRA_CONTAINER_ID" +:+ String "=" cont)%string.
  rewrite H3. reflexivity.
Qed.

(** ** The version *)

Definition conf_fields : list string := ["cniVersion"; "name"; "type"; "vethPrefix"]%string.

(** The library and the plugin find the version under the same keys. *)
Lemma find_version key :
  find_field ["cniVersion"%string] key =
    match find_field conf_fields key with
    | Some f => if bool_decide (f = "cniVersion"%string) then Some f else None
    | None => None
    end.
Proof.
  unfold find_field at 2, conf_fields. case_bool_decide as Hk.
  - repeat (apply elem_of_cons in Hk as [->|Hk]; [vm_compute; reflexivity|]). by apply not_elem_of_nil in Hk.
  - unfold find_field. rewrite bool_decide_false by set_solver. cbn [list_find].
    destruct (decide (equalFold "cniVersion" key)); [done|].
    repeat (case_decide; [done|]; cbn [fmap option_fmap option_map prod_map]).
    by repeat (destruct (decide _); [done|]).
Qed.

Lemma set_version m1 b1 m b kv :
  m1 !! "cniVersion"%string = m !! "cniVersion"%string → (b1 = true → b = true) →
  (set_member ["cniVersion"%string] (m1, b1) kv).1 !! "cniVersion"%string =
    (set_member conf_fields (m, b) kv).1 !! "cniVersion"%string ∧
  ((set_member ["cniVersion"%string] (m1, b1) kv).2 = true → (set_member conf_fields (m, b) kv).2 = true).
Proof.
  intros Hm Hb. destruct kv as [key v]. unfold set_member. cbn [fst snd]. rewrite find_version.
  destruct (find_field conf_fields key) as [f|]; [|done].
  case_bool_decide as Hf; [|by destruct v; cbn; rewrite ?lookup_insert_ne by done; auto].
  subst f. destruct v; cbn; rewrite ?lookup_insert_eq; auto.
Qed.

(** The version [Decode] finds is that of the configuration. *)
Lemma Decode_version data conf :
  unmarshal_NetConf data = inl conf →
  Decode data = inl (if bool_decide (CNIVersion conf = ""%string) then "0.1.0"%string else CNIVersion conf).
Proof.
  unfold unmarshal_NetConf, Decode, Unmarshal_strings. fold conf_fields.
  destruct (go_parse data) as [[| | | | |l]|]; try done; [by intros [= <-]|].
  assert (∀ l m1 b1 m b, m1 !! "cniVersion"%string = m !! "cniVersion"%string → (b1 = true → b = true) →
    let r1 := foldl (set_member ["cniVersion"%string]) (m1, b1) l in
    let r := foldl (set_member conf_fields) (m, b) l in
    r1.1 !! "cniVersion"%string = r.1 !! "cniVersion"%string ∧ (r1.2 = true → r.2 = true)) as Hfold.
  { clear. induction l as [|kv l IH]; intros m1 b1 m b Hm Hb; [done|]. cbn [foldl].
    destruct (set_version m1 b1 m b kv Hm Hb) as [Hm' Hb'].
    destruct (set_member ["cniVersion"%string] (m1, b1) kv), (set_member conf_fields (m, b) kv). by apply IH. }
  destruct (Hfold l ∅ false ∅ false eq_refl (λ H, H)) as [Hm Hb]. clear Hfold.
  destruct (foldl (set_member ["cniVersion"%string]) (∅, false) l) as [m1 b1].
  destruct (foldl (set_member conf_fields) (∅, false) l) as [m b]. cbn [fst snd] in Hm, Hb.
  destruct b; [done|]. destruct b1; [by specialize (Hb eq_refl)|]. intros [= <-]. cbn [CNIVersion].
  rewrite Hm. by case_bool_decide.
Qed.

Lemma CheckRaw_spec v l : CheckRaw v l = if bool_decide (v ∈ l) then None else Some v.
Proof.
  induction l as [|x l IH]; [done|]. cbn [CheckRaw]. rewrite IH. repeat case_bool_decide; set_solver.
Qed.

(** ** The process on the node *)

#[local] Existing Instances node_CniTypes node_Driver node_Backend.

Section process.
Context {W : Type} `{!World W} `{!WorldOk W}.
Context `{!AwsAPIs W, !Interfaces.NetworkAPIs W, !K8SAPIs W, !ENIConfigAPI W, !Requests W} `{!Quiet W}.
Context `{!ServiceClock W} (own : string → string).
Context `{!Stdio W, !Fmt} `{!NetLink W} `{!Answers W} (rules : W → list Netlink.Rule) `{!RulesOk W rules}.
Context `{!HandlerFrame (same_rules rules)}.
Context (vpc excluded : list string) (snat : bool).

#[local] Instance process_types : CniTypes W := typeswrapper_New.
#[local] Instance node_Stdio : Stdio (IpamSt W) := {
  Stdin_ReadAll := on_node Stdin_ReadAll;
  Stdout_Write d := on_node (Stdout_Write d);
}.

(** The process of the plugin, started in an environment. *)
Definition plugin_process (env : Environ) : M (IpamSt W) Z := plugin_main.

(** The runtime runs [cmd] for a pod: what the CNI specification and the kubelet put
    into the environment. *)
Record asks (env : Environ) (cmd ns name cont : string) : Prop := {
  asks_cmd : Getenv "CNI_COMMAND" = cmd;
  asks_netns : cmd = "ADD"%string → Getenv "CNI_NETNS" ≠ ""%string;
  asks_ifname : Getenv "CNI_IFNAME" ≠ ""%string;
  asks_path : Getenv "CNI_PATH" ≠ ""%string;
  asks_args : Getenv "CNI_ARGS" = kubelet_args ns name cont;
}.

(** It passes the configuration and reads what the plugin prints. *)
Record pipes (data : string) : Prop := {
  pipes_in : ∀ w : W, Stdin_ReadAll w = (Some (inl data), w);
  pipes_out : ∀ d (w : W), (Stdout_Write d w).1 = Some None ∧ rules (Stdout_Write d w).2 = rules w;
}.

(** The arguments the commands get. *)
Definition process_args (env : Environ) (data : string) : CmdArgs :=
  mkCmdArgs (Getenv "CNI_CONTAINERID") (Getenv "CNI_NETNS") (Getenv "CNI_IFNAME") (Getenv "CNI_ARGS") (Getenv "CNI_PATH")
    (unmarshal_NetConf data).

Lemma process_reads env cmd ns name cont data conf :
  asks env cmd ns name cont → plain ns → plain name → plain cont → unmarshal_NetConf data = inl conf →
  plugin_reads (W:=W) (process_args env data) conf (mkK8sArgs None name ns cont).
Proof.
  intros Ha Hns Hn Hc Hconf. split; [done|]. intros w. cbn [LoadArgs process_types typeswrapper_New Args process_args].
  by rewrite (asks_args _ _ _ _ _ Ha), kubelet_args_load.
Qed.

Lemma process_prints data v : pipes data → v = ""%string ∨ v ∈ All → prints rules v.
Proof.
  intros Hp Hv a w. cbn [PrintResult process_types typeswrapper_New]. unfold GetAsVersion.
  case_bool_decide; [apply (pipes_out _ Hp)|]. case_bool_decide; [apply (pipes_out _ Hp)|].
  exfalso. unfold All in Hv. set_solver.
Qed.

Lemma wp_write data d (Q : option error → IpamSt W → Prop) s :
  pipes data → (∀ w, rules w = rules (i_world s) → Q None (i_set_world w s)) → wp False (call (Stdout_Write d)) Q s.
Proof.
  intros Hp HQ. apply wp_on_node; [intros w; by rewrite (proj1 (pipes_out _ Hp d w))|]. intros a w' Hw.
  destruct (pipes_out _ Hp d (i_world s)) as [H1 H2]. rewrite Hw in H1, H2. injection H1 as ->. by apply HQ.
Qed.

(** With everything it needs the process runs its command; the exit code is 1 when
    the command fails, after the error is printed. *)
Lemma wp_plugin_process env cmd ns name cont data conf (Q : Z → IpamSt W → Prop) s :
  (cmd = "ADD"%string ∨ cmd = "DEL"%string) →
  asks env cmd ns name cont → pipes data → unmarshal_NetConf data = inl conf →
  (CNIVersion conf = ""%string ∨ CNIVersion conf ∈ All) →
  wp False ((if bool_decide (cmd = "ADD"%string) then cmdAdd else cmdDel) (process_args env data))
    (λ o s1, match o with
             | None => Q 0 s1
             | Some _ => ∀ w, rules w = rules (i_world s1) → Q 1 (i_set_world w s1)
             end) s →
  wp False (plugin_process env) Q s.
Proof.
  intros Hcmd Ha Hp Hconf Hv Hrun. destruct Ha as [Hc Hnetns Hif Hpath Hargs].
  unfold plugin_process, plugin_main. apply wp_bind.
  assert (existsb (missing cmd) cmd_vars = false) as Hno.
  { unfold cmd_vars, missing. cbn [existsb fst snd]. rewrite Hc.
    rewrite (bool_decide_false _ Hif), (bool_decide_false _ Hpath).
    destruct (bool_decide (Getenv "CNI_CONTAINERID" = _)), (bool_decide (Getenv "CNI_ARGS" = _));
      (destruct Hcmd as [-> | ->];
        [by rewrite (bool_decide_false _ (Hnetns eq_refl))|by destruct (bool_decide (Getenv "CNI_NETNS" = _))]). }
  assert (s = i_set_world (i_world s) s) as Hsame by (by destruct s).
  unfold pluginMain. apply wp_bind. unfold getCmdArgsFromEnv. cbn zeta. rewrite Hc, Hno. apply wp_bind.
  apply wp_on_node; [intros w; by rewrite (pipes_in _ Hp)|]. intros d w Hd. rewrite (pipes_in _ Hp) in Hd.
  injection Hd as <- <-. rewrite <-Hsame. apply wp_ret. fold (process_args env data).
  assert (∀ toCall, wp False (toCall (process_args env data))
    (λ o s1, match o with None => Q 0 s1 | Some _ => ∀ w, rules w = rules (i_world s1) → Q 1 (i_set_world w s1) end) s →
    wp False (checkVersionAndCall data (process_args env data) toCall)
      (λ e s1, wp False (match e with None => mret 0 | Some e =>
         _ ← call (Stdout_Write (json_indent "" (cni_error_json e))); mret 1 end) Q s1) s) as Hcall.
  { intros toCall Hw. unfold checkVersionAndCall. rewrite (Decode_version _ _ Hconf), CheckRaw_spec.
    rewrite bool_decide_true by (destruct (bool_decide_reflect (CNIVersion conf = ""%string)); [by left|by destruct Hv]).
    apply wp_bind. eapply wp_mono; [exact Hw|]. intros [e|] s1 HQ; apply wp_ret; [|by apply wp_ret].
    cbn [fmap option_fmap option_map]. apply wp_bind. eapply wp_write; [done|]. intros w Hr. apply wp_ret. by apply HQ. }
  destruct Hcmd as [-> | ->]; by apply Hcall.
Qed.

(** The exit code for the result of a command. *)
Definition exit_code (o : option error) : Z := if is_nil o then 0 else 1.

(** C3: the plugin as the runtime sees it, over the daemon's handlers, the driver and
    the CNI library.  Taken for granted: stdin can be read and stdout written
    ([pipes]; a result that cannot be printed leaves the pod recorded), the kernel and
    the daemon answer, no service the daemon asks panics or touches the policy rules
    ([HandlerFrame]), the runtime sets the CNI variables ([asks], with names that need
    no escaping, [plain]), no other request is served meanwhile ([Quiet]), the settings of the node stay the same, the daemon does not
    know the pod, the available addresses are IPv4 addresses no policy rule mentions
    ([fresh]), and the configuration is one the plugin reads and of a version it
    supports.  Then the process run for ADD ends with exit code 0 or 1.  With 1 the
    daemon's record is what it was and no rule of another address has changed; with 0
    the pod is recorded with an address that was available and is wired, and the
    process run for DEL, whose namespace may be gone, restores the record and, when
    it ends with 0 on a kernel that fails to delete a rule only when there is none
    ([del_honest]), the policy rules. *)
Theorem plugin_process_restores env env' ns name cont data conf (k := mkK8sArgs None name ns cont) (s : IpamSt W) :
  asks env "ADD" ns name cont → asks env' "DEL" ns name cont → plain ns → plain name → plain cont →
  pipes data → unmarshal_NetConf data = inl conf → (CNIVersion conf = ""%string ∨ CNIVersion conf ∈ All) →
  settings vpc excluded snat (W:=W) → ¬ crash (W:=W) →
  sound own s → fresh rules s → podsIP (dataStore (i_ctx s)) !! plugin_key k = None →
  ∃ o s1, s ⊢ plugin_process env ⇓ exit_code o ⊣ s1 ∧ sound own s1 ∧
    added rules vpc excluded snat k s s1 o ∧
    (o = None → ∃ o' s2, s1 ⊢ plugin_process env' ⇓ exit_code o' ⊣ s2 ∧ sound own s2 ∧
       podsIP (dataStore (i_ctx s2)) = podsIP (dataStore (i_ctx s)) ∧
       (o' = None → del_honest (W:=W) → rules (i_world s2) = rules (i_world s))).
Proof.
  intros Ha Hd Hns Hn Hc Hp Hconf Hv Hset Hnc Hs Hfresh Hnew.
  pose proof (process_reads _ _ _ _ _ _ _ Ha Hns Hn Hc Hconf) as Hra.
  pose proof (process_reads _ _ _ _ _ _ _ Hd Hns Hn Hc Hconf) as Hrd. fold k in Hra, Hrd.
  assert (wp False (plugin_process env)
    (λ code s1, ∃ o, code = exit_code o ∧ sound own s1 ∧ added rules vpc excluded snat k s s1 o) s) as Hadd.
  { apply (wp_plugin_process env "ADD" ns name cont data conf); [by left|done..|].
    rewrite bool_decide_true by done. eapply wp_mono.
    { by apply (add_wires own rules vpc excluded snat _ conf k); [|eapply process_prints|..]. }
    intros [e|] s1 [Hs1 Ho]; [|by exists None]. intros w Hw. exists (Some e). split; [done|]. split; [done|].
    unfold added, unrelated in *. cbn [i_set_world i_ctx i_world]. by rewrite Hw. }
  apply wp_run in Hadd as (code & s1 & Hrun & o & -> & Hs1 & Ho). exists o, s1. do 3 (split; [done|]). intros ->.
  assert (wp False (plugin_process env')
    (λ code s2, ∃ o, code = exit_code o ∧ sound own s2 ∧
       podsIP (dataStore (i_ctx s2)) = podsIP (dataStore (i_ctx s)) ∧
       (o = None → del_honest (W:=W) → rules (i_world s2) = rules (i_world s))) s1) as Hdel.
  { apply (wp_plugin_process env' "DEL" ns name cont data conf); [by right|done..|].
    rewrite bool_decide_false by done. eapply wp_mono.
    { by apply (del_unwires own rules vpc excluded snat _ conf k s). }
    intros [e|] s2 (Hs2 & Hpods & Hr); [|by exists None]. intros w Hw. by exists (Some e). }
  apply wp_run in Hdel as (code & s2 & Hrun' & o' & -> & Hr). by exists o', s2.
Qed.

End process.

(** ** A pod on the concrete node *)

#[local] Existing Instances Kernel_ok Kernel_Aws Kernel_Network Kernel_K8S Kernel_ENIConfig Kernel_Requests Kernel_quiet Kernel_service_clock Kernel_frame.

(** The configuration as the daemon installs it. *)
Definition conf_text : string :=
  json_indent "" (JObj [("cniVersion", JStr "0.3.1"); ("name", JStr "aws-cni"); ("type", JStr "aws-cni"); ("vethPrefix", JStr "eni")]%string).

#[local] Instance Kernel_Stdio : Stdio Kernel := {
  Stdin_ReadAll w := (Some (inl conf_text), w);
  Stdout_Write _ w := (Some None, w);
}.
#[local] Instance no_formats : Fmt := { Sprintf_percent s := s }.

Definition runtime_env (cmd netns : string) : Environ := {|
  environ := list_to_map [("CNI_COMMAND", cmd); ("CNI_CONTAINERID", "c7"); ("CNI_NETNS", netns); ("CNI_IFNAME", "eth0");
    ("CNI_ARGS", kubelet_args "default" "web" "c7"); ("CNI_PATH", "/opt/cni/bin")]%string;
|}.

Definition text_conf : NetConf := mkNetConf "0.3.1" "aws-cni" "aws-cni" "eni".

Lemma plugin_process_restores_witness :
  (plugin_process (runtime_env "ADD" "/proc/7/ns/net") kernel_node).1 = Ret 0 ∧
  ∃ o s1, kernel_node ⊢ plugin_process (runtime_env "ADD" "/proc/7/ns/net") ⇓ exit_code o ⊣ s1 ∧ sound kernel_own s1 ∧
    added kernel_rules ["10.1.0.0/16"%string] ["172.16.0.0/12"%string] false web_args kernel_node s1 o ∧
    (o = None → ∃ o' s2, s1 ⊢ plugin_process (runtime_env "DEL" "") ⇓ exit_code o' ⊣ s2 ∧ sound kernel_own s2 ∧
       podsIP (dataStore (i_ctx s2)) = podsIP (dataStore (i_ctx kernel_node)) ∧
       (o' = None → del_honest (W:=Kernel) → kernel_rules (i_world s2) = kernel_rules (i_world kernel_node))).
Proof.
  split; [vm_compute; reflexivity|].
  apply (plugin_process_restores kernel_own kernel_rules _ _ _ _ _ "default" "web" "c7" conf_text text_conf kernel_node).
  - split; try reflexivity; discriminate.
  - split; try reflexivity; discriminate.
  - split; reflexivity.
  - split; reflexivity.
  - split; reflexivity.
  - split; [reflexivity|]. split; reflexivity.
  - vm_compute. reflexivity.
  - right. vm_compute. repeat constructor.
  - split; reflexivity.
  - exact kernel_no_crash.
  - exact kernel_sound.
  - exact kernel_fresh.
  - vm_compute. reflexivity.
Defined.

(** A variable that is missing and a version of the future are refused before the
    daemon is asked. *)
Example refused :
  plugin_process (runtime_env "ADD" "") kernel_node = (Ret 1, kernel_node) ∧
  plugin_process (runtime_env "VERSION" "") kernel_node = (Ret 0, kernel_node) ∧
  plugin_process (runtime_env "GET" "") kernel_node = (Ret 1, kernel_node) ∧
  CheckRaw "0.4.0" All = Some "0.4.0"%string.
Proof. vm_compute. repeat split; reflexivity. Qed.

(** ** The documents *)

(** The octets print as digits and are read back. *)
Lemma octets_ok : Forall (λ o, parse_octet (Itoa o) = Some o ∧ lacks "." (Itoa o) = true ∧
  lacks "/" (Itoa o) = true ∧ all_ascii (Itoa o) = true) (seqZ 0 256).
Proof. apply (bool_decide_unpack _). vm_compute. exact I. Qed.

Lemma octet_ok ip i (o := octet ip i) : 0 ≤ i →
  parse_octet (Itoa o) = Some o ∧ lacks "." (Itoa o) = true ∧ lacks "/" (Itoa o) = true ∧ all_ascii (Itoa o) = true.
Proof.
  intros Hi. assert (o ∈ seqZ 0 256) as Ho.
  { apply elem_of_seqZ. subst o. unfold octet. change 255 with (Z.ones 8). rewrite Z.land_ones by lia.
    pose proof (Z.mod_pos_bound (Z.shiftr ip (8 * i)) (2 ^ 8)). lia. }
  pose proof octets_ok as Hall. rewrite Forall_forall in Hall. by apply Hall.
Qed.

Lemma octets_sum ip : 0 ≤ ip < 2 ^ 32 → ((octet ip 3 * 256 + octet ip 2) * 256 + octet ip 1) * 256 + octet ip 0 = ip.
Proof.
  intros Hip. unfold octet. change 255 with (Z.ones 8). rewrite !Z.land_ones, !Z.shiftr_div_pow2 by lia.
  change (2 ^ (8 * 3)) with 16777216. change (2 ^ (8 * 2)) with 65536. change (2 ^ (8 * 1)) with 256.
  change (2 ^ (8 * 0)) with 1. change (2 ^ 8) with 256. change (2 ^ 32) with 4294967296 in Hip.
  Z.div_mod_to_equations. lia.
Qed.

Lemma ParseIP_String ip : 0 ≤ ip < 2 ^ 32 → ParseIP (IP_String (Some ip)) = Some ip.
Proof.
  intros Hip. destruct (octet_ok ip 3) as (P3 & L3 & _); [lia|]. destruct (octet_ok ip 2) as (P2 & L2 & _); [lia|].
  destruct (octet_ok ip 1) as (P1 & L1 & _); [lia|]. destruct (octet_ok ip 0) as (P0 & L0 & _); [lia|].
  unfold ParseIP. rewrite IP_String_v4 by lia.
  change (_ +:+ "." +:+ _)%string with (Itoa (octet ip 3) +:+ String "." (Itoa (octet ip 2) +:+ String "."
    (Itoa (octet ip 1) +:+ String "." (Itoa (octet ip 0)))))%string.
  rewrite !Split_app, Split_lacks by done. rewrite P3, P2, P1, P0. cbn [mbind option_bind]. f_equal. by apply octets_sum.
Qed.

Lemma ParseCIDR_String ip : 0 ≤ ip < 2 ^ 32 → fst <$> ParseCIDR (IPNet_String (Some ip, 32)) = Some ip.
Proof.
  intros Hip. unfold ParseCIDR, IPNet_String. cbn [fst snd]. change ("/" +:+ ?s)%string with (String "/" s).
  rewrite Split_app.
  - change (Split (Itoa 32) "/") with ["32"%string]. cbv beta iota. rewrite ParseIP_String by done. reflexivity.
  - rewrite IP_String_v4 by lia. destruct (octet_ok ip 3) as (_ & _ & L3 & _); [lia|]. destruct (octet_ok ip 2) as (_ & _ & L2 & _); [lia|].
    destruct (octet_ok ip 1) as (_ & _ & L1 & _); [lia|]. destruct (octet_ok ip 0) as (_ & _ & L0 & _); [lia|].
    by rewrite !lacks_app, L3, L2, L1, L0.
Qed.

Lemma IPNet_String_valid ip : ip < 2 ^ 32 → utf8_valid (IPNet_String (Some ip, 32)) = true.
Proof.
  intros Hip. apply all_ascii_valid. unfold IPNet_String. cbn [fst snd]. rewrite IP_String_v4 by done.
  destruct (octet_ok ip 3) as (_ & _ & _ & L3); [lia|]. destruct (octet_ok ip 2) as (_ & _ & _ & L2); [lia|].
  destruct (octet_ok ip 1) as (_ & _ & _ & L1); [lia|]. destruct (octet_ok ip 0) as (_ & _ & _ & L0); [lia|].
  by rewrite !all_ascii_app, L3, L2, L1, L0.
Qed.

(** How the runtime reads a document: its members by name. *)
Definition v_member (name : string) (v : jvalue) : option jvalue :=
  match v with VObj l => list_to_map (M:=gmap string jvalue) l !! name | _ => None end.
Definition v_text (v : jvalue) : option string := match v with VStr s => Some s | _ => None end.
Definition v_first (v : jvalue) : option jvalue := match v with VArr (x :: _) => Some x | _ => None end.

(** The address in a result: in the list of addresses since 0.3.0, before as ip4. *)
Definition result_address (version : string) (v : jvalue) : option Z :=
  a ← (if bool_decide (version ∈ ["0.3.0"; "0.3.1"]%string)
       then ips ← v_member "ips" v; ip ← v_first ips; v_member "address" ip
       else ip ← v_member "ip4" v; v_member "ip" ip);
  t ← v_text a; fst <$> ParseCIDR t.

(** The error in a document. *)
Definition result_error (v : jvalue) : option cni_error :=
  c ← v_member "code" v; m ← v_member "msg" v ≫= v_text;
  match c with
  | VNum lit => n ← parse_digits 10 0 lit; Some (mkCniError n m (default ""%string (v_member "details" v ≫= v_text)))
  | _ => None
  end.

(** C24: what the plugin prints can be read: for every address and every version it
    accepts, the result is one JSON document that carries the address in the place of
    that version of the specification, and an error is one that carries its code,
    message and details, whatever characters they have. *)
Theorem documents_read_back {W} `{!Stdio W} (ip : Z) (version : string) (e : cni_error) (w : W) :
  0 ≤ ip < 2 ^ 32 → version = ""%string ∨ version ∈ All → Code e = 1 ∨ Code e = 100 →
  utf8_valid (Msg e) = true → utf8_valid (Details e) = true →
  (∃ t, PrintResult (CniTypes:=typeswrapper_New) (Some ip, 32) version w = Stdout_Write t w ∧
     go_parse t ≫= result_address version = Some ip) ∧
  go_parse (json_indent "" (cni_error_json e)) ≫= result_error = Some e.
Proof.
  intros Hip Hv Hcode Hm Hd. split.
  - cbn [PrintResult typeswrapper_New]. unfold GetAsVersion, result_current, result_020, result_address.
    generalize (IPNet_String_valid ip (proj2 Hip)), (ParseCIDR_String ip Hip). generalize (IPNet_String (Some ip, 32)). intros a Ha <-.
    case_bool_decide as Hnew; [|rewrite bool_decide_true by (clear -Hv Hnew; unfold All in Hv; set_solver)];
      (eexists; split; [reflexivity|]); by rewrite go_parse_indent by (simpl; by rewrite Ha).
  - destruct e as [code msg details]. simpl in Hcode, Hm, Hd. unfold cni_error_json. cbn [Code Msg Details].
    rewrite go_parse_indent by (case_bool_decide; simpl; by rewrite ?Hm, ?Hd).
    case_bool_decide as Hdet; [subst details|]; destruct Hcode as [-> | ->]; reflexivity.
Qed.

Lemma documents_read_back_witness :
  (∃ t, PrintResult (CniTypes:=typeswrapper_New (W:=Kernel)) (Some 167837705, 32) "0.3.1" node_kernel =
     Stdout_Write t node_kernel ∧ go_parse t ≫= result_address "0.3.1" = Some 167837705) ∧
  go_parse (json_indent "" (cni_error_json (mkCniError 100 "a <b>" ""))) ≫= result_error = Some (mkCniError 100 "a <b>" "").
Proof.
  apply (documents_read_back 167837705 "0.3.1" (mkCniError 100 "a <b>" "") node_kernel).
  - lia.
  - right. vm_compute. repeat constructor.
  - by right.
  - reflexivity.
  - reflexivity.
Defined.
