(* ===== verification/K8sDiscovery.v ===== *)
(** * Discovering pods: pkg/k8sapi/discovery.go

    The controller's two maps, kept from the events of the informer, whose cache
    ([indexer]) and queue belong to client-go and stay open ([Informer]).  Locks
    are not modelled: one worker processes the queue, and the readers copy a map
    under its lock. *)
From S2P Require Import Prelude GoStd DataStore Interfaces.

Open Scope Z_scope.

Definition cniPodName : string := "aws-node".
Definition NamespaceSystem : string := "kube-system".
Definition ErrInformerNotSynced : error := EVar "ErrInformerNotSynced" "discovery: informer not synced".

(** [v1.Pod]: what the controller reads of it. *)
Record Pod := mkPod {
  GetName : string;
  GetNamespace : string;
  GetUID : string;
  NodeName : string;
  HostNetwork : bool;
  ContainerStatuses : list string;
  Status_PodIP : string;
}.

(** What the cache holds under a key: a pod, or an object of another kind. *)
Inductive object : Type :=
| ObjPod (pod : Pod)
| ObjOther.

Record Controller := mkController {
  workerPods : gmap string K8SPodInfo;
  cniPods : gmap string string;
  myNodeName : string;
  synced : bool;
}.

Definition NewController `{!Environ} : Controller := mkController ∅ ∅ (Getenv "MY_NODE_NAME") false.

(** The informer's cache, and its queue; [queue_Get] blocks until there is a key,
    and tells that the queue was shut down by [None]. *)
Class Informer (W : Type) : Type := {
  GetByKey : string → ext W (option object * option error);
  queue_Get : ext W (option string);
  queue_Done : string → ext W unit;
  queue_Forget : string → ext W unit;
  queue_NumRequeues : string → ext W Z;
  queue_AddRateLimited : string → ext W unit;
}.

Record K8sSt (W : Type) := mkK8sSt { k_ctrl : Controller; k_world : W }.
Arguments mkK8sSt {W}.
Arguments k_ctrl {W}.
Arguments k_world {W}.

(** [strings.HasPrefix(key, metav1.NamespaceSystem+"/"+cniPodName)]. *)
Definition is_cni_key (key : string) : bool := HasPrefix key (NamespaceSystem +:+ "/" +:+ cniPodName).

Definition set_workerPods (m : gmap string K8SPodInfo) (c : Controller) : Controller :=
  mkController m (cniPods c) (myNodeName c) (synced c).
Definition set_cniPods (m : gmap string string) (c : Controller) : Controller :=
  mkController (workerPods c) m (myNodeName c) (synced c).

Section controller.
Context {W : Type} `{!World W, !Informer W}.

Abbreviation KM := (M (K8sSt W)).

Definition kworld {A} (m : M W A) : KM A := zoom k_world (λ w s, mkK8sSt (k_ctrl s) w) m.
Definition ctrl {A} (f : Controller → A) : KM A := gets (f ∘ k_ctrl).
Definition upd_ctrl (f : Controller → Controller) : KM unit :=
  modify (λ s, mkK8sSt (f (k_ctrl s)) (k_world s)).

Definition GetCNIPods : KM (list string) :=
  m ← ctrl cniPods;
  l ← kworld (range m);
  mret (fst <$> l).

Definition K8SGetLocalPodIPs : KM (list K8SPodInfo * option error) :=
  s ← ctrl synced;
  if negb s then mret ([], Some ErrInformerNotSynced)
  else
    m ← ctrl workerPods;
    l ← kworld (range m);
    mret (snd <$> l, None).

Definition pod_info (pod : Pod) : K8SPodInfo :=
  mkK8SPodInfo (GetName pod) (GetNamespace pod) (default ""%string (head (ContainerStatuses pod)))
    (Status_PodIP pod) (GetUID pod).

(** [handlePodUpdate] once the cache has answered with [obj]. *)
Definition update_pod (key : string) (obj : option object) : KM (option error) :=
  match obj with
  | None =>
      upd_ctrl (λ c, set_workerPods (delete key (workerPods c)) c) ;;
      (if is_cni_key key then upd_ctrl (λ c, set_cniPods (delete key (cniPods c)) c) else mret tt) ;;
      mret None
  | Some ObjOther => mret (Some (EStr "received a non-pod object update"))
  | Some (ObjPod pod) =>
      me ← ctrl myNodeName;
      (if bool_decide (me = NodeName pod) && negb (HostNetwork pod) then
         upd_ctrl (λ c, set_workerPods (<[key := pod_info pod]> (workerPods c)) c)
       else if is_cni_key key then
         upd_ctrl (λ c, set_cniPods (<[GetName pod := GetName pod]> (cniPods c)) c)
       else mret tt) ;;
      mret None
  end.

Definition handlePodUpdate (key : string) : KM (option error) :=
  '(obj, err) ← kworld (call (GetByKey key));
  match err with
  | Some e => mret (Some e)
  | None => update_pod key obj
  end.

Definition handleErr (err : option error) (key : string) : KM unit :=
  match err with
  | None => kworld (call (queue_Forget key))
  | Some _ =>
      n ← kworld (call (queue_NumRequeues key));
      if bool_decide (n < 5) then kworld (call (queue_AddRateLimited key))
      else kworld (call (queue_Forget key))
  end.

(** [queue.Done(key)] is deferred. *)
Definition processNextItem : KM bool :=
  item ← kworld (call queue_Get);
  match item with
  | None => mret false
  | Some key =>
      err ← handlePodUpdate key;
      handleErr err key ;;
      kworld (call (queue_Done key)) ;;
      mret true
  end.

(** [n] turns of [runWorker]; it ends early when the queue is shut down. *)
Fixpoint runWorker (n : nat) : KM unit :=
  match n with
  | O => mret tt
  | S n =>
      more ← processNextItem;
      if more : bool then runWorker n else mret tt
  end.

(** [run], once the caches are synced. *)
Definition run (n : nat) : KM unit :=
  upd_ctrl (λ c, mkController (workerPods c) (cniPods c) (myNodeName c) true) ;;
  runWorker n.

End controller.

(** ** Theorems *)

(** The record of a pod that runs on the node [me] in the pod network. *)
Definition local_pod (me : string) (o : object) : option K8SPodInfo :=
  match o with
  | ObjPod pod => if bool_decide (me = NodeName pod) && negb (HostNetwork pod) then Some (pod_info pod) else None
  | ObjOther => None
  end.

Section theorems.
Context {W : Type} `{!World W} `{!WorldOk W} `{!Informer W}.

Lemma wp_ctrl {A} E (f : Controller → A) Q (c : Controller) (w : W) :
  Q (f c) (mkK8sSt c w) → wp E (ctrl f) Q (mkK8sSt c w).
Proof. done. Qed.

Lemma wp_upd_ctrl E f Q (c : Controller) (w : W) :
  Q tt (mkK8sSt (f c) w) → wp E (upd_ctrl f) Q (mkK8sSt c w).
Proof. done. Qed.

Ltac wp_hook ::=
  lazymatch goal with
  | |- wp _ (ctrl _) _ _ => apply wp_ctrl
  | |- wp _ (upd_ctrl _) _ _ => apply wp_upd_ctrl
  end.

(** The cache holds [api] and answers. *)
Definition settled (api : gmap string object) : Prop :=
  ∀ key (w : W), GetByKey key w = (Some (api !! key, None), w).

(** What an update leaves under its key. *)
Definition updated (me : string) (o : option object) (old : option K8SPodInfo) : option K8SPodInfo :=
  match o with
  | None => None
  | Some o => match local_pod me o with Some i => Some i | None => old end
  end.

Lemma update_spec key obj (c : Controller) (w : W) :
  wp False (update_pod key obj)
    (λ o s', k_world s' = w ∧ myNodeName (k_ctrl s') = myNodeName c ∧ synced (k_ctrl s') = synced c ∧
       (obj ≠ Some ObjOther → o = None) ∧
       ∀ key', workerPods (k_ctrl s') !! key' =
         if decide (key' = key) then updated (myNodeName c) obj (workerPods c !! key)
         else workerPods c !! key') (mkK8sSt c w).
Proof.
  assert (∀ o : option K8SPodInfo, workerPods c !! key = o → ∀ key', workerPods c !! key' =
    if decide (key' = key) then o else workerPods c !! key') as Hsame.
  { intros o Ho key'. by destruct (decide (key' = key)) as [->|]. }
  unfold update_pod. destruct obj as [[pod|]|]; simpl.
  - wp_steps. unfold updated, local_pod. simpl.
    destruct (bool_decide (myNodeName c = NodeName pod) && negb (HostNetwork pod)).
    + wp_steps. simpl. split_and!; try done. intros key'. destruct (decide (key' = key)) as [->|].
      * by rewrite lookup_insert_eq.
      * by rewrite lookup_insert_ne.
    + destruct (is_cni_key key); wp_steps; simpl; split_and!; try done; by apply Hsame.
  - wp_steps. split_and!; try done. by apply Hsame.
  - wp_steps. destruct (is_cni_key key); wp_steps; simpl; split_and!; try done;
      intros key'; destruct (decide (key' = key)) as [->|];
      first [by rewrite lookup_delete_eq | by rewrite lookup_delete_ne].
Qed.

Lemma handle_spec api key (c : Controller) (w : W) :
  settled api →
  wp False (handlePodUpdate key)
    (λ _ s', k_world s' = w ∧ myNodeName (k_ctrl s') = myNodeName c ∧ synced (k_ctrl s') = synced c ∧
       ∀ key', workerPods (k_ctrl s') !! key' =
         if decide (key' = key) then updated (myNodeName c) (api !! key) (workerPods c !! key)
         else workerPods c !! key') (mkK8sSt c w).
Proof.
  intros Hapi. unfold handlePodUpdate. apply wp_bind, wp_zoom. unfold wp at 1, call. simpl. rewrite Hapi. simpl.
  eapply wp_mono; [apply update_spec|]. intros o s' (? & ? & ? & _ & ?). by split_and!.
Qed.

(** [stays me o]: a key whose cached object says nothing about this node. *)
Definition elsewhere (me : string) (o : object) : Prop := local_pod me o = None.

(** the controller's view of the local pods becomes exact: when the keys still
    to be handled cover every difference between its map and the informer's cache,
    and no recorded pod is cached as running elsewhere, then after handling them
    (in any order, any number of times) [K8SGetLocalPodIPs] lists exactly the
    cached pods of this node that are not on the host network, each once. *)
Theorem local_pods_exact (api : gmap string object) (keys : list string) (c : Controller) (w : W) :
  settled api → synced c = true →
  (∀ key, key ∉ keys → workerPods c !! key = api !! key ≫= local_pod (myNodeName c)) →
  (∀ key o, api !! key = Some o → elsewhere (myNodeName c) o → workerPods c !! key = None) →
  wp False (for_loop (λ key, handlePodUpdate key ;; mret tt) keys ;; K8SGetLocalPodIPs)
    (λ r _, r.2 = None ∧ r.1 ≡ₚ snd <$> map_to_list (omap (local_pod (myNodeName c)) api)) (mkK8sSt c w).
Proof.
  intros Hapi Hsync Hout Helse. apply wp_bind.
  set (good := λ (c' : Controller) (dn : list string) (key : string), workerPods c' !! key =
    if decide (key ∈ dn) then api !! key ≫= local_pod (myNodeName c) else workerPods c !! key).
  apply (wp_for_loop _ _ _ (λ dn (s' : K8sSt W), myNodeName (k_ctrl s') = myNodeName c ∧ synced (k_ctrl s') = true ∧
    ∀ key, good (k_ctrl s') dn key)).
  - done.
  - intros dn key rest [c1 w1] _ (Hme & Hs & Hg). simpl in *. apply wp_bind.
    eapply wp_mono; [by apply (handle_spec api)|]. intros o [c2 w2] (_ & Hme2 & Hs2 & Hk). simpl in *. wp_steps.
    simpl. split_and!; [congruence|congruence|]. intros key'. unfold good in *. rewrite Hk, Hme.
    destruct (decide (key' = key)) as [->|Hne].
    + rewrite decide_True by (apply elem_of_app; right; by apply list_elem_of_singleton).
      rewrite Hg. unfold updated. destruct (api !! key) as [o'|] eqn:Ho; simpl; [|done].
      destruct (local_pod (myNodeName c) o') eqn:Hl; [done|]. rewrite (Helse key o' Ho Hl).
      by destruct (decide _).
    + rewrite Hg. apply decide_ext. rewrite elem_of_app, list_elem_of_singleton. naive_solver.
  - intros [c1 w1] (_ & Hs & Hg). simpl in *. unfold K8SGetLocalPodIPs. wp_steps. rewrite Hs. simpl.
    wp_steps. apply wp_zoom. apply wp_range. intros l w2 Hl _. wp_steps. split; [done|]. simpl. rewrite Hl.
    assert (workerPods c1 = omap (local_pod (myNodeName c)) api) as ->; [|done].
    apply map_eq. intros key. rewrite Hg, lookup_omap. destruct (decide (key ∈ keys)); [done|by apply Hout].
Qed.

(** A pod that was recreated elsewhere under its old name, before the controller
    handled the deletion, stays in the map: the update does not look at the UID or
    drop the entry. *)
Theorem moved_pod_stays api key pod i (c : Controller) (w : W) :
  settled api → api !! key = Some (ObjPod pod) → NodeName pod ≠ myNodeName c →
  workerPods c !! key = Some i →
  wp False (handlePodUpdate key) (λ _ s', workerPods (k_ctrl s') !! key = Some i) (mkK8sSt c w).
Proof.
  intros Hapi Hpod Hnode Hold. eapply wp_mono; [by apply (handle_spec api)|]. intros o s' (_ & _ & _ & Hk).
  rewrite Hk, decide_True by done. unfold updated, local_pod. rewrite Hpod, bool_decide_eq_false_2 by done.
  done.
Qed.

(** A CNI pod is recorded under its name and deleted under its key, so that it is
    never removed. *)
Theorem cni_pod_stays api key name (c : Controller) (w : W) :
  settled api → api !! key = None → key ≠ name → cniPods c !! name = Some name →
  wp False (handlePodUpdate key) (λ _ s', cniPods (k_ctrl s') !! name = Some name) (mkK8sSt c w).
Proof.
  intros Hapi Hnone Hne Hold. unfold handlePodUpdate. apply wp_bind, wp_zoom. unfold wp at 1, call. simpl.
  rewrite Hapi, Hnone. simpl. wp_steps. destruct (is_cni_key key); wp_steps; simpl; [|done].
  by rewrite lookup_delete_ne.
Qed.

End theorems.

(** *** Witnesses *)

(** A cache that always holds the same two pods. *)
Definition api_ex : gmap string object :=
  {["default/web" := ObjPod (mkPod "web" "default" "u1" "node-1" false ["c1"] "10.0.0.7");
    "kube-system/aws-node-x" := ObjPod (mkPod "aws-node-x" "kube-system" "u2" "node-1" true ["c2"] "10.0.0.1")]}%string.

#[local] Instance Test_Informer : Informer TestWorld := {
  GetByKey key w := (Some (api_ex !! key, None), w);
  queue_Get w := (Some None, w);
  queue_Done _ w := (Some tt, w);
  queue_Forget _ w := (Some tt, w);
  queue_NumRequeues _ w := (Some 0, w);
  queue_AddRateLimited _ w := (Some tt, w);
}.

Lemma local_pods_exact_witness :
  wp False (for_loop (λ key, handlePodUpdate key ;; mret tt) ["default/web"; "default/gone"]%string ;; K8SGetLocalPodIPs)
    (λ r _, r.2 = None ∧ r.1 ≡ₚ snd <$> map_to_list (omap (local_pod "node-1") api_ex))
    (mkK8sSt (mkController {["default/gone"%string := mkK8SPodInfo "gone" "default" "c9" "10.0.0.9" "u9"]} ∅ "node-1" true)
       (mkTestWorld 0 0)).
Proof.
  apply (local_pods_exact api_ex ["default/web"; "default/gone"]%string
    (mkController {["default/gone"%string := mkK8SPodInfo "gone" "default" "c9" "10.0.0.9" "u9"]} ∅ "node-1" true)).
  - by intros key w.
  - reflexivity.
  - intros key Hk. cbn [workerPods myNodeName]. rewrite lookup_singleton_ne by set_solver.
    unfold api_ex. rewrite lookup_insert_ne by set_solver.
    destruct (decide (key = "kube-system/aws-node-x"%string)) as [->|Hne]; [reflexivity|].
    by rewrite lookup_singleton_ne.
  - intros key o Ho _. cbn [workerPods]. apply lookup_singleton_ne. intros <-. revert Ho. vm_compute. discriminate.
Defined.
