(* ===== verification/PodInformer.v ===== *)
(** * The informer, its queue and the worker: DiscoverK8SPods of
      pkg/k8sapi/discovery.go

    The informer goroutine updates the cache and then calls one of the three
    event handlers, which put the key of the pod on the work queue; the worker
    takes keys off the queue.  The two run concurrently: the worker may read the
    cache between its update and the notification, and a pod may change while the
    worker handles it.  The queue is the vendored
    client-go/util/workqueue/queue.go.  [step] interleaves the goroutines at every
    access to the cache and to the queue. *)
From S2P Require Import Prelude GoStd DataStore Interfaces K8sDiscovery.

Open Scope Z_scope.

(** ** workqueue.Type *)

Record Queue := mkQueue {
  queue : list string;
  dirty : gset string;
  processing : gset string;
  failures : gmap string Z;
  delayed : list string;
}.

Definition NewRateLimitingQueue : Queue := mkQueue [] ∅ ∅ ∅ [].

(** [q.Add(item)]; the queue of the controller is never shut down. *)
Definition Add (item : string) (q : Queue) : Queue :=
  if bool_decide (item ∈ dirty q) then q
  else
    let dirty' := {[item]} ∪ dirty q in
    if bool_decide (item ∈ processing q) then mkQueue (queue q) dirty' (processing q) (failures q) (delayed q)
    else mkQueue (queue q ++ [item]) dirty' (processing q) (failures q) (delayed q).

(** [q.Get()]; it waits while the queue is empty. *)
Definition Get (q : Queue) : option (string * Queue) :=
  match queue q with
  | [] => None
  | item :: rest => Some (item, mkQueue rest (dirty q ∖ {[item]}) ({[item]} ∪ processing q) (failures q) (delayed q))
  end.

Definition Done (item : string) (q : Queue) : Queue :=
  let processing' := processing q ∖ {[item]} in
  if bool_decide (item ∈ dirty q) then mkQueue (queue q ++ [item]) (dirty q) processing' (failures q) (delayed q)
  else mkQueue (queue q) (dirty q) processing' (failures q) (delayed q).

(** [rateLimiter.Forget]. *)
Definition Forget (item : string) (q : Queue) : Queue :=
  mkQueue (queue q) (dirty q) (processing q) (delete item (failures q)) (delayed q).

(** The time of a key that was added with a delay has come. *)
Definition fire (q : Queue) : Queue :=
  match delayed q with
  | [] => q
  | item :: rest => Add item (mkQueue (queue q) (dirty q) (processing q) (failures q) rest)
  end.

(** ** The informer *)

(** The cache of pods and the queue, beside the rest of the world. *)
Record Inf (W : Type) := mkInf { indexer : gmap string Pod; inf_queue : Queue; inf_world : W }.
Arguments mkInf {W}.
Arguments indexer {W}.
Arguments inf_queue {W}.
Arguments inf_world {W}.

#[global] Instance Inf_World {W} `{!World W} : World (Inf W) := {
  w_now s := let '(t, w) := w_now (inf_world s) in (t, mkInf (indexer s) (inf_queue s) w);
  w_sleep d s := mkInf (indexer s) (inf_queue s) (w_sleep d (inf_world s));
  w_range A l s := let '(l', w) := w_range l (inf_world s) in (l', mkInf (indexer s) (inf_queue s) w);
}.

#[global] Instance Inf_ok {W} `{!World W} `{!WorldOk W} : WorldOk (Inf W).
Proof.
  assert (∀ s : Inf W, clock s = clock (inf_world s)) as Hc.
  { intros s. unfold clock. simpl. by destruct (w_now (inf_world s)). }
  split; intros; rewrite ?Hc; simpl.
  - pose proof (range_perm _ l (inf_world w)). by destruct (w_range l (inf_world w)).
  - pose proof (now_mono (inf_world w)). by destruct (w_now (inf_world w)).
  - pose proof (range_mono _ l (inf_world w)). by destruct (w_range l (inf_world w)).
  - by apply sleep_mono.
Qed.

Definition set_queue {W} (q : Queue) (s : Inf W) : Inf W := mkInf (indexer s) q (inf_world s).

(** What the controller of K8sDiscovery.v sees of them. *)
#[global] Instance Inf_Informer {W} : Informer (Inf W) := {
  GetByKey key s := (Some (ObjPod <$> indexer s !! key, None), s);
  queue_Get s :=
    match Get (inf_queue s) with
    | Some (key, q) => (Some (Some key), set_queue q s)
    | None => (None, s)
    end;
  queue_Done key s := (Some tt, set_queue (Done key (inf_queue s)) s);
  queue_Forget key s := (Some tt, set_queue (Forget key (inf_queue s)) s);
  queue_NumRequeues key s := (Some (default 0 (failures (inf_queue s) !! key)), s);
  queue_AddRateLimited key s :=
    let q := inf_queue s in
    (Some tt, set_queue (mkQueue (queue q) (dirty q) (processing q)
       (<[key := default 0 (failures q !! key) + 1]> (failures q)) (delayed q ++ [key])) s);
}.

(** [cache.MetaNamespaceKeyFunc]. *)
Definition MetaNamespaceKeyFunc (pod : Pod) : string :=
  if bool_decide (GetNamespace pod = ""%string) then GetName pod
  else (GetNamespace pod +:+ "/" +:+ GetName pod)%string.

(** What a deletion is notified with: the pod, or only its key when the deletion
    itself was missed. *)
Inductive deleted : Type :=
| DeletedPod (pod : Pod)
| DeletedFinalStateUnknown (key : string).

Definition DeletionHandlingMetaNamespaceKeyFunc (obj : deleted) : string :=
  match obj with
  | DeletedPod pod => MetaNamespaceKeyFunc pod
  | DeletedFinalStateUnknown key => key
  end.

(** The three handlers [DiscoverK8SPods] gives to the informer. *)
Definition AddFunc (obj : Pod) (q : Queue) : Queue := Add (MetaNamespaceKeyFunc obj) q.
Definition UpdateFunc (old new : Pod) (q : Queue) : Queue := Add (MetaNamespaceKeyFunc new) q.
Definition DeleteFunc (obj : deleted) (q : Queue) : Queue := Add (DeletionHandlingMetaNamespaceKeyFunc obj) q.

(** ** The goroutines *)

(** What the informer still has to call. *)
Inductive call_due : Type :=
| DueAdd (obj : Pod)
| DueUpdate (old new : Pod)
| DueDelete (obj : deleted).

Definition due_key (d : call_due) : string :=
  match d with
  | DueAdd obj => MetaNamespaceKeyFunc obj
  | DueUpdate _ new => MetaNamespaceKeyFunc new
  | DueDelete obj => DeletionHandlingMetaNamespaceKeyFunc obj
  end.

Definition notify (d : call_due) : Queue → Queue :=
  match d with
  | DueAdd obj => AddFunc obj
  | DueUpdate old new => UpdateFunc old new
  | DueDelete obj => DeleteFunc obj
  end.

(** Where the worker is in [processNextItem]. *)
Inductive worker : Type :=
| Waiting
| Took (key : string)
| Fetched (key : string) (obj : option object)
| Handled (key : string) (err : option error).

Record Sys (W : Type) := mkSys { y_k : K8sSt (Inf W); y_due : option call_due; y_worker : worker }.
Arguments mkSys {W}.
Arguments y_k {W}.
Arguments y_due {W}.
Arguments y_worker {W}.

Section system.
Context {W : Type} `{!World W}.

Definition on_inf (f : Inf W → Inf W) (k : K8sSt (Inf W)) : K8sSt (Inf W) := mkK8sSt (k_ctrl k) (f (k_world k)).
Definition on_queue (f : Queue → Queue) : K8sSt (Inf W) → K8sSt (Inf W) :=
  on_inf (λ i, set_queue (f (inf_queue i)) i).
Definition on_cache (f : gmap string Pod → gmap string Pod) : K8sSt (Inf W) → K8sSt (Inf W) :=
  on_inf (λ i, mkInf (f (indexer i)) (inf_queue i) (inf_world i)).

(** The cache is updated before the handler is called ([Process] of
    NewIndexerInformer), and the worker starts once the cache is synced. *)
Inductive step : Sys W → Sys W → Prop :=
| step_store k wk pod :
    step (mkSys k None wk)
      (mkSys (on_cache <[MetaNamespaceKeyFunc pod := pod]> k)
         (Some (match indexer (k_world k) !! MetaNamespaceKeyFunc pod with
                | Some old => DueUpdate old pod
                | None => DueAdd pod
                end)) wk)
| step_delete k wk obj :
    step (mkSys k None wk)
      (mkSys (on_cache (delete (DeletionHandlingMetaNamespaceKeyFunc obj)) k) (Some (DueDelete obj)) wk)
| step_notify k wk d : step (mkSys k (Some d) wk) (mkSys (on_queue (notify d) k) None wk)
| step_timer k d wk : step (mkSys k d wk) (mkSys (on_queue fire k) d wk)
| step_sync c i d :
    step (mkSys (mkK8sSt c i) d Waiting)
      (mkSys (mkK8sSt (mkController (workerPods c) (cniPods c) (myNodeName c) true) i) d Waiting)
| step_get k d key q :
    synced (k_ctrl k) = true → Get (inf_queue (k_world k)) = Some (key, q) →
    step (mkSys k d Waiting) (mkSys (on_inf (set_queue q) k) d (Took key))
| step_fetch k d key :
    step (mkSys k d (Took key)) (mkSys k d (Fetched key (ObjPod <$> indexer (k_world k) !! key)))
| step_update k d key obj err k' :
    k ⊢ update_pod key obj ⇓ err ⊣ k' →
    step (mkSys k d (Fetched key obj)) (mkSys k' d (Handled key err))
| step_done k d key err k' :
    k ⊢ handleErr err key ⇓ tt ⊣ k' →
    step (mkSys k d (Handled key err)) (mkSys (on_queue (Done key) k') d Waiting).

(** The controller of a node when nothing has been seen yet. *)
Definition initial (me : string) (w : W) : Sys W :=
  mkSys (mkK8sSt (mkController ∅ ∅ me false) (mkInf ∅ NewRateLimitingQueue w)) None Waiting.

(** *** The invariant *)

(** The record of [key] is right as far as the cache says: a local pod is recorded
    with its data, a deleted one is not.  A cached pod that is not local says
    nothing about the record. *)
Definition listed (c : Controller) (cache : gmap string Pod) (key : string) : Prop :=
  match cache !! key with
  | None => workerPods c !! key = None
  | Some pod =>
      match local_pod (myNodeName c) (ObjPod pod) with
      | Some i => workerPods c !! key = Some i
      | None => True
      end
  end.

(** The key the worker is busy with. *)
Definition busy (wk : worker) : option string :=
  match wk with
  | Waiting => None
  | Took key | Fetched key _ | Handled key _ => Some key
  end.

(** The record of [key] is right, or the worker will make it right. *)
Definition attended (k : K8sSt (Inf W)) (wk : worker) (key : string) : Prop :=
  match wk with
  | Took key' => key' = key ∨ listed (k_ctrl k) (indexer (k_world k)) key
  | Fetched key' obj =>
      if decide (key' = key) then obj = ObjPod <$> indexer (k_world k) !! key
      else listed (k_ctrl k) (indexer (k_world k)) key
  | _ => listed (k_ctrl k) (indexer (k_world k)) key
  end.

Record queue_ok (q : Queue) (wk : worker) : Prop := {
  queue_pending : ∀ key, key ∈ queue q ↔ key ∈ dirty q ∧ key ∉ processing q;
  queue_once : NoDup (queue q);
  queue_busy : ∀ key, key ∈ processing q ↔ busy wk = Some key;
}.

(** A key that is neither dirty nor about to be notified is attended to. *)
Record inv (y : Sys W) : Prop := {
  inv_queue : queue_ok (inf_queue (k_world (y_k y))) (y_worker y);
  inv_pods : match y_worker y with
             | Fetched _ obj => obj ≠ Some ObjOther
             | Handled _ err => err = None
             | _ => True
             end;
  inv_attended : ∀ key, key ∉ dirty (inf_queue (k_world (y_k y))) → (due_key <$> y_due y ≠ Some key) →
    attended (y_k y) (y_worker y) key;
}.

Lemma Add_ok key q wk : queue_ok q wk → queue_ok (Add key q) wk.
Proof.
  intros [Hp Ho Hb]. unfold Add. case_bool_decide as Hd; [done|]. case_bool_decide as Hpr; split; simpl; try done.
  - intros key'. rewrite Hp. set_solver.
  - intros key'. rewrite elem_of_app, list_elem_of_singleton, Hp. set_solver.
  - apply NoDup_app. split_and!; [done| |apply NoDup_singleton].
    intros key' Hin ->%list_elem_of_singleton. apply Hp in Hin as [? _]. done.
Qed.

Lemma Add_dirty key q : dirty (Add key q) = {[key]} ∪ dirty q.
Proof. unfold Add. repeat case_bool_decide; simpl; set_solver. Qed.

Lemma Get_ok q key q' : queue_ok q Waiting → Get q = Some (key, q') →
  queue_ok q' (Took key) ∧ dirty q' = dirty q ∖ {[key]} ∧ key ∈ dirty q ∧ queue q = key :: queue q'.
Proof.
  intros [Hp Ho Hb] Hget. unfold Get in Hget. destruct (queue q) as [|item rest] eqn:Hq; [done|].
  injection Hget as -> <-. apply NoDup_cons in Ho as [Hnin Ho].
  assert (∀ k, k ∉ processing q) as Hnone by (intros k Hk; by apply Hb in Hk).
  assert (key ∈ dirty q) as Hkd by (apply (Hp key); by left).
  split_and!; try done. split; simpl; [|done|].
  - intros k. pose proof (Hp k) as Hpk. rewrite elem_of_cons in Hpk.
    rewrite elem_of_difference, elem_of_union, !elem_of_singleton. destruct (decide (k = key)) as [->|]; [tauto|].
    specialize (Hnone k). tauto.
  - intros k. rewrite elem_of_union, elem_of_singleton. specialize (Hnone k). naive_solver.
Qed.

Lemma Done_ok q key err : queue_ok q (Handled key err) → queue_ok (Done key q) Waiting.
Proof.
  intros [Hp Ho Hb]. simpl in Hb. unfold Done. cbn zeta.
  assert (∀ k, k ∉ processing q ∖ {[key]}) as Hnone.
  { intros k. rewrite elem_of_difference, elem_of_singleton, Hb. naive_solver. }
  case_bool_decide as Hd; split; simpl; try done.
  - intros k. rewrite elem_of_app, list_elem_of_singleton, Hp. specialize (Hnone k).
    rewrite elem_of_difference, elem_of_singleton in *. destruct (decide (k = key)) as [->|]; [|tauto]. tauto.
  - apply NoDup_app. split_and!; [done| |apply NoDup_singleton].
    intros k Hin ->%list_elem_of_singleton. apply Hp in Hin as [_ Hin]. apply Hin, Hb. done.
  - intros k. specialize (Hnone k). naive_solver.
  - intros k. rewrite Hp. specialize (Hnone k). rewrite elem_of_difference, elem_of_singleton in *.
    destruct (decide (k = key)) as [->|]; [|tauto]. tauto.
  - intros k. specialize (Hnone k). naive_solver.
Qed.

Lemma fire_ok q wk : queue_ok q wk → queue_ok (fire q) wk ∧ dirty q ⊆ dirty (fire q).
Proof.
  intros Hq. unfold fire. destruct (delayed q) as [|item rest]; [done|]. split.
  - apply Add_ok. destruct Hq. by split.
  - rewrite Add_dirty. simpl. set_solver.
Qed.

(** An update of the cache under [key] says nothing about other keys. *)
Lemma attended_other k wk key f key' :
  key' ≠ key → (∀ m : gmap string Pod, f m !! key' = m !! key') →
  attended k wk key' → attended (on_cache f k) wk key'.
Proof.
  intros Hne Hf. unfold attended, listed, on_cache, on_inf. simpl. by destruct wk; rewrite ?Hf.
Qed.

Lemma handleErr_none key (k : K8sSt (Inf W)) : handleErr None key k = (Ret tt, on_queue (Forget key) k).
Proof. by destruct k as [c []]. Qed.

Lemma step_inv y y' : step y y' → inv y → inv y'.
Proof.
  destruct 1 as [k wk pod|k wk obj|k wk d|k d wk|c i d|k d key q Hsync Hget|k d key|k d key obj err k' Hrun|
                 k d key err k' Hrun]; intros [Hq Hpods Hat]; simpl in *.
  - split; simpl; [done|done|]. intros key Hd Hdue.
    assert (key ≠ MetaNamespaceKeyFunc pod) as Hne by (intros ->; by destruct (indexer _ !! _)).
    apply attended_other with (MetaNamespaceKeyFunc pod); [done| |by apply Hat]. intros m. by apply lookup_insert_ne.
  - split; simpl; [done|done|]. intros key Hd Hdue.
    assert (key ≠ DeletionHandlingMetaNamespaceKeyFunc obj) as Hne by congruence.
    apply attended_other with (DeletionHandlingMetaNamespaceKeyFunc obj); [done| |by apply Hat].
    intros m. by apply lookup_delete_ne.
  - assert (∀ q, notify d q = Add (due_key d) q) as Hn by (intros; by destruct d).
    split; simpl; [rewrite Hn; by apply Add_ok|done|]. rewrite Hn, Add_dirty. intros key Hd _.
    apply (Hat key); [set_solver|]. simpl. intros [= Heq]. set_solver.
  - destruct (fire_ok _ _ Hq) as [Hq' Hsub]. split; simpl; [done|done|]. intros key Hd. apply Hat. set_solver.
  - by split.
  - destruct (Get_ok _ _ _ Hq Hget) as (Hq' & Hd' & _). split; simpl; [done|done|]. rewrite Hd'.
    intros key' Hd Hdue. destruct (decide (key = key')) as [->|Hne]; [by left|]. right. apply (Hat key'); set_solver.
  - split; simpl; [by destruct Hq|by destruct (_ !! _)|]. intros key' Hd Hdue. destruct (decide (key = key')) as [->|Hne]; [done|].
    by destruct (Hat key' Hd Hdue).
  - destruct k as [c i]. pose proof (wp_elim _ _ _ _ _ _ (update_spec key obj c i) Hrun) as (Hw & Hme & _ & Herr & Hk).
    destruct k' as [c' i']. simpl in *. subst i'. split; simpl; [by destruct Hq|by apply Herr|].
    intros key' Hd Hdue. pose proof (Hat key' Hd Hdue) as Ha. unfold listed in *. simpl in *. rewrite Hk, Hme.
    destruct (decide (key = key')) as [->|Hne]; [|by rewrite decide_False by congruence].
    rewrite decide_True by done. subst obj. unfold updated. destruct (indexer i !! key') as [p|]; simpl; [|done].
    by destruct (bool_decide (myNodeName c = NodeName p) && negb (HostNetwork p)).
  - subst err. rewrite handleErr_none in Hrun. injection Hrun as <-. split; simpl; [|done|].
    + eapply Done_ok. destruct Hq. by split.
    + intros key' Hd. apply Hat. unfold Done in Hd. by case_bool_decide.
Qed.

Lemma reach_inv me w y : rtc step (initial me w) y → inv y.
Proof.
  intros Hr. assert (inv (initial me w)) as H0.
  { split; simpl; [split; simpl; [set_solver|apply NoDup_nil_2|set_solver]|done|]. done. }
  revert H0. induction Hr as [|y1 y2 y3 Hs _ IH]; [done|]. intros H1. apply IH. by eapply step_inv.
Qed.

(** *** The worker's turns are runs of [processNextItem] *)

Abbreviation q_of k := (inf_queue (k_world (W:=Inf W) k)).
Abbreviation cache_of k := (indexer (k_world (W:=Inf W) k)).

Lemma processNextItem_steps (k : K8sSt (Inf W)) d key q :
  synced (k_ctrl k) = true → Get (q_of k) = Some (key, q) → key ∉ dirty q →
  ∃ k', k ⊢ processNextItem ⇓ true ⊣ k' ∧ rtc step (mkSys k d Waiting) (mkSys k' d Waiting) ∧
    queue (q_of k') = queue q ∧ cache_of k' = cache_of k ∧ synced (k_ctrl k') = true ∧
    myNodeName (k_ctrl k') = myNodeName (k_ctrl k).
Proof.
  destruct k as [c i]. intros Hsync Hget Hnd. cbn [k_world k_ctrl] in *.
  destruct (wp_run _ _ _ (update_spec key (ObjPod <$> indexer i !! key) c (set_queue q i)))
    as (err & [c2 i2] & Hrun & Hw & Hme & Hs & Herr & _). cbn [k_world k_ctrl] in *. subst i2.
  assert (err = None) as -> by (apply Herr; by destruct (indexer i !! key)).
  exists (on_queue (Done key) (on_queue (Forget key) (mkK8sSt c2 (set_queue q i)))). split_and!.
  - assert (mkK8sSt c i ⊢ kworld (call queue_Get) ⇓ Some key ⊣ mkK8sSt c (set_queue q i)) as H1.
    { unfold kworld, zoom, call. cbn [queue_Get Inf_Informer k_world k_ctrl]. by rewrite Hget. }
    unfold processNextItem. rewrite (run_bind _ _ _ _ _ H1). cbn beta iota.
    assert (mkK8sSt c (set_queue q i) ⊢ handlePodUpdate key ⇓ None ⊣ mkK8sSt c2 (set_queue q i)) as H2 by exact Hrun.
    by rewrite (run_bind _ _ _ _ _ H2).
  - eapply rtc_l; [by eapply step_get|]. eapply rtc_l; [apply step_fetch|].
    eapply rtc_l; [by apply step_update|]. apply rtc_once, step_done, handleErr_none.
  - simpl. unfold Done. simpl. by rewrite bool_decide_eq_false_2.
  - done.
  - simpl. congruence.
  - done.
Qed.

(** The worker empties the queue in as many turns as it has keys. *)
Lemma drain_steps n : ∀ k : K8sSt (Inf W),
  inv (mkSys k None Waiting) → synced (k_ctrl k) = true → length (queue (q_of k)) = n →
  ∃ k', k ⊢ runWorker n ⇓ tt ⊣ k' ∧ inv (mkSys k' None Waiting) ∧ queue (q_of k') = [] ∧
    cache_of k' = cache_of k ∧ synced (k_ctrl k') = true ∧ myNodeName (k_ctrl k') = myNodeName (k_ctrl k).
Proof.
  induction n as [|n IH]; intros k Hinv Hsync Hlen.
  { exists k. apply nil_length_inv in Hlen. done. }
  destruct (Get (q_of k)) as [[key q]|] eqn:Hget; [|unfold Get in Hget; by destruct (queue (q_of k))].
  destruct (Get_ok _ _ _ (inv_queue _ Hinv) Hget) as (_ & Hd & _ & Hq). cbn [y_k] in Hd, Hq.
  destruct (processNextItem_steps k None key q) as (k1 & Hrun & Hsteps & Hq1 & Hc1 & Hs1 & Hm1);
    [done|done|rewrite Hd; set_solver|].
  destruct (IH k1) as (k' & Hrun' & Hinv' & ? & Hc' & ? & Hm'); [|done|rewrite Hq1; rewrite Hq in Hlen; by injection Hlen|].
  { clear -Hsteps Hinv. revert Hinv. induction Hsteps as [|y1 y2 y3 Hs _ IH]; [done|].
    intros H1. apply IH. by eapply step_inv. }
  exists k'. split_and!; [|done|done|congruence|done|congruence].
  simpl. by rewrite (run_bind _ _ _ _ _ Hrun).
Qed.

(** The local pods of the cache, and the record when every key is right. *)
Definition local_pods (me : string) (cache : gmap string Pod) : gmap string K8SPodInfo :=
  omap (local_pod me ∘ ObjPod) cache.

Lemma listed_all (c : Controller) (cache : gmap string Pod) :
  (∀ key, listed c cache key) →
  ∃ stale, workerPods c = local_pods (myNodeName c) cache ∪ stale ∧
    ∀ key i, stale !! key = Some i →
      ∃ pod, cache !! key = Some pod ∧ local_pod (myNodeName c) (ObjPod pod) = None.
Proof.
  intros Hl. exists (filter (λ x, local_pods (myNodeName c) cache !! x.1 = None) (workerPods c)). split.
  - apply map_eq. intros key. specialize (Hl key). unfold listed in Hl. rewrite lookup_union.
    assert (local_pods (myNodeName c) cache !! key = cache !! key ≫= local_pod (myNodeName c) ∘ ObjPod) as Hk
      by apply lookup_omap.
    rewrite Hk. destruct (cache !! key) as [pod|]; cbn [mbind option_bind compose] in *.
    + destruct (local_pod (myNodeName c) (ObjPod pod)) as [i|]; [rewrite Hl; by destruct (filter _ _ !! key)|].
      rewrite (left_id_L None _). destruct (workerPods c !! key) as [i|] eqn:Hi; symmetry.
      * by apply map_lookup_filter_Some.
      * apply map_lookup_filter_None. by left.
    + rewrite Hl. symmetry. rewrite (left_id_L None _). apply map_lookup_filter_None. by left.
  - intros key i (Hk & Hn)%map_lookup_filter_Some. simpl in Hn. unfold local_pods in Hn. rewrite lookup_omap in Hn.
    specialize (Hl key). unfold listed in Hl. destruct (cache !! key) as [pod|]; [|congruence]. by exists pod.
Qed.

(** C33: the controller's view of the local pods converges: in every state that the
    informer and the worker can reach by interleaving their steps in any way, once
    the pods stop changing the worker needs as many turns as there are keys in the
    queue, and then [K8SGetLocalPodIPs] lists every cached pod of this node that is
    not on the host network, with its current data, exactly once.  Nothing else is
    listed but pods that were recreated under the same name on another node before
    their deletion was handled: no update is ever lost. *)
Theorem local_pods_converge `{!WorldOk W} me w (k : K8sSt (Inf W)) :
  rtc step (initial me w) (mkSys k None Waiting) → synced (k_ctrl k) = true →
  let node := myNodeName (k_ctrl k) in
  wp False (runWorker (length (queue (q_of k))) ;; K8SGetLocalPodIPs)
    (λ r k', r.2 = None ∧ queue (q_of k') = [] ∧ cache_of k' = cache_of k ∧
       ∃ stale : gmap string K8SPodInfo,
         r.1 ≡ₚ snd <$> map_to_list (local_pods node (cache_of k) ∪ stale) ∧
         ∀ key i, stale !! key = Some i →
           ∃ pod, cache_of k !! key = Some pod ∧ local_pod node (ObjPod pod) = None) k.
Proof.
  intros Hr Hsync node. destruct (drain_steps _ k (reach_inv _ _ _ Hr) Hsync eq_refl)
    as ([c1 i1] & Hrun & Hinv & Hq & Hc & Hs & Hm). cbn [k_world k_ctrl] in *.
  apply wp_bind. unfold wp at 1. rewrite Hrun.
  assert (∀ key, listed c1 (indexer i1) key) as Hl.
  { intros key. apply (inv_attended _ Hinv); [|done]. intros Hd.
    destruct (inv_queue _ Hinv) as [Hp _ Hb]. simpl in *.
    assert (key ∈ queue (inf_queue i1)) as Hin by (apply Hp; split; [done|]; intros ?%Hb; done).
    rewrite Hq in Hin. by apply elem_of_nil in Hin. }
  destruct (listed_all c1 (indexer i1) Hl) as (stale & Hpods & Hst). rewrite Hm, Hc in *. fold node in Hpods, Hst.
  unfold K8SGetLocalPodIPs. apply wp_bind, wp_ctrl. rewrite Hs. simpl. apply wp_bind, wp_ctrl, wp_bind, wp_zoom.
  unfold wp, range, range_list. pose proof (range_perm _ (map_to_list (workerPods c1)) i1) as Hl1.
  cbn [w_range Inf_World k_world] in *. destruct (w_range _ (inf_world i1)) as [l w1]. simpl in *.
  split_and!; [done|done|done|]. exists stale. split; [|done]. by rewrite Hl1, Hpods.
Qed.

End system.

(** ** A pod that changes while the worker handles it *)

Definition web (ip : string) : Pod := mkPod "web" "default" "u1" "node-1" false ["c1"%string] ip.

(** The worker has fetched the pod without its address when the address arrives;
    the old data is recorded, and the key is in the queue again. *)
Lemma race_reached :
  ∃ k, rtc step (initial "node-1" (mkTestWorld 0 0)) (mkSys k None Waiting) ∧ synced (k_ctrl k) = true ∧
    queue (inf_queue (k_world k)) = ["default/web"%string] ∧
    PodIP <$> workerPods (k_ctrl k) !! "default/web"%string = Some ""%string ∧
    Status_PodIP <$> indexer (k_world k) !! "default/web"%string = Some "10.0.0.7"%string ∧
    myNodeName (k_ctrl k) = "node-1"%string.
Proof.
  eexists. split.
  - eapply rtc_l; [apply step_sync|]. eapply rtc_l; [apply (step_store _ _ (web ""))|].
    eapply rtc_l; [apply step_notify|]. eapply rtc_l; [by apply step_get|]. eapply rtc_l; [apply step_fetch|].
    eapply rtc_l; [apply (step_store _ _ (web "10.0.0.7"))|]. eapply rtc_l; [apply step_notify|].
    eapply rtc_l; [by apply step_update|]. eapply rtc_l; [by apply step_done|]. apply rtc_refl.
  - vm_compute. done.
Qed.

Lemma local_pods_converge_witness :
  ∃ k, queue (inf_queue (k_world (W:=Inf TestWorld) k)) = ["default/web"%string] ∧
    wp False (runWorker 1 ;; K8SGetLocalPodIPs)
      (λ r _, ∃ stale : gmap string K8SPodInfo,
         r.1 ≡ₚ snd <$> map_to_list (local_pods "node-1" (indexer (k_world k)) ∪ stale)) k.
Proof.
  destruct race_reached as (k & Hr & Hs & Hq & _ & _ & Hm). exists k. split; [exact Hq|].
  pose proof (local_pods_converge "node-1" (mkTestWorld 0 0) k Hr Hs) as Hc.
  rewrite Hq, Hm in Hc. simpl length in Hc.
  eapply wp_mono; [exact Hc|]. intros r k' (_ & _ & _ & stale & Hst & _). exists stale. exact Hst.
Defined.
