(* ===== verification/EniConfig.v ===== *)
(** * Custom networking: pkg/eniconfig/eniconfig.go

    The controller's cache of ENIConfig resources and the name of the one this
    node uses, kept from the events the operator SDK delivers one at a time. *)
From S2P Require Import Prelude GoStd DataStore Interfaces.

Open Scope Z_scope.

Definition defaultEniConfigAnnotationDef : string := "k8s.amazonaws.com/eniConfig".
Definition defaultEniConfigLabelDef : string := "k8s.amazonaws.com/eniConfig".
Definition eniConfigDefault : string := "default".
Definition envEniConfigAnnotationDef : string := "ENI_CONFIG_ANNOTATION_DEF".
Definition envEniConfigLabelDef : string := "ENI_CONFIG_LABEL_DEF".
Definition ErrNoENIConfig : error := EVar "ErrNoENIConfig" "eniconfig: eniconfig is not available".

Record ENIConfigController := mkENIConfigController {
  eni : gmap string ENIConfigSpec;
  myENI : string;
  eni_myNodeName : string;
  eniConfigAnnotationDef : string;
  eniConfigLabelDef : string;
}.

Record ENIConfigInfo := mkENIConfigInfo {
  info_ENI : gmap string ENIConfigSpec;
  info_MyENI : string;
  info_EniConfigAnnotationDef : string;
  info_EniConfigLabelDef : string;
}.

(** [sdk.Event]: an ENIConfig, a node, or an object of another kind. *)
Inductive event : Type :=
| EvENIConfig (name : string) (spec : ENIConfigSpec) (deleted : bool)
| EvNode (name : string) (annotations labels : gmap string string)
| EvOther.

Section eniconfig.
Context {env : Environ}.

(** A definition set to the empty string counts as not set. *)
Definition getEniConfigAnnotationDef : string :=
  match LookupEnv envEniConfigAnnotationDef with
  | None => defaultEniConfigAnnotationDef
  | Some inputStr =>
      if bool_decide (0 < String.length inputStr)%nat then inputStr else defaultEniConfigAnnotationDef
  end.

Definition getEniConfigLabelDef : string :=
  match LookupEnv envEniConfigLabelDef with
  | None => defaultEniConfigLabelDef
  | Some inputStr =>
      if bool_decide (0 < String.length inputStr)%nat then inputStr else defaultEniConfigLabelDef
  end.

Definition NewENIConfigController : ENIConfigController :=
  mkENIConfigController ∅ eniConfigDefault (Getenv "MY_NODE_NAME") getEniConfigAnnotationDef getEniConfigLabelDef.

Definition set_eni (m : gmap string ENIConfigSpec) (c : ENIConfigController) : ENIConfigController :=
  mkENIConfigController m (myENI c) (eni_myNodeName c) (eniConfigAnnotationDef c) (eniConfigLabelDef c).
Definition set_myENI (v : string) (c : ENIConfigController) : ENIConfigController :=
  mkENIConfigController (eni c) v (eni_myNodeName c) (eniConfigAnnotationDef c) (eniConfigLabelDef c).

(** [Handle] never returns an error. *)
Definition Handle (ev : event) (c : ENIConfigController) : ENIConfigController :=
  match ev with
  | EvENIConfig eniConfigName spec deleted =>
      if deleted then set_eni (delete eniConfigName (eni c)) c
      else set_eni (<[eniConfigName := spec]> (eni c)) c
  | EvNode name annotations labels =>
      if bool_decide (eni_myNodeName c = name) then
        let val :=
          match annotations !! eniConfigAnnotationDef c with
          | Some val => val
          | None =>
              match labels !! eniConfigLabelDef c with
              | Some val => val
              | None => eniConfigDefault
              end
          end in
        if bool_decide (myENI c ≠ val) then set_myENI val c else c
      else c
  | EvOther => c
  end.

Definition Getter (c : ENIConfigController) : ENIConfigInfo :=
  mkENIConfigInfo (eni c) (myENI c) getEniConfigAnnotationDef getEniConfigLabelDef.

Definition MyENIConfig (c : ENIConfigController) : ENIConfigSpec * option error :=
  match eni c !! myENI c with
  | Some myENIConfig => (mkENIConfigSpec (SecurityGroups myENIConfig) (Subnet myENIConfig), None)
  | None => (mkENIConfigSpec [] "", Some ErrNoENIConfig)
  end.

(** ** Theorems *)

(** What the cluster says after some events, the last one first: the ENIConfig of
    a name, and the name chosen for a node. *)
Fixpoint current_config (name : string) (evs : list event) : option ENIConfigSpec :=
  match evs with
  | [] => None
  | EvENIConfig n spec deleted :: evs =>
      if decide (n = name) then (if deleted then None else Some spec) else current_config name evs
  | _ :: evs => current_config name evs
  end.

Definition chosen (annotationDef labelDef : string) (annotations labels : gmap string string) : string :=
  default (default eniConfigDefault (labels !! labelDef)) (annotations !! annotationDef).

Fixpoint current_name (annotationDef labelDef me : string) (evs : list event) : string :=
  match evs with
  | [] => eniConfigDefault
  | EvNode n annotations labels :: evs =>
      if decide (n = me) then chosen annotationDef labelDef annotations labels
      else current_name annotationDef labelDef me evs
  | _ :: evs => current_name annotationDef labelDef me evs
  end.

(** The controller after the events [evs], oldest first. *)
Definition after (evs : list event) : ENIConfigController := foldl (λ c ev, Handle ev c) NewENIConfigController evs.

Lemma after_spec evs :
  let c := after evs in
  eni_myNodeName c = Getenv "MY_NODE_NAME" ∧
  eniConfigAnnotationDef c = getEniConfigAnnotationDef ∧ eniConfigLabelDef c = getEniConfigLabelDef ∧
  myENI c = current_name getEniConfigAnnotationDef getEniConfigLabelDef (Getenv "MY_NODE_NAME") (reverse evs) ∧
  ∀ name, eni c !! name = current_config name (reverse evs).
Proof.
  cbn zeta. induction evs as [|ev evs IH] using rev_ind; [by split_and!|].
  unfold after in *. rewrite foldl_app. simpl. set (c := foldl _ _ evs) in *.
  destruct IH as (Hn & Ha & Hl & Hm & He). rewrite reverse_snoc. destruct ev as [n spec del|n ann lab|]; simpl.
  - destruct del; simpl; split_and!; try done; intros name; destruct (decide (n = name)) as [->|];
      rewrite ?lookup_delete_eq, ?lookup_delete_ne, ?lookup_insert_eq, ?lookup_insert_ne by done; done.
  - rewrite Hn, Ha, Hl. case_bool_decide as Hme.
    + rewrite decide_True by done. unfold chosen.
      assert (∀ v, v = default (default eniConfigDefault (lab !! getEniConfigLabelDef)) (ann !! getEniConfigAnnotationDef) →
        let c' := if bool_decide (myENI c ≠ v) then set_myENI v c else c in
        eni_myNodeName c' = Getenv "MY_NODE_NAME" ∧ eniConfigAnnotationDef c' = getEniConfigAnnotationDef ∧
        eniConfigLabelDef c' = getEniConfigLabelDef ∧ myENI c' = v ∧ eni c' = eni c) as Hv.
      { intros v _. destruct (decide (myENI c = v)) as [<-|Hne];
          [rewrite bool_decide_eq_false_2 by tauto|rewrite bool_decide_eq_true_2 by done]; by split_and!. }
      destruct (Hv _ eq_refl) as (H1 & H2 & H3 & H4 & H5).
      replace (match ann !! getEniConfigAnnotationDef with
               | Some val => val
               | None => match lab !! getEniConfigLabelDef with Some val => val | None => eniConfigDefault end
               end) with (default (default eniConfigDefault (lab !! getEniConfigLabelDef)) (ann !! getEniConfigAnnotationDef))
        by (by destruct (ann !! getEniConfigAnnotationDef), (lab !! getEniConfigLabelDef)).
      split_and!; try done. intros name. rewrite H5. apply He.
    + rewrite decide_False by congruence. split_and!; done.
  - split_and!; done.
Qed.

(** after any sequence of events, [MyENIConfig] gives the ENIConfig that is
    current for this node: the node's last annotations and labels choose the name
    (the annotation before the label before ["default"]), and the result is that
    resource as it was last seen, or [ErrNoENIConfig] when it was never seen or
    was deleted last. *)
Theorem my_eni_config_current (evs : list event) :
  MyENIConfig (after evs) =
  match current_config
          (current_name getEniConfigAnnotationDef getEniConfigLabelDef (Getenv "MY_NODE_NAME") (reverse evs))
          (reverse evs) with
  | Some spec => (spec, None)
  | None => (mkENIConfigSpec [] "", Some ErrNoENIConfig)
  end.
Proof.
  destruct (after_spec evs) as (_ & _ & _ & Hm & He). unfold MyENIConfig. rewrite He, Hm.
  by destruct (current_config _ _) as [[]|].
Qed.

End eniconfig.

Definition env_ex : Environ := {| environ := {["MY_NODE_NAME" := "node-1"]}%string |}.

(** The annotation wins over the label, and a deleted configuration is gone. *)
Example my_eni_config_ex :
  let evs := [EvENIConfig "a" (mkENIConfigSpec ["sg-1"] "s-a") false;
              EvENIConfig "b" (mkENIConfigSpec ["sg-2"] "s-b") false;
              EvNode "node-1" {["k8s.amazonaws.com/eniConfig" := "a"]} {["k8s.amazonaws.com/eniConfig" := "b"]}]%string in
  MyENIConfig (after (env:=env_ex) evs) = (mkENIConfigSpec ["sg-1"%string] "s-a", None) ∧
  MyENIConfig (after (env:=env_ex) (evs ++ [EvENIConfig "a" (mkENIConfigSpec [] "") true])) =
    (mkENIConfigSpec [] "", Some ErrNoENIConfig).
Proof. vm_compute. split; reflexivity. Qed.
