(* ===== verification/DeepCopy.v ===== *)
(** * Deep copies: pkg/apis/crd/v1alpha1/zz_generated.deepcopy.go

    The custom resource ENIConfig as Go has it in memory, with pointers, slices and
    maps in a heap, and the generated functions that copy it, down through the
    metadata of the vendored apimachinery.  A copy is shown to denote the same value
    as its original using only memory that did not exist before.  A slice is the
    location of its elements; [None] is nil. *)
From S2P Require Import Prelude GoStd.

Open Scope nat_scope.

(** ** The types *)

Definition loc : Type := nat.

Record TypeMeta := mkTypeMeta { tm_Kind : string; tm_APIVersion : string }.
Record ListMeta := mkListMeta { lm_SelfLink : string; lm_ResourceVersion : string; lm_Continue : string }.

Record StatusCause := mkStatusCause { sc_Type : string; sc_Message : string; sc_Field : string }.

Record StatusDetails := mkStatusDetails {
  sd_Name : string;
  sd_Group : string;
  sd_Kind : string;
  sd_UID : string;
  sd_Causes : option loc;
  sd_RetryAfterSeconds : Z;
}.

Record Status := mkStatus {
  st_TypeMeta : TypeMeta;
  st_ListMeta : ListMeta;
  st_Status : string;
  st_Message : string;
  st_Reason : string;
  st_Details : option loc;
  st_Code : Z;
}.

(** The elements of [Pending] have only a name.  The status of an ENIConfig is an
    empty struct and left out. *)
Record Initializers := mkInitializers { in_Pending : option loc; in_Result : option loc }.

Record OwnerReference := mkOwnerReference {
  or_APIVersion : string;
  or_Kind : string;
  or_Name : string;
  or_UID : string;
  or_Controller : option loc;
  or_BlockOwnerDeletion : option loc;
}.

(** The fields of [ObjectMeta] without pointers. *)
Record PlainMeta := mkPlainMeta {
  om_Name : string;
  om_GenerateName : string;
  om_Namespace : string;
  om_SelfLink : string;
  om_UID : string;
  om_ResourceVersion : string;
  om_Generation : Z;
  om_CreationTimestamp : Z;
  om_ClusterName : string;
}.

Record ObjectMeta := mkObjectMeta {
  om_plain : PlainMeta;
  om_DeletionTimestamp : option loc;
  om_DeletionGracePeriodSeconds : option loc;
  om_Labels : option loc;
  om_Annotations : option loc;
  om_OwnerReferences : option loc;
  om_Initializers : option loc;
  om_Finalizers : option loc;
}.

Record Spec := mkSpec { spec_SecurityGroups : option loc; spec_Subnet : string }.

Record ENIConfig := mkENIConfig { ec_TypeMeta : TypeMeta; ec_ObjectMeta : ObjectMeta; ec_Spec : Spec }.

Record ENIConfigList := mkENIConfigList { el_TypeMeta : TypeMeta; el_ListMeta : ListMeta; Items : option loc }.

(** ** The heap *)

Inductive cell : Type :=
| CBool (b : bool)
| CInt (n : Z)
| CStrings (l : list string)
| CMap (m : gmap string string)
| CCauses (l : list StatusCause)
| CDetails (d : StatusDetails)
| CStatus (s : Status)
| CInitializers (i : Initializers)
| COwners (l : list OwnerReference)
| CENIConfig (c : ENIConfig)
| CItems (l : list ENIConfig)
| CList (l : ENIConfigList)
| CSpec (s : Spec).

Abbreviation cells := (gmap loc cell).

(** [next] and all later locations are unused. *)
Record Heap := mkHeap { h_cells : cells; h_next : loc }.

Abbreviation HM := (M Heap).

Definition alloc (c : cell) : HM loc := λ h,
  (Ret (h_next h), mkHeap (<[h_next h := c]> (h_cells h)) (S (h_next h))).

(** What kind of cell holds a [B]. *)
Class InCell (B : Type) : Type := { to_cell : B → cell; of_cell : cell → option B; of_to_cell : ∀ b, of_cell (to_cell b) = Some b }.

#[global] Instance bool_cell : InCell bool := {| to_cell := CBool; of_cell c := match c with CBool b => Some b | _ => None end; of_to_cell _ := eq_refl |}.
#[global] Instance Z_cell : InCell Z := {| to_cell := CInt; of_cell c := match c with CInt n => Some n | _ => None end; of_to_cell _ := eq_refl |}.
#[global] Instance strings_cell : InCell (list string) := {| to_cell := CStrings; of_cell c := match c with CStrings l => Some l | _ => None end; of_to_cell _ := eq_refl |}.
#[global] Instance map_cell : InCell (gmap string string) := {| to_cell := CMap; of_cell c := match c with CMap m => Some m | _ => None end; of_to_cell _ := eq_refl |}.
#[global] Instance causes_cell : InCell (list StatusCause) := {| to_cell := CCauses; of_cell c := match c with CCauses l => Some l | _ => None end; of_to_cell _ := eq_refl |}.
#[global] Instance details_cell : InCell StatusDetails := {| to_cell := CDetails; of_cell c := match c with CDetails d => Some d | _ => None end; of_to_cell _ := eq_refl |}.
#[global] Instance status_cell : InCell Status := {| to_cell := CStatus; of_cell c := match c with CStatus s => Some s | _ => None end; of_to_cell _ := eq_refl |}.
#[global] Instance initializers_cell : InCell Initializers := {| to_cell := CInitializers; of_cell c := match c with CInitializers i => Some i | _ => None end; of_to_cell _ := eq_refl |}.
#[global] Instance owners_cell : InCell (list OwnerReference) := {| to_cell := COwners; of_cell c := match c with COwners l => Some l | _ => None end; of_to_cell _ := eq_refl |}.
#[global] Instance eniconfig_cell : InCell ENIConfig := {| to_cell := CENIConfig; of_cell c := match c with CENIConfig x => Some x | _ => None end; of_to_cell _ := eq_refl |}.
#[global] Instance items_cell : InCell (list ENIConfig) := {| to_cell := CItems; of_cell c := match c with CItems l => Some l | _ => None end; of_to_cell _ := eq_refl |}.
#[global] Instance list_cell : InCell ENIConfigList := {| to_cell := CList; of_cell c := match c with CList l => Some l | _ => None end; of_to_cell _ := eq_refl |}.

#[global] Instance spec_cell : InCell Spec := {| to_cell := CSpec; of_cell c := match c with CSpec s => Some s | _ => None end; of_to_cell _ := eq_refl |}.

(** Reading through a pointer. *)
Definition load {B} `{!InCell B} (l : loc) : HM B := λ h,
  match h_cells h !! l ≫= of_cell with
  | Some b => (Ret b, h)
  | None => (Panic "invalid memory address or nil pointer dereference", h)
  end.

(** The three forms of the generated code: a pointer, a slice whose elements are
    copied in turn, and what is copied by assignment.  Nil stays nil; otherwise new
    memory is taken, which is filled before anything else can see it. *)
Definition copy_ptr {B} `{!InCell B} (cp : B → HM B) (p : option loc) : HM (option loc) :=
  match p with
  | None => mret None
  | Some l => b ← load l; b' ← cp b; l' ← alloc (to_cell b'); mret (Some l')
  end.

Fixpoint copy_list {B} (cp : B → HM B) (l : list B) : HM (list B) :=
  match l with
  | [] => mret []
  | x :: l => x' ← cp x; l' ← copy_list cp l; mret (x' :: l')
  end.

Definition assign {B} (b : B) : HM B := mret b.

(** A map entry by entry. *)
Definition copy_map (m : gmap string string) : HM (gmap string string) := mret (list_to_map (map_to_list m)).

(** ** The generated functions *)

(** apimachinery *)
Definition StatusDetails_DeepCopyInto (in_ : StatusDetails) : HM StatusDetails :=
  c ← copy_ptr (B:=list StatusCause) assign (sd_Causes in_);
  mret (mkStatusDetails (sd_Name in_) (sd_Group in_) (sd_Kind in_) (sd_UID in_) c (sd_RetryAfterSeconds in_)).

Definition Status_DeepCopyInto (in_ : Status) : HM Status :=
  d ← copy_ptr StatusDetails_DeepCopyInto (st_Details in_);
  mret (mkStatus (st_TypeMeta in_) (st_ListMeta in_) (st_Status in_) (st_Message in_) (st_Reason in_) d (st_Code in_)).

Definition Initializers_DeepCopyInto (in_ : Initializers) : HM Initializers :=
  p ← copy_ptr (B:=list string) assign (in_Pending in_);
  r ← copy_ptr Status_DeepCopyInto (in_Result in_);
  mret (mkInitializers p r).

Definition OwnerReference_DeepCopyInto (in_ : OwnerReference) : HM OwnerReference :=
  c ← copy_ptr (B:=bool) assign (or_Controller in_);
  b ← copy_ptr (B:=bool) assign (or_BlockOwnerDeletion in_);
  mret (mkOwnerReference (or_APIVersion in_) (or_Kind in_) (or_Name in_) (or_UID in_) c b).

Definition ObjectMeta_DeepCopyInto (in_ : ObjectMeta) : HM ObjectMeta :=
  dt ← copy_ptr (B:=Z) assign (om_DeletionTimestamp in_);
  gp ← copy_ptr (B:=Z) assign (om_DeletionGracePeriodSeconds in_);
  lb ← copy_ptr copy_map (om_Labels in_);
  an ← copy_ptr copy_map (om_Annotations in_);
  ow ← copy_ptr (copy_list OwnerReference_DeepCopyInto) (om_OwnerReferences in_);
  ini ← copy_ptr Initializers_DeepCopyInto (om_Initializers in_);
  fin ← copy_ptr (B:=list string) assign (om_Finalizers in_);
  mret (mkObjectMeta (om_plain in_) dt gp lb an ow ini fin).

(** v1alpha1 *)
Definition Spec_DeepCopyInto (in_ : Spec) : HM Spec :=
  g ← copy_ptr (B:=list string) assign (spec_SecurityGroups in_);
  mret (mkSpec g (spec_Subnet in_)).

Definition ENIConfig_DeepCopyInto (in_ : ENIConfig) : HM ENIConfig :=
  om ← ObjectMeta_DeepCopyInto (ec_ObjectMeta in_);
  sp ← Spec_DeepCopyInto (ec_Spec in_);
  mret (mkENIConfig (ec_TypeMeta in_) om sp).

Definition ENIConfigList_DeepCopyInto (in_ : ENIConfigList) : HM ENIConfigList :=
  it ← copy_ptr (copy_list ENIConfig_DeepCopyInto) (Items in_);
  mret (mkENIConfigList (el_TypeMeta in_) (el_ListMeta in_) it).

(** [DeepCopy] of a pointer that may be nil. *)
Definition ENIConfig_DeepCopy (in_ : option loc) : HM (option loc) := copy_ptr ENIConfig_DeepCopyInto in_.
Definition Spec_DeepCopy (in_ : option loc) : HM (option loc) := copy_ptr Spec_DeepCopyInto in_.
Definition ENIConfigList_DeepCopy (in_ : option loc) : HM (option loc) := copy_ptr ENIConfigList_DeepCopyInto in_.
Definition ENIConfig_DeepCopyObject (in_ : option loc) : HM (option loc) :=
  c ← ENIConfig_DeepCopy in_;
  match c with Some c => mret (Some c) | None => mret None end.
Definition ENIConfigList_DeepCopyObject (in_ : option loc) : HM (option loc) :=
  c ← ENIConfigList_DeepCopy in_;
  match c with Some c => mret (Some c) | None => mret None end.

(** ** What an object denotes

    The value behind the pointers, [None] when one leads nowhere; a struct denotes
    the tuple of its fields. *)

Definition view_base {B} (_ : cells) (b : B) : option B := Some b.

Definition view_ptr {B V} `{!InCell B} (view : cells → B → option V) (c : cells) (p : option loc) : option (option V) :=
  match p with
  | None => Some None
  | Some l => x ← c !! l; b ← of_cell x; v ← view c b; Some (Some v)
  end.

Fixpoint view_list {B V} (view : cells → B → option V) (c : cells) (l : list B) : option (list V) :=
  match l with
  | [] => Some []
  | x :: l => v ← view c x; vs ← view_list view c l; Some (v :: vs)
  end.

Definition view_pair {A B V U} (va : cells → A → option V) (vb : cells → B → option U) (c : cells) (p : A * B) : option (V * U) :=
  v ← va c p.1; u ← vb c p.2; Some (v, u).

Definition StatusDetails_tuple (d : StatusDetails) :=
  ((sd_Name d, sd_Group d, sd_Kind d, sd_UID d, sd_RetryAfterSeconds d), sd_Causes d).
Definition StatusDetails_view (c : cells) (d : StatusDetails) :=
  view_pair view_base (view_ptr (B:=list StatusCause) view_base) c (StatusDetails_tuple d).

Definition Status_tuple (s : Status) :=
  ((st_TypeMeta s, st_ListMeta s, st_Status s, st_Message s, st_Reason s, st_Code s), st_Details s).
Definition Status_view (c : cells) (s : Status) :=
  view_pair view_base (view_ptr StatusDetails_view) c (Status_tuple s).

Definition Initializers_tuple (i : Initializers) := (in_Pending i, in_Result i).
Definition Initializers_view (c : cells) (i : Initializers) :=
  view_pair (view_ptr (B:=list string) view_base) (view_ptr Status_view) c (Initializers_tuple i).

Definition OwnerReference_tuple (o : OwnerReference) :=
  ((or_APIVersion o, or_Kind o, or_Name o, or_UID o), (or_Controller o, or_BlockOwnerDeletion o)).
Definition OwnerReference_view (c : cells) (o : OwnerReference) :=
  view_pair view_base (view_pair (view_ptr (B:=bool) view_base) (view_ptr (B:=bool) view_base)) c (OwnerReference_tuple o).

Definition ObjectMeta_tuple (m : ObjectMeta) :=
  (om_plain m, (om_DeletionTimestamp m, (om_DeletionGracePeriodSeconds m, (om_Labels m, (om_Annotations m,
    (om_OwnerReferences m, (om_Initializers m, om_Finalizers m))))))).
Definition ObjectMeta_view (c : cells) (m : ObjectMeta) :=
  view_pair view_base (view_pair (view_ptr (B:=Z) view_base) (view_pair (view_ptr (B:=Z) view_base)
    (view_pair (view_ptr (B:=gmap string string) view_base) (view_pair (view_ptr (B:=gmap string string) view_base)
    (view_pair (view_ptr (view_list OwnerReference_view)) (view_pair (view_ptr Initializers_view)
    (view_ptr (B:=list string) view_base))))))) c (ObjectMeta_tuple m).

Definition Spec_tuple (s : Spec) := (spec_SecurityGroups s, spec_Subnet s).
Definition Spec_view (c : cells) (s : Spec) :=
  view_pair (view_ptr (B:=list string) view_base) view_base c (Spec_tuple s).

Definition ENIConfig_tuple (e : ENIConfig) := (ec_TypeMeta e, (ec_ObjectMeta e, ec_Spec e)).
Definition ENIConfig_view (c : cells) (e : ENIConfig) :=
  view_pair view_base (view_pair ObjectMeta_view Spec_view) c (ENIConfig_tuple e).

Definition ENIConfigList_tuple (l : ENIConfigList) := ((el_TypeMeta l, el_ListMeta l), Items l).
Definition ENIConfigList_view (c : cells) (l : ENIConfigList) :=
  view_pair view_base (view_ptr (view_list ENIConfig_view)) c (ENIConfigList_tuple l).

(** ** Copies *)

Definition wf (h : Heap) : Prop := ∀ l, h_next h ≤ l → h_cells h !! l = None.

(** Only memory that was unused has been written. *)
Definition grows (h h' : Heap) : Prop := h_cells h ⊆ h_cells h' ∧ h_next h ≤ h_next h'.

#[global] Instance grows_preorder : PreOrder grows.
Proof. split; [by intros h; split|]. intros a b c [H1 ?] [H2 ?]. split; [by etransitivity|lia]. Qed.

(** The memory that was taken on the way from [h] to [h']. *)
Definition taken (h h' : Heap) : cells := filter (λ x, h_next h ≤ x.1) (h_cells h').

Lemma lookup_taken h h' l : taken h h' !! l = if decide (h_next h ≤ l) then h_cells h' !! l else None.
Proof.
  unfold taken. destruct (decide (h_next h ≤ l)).
  - destruct (h_cells h' !! l) eqn:E; [by apply map_lookup_filter_Some|apply map_lookup_filter_None; auto].
  - apply map_lookup_filter_None. right. intros ? _. done.
Qed.

Lemma taken_mono h0 h1 h2 h3 : grows h0 h1 → grows h2 h3 → taken h1 h2 ⊆ taken h0 h3.
Proof.
  intros [_ H1] [H2 _]. apply map_subseteq_spec. intros l x. rewrite !lookup_taken.
  destruct (decide (h_next h1 ≤ l)); [|done]. rewrite decide_True by lia. by apply map_subseteq_spec.
Qed.

(** A function that copies: the result is made of new memory only, and denotes in it
    what the original denotes. *)
Class Deep {A V} (view : cells → A → option V) (cp : A → HM A) : Prop := {
  deep_mono c c' a v : c ⊆ c' → view c a = Some v → view c' a = Some v;
  deep_copy h a v : wf h → view (h_cells h) a = Some v →
    ∃ a' h', h ⊢ cp a ⇓ a' ⊣ h' ∧ wf h' ∧ grows h h' ∧ view (taken h h') a' = Some v;
}.

#[global] Instance deep_assign {B} : Deep (view_base (B:=B)) assign.
Proof.
  split; [done|]. intros h b v Hwf [= ->]. exists v, h. by split_and!.
Qed.

#[global] Instance deep_map : Deep view_base copy_map.
Proof.
  split; [done|]. intros h b v Hwf [= ->]. exists v, h. split_and!; try done. unfold copy_map.
  by rewrite list_to_map_to_list.
Qed.

#[global] Instance deep_pair {A B V U} (va : cells → A → option V) (vb : cells → B → option U) cpa cpb :
  Deep va cpa → Deep vb cpb →
  Deep (view_pair va vb) (λ p, a ← cpa p.1; b ← cpb p.2; mret (a, b)).
Proof.
  intros Ha Hb. split.
  - intros c c' [a b] [v u] Hc. unfold view_pair. cbn [fst snd].
    intros (v' & Hv & (u' & Hu & [= <- <-])%bind_Some)%bind_Some.
    rewrite (deep_mono (view:=va) _ _ _ _ Hc Hv). cbn. by rewrite (deep_mono (view:=vb) _ _ _ _ Hc Hu).
  - intros h [a b] [v u] Hwf. unfold view_pair. cbn [fst snd].
    intros (v' & Hv & (u' & Hu & [= <- <-])%bind_Some)%bind_Some.
    destruct (deep_copy (view:=va) h a v' Hwf Hv) as (a' & h1 & Ea & Hwf1 & Hg1 & Hv1).
    destruct (deep_copy (view:=vb) h1 b u' Hwf1 (deep_mono (view:=vb) _ _ _ _ (proj1 Hg1) Hu)) as (b' & h2 & Eb & Hwf2 & Hg2 & Hu2).
    exists (a', b'), h2. split_and!; [|done|by etransitivity|].
    { unfold mbind, M_bind. rewrite Ea. by rewrite Eb. }
    cbn [fst snd]. rewrite (deep_mono (view:=va) _ (taken h h2) _ _ (taken_mono h h h1 h2 ltac:(done) Hg2) Hv1). cbn.
    by rewrite (deep_mono (view:=vb) _ (taken h h2) _ _ (taken_mono h h1 h2 h2 Hg1 ltac:(done)) Hu2).
Qed.

Lemma view_list_mono {B V} (vb : cells → B → option V) cp : Deep vb cp → ∀ c c' l v,
  c ⊆ c' → view_list vb c l = Some v → view_list vb c' l = Some v.
Proof.
  intros Hb c c' l. induction l as [|x l IH]; intros v Hc; [done|]. cbn [view_list].
  intros (v' & Hv & (u' & Hu & [= <-])%bind_Some)%bind_Some.
  rewrite (deep_mono _ _ _ _ Hc Hv). cbn. by rewrite (IH _ Hc Hu).
Qed.

#[global] Instance deep_list {B V} (vb : cells → B → option V) cp : Deep vb cp → Deep (view_list vb) (copy_list cp).
Proof.
  intros Hb. split; [by eapply view_list_mono|].
  intros h l. revert h. induction l as [|x l IH]; intros h v Hwf; [intros [= <-]; exists [], h; by split_and!|].
  cbn [view_list copy_list]. intros (v' & Hv & (u' & Hu & [= <-])%bind_Some)%bind_Some.
  destruct (deep_copy h x v' Hwf Hv) as (x' & h1 & Ex & Hwf1 & Hg1 & Hv1).
  destruct (IH h1 u' Hwf1) as (l' & h2 & El & Hwf2 & Hg2 & Hu2).
  { eapply view_list_mono; [done|apply Hg1|done]. }
  exists (x' :: l'), h2. split_and!; [|done|by etransitivity|].
  { unfold mbind, M_bind. rewrite Ex. by rewrite El. }
  cbn [view_list]. rewrite (deep_mono _ (taken h h2) _ _ (taken_mono h h h1 h2 ltac:(done) Hg2) Hv1). cbn.
  by rewrite (view_list_mono _ _ Hb _ (taken h h2) _ _ (taken_mono h h1 h2 h2 Hg1 ltac:(done)) Hu2).
Qed.

Lemma alloc_fresh c h :
  wf h → h ⊢ alloc c ⇓ h_next h ⊣ mkHeap (<[h_next h := c]> (h_cells h)) (S (h_next h)) ∧
    wf (mkHeap (<[h_next h := c]> (h_cells h)) (S (h_next h))) ∧
    grows h (mkHeap (<[h_next h := c]> (h_cells h)) (S (h_next h))).
Proof.
  intros Hwf. split; [done|]. split.
  - intros l Hl. simpl in *. rewrite lookup_insert_ne by lia. apply Hwf. lia.
  - split; [|simpl; lia]. apply insert_subseteq, Hwf. lia.
Qed.

#[global] Instance deep_ptr {B V} `{!InCell B} (vb : cells → B → option V) cp : Deep vb cp → Deep (view_ptr vb) (copy_ptr cp).
Proof.
  intros Hb. split.
  - intros c c' [l|] v Hc; [|done]. cbn [view_ptr].
    intros (x & Hx & (b & Hxb & (u & Hu & [= <-])%bind_Some)%bind_Some)%bind_Some.
    rewrite (lookup_weaken _ _ _ _ Hx Hc). cbn. rewrite Hxb. cbn. by rewrite (deep_mono _ _ _ _ Hc Hu).
  - intros h [l|] v Hwf; [|intros [= <-]; exists None, h; by split_and!]. cbn [view_ptr copy_ptr].
    intros (x & Hx & (b & Hxb & (u & Hu & [= <-])%bind_Some)%bind_Some)%bind_Some.
    destruct (deep_copy h b u Hwf Hu) as (b' & h1 & Eb & Hwf1 & Hg1 & Hv1).
    destruct (alloc_fresh (to_cell b') h1 Hwf1) as (El & Hwf2 & Hg2).
    set (h2 := mkHeap (<[h_next h1 := to_cell b']> (h_cells h1)) (S (h_next h1))) in *.
    exists (Some (h_next h1)), h2. split_and!; [|done|by etransitivity|].
    { unfold mbind, M_bind, load. rewrite Hx. cbn. rewrite Hxb, Eb. done. }
    cbn [view_ptr]. rewrite lookup_taken, decide_True by (apply Hg1). change (h_cells h2) with (<[h_next h1 := to_cell b']> (h_cells h1)).
    rewrite lookup_insert_eq. cbn. rewrite of_to_cell. cbn.
    by rewrite (deep_mono _ (taken h h2) _ _ (taken_mono h h h1 h2 ltac:(done) Hg2) Hv1).
Qed.

(** Structs: copied like the tuple of their fields. *)
Lemma deep_struct {A T V} (view : cells → T → option V) (cpT : T → HM T) (to : A → T) (cp : A → HM A) :
  Deep view cpT → (∀ a h t h', h ⊢ cpT (to a) ⇓ t ⊣ h' → ∃ a', to a' = t ∧ h ⊢ cp a ⇓ a' ⊣ h') →
  Deep (λ c a, view c (to a)) cp.
Proof.
  intros Hd Hcp. split.
  - intros c c' a v. apply deep_mono.
  - intros h a v Hwf Hv. destruct (deep_copy h (to a) v Hwf Hv) as (t & h' & E & Hwf' & Hg & Ht).
    destruct (Hcp _ _ _ _ E) as (a' & <- & Ea). eauto 6.
Qed.

(** The struct and the tuple [T] of its fields are copied field by field in the same
    order. *)
Ltac deep_struct_tac T F :=
  eapply (deep_struct _ _ T); [apply _|]; unfold T, F; intros a h t h' E;
  repeat (cbn [fst snd] in *; match goal with
    | H : _ ⊢ mbind _ _ ⇓ _ ⊣ _ |- _ => apply run_bind_inv in H as (? & ? & ? & H)
    | H : _ ⊢ mret _ ⇓ _ ⊣ _ |- _ => injection H as <- <-
    | H : _ ⊢ assign _ ⇓ _ ⊣ _ |- _ => injection H as <- <-
    end);
  eexists; split;
  [|unfold mbind, M_bind; repeat match goal with H : _ ⊢ _ ⇓ _ ⊣ _ |- _ => rewrite H; clear H end; reflexivity];
  reflexivity.

#[global] Instance deep_StatusDetails : Deep StatusDetails_view StatusDetails_DeepCopyInto.
Proof. deep_struct_tac StatusDetails_tuple StatusDetails_DeepCopyInto. Qed.

#[global] Instance deep_Status : Deep Status_view Status_DeepCopyInto.
Proof. deep_struct_tac Status_tuple Status_DeepCopyInto. Qed.

#[global] Instance deep_Initializers : Deep Initializers_view Initializers_DeepCopyInto.
Proof. deep_struct_tac Initializers_tuple Initializers_DeepCopyInto. Qed.

#[global] Instance deep_OwnerReference : Deep OwnerReference_view OwnerReference_DeepCopyInto.
Proof. deep_struct_tac OwnerReference_tuple OwnerReference_DeepCopyInto. Qed.

#[global] Instance deep_ObjectMeta : Deep ObjectMeta_view ObjectMeta_DeepCopyInto.
Proof. deep_struct_tac ObjectMeta_tuple ObjectMeta_DeepCopyInto. Qed.

#[global] Instance deep_Spec : Deep Spec_view Spec_DeepCopyInto.
Proof. deep_struct_tac Spec_tuple Spec_DeepCopyInto. Qed.

#[global] Instance deep_ENIConfig : Deep ENIConfig_view ENIConfig_DeepCopyInto.
Proof. deep_struct_tac ENIConfig_tuple ENIConfig_DeepCopyInto. Qed.

#[global] Instance deep_ENIConfigList : Deep ENIConfigList_view ENIConfigList_DeepCopyInto.
Proof. deep_struct_tac ENIConfigList_tuple ENIConfigList_DeepCopyInto. Qed.

(** C26: [DeepCopyObject] of a list of ENIConfigs always returns, writes only memory
    that was unused, and its result denotes the same list; original and copy share
    nothing: whatever happens to the new memory, the original denotes what it did, and
    whatever happens to the old memory, the copy does. *)
Theorem copy_shares_nothing (p : option loc) v (h : Heap) :
  wf h → view_ptr ENIConfigList_view (h_cells h) p = Some v →
  ∃ p' h', h ⊢ ENIConfigList_DeepCopyObject p ⇓ p' ⊣ h' ∧
    (∀ c, (∀ l, l < h_next h → c !! l = h_cells h' !! l) → view_ptr ENIConfigList_view c p = Some v) ∧
    (∀ c, (∀ l, h_next h ≤ l → c !! l = h_cells h' !! l) → view_ptr ENIConfigList_view c p' = Some v).
Proof.
  intros Hwf Hv. destruct (deep_copy (cp:=ENIConfigList_DeepCopy) h p v Hwf Hv) as (p' & h' & E & _ & [Hg _] & Hv').
  exists p', h'. split; [|split].
  - unfold ENIConfigList_DeepCopyObject, mbind, M_bind. rewrite E. by destruct p'.
  - intros c Hc. apply (deep_mono (cp:=ENIConfigList_DeepCopy) (h_cells h)); [|done]. apply map_subseteq_spec. intros l x Hx.
    rewrite Hc; [by eapply lookup_weaken|]. apply not_ge. intros Hl. by rewrite Hwf in Hx.
  - intros c Hc. apply (deep_mono (cp:=ENIConfigList_DeepCopy) (taken h h')); [|done]. apply map_subseteq_spec. intros l x.
    rewrite lookup_taken. case_decide; [|done]. by rewrite Hc.
Qed.

(** ** A concrete object *)

Definition meta_ex : ObjectMeta :=
  mkObjectMeta (mkPlainMeta "zone-a" "" "" "" "u1" "7" 1 0 "") None None (Some 0) None (Some 1) None (Some 2).
Definition heap_ex : Heap := mkHeap (list_to_map
  [(0, CMap {["k8s.amazonaws.com/eniConfig" := "zone-a"]}); (1, COwners [mkOwnerReference "v1" "Node" "n" "u2" (Some 3) None]);
   (2, CStrings ["f"]); (3, CBool true); (4, CStrings ["sg-1"; "sg-2"]);
   (5, CItems [mkENIConfig (mkTypeMeta "ENIConfig" "v1alpha1") meta_ex (mkSpec (Some 4) "subnet-1")]);
   (6, CList (mkENIConfigList (mkTypeMeta "ENIConfigList" "v1alpha1") (mkListMeta "" "9" "") (Some 5)))]%string) 7.

Lemma wf_ex : wf heap_ex.
Proof. intros l Hl. simpl in *. repeat (rewrite lookup_insert_ne by lia). done. Qed.

Lemma copy_shares_nothing_witness :
  ∃ v p' h', view_ptr ENIConfigList_view (h_cells heap_ex) (Some 6) = Some (Some v) ∧
    heap_ex ⊢ ENIConfigList_DeepCopyObject (Some 6) ⇓ p' ⊣ h' ∧
    (∀ c, (∀ l, l < 7 → c !! l = h_cells h' !! l) → view_ptr ENIConfigList_view c (Some 6) = Some (Some v)) ∧
    (∀ c, (∀ l, 7 ≤ l → c !! l = h_cells h' !! l) → view_ptr ENIConfigList_view c p' = Some (Some v)).
Proof.
  destruct (view_ptr ENIConfigList_view (h_cells heap_ex) (Some 6)) as [[v|]|] eqn:Hv; [|vm_compute in Hv; discriminate..].
  exists v. destruct (copy_shares_nothing (Some 6) (Some v) heap_ex wf_ex Hv) as (p' & h' & H1 & H2 & H3).
  exists p', h'. split; [reflexivity|]. split; [exact H1|]. split; [exact H2|exact H3].
Defined.

(** The copy takes as many cells as the original has. *)
Example copy_ex :
  match ENIConfigList_DeepCopy (Some 6) heap_ex with
  | (Ret (Some l), h') => bool_decide (7 ≤ l) && bool_decide (size (h_cells h') = 14)
  | _ => false
  end = true.
Proof. vm_compute. reflexivity. Qed.
