(* ===== verification/EniConfigCache.v ===== *)
(** * The ENIConfig cache in memory

    The controller of pkg/eniconfig with its cache as Go keeps it: a map of pointers
    into copies of the objects the operator SDK hands to the handler.  The SDK's
    informer and its other readers go on sharing the objects themselves.  The cache is
    shown to refine the controller of EniConfig.v, which keeps values. *)
From S2P Require Import Prelude GoStd Interfaces EniConfig DeepCopy.

Open Scope nat_scope.

(** [h.controller] with pointers: each leads to the copy whose Spec is cached. *)
Record HeapController := mkHeapController {
  hc_eni : gmap string loc;
  hc_myENI : string;
  hc_myNodeName : string;
  hc_annotationDef : string;
  hc_labelDef : string;
}.

Definition hc_set_eni (m : gmap string loc) (c : HeapController) : HeapController :=
  mkHeapController m (hc_myENI c) (hc_myNodeName c) (hc_annotationDef c) (hc_labelDef c).
Definition hc_set_myENI (v : string) (c : HeapController) : HeapController :=
  mkHeapController (hc_eni c) v (hc_myNodeName c) (hc_annotationDef c) (hc_labelDef c).

(** [sdk.Event] with its object in the heap. *)
Inductive heap_event : Type :=
| HEvENIConfig (o : loc) (deleted : bool)
| HEvNode (name : string) (annotations labels : gmap string string)
| HEvOther.

(** [Handle].  The copy is one step: nobody writes the object the SDK hands out while
    the handler copies it.  Before and after the handler anybody may. *)
Definition handle_heap (ev : heap_event) (c : HeapController) : HM HeapController :=
  match ev with
  | HEvENIConfig o deleted =>
      obj ← load (B:=ENIConfig) o;
      let eniConfigName := om_Name (om_plain (ec_ObjectMeta obj)) in
      if deleted then mret (hc_set_eni (delete eniConfigName (hc_eni c)) c)
      else
        curENIConfig ← ENIConfig_DeepCopy (Some o);
        match curENIConfig with
        | None => panic "invalid memory address or nil pointer dereference"
        | Some l => mret (hc_set_eni (<[eniConfigName := l]> (hc_eni c)) c)
        end
  | HEvNode name annotations labels =>
      if bool_decide (hc_myNodeName c = name) then
        let val :=
          match annotations !! hc_annotationDef c with
          | Some val => val
          | None => match labels !! hc_labelDef c with Some val => val | None => eniConfigDefault end
          end in
        if bool_decide (hc_myENI c ≠ val) then mret (hc_set_myENI val c) else mret c
      else mret c
  | HEvOther => mret c
  end.

(** [MyENIConfig]: a new struct that shares the slice of the cached one. *)
Definition MyENIConfig_heap (c : HeapController) : HM (option Spec * option error) :=
  match hc_eni c !! hc_myENI c with
  | Some l =>
      cur ← load (B:=ENIConfig) l;
      mret (Some (mkSpec (spec_SecurityGroups (ec_Spec cur)) (spec_Subnet (ec_Spec cur))), None)
  | None => mret (None, Some ErrNoENIConfig)
  end.

(** ** Values *)

(** The Spec of the value of an ENIConfig. *)
Definition spec_value (s : option (list string) * string) : ENIConfigSpec := mkENIConfigSpec (default [] s.1) s.2.

(** ** Everybody else

    The controller's copies are known to nobody else: other goroutines may change any
    other memory, and take more. *)
Record HState := mkHState { hs_ctrl : HeapController; hs_heap : Heap; hs_private : gset loc }.

Definition private_cells (st : HState) : cells := filter (λ x, x.1 ∈ hs_private st) (h_cells (hs_heap st)).

Definition others (st st' : HState) : Prop :=
  hs_ctrl st' = hs_ctrl st ∧ hs_private st' = hs_private st ∧ wf (hs_heap st') ∧
  h_next (hs_heap st) ≤ h_next (hs_heap st') ∧ private_cells st' = private_cells st.

(** The event of EniConfig.v that an event in the heap is. *)
Inductive denotes (c : cells) : heap_event → event → Prop :=
| Den_config o deleted obj v :
    c !! o = Some (CENIConfig obj) → ENIConfig_view c obj = Some v →
    denotes c (HEvENIConfig o deleted)
      (EvENIConfig (om_Name (om_plain (ec_ObjectMeta obj))) (spec_value v.2.2) deleted)
| Den_node name annotations labels : denotes c (HEvNode name annotations labels) (EvNode name annotations labels)
| Den_other : denotes c HEvOther EvOther.

(** Events handled and everybody else's steps, in any order. *)
Inductive hruns (st : HState) : list event → HState → Prop :=
| hruns_start : hruns st [] st
| hruns_event evs st1 hev ev c' h' :
    hruns st evs st1 → denotes (h_cells (hs_heap st1)) hev ev →
    hs_heap st1 ⊢ handle_heap hev (hs_ctrl st1) ⇓ c' ⊣ h' →
    hruns st (evs ++ [ev]) (mkHState c' h' (hs_private st1 ∪ dom (taken (hs_heap st1) h')))
| hruns_others evs st1 st2 : hruns st evs st1 → others st1 st2 → hruns st evs st2.

(** ** The refinement *)

(** The cached copy [l] denotes [s] in private memory alone. *)
Definition caches (st : HState) (l : loc) (s : ENIConfigSpec) : Prop :=
  ∃ obj v, private_cells st !! l = Some (CENIConfig obj) ∧ ENIConfig_view (private_cells st) obj = Some v ∧ spec_value v.2.2 = s.

Record related (a : ENIConfigController) (st : HState) : Prop := {
  rel_wf : wf (hs_heap st);
  rel_private : ∀ l, l ∈ hs_private st → l < h_next (hs_heap st);
  rel_myENI : hc_myENI (hs_ctrl st) = myENI a;
  rel_node : hc_myNodeName (hs_ctrl st) = eni_myNodeName a;
  rel_annotation : hc_annotationDef (hs_ctrl st) = eniConfigAnnotationDef a;
  rel_label : hc_labelDef (hs_ctrl st) = eniConfigLabelDef a;
  rel_eni : ∀ name, match hc_eni (hs_ctrl st) !! name, eni a !! name with
                    | Some l, Some s => caches st l s
                    | None, None => True
                    | _, _ => False
                    end;
}.

Lemma lookup_private st l :
  private_cells st !! l = if decide (l ∈ hs_private st) then h_cells (hs_heap st) !! l else None.
Proof.
  unfold private_cells. destruct (decide (l ∈ hs_private st)).
  - destruct (h_cells (hs_heap st) !! l) eqn:E; [by apply map_lookup_filter_Some|apply map_lookup_filter_None; auto].
  - apply map_lookup_filter_None. right. intros ? _. done.
Qed.

Lemma private_grow st st' :
  hs_private st ⊆ hs_private st' → h_cells (hs_heap st) ⊆ h_cells (hs_heap st') → private_cells st ⊆ private_cells st'.
Proof.
  intros Hp Hc. apply map_subseteq_spec. intros l x. rewrite !lookup_private. case_decide; [|done].
  rewrite decide_True by set_solver. by apply map_subseteq_spec.
Qed.

Lemma caches_mono st st' l s : private_cells st ⊆ private_cells st' → caches st l s → caches st' l s.
Proof.
  intros Hc (obj & v & Hl & Hv & Hs). exists obj, v. split; [by eapply lookup_weaken|]. split; [|done].
  by eapply (deep_mono (cp:=ENIConfig_DeepCopyInto)).
Qed.

(** The state after an event. *)
Definition after_event (st : HState) (c' : HeapController) (h' : Heap) : HState :=
  mkHState c' h' (hs_private st ∪ dom (taken (hs_heap st) h')).

Lemma after_event_memory st c' h' :
  (∀ l, l ∈ hs_private st → l < h_next (hs_heap st)) → wf h' → grows (hs_heap st) h' →
  private_cells st ⊆ private_cells (after_event st c' h') ∧
  (∀ l, l ∈ hs_private (after_event st c' h') → l < h_next h').
Proof.
  intros Hp Hwf [Hg Hn]. split; [apply private_grow; [set_solver|done]|].
  intros l [Hl%Hp|[x Hx]%elem_of_dom]%elem_of_union; [lia|]. rewrite lookup_taken in Hx. case_decide; [|done].
  apply not_ge. intros Hl. by rewrite Hwf in Hx.
Qed.

Lemma taken_private st c' h' : taken (hs_heap st) h' ⊆ private_cells (after_event st c' h').
Proof.
  apply map_subseteq_spec. intros l x Hx. rewrite lookup_private, decide_True.
  - rewrite lookup_taken in Hx. by case_decide.
  - apply elem_of_union_r. apply elem_of_dom. eauto.
Qed.

(** What the copy of an object in the heap leaves in the cache. *)
Lemma copy_caches st o obj v :
  wf (hs_heap st) → h_cells (hs_heap st) !! o = Some (CENIConfig obj) → ENIConfig_view (h_cells (hs_heap st)) obj = Some v →
  ∃ l h', hs_heap st ⊢ ENIConfig_DeepCopy (Some o) ⇓ Some l ⊣ h' ∧ wf h' ∧ grows (hs_heap st) h' ∧
    ∀ c', caches (after_event st c' h') l (spec_value v.2.2).
Proof.
  intros Hwf Ho Hv.
  destruct (deep_copy (view:=view_ptr ENIConfig_view) (cp:=ENIConfig_DeepCopy) (hs_heap st) (Some o) (Some v) Hwf)
    as (p' & h' & E & Hwf' & Hg & Hv').
  { cbn [view_ptr]. rewrite Ho. cbn [mbind option_bind of_cell eniconfig_cell]. by rewrite Hv. }
  destruct p' as [l|]; [|done]. cbn [view_ptr] in Hv'.
  apply bind_Some in Hv' as (x & Hx & (obj' & Hobj & (v' & Hv' & [= ->])%bind_Some)%bind_Some).
  exists l, h'. do 3 (split; [done|]). intros c'. exists obj', v. split; [|split; [|done]].
  - eapply lookup_weaken; [|apply taken_private]. destruct x; try done. by injection Hobj as ->.
  - eapply (deep_mono (cp:=ENIConfig_DeepCopyInto)); [apply taken_private|done].
Qed.

Lemma related_event a st c' h' a' :
  related a st → wf h' → grows (hs_heap st) h' →
  hc_myENI c' = myENI a' → hc_myNodeName c' = eni_myNodeName a' → hc_annotationDef c' = eniConfigAnnotationDef a' →
  hc_labelDef c' = eniConfigLabelDef a' →
  (∀ name, match hc_eni c' !! name, eni a' !! name with
           | Some l, Some s => caches st l s ∨ caches (after_event st c' h') l s
           | None, None => True
           | _, _ => False
           end) →
  related a' (after_event st c' h').
Proof.
  intros Hr Hwf Hg H1 H2 H3 H4 H5. destruct (after_event_memory st c' h' (rel_private _ _ Hr) Hwf Hg) as [Hm Hp].
  split; try done. intros name. specialize (H5 name). cbn [after_event hs_ctrl].
  destruct (hc_eni c' !! name), (eni a' !! name); try done. destruct H5 as [H5|H5]; [by eapply caches_mono|done].
Qed.

(** Every event is handled the way the controller of values handles it. *)
Lemma handle_related a st hev ev :
  related a st → denotes (h_cells (hs_heap st)) hev ev →
  ∃ c' h', hs_heap st ⊢ handle_heap hev (hs_ctrl st) ⇓ c' ⊣ h' ∧ related (Handle ev a) (after_event st c' h').
Proof.
  intros Hr Hd. pose proof (rel_eni _ _ Hr) as He.
  assert (∀ name, match hc_eni (hs_ctrl st) !! name, eni a !! name with
    | Some l, Some s => ∀ P, caches st l s ∨ P | None, None => True | _, _ => False end) as He'.
  { intros name. specialize (He name). destruct (_ !! name), (eni a !! name); try done. by left. }
  destruct Hd as [o deleted obj v Ho Hv|name an lb|].
  - cbn [handle_heap]. unfold mbind, M_bind, load. rewrite Ho.
    cbn [mbind option_bind of_cell eniconfig_cell]. cbn zeta. set (n := om_Name _). destruct deleted.
    + eexists _, _. split; [reflexivity|]. apply related_event with a; try done; try apply Hr.
      intros name. simpl. destruct (decide (n = name)) as [->|Hne]; [by rewrite !lookup_delete_eq|].
      rewrite !lookup_delete_ne by done. specialize (He' name). by repeat case_match.
    + destruct (copy_caches st o obj v (rel_wf _ _ Hr) Ho Hv) as (l & h' & E & Hwf' & Hg & Hc).
      rewrite E. eexists _, _. split; [reflexivity|]. apply related_event with a; try done; try apply Hr.
      intros name. simpl. destruct (decide (n = name)) as [->|Hne]; [rewrite !lookup_insert_eq; by right|].
      rewrite !lookup_insert_ne by done. specialize (He' name). by repeat case_match.
  - assert (∀ c' a', (hc_eni c' = hc_eni (hs_ctrl st)) → eni a' = eni a → hc_myENI c' = myENI a' →
      hc_myNodeName c' = eni_myNodeName a' → hc_annotationDef c' = eniConfigAnnotationDef a' →
      hc_labelDef c' = eniConfigLabelDef a' → related a' (after_event st c' (hs_heap st))) as Hsame.
    { intros c' a' H1 H2 ????. apply related_event with a; try done; [apply Hr|]. intros nm. rewrite H1, H2.
      specialize (He' nm). by repeat case_match. }
    cbn [handle_heap Handle]. rewrite (rel_node _ _ Hr), (rel_annotation _ _ Hr), (rel_label _ _ Hr), (rel_myENI _ _ Hr).
    destruct (bool_decide (eni_myNodeName a = name)).
    2: { eexists _, _. split; [reflexivity|]. apply Hsame; try done; apply Hr. }
    set (val := match an !! _ with Some val => val | None => _ end). cbn zeta.
    destruct (bool_decide (myENI a ≠ val)); (eexists _, _; split; [reflexivity|]); apply Hsame; try done; apply Hr.
  - eexists _, _. split; [reflexivity|]. apply related_event with a; try done; try apply Hr.
    intros name. specialize (He' name). cbn [Handle]. destruct (hc_eni (hs_ctrl st) !! name), (eni a !! name); done || apply He'.
Qed.

Lemma others_related a st st' : related a st → others st st' → related a st'.
Proof.
  intros Hr (Hc & Hp & Hwf & Hn & Hcells). destruct Hr as [H0 H1 H2 H3 H4 H5 H6]. split; rewrite ?Hc, ?Hp; try done.
  - intros l Hl. specialize (H1 l Hl). lia.
  - intros name. specialize (H6 name). destruct (hc_eni (hs_ctrl st) !! name), (eni a !! name); try done.
    eapply caches_mono; [|done]. by rewrite Hcells.
Qed.

Lemma hruns_related a st evs st' :
  related a st → hruns st evs st' → related (foldl (λ c ev, Handle ev c) a evs) st'.
Proof.
  intros Hr. induction 1 as [|evs st1 hev ev c' h' _ IH Hd E|evs st1 st2 _ IH Ho].
  - done.
  - rewrite foldl_app. simpl. destruct (handle_related _ _ _ _ IH Hd) as (c2 & h2 & E2 & Hr2).
    rewrite E in E2. by injection E2 as <- <-.
  - by eapply others_related.
Qed.

(** The answers of both controllers agree. *)
Definition same_answer (c : cells) (r : option Spec * option error) (r' : ENIConfigSpec * option error) : Prop :=
  r.2 = r'.2 ∧ (r.2 = None → ∃ sp v, r.1 = Some sp ∧ Spec_view c sp = Some v ∧ spec_value v = r'.1).

Lemma MyENIConfig_related a st :
  related a st → ∃ r, hs_heap st ⊢ MyENIConfig_heap (hs_ctrl st) ⇓ r ⊣ hs_heap st ∧
    same_answer (h_cells (hs_heap st)) r (MyENIConfig a).
Proof.
  intros Hr. unfold MyENIConfig_heap, MyENIConfig. rewrite (rel_myENI _ _ Hr). pose proof (rel_eni _ _ Hr (myENI a)) as He.
  destruct (hc_eni (hs_ctrl st) !! myENI a) as [l|], (eni a !! myENI a) as [s|]; try done.
  2: { eexists. split; [reflexivity|]. by split. }
  destruct He as (obj & v & Hl & Hv & Hs).
  assert (private_cells st ⊆ h_cells (hs_heap st)) as Hsub by apply map_filter_subseteq.
  unfold mbind, M_bind, load. rewrite (lookup_weaken _ _ _ _ Hl Hsub). eexists. split; [reflexivity|]. split; [done|].
  intros _. apply (deep_mono (cp:=ENIConfig_DeepCopyInto) _ _ _ _ Hsub) in Hv. unfold ENIConfig_view, view_pair in Hv.
  cbn [ENIConfig_tuple fst snd] in Hv.
  apply bind_Some in Hv as (x1 & _ & (x2 & (x3 & _ & (x4 & Hsp & [= <-])%bind_Some)%bind_Some & [= <-])%bind_Some).
  eexists _, x4. split; [reflexivity|]. split; [by destruct (ec_Spec obj)|]. simpl in Hs. rewrite Hs. by destruct s.
Qed.

(** C25: whatever the operator SDK and everybody else do to the objects they share, and
    whenever they do it, the cache of pointers answers like the controller that keeps
    values: every event is handled without a panic, and [MyENIConfig] returns the Spec
    the chosen ENIConfig had when its last event was handled. *)
Theorem eni_cache_refines {env : Environ} (h : Heap) evs st
    (c0 := mkHeapController ∅ eniConfigDefault (Getenv "MY_NODE_NAME") getEniConfigAnnotationDef getEniConfigLabelDef)
    (a := foldl (λ c ev, Handle ev c) NewENIConfigController evs) :
  wf h → hruns (mkHState c0 h ∅) evs st →
  (∀ hev ev, denotes (h_cells (hs_heap st)) hev ev → ∃ c' h', hs_heap st ⊢ handle_heap hev (hs_ctrl st) ⇓ c' ⊣ h') ∧
  ∃ r, hs_heap st ⊢ MyENIConfig_heap (hs_ctrl st) ⇓ r ⊣ hs_heap st ∧ same_answer (h_cells (hs_heap st)) r (MyENIConfig a).
Proof.
  intros Hwf Hrun. assert (related a st) as Hr by (eapply hruns_related; [|done]; by split).
  split; [|by apply MyENIConfig_related]. intros hev ev Hd.
  destruct (handle_related _ _ _ _ Hr Hd) as (c' & h' & E & _). eauto.
Qed.

(** ** An object that changes after it was handled *)

#[local] Instance no_env : Environ := {| environ := ∅ |}.

Definition plain_meta : ObjectMeta :=
  mkObjectMeta (mkPlainMeta "default" "" "" "" "u1" "7" 1 0 "") None None None None None None None.
Definition object_ex : ENIConfig := mkENIConfig (mkTypeMeta "ENIConfig" "v1alpha1") plain_meta (mkSpec (Some 0) "subnet-1").
Definition heap_of (groups : list string) : Heap := mkHeap {[0 := CStrings groups; 1 := CENIConfig object_ex]} 2.
Definition state_ex : HState :=
  mkHState (mkHeapController ∅ eniConfigDefault "" "k8s.amazonaws.com/eniConfig" "k8s.amazonaws.com/eniConfig")
    (heap_of ["sg-1"%string]) ∅.

(** After the event, and after somebody has changed the groups of the object. *)
Definition handled_ex : HState :=
  match handle_heap (HEvENIConfig 1 false) (hs_ctrl state_ex) (hs_heap state_ex) with
  | (Ret c', h') => after_event state_ex c' h'
  | _ => state_ex
  end.
Definition changed_ex : HState :=
  mkHState (hs_ctrl handled_ex)
    (mkHeap (<[0 := CStrings ["sg-9"%string]]> (h_cells (hs_heap handled_ex))) (h_next (hs_heap handled_ex))) (hs_private handled_ex).

Definition event_ex : event := EvENIConfig "default" (mkENIConfigSpec ["sg-1"%string] "subnet-1") false.

Lemma wf_heap_of groups : wf (heap_of groups).
Proof.
  intros l Hl. unfold heap_of in *. cbn [h_cells h_next] in *. rewrite lookup_insert_ne by lia. by rewrite lookup_singleton_ne by lia.
Qed.

Lemma handled_cells : h_cells (hs_heap handled_ex) =
  {[0 := CStrings ["sg-1"%string]; 1 := CENIConfig object_ex; 2 := CStrings ["sg-1"%string];
    3 := CENIConfig (mkENIConfig (mkTypeMeta "ENIConfig" "v1alpha1") plain_meta (mkSpec (Some 2) "subnet-1"))]}.
Proof. vm_compute. reflexivity. Qed.

Lemma hruns_ex : hruns state_ex [event_ex] changed_ex.
Proof.
  apply (hruns_others _ _ handled_ex).
  - apply (hruns_event state_ex [] state_ex (HEvENIConfig 1 false) event_ex _ _ (hruns_start _)).
    + assert (∃ v, ENIConfig_view (h_cells (hs_heap state_ex)) object_ex = Some v ∧
        spec_value v.2.2 = mkENIConfigSpec ["sg-1"%string] "subnet-1") as (v & Hv & Hs)
        by (eexists; split; vm_compute; reflexivity).
      unfold event_ex. rewrite <-Hs. by apply (Den_config _ 1 false object_ex v).
    + vm_compute. reflexivity.
  - split; [done|]. split; [done|]. split; [|split; [done|vm_compute; reflexivity]].
    intros l Hl. change (h_next (hs_heap changed_ex)) with 4 in Hl. unfold changed_ex. cbn [hs_heap h_cells].
    rewrite handled_cells. by repeat first [rewrite lookup_insert_ne by lia|rewrite lookup_singleton_ne by lia].
Qed.

Lemma eni_cache_refines_witness :
  h_cells (hs_heap changed_ex) !! 0 = Some (CStrings ["sg-9"%string]) ∧
  ∃ r, hs_heap changed_ex ⊢ MyENIConfig_heap (hs_ctrl changed_ex) ⇓ r ⊣ hs_heap changed_ex ∧
    same_answer (h_cells (hs_heap changed_ex)) r (mkENIConfigSpec ["sg-1"%string] "subnet-1", None).
Proof.
  split; [vm_compute; reflexivity|].
  exact (proj2 (eni_cache_refines (heap_of ["sg-1"%string]) [event_ex] changed_ex (wf_heap_of _) hruns_ex)).
Defined.
