(* ===== verification/Setup.v ===== *)
(** * What every process does once: metrics, log, connections

    The registration of the daemon's metrics with prometheus (prometheusRegister of
    data_store.go, ipamd.go and awsutils.go), the configuration of the log
    (pkg/utils/logger), [CreateKubeClient] and [Start] of the ENIConfig controller.
    The registry, seelog, the API server and the operator SDK are outside the
    repository. *)
From S2P Require Import Prelude GoStd Json JsonDecode DataStore Interfaces Ipamd AwsUtils EniConfig PluginMain.

Open Scope Z_scope.

(** ** Metrics

    The registry refuses a name it knows, and MustRegister then panics; each package
    remembers in a variable of its own that it has registered its metrics. *)
Record Registry := mkRegistry {
  registered : gset string;
  datastore_registered : bool;
  ipamd_registered : bool;
  awsutils_registered : bool;
}.
Definition registry_start : Registry := mkRegistry ∅ false false false.

Abbreviation RM := (M Registry).

Definition MustRegister (name : string) : RM unit := λ r,
  if decide (name ∈ registered r) then (Panic "duplicate metrics collector registration attempted", r)
  else (Ret tt, mkRegistry ({[name]} ∪ registered r) (datastore_registered r) (ipamd_registered r) (awsutils_registered r)).

Definition datastore_metrics : list string := [enis; totalIPs; assignedIPs].
Definition ipamd_metrics : list string :=
  [ipamdErr; ipamdActionsInprogress; enisMax; ipMax; reconcileCnt; addIPCnt; delIPCnt].
Definition awsutils_metrics : list string := ["awscni_aws_api_latency_ms"%string; awsAPIErr; awsUtilsErr].

Definition datastore_prometheusRegister : RM unit :=
  done ← gets datastore_registered;
  if done : bool then mret tt
  else
    for_loop MustRegister datastore_metrics ;;
    modify (λ r, mkRegistry (registered r) true (ipamd_registered r) (awsutils_registered r)).

Definition ipamd_prometheusRegister : RM unit :=
  done ← gets ipamd_registered;
  if done : bool then mret tt
  else
    for_loop MustRegister ipamd_metrics ;;
    modify (λ r, mkRegistry (registered r) (datastore_registered r) true (awsutils_registered r)).

Definition awsutils_prometheusRegister : RM unit :=
  done ← gets awsutils_registered;
  if done : bool then mret tt
  else
    for_loop MustRegister awsutils_metrics ;;
    modify (λ r, mkRegistry (registered r) (datastore_registered r) (ipamd_registered r) true).

(** The three packages, as often and in whatever order their constructors run. *)
Inductive package : Type := Pkg_datastore | Pkg_ipamd | Pkg_awsutils.
#[global] Instance package_eq_dec : EqDecision package.
Proof. solve_decision. Defined.

Definition register (p : package) : RM unit :=
  match p with
  | Pkg_datastore => datastore_prometheusRegister
  | Pkg_ipamd => ipamd_prometheusRegister
  | Pkg_awsutils => awsutils_prometheusRegister
  end.

Definition is_registered (p : package) (r : Registry) : bool :=
  match p with
  | Pkg_datastore => datastore_registered r
  | Pkg_ipamd => ipamd_registered r
  | Pkg_awsutils => awsutils_registered r
  end.

Definition package_metrics (p : package) : list string :=
  match p with
  | Pkg_datastore => datastore_metrics
  | Pkg_ipamd => ipamd_metrics
  | Pkg_awsutils => awsutils_metrics
  end.

Definition mark (p : package) (r : Registry) : Registry :=
  match p with
  | Pkg_datastore => mkRegistry (registered r) true (ipamd_registered r) (awsutils_registered r)
  | Pkg_ipamd => mkRegistry (registered r) (datastore_registered r) true (awsutils_registered r)
  | Pkg_awsutils => mkRegistry (registered r) (datastore_registered r) (ipamd_registered r) true
  end.

(** What is registered is what the variables say. *)
Definition in_step (r : Registry) : Prop :=
  ∀ name, name ∈ registered r ↔ ∃ p, is_registered p r = true ∧ name ∈ package_metrics p.

(** The names are different, within a package and between packages. *)
Lemma metrics_distinct p : NoDup (package_metrics p).
Proof. apply (bool_decide_unpack _). by destruct p. Qed.

Lemma metrics_disjoint p p' name : name ∈ package_metrics p → name ∈ package_metrics p' → p = p'.
Proof.
  assert (∀ p p', p ≠ p' → Forall (λ n, n ∉ package_metrics p') (package_metrics p)) as Hd.
  { intros q q' Hq. apply (bool_decide_unpack _). by destruct q, q'. }
  intros H1 H2. destruct (decide (p = p')) as [|Hne]; [done|]. specialize (Hd p p' Hne).
  rewrite Forall_forall in Hd. by apply Hd in H1.
Qed.

Lemma for_register l r :
  NoDup l → (∀ n, n ∈ l → n ∉ registered r) →
  ∃ r', r ⊢ for_loop MustRegister l ⇓ tt ⊣ r' ∧ registered r' = list_to_set l ∪ registered r ∧
    ∀ p, is_registered p r' = is_registered p r.
Proof.
  intros Hnd. revert r. induction Hnd as [|n l Hn Hnd IH]; intros r Hr.
  { exists r. split; [done|]. split; [set_solver|done]. }
  cbn [for_loop]. unfold mbind, M_bind, MustRegister at 1. rewrite decide_False by set_solver.
  destruct (IH (mkRegistry ({[n]} ∪ registered r) (datastore_registered r) (ipamd_registered r) (awsutils_registered r)))
    as (r' & E & Hreg & Hp); [set_solver|]. exists r'. split; [done|]. split; [rewrite Hreg; simpl; set_solver|].
  intros p. rewrite Hp. by destruct p.
Qed.

Lemma register_ok p r :
  in_step r → ∃ r', r ⊢ register p ⇓ tt ⊣ r' ∧ in_step r' ∧
    ∀ q, is_registered q r' = is_registered q r || bool_decide (q = p).
Proof.
  intros Hs. destruct (is_registered p r) eqn:Hp.
  { exists r. split; [by destruct p; cbn [register is_registered] in *; unfold datastore_prometheusRegister, ipamd_prometheusRegister,
      awsutils_prometheusRegister, mbind, M_bind, gets; rewrite Hp|]. split; [done|]. intros q.
    case_bool_decide; [subst; by rewrite Hp|by rewrite orb_false_r]. }
  destruct (for_register (package_metrics p) r (metrics_distinct p)) as (r1 & E & Hreg & Hsame).
  { intros n Hn (q & Hq & Hn')%Hs. rewrite (metrics_disjoint _ _ _ Hn Hn') in Hp. congruence. }
  assert (∃ r2, r ⊢ register p ⇓ tt ⊣ r2 ∧ registered r2 = registered r1 ∧
    ∀ q, is_registered q r2 = is_registered q r1 || bool_decide (q = p)) as (r2 & E2 & Hreg2 & H2).
  { exists (mark p r1). split; [|split; [by destruct p|]].
    - destruct p; cbn [register is_registered package_metrics] in *; unfold datastore_prometheusRegister,
        ipamd_prometheusRegister, awsutils_prometheusRegister, mbind, M_bind, gets; rewrite Hp, E; reflexivity.
    - intros q. destruct p, q; simpl; by rewrite ?orb_false_r, ?orb_true_r. }
  exists r2. split; [done|]. split; [|intros q; by rewrite H2, Hsame].
  intros name. rewrite Hreg2, Hreg, elem_of_union, elem_of_list_to_set, (Hs name). split.
  - intros [Hn|(q & Hq & Hn)]; [exists p|exists q]; (split; [|done]); rewrite H2, Hsame.
    + rewrite bool_decide_true by done. by rewrite orb_true_r.
    + by rewrite Hq.
  - intros (q & Hq & Hn). rewrite H2, Hsame in Hq. apply orb_true_iff in Hq as [Hq|Hq%bool_decide_eq_true]; [|subst; by left].
    right. by exists q.
Qed.

(** However often the constructors run, registering never panics, and a metric is in
    the registry exactly when its package was started. *)
Theorem registers_once (ps : list package) :
  ∃ r, registry_start ⊢ for_loop register ps ⇓ tt ⊣ r ∧
    ∀ name, name ∈ registered r ↔ ∃ p, p ∈ ps ∧ name ∈ package_metrics p.
Proof.
  assert (∀ ps r, in_step r → ∃ r', r ⊢ for_loop register ps ⇓ tt ⊣ r' ∧ in_step r' ∧
    ∀ q, is_registered q r' = is_registered q r || bool_decide (q ∈ ps)) as Hgen.
  { clear ps. induction ps as [|p ps IH]; intros r Hr.
    { exists r. split; [done|]. split; [done|]. intros q. by rewrite orb_false_r. }
    destruct (register_ok p r Hr) as (r1 & E1 & Hr1 & H1). destruct (IH r1 Hr1) as (r2 & E2 & Hr2 & H2).
    exists r2. split; [cbn [for_loop]; unfold mbind, M_bind; by rewrite E1|]. split; [done|]. intros q.
    rewrite H2, H1, <-orb_assoc. f_equal. rewrite <-bool_decide_or. apply bool_decide_ext. set_solver. }
  destruct (Hgen ps registry_start) as (r & E & Hr & Hq).
  { intros name. split; [done|]. intros ([] & [=] & _). }
  exists r. split; [done|]. intros name. rewrite (Hr name). f_equiv. intros p. rewrite Hq.
  replace (is_registered p registry_start) with false by (by destruct p). simpl. by rewrite bool_decide_eq_true.
Qed.

(** ** The log: pkg/utils/logger *)

Definition envLogLevel : string := "AWS_VPC_K8S_CNI_LOGLEVEL".
Definition envLogFilePath : string := "AWS_VPC_K8S_CNI_LOG_FILE".

(** The levels of seelog. *)
Inductive LogLevel : Type := TraceLvl | DebugLvl | InfoLvl | WarnLvl | ErrorLvl | CriticalLvl | Off.

Definition LogLevel_String (l : LogLevel) : string :=
  match l with
  | TraceLvl => "trace" | DebugLvl => "debug" | InfoLvl => "info" | WarnLvl => "warn"
  | ErrorLvl => "error" | CriticalLvl => "critical" | Off => "off"
  end.

Definition LogLevelFromString (s : string) : option LogLevel :=
  snd <$> list_find (λ l, LogLevel_String l = s) [TraceLvl; DebugLvl; InfoLvl; WarnLvl; ErrorLvl; CriticalLvl; Off].

Class Seelog (W : Type) : Type := {
  LoggerFromConfigAsString : string → ext W (option error);
  ReplaceLogger : ext W (option error);
}.

Section logger.
Context {env : Environ}.

Definition GetLogFileLocation (defaultLogFilePath : string) : string :=
  let logFilePath := Getenv envLogFilePath in
  if bool_decide (logFilePath = ""%string) then defaultLogFilePath else logFilePath.

Definition getLogLevel : string :=
  LogLevel_String (default InfoLvl (LogLevelFromString (ToLower (Getenv envLogLevel)))).

Definition getLogOutput (logFilePath : string) : string :=
  if bool_decide (logFilePath = "stdout"%string) then "<console />"
  else ("<rollingfile filename=" +:+ Json.quoted logFilePath +:+ " type=" +:+ Json.quoted "date" +:+
        " datepattern=" +:+ Json.quoted "2006-01-02-15" +:+ " archivetype=" +:+ Json.quoted "none" +:+
        " maxrolls=" +:+ Json.quoted "24" +:+ " />")%string.

(** [logConfigFormat] with level and output put in. *)
Definition log_config (level output : string) : string :=
  (JsonDecode.nl +:+ "<seelog type=" +:+ Json.quoted "asyncloop" +:+ " minlevel=" +:+ Json.quoted level +:+ ">" +:+
   JsonDecode.nl +:+ " <outputs formatid=" +:+ Json.quoted "main" +:+ ">" +:+
   JsonDecode.nl +:+ "  " +:+ output +:+
   JsonDecode.nl +:+ " </outputs>" +:+
   JsonDecode.nl +:+ " <formats>" +:+
   JsonDecode.nl +:+ "  <format id=" +:+ Json.quoted "main" +:+ " format=" +:+
     Json.quoted "%UTCDate(2006-01-02T15:04:05.000Z07:00) [%LEVEL]%t%Msg%n" +:+ " />" +:+
   JsonDecode.nl +:+ " </formats>" +:+
   JsonDecode.nl +:+ "</seelog>" +:+ JsonDecode.nl)%string.

(** An error leaves the logger as it was and is only printed. *)
Definition SetupLogger {W} `{!Seelog W} (logFilePath : string) : M W unit :=
  err ← call (LoggerFromConfigAsString (log_config getLogLevel (getLogOutput logFilePath)));
  match err with
  | Some _ => mret tt
  | None => _ ← call ReplaceLogger; mret tt
  end.

(** A level seelog knows is taken in any case of its letters, and any other value is
    info; so the configuration always names a level. *)
Lemma getLogLevel_spec l : ToLower (Getenv envLogLevel) = LogLevel_String l → getLogLevel = LogLevel_String l.
Proof. unfold getLogLevel. intros ->. by destruct l. Qed.

Lemma getLogLevel_default :
  (∀ l, ToLower (Getenv envLogLevel) ≠ LogLevel_String l) → getLogLevel = "info"%string.
Proof.
  intros Hn. unfold getLogLevel, LogLevelFromString. set (s := ToLower _) in *. clearbody s.
  assert (list_find (λ l, LogLevel_String l = s) [TraceLvl; DebugLvl; InfoLvl; WarnLvl; ErrorLvl; CriticalLvl; Off] = None) as ->;
    [|done]. apply list_find_None. apply Forall_forall. intros l _ Hl. by apply (Hn l).
Qed.

End logger.

Example log_level_ex :
  let env : Environ := {| environ := {[envLogLevel := "DEBUG"%string]} |} in
  getLogLevel = "debug"%string ∧ GetLogFileLocation "/var/log/x" = "/var/log/x"%string ∧ getLogOutput "stdout" = "<console />"%string.
Proof. vm_compute. repeat split; reflexivity. Qed.

(** ** Connections *)

(** [Discovery().ServerVersion()] of the Kubernetes client. *)
Class KubeDiscovery (W : Type) : Type := { ServerVersion : ext W (option error) }.

(** [CreateKubeClient] of pkg/k8sapi: the client is usable exactly when the server
    answers. *)
Definition k8sapi_CreateKubeClient {W} `{!KubeDiscovery W} : M W (option error) :=
  err ← call ServerVersion;
  match err with
  | Some e => mret (Some (EStr ("error communicating with apiserver: " +:+ Error e)))
  | None => mret None
  end.

(** The operator SDK: what is watched, and the loop that hands events to [Handle]. *)
Class OperatorSDK (W : Type) : Type := {
  sdk_ExposeMetricsPort : ext W unit;
  sdk_Watch : string → string → string → Z → ext W unit;
  sdk_Handle : ext W unit;
  sdk_Run : ext W unit;
}.

Definition ENIConfigController_Start {W} `{!OperatorSDK W} : M W unit :=
  call sdk_ExposeMetricsPort ;;
  let resource := "crd.k8s.amazonaws.com/v1alpha1"%string in
  let kind := "ENIConfig"%string in
  let resyncPeriod := Second * 5 in
  call (sdk_Watch resource kind "" resyncPeriod) ;;
  call (sdk_Watch "/v1" "Node" "" resyncPeriod) ;;
  call sdk_Handle ;;
  call sdk_Run.
