(* ===== verification/NodeStart.v ===== *)
(** * The start of the daemon over the real services of the node

    The node's network ([NetworkUtils]), pod discovery ([K8sDiscovery]) and the
    ENIConfig controller ([EniConfig]) as instances of the interfaces of ipamd: their
    state travels with the world.  The two controllers move on while the daemon
    sleeps ([Background]).  What [nodeInit] then does to the host as a whole: after
    a successful start the iptables rules are those of the settings. *)
From S2P Require Import Prelude GoStd DataStore DataStoreInv DataStoreSpec DataStoreProps Interfaces Ipamd IpamdInv IpamdFrame AwsService Netlink NetworkUtils NetworkUtilsProps HostNetworkProps K8sDiscovery EniConfig.

Open Scope Z_scope.

Record NodeSt (W : Type) := mkNodeSt {
  n_net : linuxNetwork;
  n_ctrl : Controller;
  n_eni : ENIConfigController;
  n_world : W;
}.
Arguments mkNodeSt {W}.
Arguments n_net {W}.
Arguments n_ctrl {W}.
Arguments n_eni {W}.
Arguments n_world {W}.

(** What the goroutines of the controllers make of the events that arrived. *)
Class Background (W : Type) : Type := {
  bg_ctrl : W → Controller → Controller;
  bg_eni : W → ENIConfigController → ENIConfigController;
}.

Section node.
Context {W : Type} `{!World W, !AwsAPIs W, !Requests W, !NetLink W, !IPTables W, !HostOS W, !Background W}.
Context {env : Environ}.

Definition set_n_world (w : W) (s : NodeSt W) : NodeSt W := mkNodeSt (n_net s) (n_ctrl s) (n_eni s) w.

(** A call of the world, and a method of the network, below the state of the node. *)
Definition node_ext {A} (f : ext W A) : ext (NodeSt W) A := λ s, let '(o, w) := f (n_world s) in (o, set_n_world w s).
Definition node_net {A} (m : linuxNetwork → M W A) : ext (NodeSt W) A :=
  method (λ s, let '(r, w) := m (n_net s) (n_world s) in (r, set_n_world w s)).

#[global] Instance NodeSt_World : World (NodeSt W) := {
  w_now s := let '(t, w) := w_now (n_world s) in (t, set_n_world w s);
  w_sleep d s :=
    let w := w_sleep d (n_world s) in mkNodeSt (n_net s) (bg_ctrl w (n_ctrl s)) (bg_eni w (n_eni s)) w;
  w_range A l s := let '(l', w) := w_range l (n_world s) in (l', set_n_world w s);
}.

#[global] Instance NodeSt_Aws : AwsAPIs (NodeSt W) := {
  AllocENI b l s := node_ext (AllocENI b l s);
  FreeENI id := node_ext (FreeENI id);
  GetAttachedENIs := node_ext GetAttachedENIs;
  DescribeENI id := node_ext (DescribeENI id);
  AllocIPAddresses id n := node_ext (AllocIPAddresses id n);
  DeallocIPAddresses id l := node_ext (DeallocIPAddresses id l);
  GetVPCIPv4CIDR := node_ext GetVPCIPv4CIDR;
  GetVPCIPv4CIDRs := node_ext GetVPCIPv4CIDRs;
  GetLocalIPv4 := node_ext GetLocalIPv4;
  GetPrimaryENI := node_ext GetPrimaryENI;
  GetENIipLimit := node_ext GetENIipLimit;
  GetENILimit := node_ext GetENILimit;
  GetPrimaryENImac := node_ext GetPrimaryENImac;
}.

#[global] Instance NodeSt_Requests : Requests (NodeSt W) := {
  w_rpcs s := let '(l, w) := w_rpcs (n_world s) in (l, set_n_world w s);
}.

(** [GetRuleList] gives a list and an error. *)
Definition rule_list (r : list Netlink.Rule + error) : list Netlink.Rule * option error :=
  match r with inl l => (l, None) | inr e => ([], Some e) end.

#[global] Instance NodeSt_Network : NetworkAPIs (NodeSt W) := {
  Interfaces.Rule := Netlink.Rule;
  Interfaces.SetupHostNetwork vpc cidrs mac addr :=
    node_net (λ n, NetworkUtils.SetupHostNetwork n (to_addr vpc) cidrs mac addr);
  Interfaces.SetupENINetwork ip mac table cidr := node_net (λ _, NetworkUtils.SetupENINetwork ip mac table cidr);
  Interfaces.UseExternalSNAT s := (Some useExternalSNAT, s);
  Interfaces.GetExcludeSNATCIDRs s := (Some getExcludeSNATCIDRs, s);
  Interfaces.GetRuleList := node_net (λ _, r ← NetworkUtils.GetRuleList; mret (rule_list r));
  Interfaces.UpdateRuleListBySrc rules src cidrs snat :=
    node_net (λ n, NetworkUtils.UpdateRuleListBySrc n rules src cidrs snat);
}.

#[global] Instance NodeSt_K8S : K8SAPIs (NodeSt W) := {
  Interfaces.K8SGetLocalPodIPs :=
    method (λ s, let '(r, k) := K8sDiscovery.K8SGetLocalPodIPs (mkK8sSt (n_ctrl s) (n_world s)) in
                 (r, mkNodeSt (n_net s) (k_ctrl k) (n_eni s) (k_world k)));
}.

#[global] Instance NodeSt_ENIConfig : ENIConfigAPI (NodeSt W) := {
  Interfaces.MyENIConfig s := (Some (EniConfig.MyENIConfig (n_eni s)), s);
}.

#[global] Instance NodeSt_WorldOk `{!WorldOk W} : WorldOk (NodeSt W).
Proof.
  split.
  - intros A l s. simpl. pose proof (range_perm A l (n_world s)). by destruct (w_range l (n_world s)).
  - intros s. pose proof (now_mono (n_world s)). unfold clock in *. simpl.
    destruct (w_now (n_world s)) as [t w] eqn:Hw. simpl in *. by destruct (w_now w).
  - intros A l s. pose proof (range_mono A l (n_world s)). unfold clock in *. simpl.
    destruct (w_range l (n_world s)) as [l' w]. simpl in *. by destruct (w_now (n_world s)), (w_now w).
  - intros d s Hd. pose proof (sleep_mono d (n_world s) Hd). unfold clock in *. simpl.
    by destruct (w_now (n_world s)), (w_now (w_sleep d (n_world s))).
Qed.

#[global] Instance NodeSt_ServicesOk own `{!ServicesOk W own} : ServicesOk (NodeSt W) own.
Proof.
  split.
  - intros s s' l. simpl. unfold node_ext. destruct (GetAttachedENIs (n_world s)) as [o w] eqn:Hf.
    intros [= -> _]. by eapply attached_own.
  - intros id s s' l o. simpl. unfold node_ext. destruct (DescribeENI id (n_world s)) as [x w] eqn:Hf.
    intros [= -> _]. by eapply describe_own.
Qed.

(** ** What keeps the rules of iptables *)

Context (ipt : W → list ipt_key) (ifs : list (string * string)) (rf : bool) `{!IptOk W ipt}.

Definition same_ipt (w w' : W) : Prop := ipt w' = ipt w.

#[local] Instance same_ipt_pre : PreOrder same_ipt.
Proof. split; unfold same_ipt; intros ?; congruence. Qed.

(** The clock, the order of maps, the requests and EC2 have nothing to do with it. *)
Inductive aws_call : ∀ {A}, ext W A → Prop :=
| Aws_AllocENI b l s : aws_call (AllocENI b l s)
| Aws_FreeENI id : aws_call (FreeENI id)
| Aws_GetAttachedENIs : aws_call GetAttachedENIs
| Aws_DescribeENI id : aws_call (DescribeENI id)
| Aws_AllocIPAddresses id n : aws_call (AllocIPAddresses id n)
| Aws_DeallocIPAddresses id l : aws_call (DeallocIPAddresses id l)
| Aws_GetVPCIPv4CIDR : aws_call GetVPCIPv4CIDR
| Aws_GetVPCIPv4CIDRs : aws_call GetVPCIPv4CIDRs
| Aws_GetLocalIPv4 : aws_call GetLocalIPv4
| Aws_GetPrimaryENI : aws_call GetPrimaryENI
| Aws_GetENIipLimit : aws_call GetENIipLimit
| Aws_GetENILimit : aws_call GetENILimit
| Aws_GetPrimaryENImac : aws_call GetPrimaryENImac.

Record ipt_apart : Prop := {
  apart_now : ∀ w : W, same_ipt w (w_now w).2;
  apart_sleep : ∀ d (w : W), same_ipt w (w_sleep d w);
  apart_range : ∀ A (l : list A) (w : W), same_ipt w (w_range l w).2;
  apart_rpcs : ∀ w : W, same_ipt w (w_rpcs w).2;
  apart_aws : ∀ A (f : ext W A) (w : W), aws_call f → same_ipt w (f w).2;
}.
Context (apart : ipt_apart) (own : string → string) `{!WorldOk W, !ServicesOk W own}.

Lemma net_keeps {A} (f : ext W A) : net_call f → keeps same_ipt (call f).
Proof.
  intros Hf w. destruct (ipt_net _ f w Hf) as [_ H]. unfold same_ipt, call. by destruct (f w) as [[] ?].
Qed.

Lemma sleep_keeps d : keeps same_ipt (time_Sleep d).
Proof. intros w. apply (apart_sleep apart). Qed.

Lemma check_keeps {R : relation W} `{!PreOrder R} m wrap k :
  keeps R m → keeps R k → keeps R (check m wrap k).
Proof. intros Hm Hk. unfold check. apply keeps_bind; [done|done|]. intros [e|]; [apply keeps_ret, _|done]. Qed.

Lemma check_val_keeps {R : relation W} `{!PreOrder R} {A} (m : M W (A + error)) wrap k :
  keeps R m → (∀ a, keeps R (k a)) → keeps R (check_val m wrap k).
Proof. intros Hm Hk. unfold check_val. apply keeps_bind; [done|done|]. intros [a|e]; [done|apply keeps_ret, _]. Qed.

Ltac ipt_step :=
  match goal with
  | |- keeps _ (call _) => apply net_keeps; eauto with net
  | |- keeps _ (time_Sleep _) => apply sleep_keeps
  | |- keeps _ (check _ _ _) => apply check_keeps
  | |- keeps _ (check_val _ _ _) => apply check_val_keeps; [|intros ?]
  | |- keeps _ (let '_ := ?x in _) => destruct x
  | |- _ => keeps_step
  end.
Ltac ipt_steps := repeat (cbn beta iota zeta; ipt_step).

Lemma LinkByMac_keeps fuel attempt err mac d : keeps same_ipt (LinkByMac_loop fuel attempt err mac d).
Proof. revert attempt err. induction fuel as [|fuel IH]; intros attempt err; cbn [LinkByMac_loop]; ipt_steps; apply IH. Qed.

Lemma addRoute_keeps fuel retry r gw table d : keeps same_ipt (addRoute_loop fuel retry r gw table d).
Proof. revert retry. induction fuel as [|fuel IH]; intros retry; cbn [addRoute_loop]; ipt_steps; apply IH. Qed.

Lemma SetupENINetwork_keeps ip mac table cidr : keeps same_ipt (NetworkUtils.SetupENINetwork ip mac table cidr).
Proof.
  unfold NetworkUtils.SetupENINetwork, setupENINetwork, LinkByMac, setup_eni_link, install_route.
  ipt_steps; first [apply LinkByMac_keeps|apply addRoute_keeps].
Qed.

Lemma UpdateRuleListBySrc_keeps n rules src cidrs snat :
  keeps same_ipt (NetworkUtils.UpdateRuleListBySrc n rules src cidrs snat).
Proof. unfold NetworkUtils.UpdateRuleListBySrc, delete_rule. ipt_steps. Qed.

Lemma GetRuleList_keeps : keeps same_ipt (r ← NetworkUtils.GetRuleList; mret (rule_list r)).
Proof. unfold NetworkUtils.GetRuleList. ipt_steps. Qed.

(** The settings of the network and the rules of iptables stay. *)
Definition node_same (s s' : NodeSt W) : Prop := n_net s' = n_net s ∧ same_ipt (n_world s) (n_world s').

#[global] Instance node_same_pre : PreOrder node_same.
Proof.
  split; unfold node_same, same_ipt; [by intros s|]. intros a b c [? ?] [? ?]. split; congruence.
Qed.

Lemma node_ext_same {A} (f : ext W A) s : same_ipt (n_world s) (f (n_world s)).2 → node_same s (node_ext f s).2.
Proof. unfold node_ext, node_same. destruct (f (n_world s)) as [o w]. done. Qed.

Lemma node_net_same {A} (m : linuxNetwork → M W A) s :
  keeps same_ipt (m (n_net s)) → node_same s (node_net m s).2.
Proof.
  intros Hm. specialize (Hm (n_world s)). unfold node_net, method, node_same.
  destruct (m (n_net s) (n_world s)) as [[] w]; done.
Qed.

#[global] Instance node_rest_frame : RestFrame node_same.
Proof.
  split.
  - split; [apply _|..].
    + intros s. unfold node_same. simpl. pose proof (apart_now apart (n_world s)). by destruct (w_now (n_world s)).
    + intros A l s. unfold node_same. simpl. pose proof (apart_range apart A l (n_world s)).
      by destruct (w_range l (n_world s)).
  - intros d s. split; [done|]. apply (apart_sleep apart).
  - intros A f s []; try (apply node_ext_same, (apart_aws apart); constructor);
      try (apply node_net_same; first [apply SetupENINetwork_keeps|apply GetRuleList_keeps|apply UpdateRuleListBySrc_keeps]);
      try done.
    simpl. unfold method, K8sDiscovery.K8SGetLocalPodIPs, ctrl, kworld, range, range_list, gets, zoom, mbind, M_bind. simpl.
    destruct (synced (n_ctrl s)); simpl; [|done].
    pose proof (apart_range apart _ (map_to_list (workerPods (n_ctrl s))) (n_world s)) as H.
    by destruct (w_range _ (n_world s)).
  - intros s. unfold node_same. simpl. pose proof (apart_rpcs apart (n_world s)). by destruct (w_rpcs (n_world s)).
Qed.

(** ** The start *)

(** What the client of EC2 reports of the node: it read it once, when it was
    made. *)
Record reports (cidr : string) (cidrs : list string) (ip mac : string) : Prop := {
  reports_cidr : ∀ (w w' : W) a, GetVPCIPv4CIDR w = (Some a, w') → a = cidr;
  reports_cidrs : ∀ (w w' : W) a, GetVPCIPv4CIDRs w = (Some a, w') → a = cidrs;
  reports_ip : ∀ (w w' : W) a, GetLocalIPv4 w = (Some a, w') → a = ip;
  reports_mac : ∀ (w w' : W) a, GetPrimaryENImac w = (Some a, w') → a = mac;
}.

Lemma node_ext_ret {A} (f : ext W A) s s' a :
  node_ext f s = (Some a, s') → ∃ w w', f w = (Some a, w').
Proof. unfold node_ext. destruct (f (n_world s)) as [o w] eqn:Hf. intros [= -> _]. eauto. Qed.

(** A step of the start that keeps the rules. *)
Lemma wp_start_step {A B} (m : M (IpamSt (NodeSt W)) A) (f : A → M (IpamSt (NodeSt W)) B) Q Q' s0 s :
  safe own m Q → keeps (on_i node_same) m → sound own s → on_i node_same s0 s →
  (∀ a s', sound own s' → on_i node_same s0 s' → Q a → wp (crash (W:=NodeSt W)) (f a) Q' s') →
  wp (crash (W:=NodeSt W)) (mbind f m) Q' s.
Proof.
  intros Hm Hk Hs H0 Hf. apply wp_bind. pose proof (Hm s Hs) as H. pose proof (Hk s) as HR.
  unfold wp in *. destruct (m s) as [[a| |] s'] eqn:Hr; [|done..]. destruct H as [Hs' HQ].
  apply Hf; [done| |done]. by etransitivity.
Qed.

(** [SetupHostNetwork] through the interface. *)
Lemma host_setup_in_line vpc cidrs mac addr (w w' : NodeSt W) :
  node_facts (W:=W) ifs rf → NoDup (ipt (n_world w)) →
  Interfaces.SetupHostNetwork vpc cidrs mac addr w = (Some None, w') →
  n_net w' = n_net w ∧ ∃ intf, primary_intf (n_net w) mac ifs = Some intf ∧
    in_line ipt (n_net w) intf rf (IPNet_String (to_addr vpc)) cidrs (IP_String addr) (n_world w').
Proof.
  intros Hf Hnd H. simpl in H. unfold node_net, method in H.
  destruct (NetworkUtils.SetupHostNetwork (n_net w) (to_addr vpc) cidrs mac addr (n_world w)) as [[o| |] v] eqn:Hr;
    [|done..]. injection H as -> <-. split; [done|].
  exact (wp_elim _ _ _ _ _ _ (setup_host_spec ipt _ _ _ _ _ _ _ _ Hf Hnd) Hr eq_refl).
Qed.

Lemma in_line_same n intf vpc cidrs addr (w w' : W) :
  same_ipt w w' → in_line ipt n intf rf vpc cidrs addr w → in_line ipt n intf rf vpc cidrs addr w'.
Proof. unfold in_line, same_ipt. by intros ->. Qed.

(** The call of [SetupHostNetwork] in the start. *)
Lemma wp_start_host {B} vpc cidrs mac addr (f : option error → M (IpamSt (NodeSt W)) B) Q' s0 s :
  node_facts (W:=W) ifs rf → sound own s → on_i node_same s0 s → NoDup (ipt (n_world (i_world s0))) →
  (∀ o s', sound own s' →
     (o = None → n_net (i_world s') = n_net (i_world s0) ∧
        ∃ intf, primary_intf (n_net (i_world s0)) mac ifs = Some intf ∧
        in_line ipt (n_net (i_world s0)) intf rf (IPNet_String (to_addr vpc)) cidrs (IP_String addr) (n_world (i_world s'))) →
     wp (crash (W:=NodeSt W)) (f o) Q' s') →
  wp (crash (W:=NodeSt W)) (o ← ask (Interfaces.SetupHostNetwork vpc cidrs mac addr); f o) Q' s.
Proof.
  intros Hfacts Hs H0 Hnd Hf. apply wp_bind. unfold ask. eapply wp_start_step;
    [apply safe_serve|apply serve_frame; [apply _|apply service_rpcs]|done|exact H0|].
  intros _ s1 Hs1 [Hn Hi] _. unfold world. apply wp_zoom. unfold wp, call.
  destruct (Interfaces.SetupHostNetwork vpc cidrs mac addr (i_world s1)) as [[o|] w'] eqn:Hr;
    [|eexists _, _, _, _; split; [|exact Hr]; constructor].
  apply Hf; [done|]. intros ->. apply host_setup_in_line in Hr as [Hn' Hl]; [|done|].
  - simpl. split; [congruence|]. by rewrite <-Hn.
  - unfold same_ipt in Hi. by rewrite Hi.
Qed.

Lemma in_line_later n intf vpc cidrs addr (s s' : IpamSt (NodeSt W)) :
  on_i node_same s s' → in_line ipt n intf rf vpc cidrs addr (n_world (i_world s)) →
  in_line ipt n intf rf vpc cidrs addr (n_world (i_world s')).
Proof. intros [_ H]. by apply in_line_same. Qed.

Ltac start_safe := first [apply safe_ask_any; constructor|apply safe_prom|apply safe_upd; by intros []|apply getMaxENI_safe].
Ltac start_keeps := first [apply keeps_ask; [apply _|constructor]|apply prom_frame, _|apply upd_frame, _|apply getMaxENI_frame, _].
Ltac start_step :=
  lazymatch goal with
  | |- wp _ (mret _) _ _ => by apply wp_ret
  | |- wp _ (mbind _ (ask GetVPCIPv4CIDR)) _ _ => fail
  | |- wp _ (mbind _ (ask GetPrimaryENImac)) _ _ => fail
  | |- wp _ (mbind _ _) _ _ =>
      eapply (wp_start_step _ _ (λ _, True)); [start_safe|start_keeps|eassumption|eassumption|]; intros ? ? ? ? _
  | |- wp _ (let '_ := ?x in _) _ _ => destruct x
  | |- wp _ (match ?x with None => _ | _ => _ end) _ _ => destruct x; [by apply wp_ret|]
  end.

(** An answer of the client of EC2. *)
Lemma safe_answer {A} (f : ext W A) a0 :
  (∀ w w' a, f w = (Some a, w') → a = a0) → service (W:=NodeSt W) A (node_ext f) →
  safe own (ask (node_ext f)) (λ a, a = a0).
Proof. intros Hf Hs. apply safe_ask; [done|]. intros s a s' (w & w' & H)%node_ext_ret. by eapply Hf. Qed.

Ltac start_answer H :=
  eapply wp_start_step; [eapply safe_answer; [apply H|constructor]|start_keeps|eassumption|eassumption|];
  intros ? ? ? ? ->.

(** C9: the start of the daemon as one run over the real network, pod discovery
    and ENIConfig code: [nodeInit] ends unless a service panics, and when it reports
    success the rules of iptables that the daemon knows are in line with the settings
    and with what EC2 reports of the VPC, of the node's address and of the MAC
    address of its primary ENI, which picks the interface.  Before the start no rule
    may be there twice, and what EC2 and the node report (interfaces, version of
    iptables) stays the same during the start, EC2 lists an address for its owner
    only ([ServicesOk]), and only the calls of iptables change its rules ([ipt_apart]).  Nothing [nodeInit] does after the
    host network is set up, the set-up of the ENIs, the recovery of the pods and
    their routing rules, disturbs the rules. *)
Theorem node_start_in_line cidr cidrs ip mac (s : IpamSt (NodeSt W)) :
  reports cidr cidrs ip mac → node_facts (W:=W) ifs rf → sound own s → NoDup (ipt (n_world (i_world s))) →
  wp (crash (W:=NodeSt W)) nodeInit (λ err s', err = None →
    ∃ a vpc intf, ParseCIDR cidr = Some (a, vpc) ∧ primary_intf (n_net (i_world s)) mac ifs = Some intf ∧
      in_line ipt (n_net (i_world s)) intf rf (IPNet_String (to_addr vpc)) cidrs (IP_String (ParseIP ip))
        (n_world (i_world s'))) s.
Proof.
  intros Hrep Hf Hs Hnd. assert (on_i node_same s s) as H0 by reflexivity.
  unfold nodeInit, inprogress. start_step. apply wp_bind.
  eapply wp_mono; [|intros err s2 Hpost; exact Hpost].
  repeat (cbn beta iota zeta; start_step).
  start_answer Hrep. destruct (ParseCIDR cidr) as [[base vpc]|]; [|done].
  start_answer Hrep. start_answer Hrep. start_answer Hrep.
  eapply wp_start_host; [done|done|done|done|]. intros [e|] sh Hsh Hl; [done|].
  destruct (Hl eq_refl) as (_ & intf & Hi & Hline).
  pose proof (nodeInit_store_frame node_same l sh) as Hk.
  eapply wp_mono; [apply wp_trace, (nodeInit_store_ends own), Hsh|].
  intros err s2 [_ Hr] _. exists base, vpc, intf. split; [done|]. split; [done|].
  rewrite Hr in Hk. by eapply in_line_later.
Qed.

End node.

(** ** A node *)

Module Example_node.

#[local] Instance Host_World : World Host := {
  w_now h := let '(t, k) := w_now (h_kernel h) in (t, mkHost k (h_ipt h));
  w_sleep d h := mkHost (w_sleep d (h_kernel h)) (h_ipt h);
  w_range _ l h := (l, h);
}.
#[local] Instance Host_WorldOk : WorldOk Host.
Proof. split; try done; intros; unfold clock; simpl; change Second with 1000000000; lia. Qed.

(** One ENI, with the address of the node and one for a pod. *)
#[local] Instance Host_Aws : AwsAPIs Host := {
  AllocENI _ _ _ w := (Some ("eni-2"%string, None), w);
  FreeENI _ w := (Some None, w);
  GetAttachedENIs w :=
    (Some ([mkENIMetadata "eni-1" "0a:00" 0 "10.1.0.0/16" ["10.1.0.1"; "10.1.0.7"]]%string, None), w);
  DescribeENI id w :=
    (Some (if decide (id = "eni-1"%string) then
             [mkEC2Address (Some true) (Some "10.1.0.1"%string); mkEC2Address (Some false) (Some "10.1.0.7"%string)]
           else [], None, None), w);
  AllocIPAddresses _ _ w := (Some None, w);
  DeallocIPAddresses _ _ w := (Some None, w);
  GetVPCIPv4CIDR w := (Some "10.1.0.0/16"%string, w);
  GetVPCIPv4CIDRs w := (Some ["10.1.0.0/16"%string], w);
  GetLocalIPv4 w := (Some "10.1.0.1"%string, w);
  GetPrimaryENI w := (Some "eni-1"%string, w);
  GetENIipLimit w := (Some (10, None), w);
  GetENILimit w := (Some (3, None), w);
  GetPrimaryENImac w := (Some "0a:00"%string, w);
}.
#[local] Instance Host_Requests : Requests Host := { w_rpcs w := ([], w) }.

(** The informer has synced when the daemon first sleeps. *)
#[local] Instance Host_Background : Background Host := {
  bg_ctrl _ c := mkController {["default/p" := mkK8SPodInfo "p" "default" "c1" "10.1.0.7" ""]} ∅ "n" true;
  bg_eni _ c := c;
}.

#[local] Instance Host_ServicesOk : ServicesOk Host (λ _, "eni-1"%string).
Proof.
  split.
  - intros w w' l [= <- <-] m ip Hm Hip. apply list_elem_of_singleton in Hm as ->. simpl in *. set_solver.
  - intros id w w' l o. simpl. destruct (decide (id = "eni-1"%string)) as [->|]; intros [= <- <- <-] a Ha; set_solver.
Qed.

#[local] Instance no_env : Environ := { environ := ∅ }.

Definition node_ex : IpamSt (NodeSt Host) :=
  mkIpamSt zeroContext ∅
    (mkNodeSt network_ex (mkController ∅ ∅ "n" false) (mkENIConfigController ∅ "" "n" "" "") host_ex).

Lemma host_apart : ipt_apart host_ipt.
Proof. split; try done. by intros A f w []. Qed.

Lemma host_reports : reports (W:=Host) "10.1.0.0/16" ["10.1.0.0/16"%string] "10.1.0.1" "0a:00".
Proof. by split; intros w w' a [= <- _]. Qed.

Lemma node_ex_rules : NoDup (host_ipt (n_world (i_world node_ex))).
Proof. vm_compute. apply NoDup_cons. split; [|apply NoDup_singleton]. by intros ?%list_elem_of_singleton. Qed.

Lemma returned {S A} (m : M S A) s a : (m s).1 = Ret a → ∃ s', s ⊢ m ⇓ a ⊣ s'.
Proof. destruct (m s) as [r s']. simpl. intros ->. by exists s'. Qed.

(** The start succeeds and leaves the rules in line. *)
Lemma node_start_in_line_witness :
  ∃ s, node_ex ⊢ nodeInit ⇓ None ⊣ s ∧ ∃ a vpc, ParseCIDR "10.1.0.0/16" = Some (a, vpc) ∧
    in_line host_ipt network_ex "eth0" true (IPNet_String (to_addr vpc)) ["10.1.0.0/16"%string]
      (IP_String (ParseIP "10.1.0.1")) (n_world (i_world s)).
Proof.
  destruct (returned nodeInit node_ex None) as [s Hr]; [vm_compute; reflexivity|]. exists s. split; [exact Hr|].
  destruct (wp_elim _ _ _ _ _ _ (node_start_in_line host_ipt host_ifs true host_apart (λ _, "eni-1"%string) "10.1.0.0/16"
    ["10.1.0.0/16"%string] "10.1.0.1" "0a:00" node_ex host_reports host_facts (good_new _) node_ex_rules) Hr eq_refl)
    as (a & vpc & intf & Ha & Hi & Hl).
  vm_compute in Hi. injection Hi as <-. exists a, vpc. split; [exact Ha|exact Hl].
Defined.

(** It also waits for pod discovery, and recovers the pod. *)
Example node_start_recovers :
  (IP ∘ snd <$> map_to_list (podsIP (dataStore (i_ctx (nodeInit node_ex).2)))) = ["10.1.0.7"%string].
Proof. vm_compute. reflexivity. Qed.

End Example_node.
