(* ===== verification/Introspect.v ===== *)
(** * The HTTP endpoints of the daemon: ipamd/introspect.go and ipamd/metrics.go

    The multiplexer of net/http, the JSON of what the endpoints show, the handlers
    and the server.  [GetENIInfos] copies the entries of the store, but the copies
    share the maps of addresses with the store, and the answer is marshalled after
    the lock was given back: what other goroutines do to the store in the meantime
    ([Others]) shows in the addresses and not in the counters. *)
From S2P Require Import Prelude GoStd Json GoTime DataStore DataStoreSpec Interfaces Ipamd EniConfig Netlink NetworkUtils Float64 Utils.

Open Scope Z_scope.

Definition defaultIntrospectionBindAddress : string := "127.0.0.1:61679".
Definition introspectionBindAddress : string := "INTROSPECTION_BIND_ADDRESS".
Definition envDisableIntrospection : string := "DISABLE_INTROSPECTION".
Definition metricsPort : Z := 61678.
Definition envDisableMetrics : string := "DISABLE_METRICS".

(** ** net/http *)

Record Request := mkRequest {
  r_Method : string;
  r_Host : string;
  r_Path : string;
  r_RequestURI : string;
}.

(** What a client gets: 200 and a body, an error with its body, a permanent
    redirection. *)
Inductive response : Type :=
| HOk (body : string)
| HError (code : Z) (body : string)
| HMoved (path : string).

(** [http.Error(w, http.StatusText(code), code)] and [http.NotFound]. *)
Definition InternalServerError : response := HError 500 ("Internal Server Error" +:+ newline).
Definition NotFound : response := HError 404 ("404 page not found" +:+ newline).

(** [path.Clean] of a rooted path: its elements without [.] and empty ones, and
    with [..] resolved. *)
Definition clean_step (acc : list string) (e : string) : list string :=
  if bool_decide (e = ""%string ∨ e = "."%string) then acc
  else if bool_decide (e = ".."%string) then tail acc
  else e :: acc.
Definition path_elements (p : string) : list string := reverse (foldl clean_step [] (Split p "/")).
Definition rooted (l : list string) : string := foldr (λ e s, String "/"%char (e +:+ s)) "" l.

Definition ends_slash (p : string) : bool :=
  match String.get (String.length p - 1) p with
  | Some c => bool_decide (c = "/"%char)
  | None => false
  end.

(** [cleanPath] of net/http: a slash at the end is kept. *)
Definition cleanPath (p : string) : string :=
  match path_elements p with
  | [] => "/"
  | l => if ends_slash p then rooted l +:+ "/" else rooted l
  end.

Section http.
Context {S : Type}.

Definition Handler : Type := Request → M S response.
Abbreviation ServeMux := (gmap string Handler).

(** [mux.Handle] panics when the pattern has a handler already. *)
Definition mux_Handle (pattern : string) (h : Handler) (mux : ServeMux) : M S ServeMux :=
  match mux !! pattern with
  | Some _ => panic ("http: multiple registrations for " +:+ pattern)
  | None => mret (<[pattern := h]> mux)
  end.

(** [mux.match]: the pattern itself, or the longest one that ends in a slash and
    begins the path. *)
Definition longer (path : string) (x : string * Handler) (best : option (string * Handler)) : option (string * Handler) :=
  if ends_slash x.1 && String.prefix x.1 path &&
     match best with Some b => bool_decide (String.length b.1 < String.length x.1)%nat | None => true end
  then Some x else best.
Definition mux_match (mux : ServeMux) (path : string) : option Handler :=
  match mux !! path with
  | Some h => Some h
  | None => snd <$> foldr (longer path) None (map_to_list mux)
  end.

Definition shouldRedirect (mux : ServeMux) (host path : string) : bool :=
  let p := [path; host +:+ path] in
  if existsb (λ c, bool_decide (is_Some (mux !! c))) p then false
  else if bool_decide (path = ""%string) then false
  else if existsb (λ c, bool_decide (is_Some (mux !! (c +:+ "/")))) p then negb (ends_slash path)
  else false.

Definition mux_dispatch (mux : ServeMux) (r : Request) (path : string) : M S response :=
  match mux_match mux path with
  | Some h => h r
  | None => mret NotFound
  end.

(** [mux.ServeHTTP] with [mux.Handler], for patterns without a host. *)
Definition mux_ServeHTTP (mux : ServeMux) (r : Request) : M S response :=
  if bool_decide (r_RequestURI r = "*"%string) then mret (HError 400 "")
  else
    let path := if bool_decide (r_Method r = "CONNECT"%string) then r_Path r else cleanPath (r_Path r) in
    if shouldRedirect mux (r_Host r) path then mret (HMoved (path +:+ "/"))
    else if bool_decide (path ≠ r_Path r) then mret (HMoved path)
    else mux_dispatch mux r path.

Record Server := mkServer {
  srv_Addr : string;
  srv_Handler : Handler;
  srv_ReadTimeout : Z;
  srv_WriteTimeout : Z;
}.

End http.
Arguments Handler : clear implicits.
Arguments Server : clear implicits.
Abbreviation ServeMux S := (gmap string (Handler S)).

Example cleanPath_ex : cleanPath "/v1//enis/../pods" = "/v1/pods"%string ∧ cleanPath "" = "/"%string ∧
  cleanPath "v1/enis/" = "/v1/enis/"%string ∧ cleanPath "/../v1/./enis" = "/v1/enis"%string.
Proof. vm_compute. done. Qed.

(** ** What is shown, as JSON *)

(** An object whose members are written in this order. *)
Definition obj (l : list (string * option json)) : option json :=
  JObj <$> mapM (λ kv, pair kv.1 <$> kv.2) l.

Section values.
Context {loc : Location}.

#[global] Instance AddressInfo_Marshal : Marshal AddressInfo := {|
  toJson a := obj [("Address"%string, toJson (Address a)); ("Assigned"%string, toJson (Assigned a));
                   ("UnassignedTime"%string, time_toJson (UnassignedTime a))];
  fromJson j := match j with
    | JObj l => a ← field "Address" l; b ← field "Assigned" l; t ← member "UnassignedTime" l;
                t ← time_fromJson t; Some (mkAddressInfo a b t)
    | _ => None
    end;
  view a := a;
  good a := utf8_valid (Address a) = true ∧ zone_ok (offset_of (UnassignedTime a));
|}.

(** The exported fields. *)
Definition exported (e : ENIIPPool) : ENIIPPool :=
  mkENIIPPool zeroTime zeroTime (IsPrimary e) (ID e) (DeviceNumber e) (AssignedIPv4Addresses e)
    (view (IPv4Addresses e)).

#[global] Instance ENIIPPool_Marshal : Marshal ENIIPPool := {|
  toJson e := obj [("IsPrimary"%string, toJson (IsPrimary e)); ("ID"%string, toJson (ID e));
                   ("DeviceNumber"%string, toJson (DeviceNumber e));
                   ("AssignedIPv4Addresses"%string, toJson (AssignedIPv4Addresses e));
                   ("IPv4Addresses"%string, toJson (IPv4Addresses e))];
  fromJson j := match j with
    | JObj l => p ← field "IsPrimary" l; i ← field "ID" l; d ← field "DeviceNumber" l;
                n ← field "AssignedIPv4Addresses" l; a ← field "IPv4Addresses" l;
                Some (mkENIIPPool zeroTime zeroTime p i d n a)
    | _ => None
    end;
  view := exported;
  good e := utf8_valid (ID e) = true ∧ good (IPv4Addresses e);
|}.

#[global] Instance ENIInfos_Marshal : Marshal ENIInfos := {|
  toJson i := obj [("TotalIPs"%string, toJson (TotalIPs i)); ("AssignedIPs"%string, toJson (AssignedIPs i));
                   ("ENIIPPools"%string, toJson (ENIIPPools i))];
  fromJson j := match j with
    | JObj l => t ← field "TotalIPs" l; a ← field "AssignedIPs" l; p ← field "ENIIPPools" l;
                Some (mkENIInfos t a p)
    | _ => None
    end;
  view i := mkENIInfos (TotalIPs i) (AssignedIPs i) (view (ENIIPPools i));
  good i := good (ENIIPPools i);
|}.

#[global] Instance PodIPInfo_Marshal : Marshal PodIPInfo := {|
  toJson p := obj [("IP"%string, toJson (IP p)); ("DeviceNumber"%string, toJson (pi_DeviceNumber p))];
  fromJson j := match j with
    | JObj l => i ← field "IP" l; d ← field "DeviceNumber" l; Some (mkPodIPInfo i d)
    | _ => None
    end;
  view p := p;
  good p := utf8_valid (IP p) = true;
|}.

(** A slice that is nil when [isnil] says so of an empty one. *)
Definition slice_toJson {A} `{!Marshal A} (isnil : bool) (l : list A) : option json :=
  match l with
  | [] => Some (if isnil then JNull else JArr [])
  | _ => toJson l
  end.
Definition slice_fromJson {A} `{!Marshal A} (j : json) : option (list A) :=
  match j with JNull => Some [] | _ => fromJson j end.

(** Which empty lists of security groups are nil: those the resource does not
    mention. *)
Class NilGroups : Type := { nilGroups : ENIConfigSpec → bool }.
Context {nil : NilGroups}.

#[global] Instance ENIConfigSpec_Marshal : Marshal ENIConfigSpec := {|
  toJson s := obj [("securityGroups"%string, slice_toJson (nilGroups s) (SecurityGroups s));
                   ("subnet"%string, toJson (Subnet s))];
  fromJson j := match j with
    | JObj l => g ← member "securityGroups" l; g ← slice_fromJson g; n ← field "subnet" l;
                Some (mkENIConfigSpec g n)
    | _ => None
    end;
  view s := mkENIConfigSpec (view (SecurityGroups s)) (Subnet s);
  good s := good (SecurityGroups s) ∧ utf8_valid (Subnet s) = true;
|}.

#[global] Instance ENIConfigInfo_Marshal : Marshal ENIConfigInfo := {|
  toJson i := obj [("ENI"%string, toJson (info_ENI i)); ("MyENI"%string, toJson (info_MyENI i));
                   ("EniConfigAnnotationDef"%string, toJson (info_EniConfigAnnotationDef i));
                   ("EniConfigLabelDef"%string, toJson (info_EniConfigLabelDef i))];
  fromJson j := match j with
    | JObj l => e ← field "ENI" l; m ← field "MyENI" l; a ← field "EniConfigAnnotationDef" l;
                d ← field "EniConfigLabelDef" l; Some (mkENIConfigInfo e m a d)
    | _ => None
    end;
  view i := mkENIConfigInfo (view (info_ENI i)) (info_MyENI i) (info_EniConfigAnnotationDef i) (info_EniConfigLabelDef i);
  good i := good (info_ENI i) ∧ utf8_valid (info_MyENI i) = true ∧
            utf8_valid (info_EniConfigAnnotationDef i) = true ∧ utf8_valid (info_EniConfigLabelDef i) = true;
|}.

(** [interface{}]: a value of any type. *)
#[global] Instance json_Marshal_any : Marshal json := {|
  toJson j := Some j;
  fromJson j := Some j;
  view j := j;
  good j := json_ok j = true;
|}.

Record rootResponse := mkRootResponse { AvailableCommands : list string }.

#[global] Instance rootResponse_Marshal : Marshal rootResponse := {|
  toJson r := obj [("AvailableCommands"%string, toJson (AvailableCommands r))];
  fromJson j := match j with JObj l => c ← field "AvailableCommands" l; Some (mkRootResponse c) | _ => None end;
  view r := mkRootResponse (view (AvailableCommands r));
  good r := good (AvailableCommands r);
|}.

End values.

(** ** Settings *)

Section settings.
Context {env : Environ}.

Definition getEnvBoolWithDefault (envName : string) (def : bool) : bool :=
  let strValue := Getenv envName in
  if bool_decide (strValue ≠ ""%string) then
    match GoStd.ParseBool strValue with
    | Some parsedValue => parsedValue
    | None => def
    end
  else def.

Definition disableIntrospection : bool := getEnvBoolWithDefault envDisableIntrospection false.
Definition disableMetrics : bool := getEnvBoolWithDefault envDisableMetrics false.

(** [ipamd.GetConfigForDebug()]. *)
Definition ipamd_GetConfigForDebug : gmap string json :=
  <[envWarmIPTarget := JNum getWarmIPTarget]>
  (<[envWarmENITarget := JNum getWarmENITarget]>
  (<[envCustomNetworkCfg := JBool UseCustomNetworkCfg]> ∅)).

(** [snatType] is an unsigned integer: the constants are numbered from 0. *)
Definition snat_number (t : snatType) : Z :=
  match t with sequentialSNAT => 0 | randomHashSNAT => 1 | randomPRNGSNAT => 2 end.

(** [networkutils.GetConfigForDebug()]; a list without elements is nil. *)
Definition networkutils_GetConfigForDebug : gmap string json :=
  <[envExternalSNAT := JBool useExternalSNAT]>
  (<[envExcludeSNATCIDRs := match getExcludeSNATCIDRs with [] => JNull | l => JArr (JStr <$> l) end]>
  (<[envNodePortSupport := JBool nodePortSupportEnabled]>
  (<[envConnmark := JNum getConnmark]>
  (<[envRandomizeSNAT := JNum (snat_number typeOfSNAT)]> ∅)))).

End settings.

(** ** Handlers *)

(** The calls other goroutines make on the store between [GetENIInfos] and the
    marshalling of its result. *)
Class Others (W : Type) : Type := { w_calls : W → list ds_call * W }.

(** [c.eniConfig.Getter()], [server.ListenAndServe()]. *)
Class Endpoint (W : Type) : Type := {
  eniConfig_Getter : ext W ENIConfigInfo;
  ListenAndServe : string → ext W error;
}.

Section handlers.
Context {W : Type} `{!World W, !Others W, !Endpoint W} {env : Environ} {loc : Location} {nil : NilGroups}.

Abbreviation HM := (M (DSt W)).

(** [logErr(w.Write(responseJSON))], or the error of [json.Marshal]. *)
Definition write_json (responseJSON : option string) : HM response :=
  match responseJSON with
  | Some body => mret (HOk body)
  | None => mret InternalServerError
  end.

(** An entry of the answer of [GetENIInfos] and whether its map is still that of
    the store: a call on the store shows in it until the ENI is removed. *)
Definition follow (pools : gmap string ENIIPPool) (id : string) (v : ENIIPPool * bool) : ENIIPPool * bool :=
  let '(e, shared) := v in
  if shared : bool then
    match pools !! id with
    | Some e' => (set_addrs (IPv4Addresses e') e, true)
    | None => (e, false)
    end
  else v.

Definition follow_call (view : gmap string (ENIIPPool * bool)) (c : ds_call) : HM (gmap string (ENIIPPool * bool)) :=
  _ ← ds_exec c;
  ds ← get_ds;
  mret (map_imap (λ id v, Some (follow (eniIPPools ds) id v)) view).

(** What [GetENIInfos()] refers to by the time it is marshalled. *)
Definition eni_infos_seen : HM ENIInfos :=
  infos ← GetENIInfos;
  calls ← on_world (λ w, let '(cs, w') := w_calls w in (Ret cs, w'));
  view ← fold_loop follow_call ((λ e, (e, true)) <$> ENIIPPools infos) calls;
  mret (mkENIInfos (TotalIPs infos) (AssignedIPs infos) (fst <$> view)).

Definition eniV1RequestHandler : Handler (DSt W) := λ _,
  infos ← eni_infos_seen; write_json (json_Marshal infos).

Definition podV1RequestHandler : Handler (DSt W) := λ _,
  pods ← GetPodInfos; write_json (json_Marshal pods).

Definition eniConfigRequestHandler : Handler (DSt W) := λ _,
  info ← on_world (call eniConfig_Getter); write_json (json_Marshal info).

Definition networkEnvV1RequestHandler : Handler (DSt W) := λ _,
  write_json (json_Marshal networkutils_GetConfigForDebug).

Definition ipamdEnvV1RequestHandler : Handler (DSt W) := λ _,
  write_json (json_Marshal ipamd_GetConfigForDebug).

(** [LoggingHandler.ServeHTTP] logs and passes the request on. *)
Definition LoggingHandler (h : Handler (DSt W)) : Handler (DSt W) := λ r, h r.

Definition serverFunctions : gmap string (Handler (DSt W)) :=
  list_to_map [("/v1/enis"%string, eniV1RequestHandler);
               ("/v1/eni-configs"%string, eniConfigRequestHandler);
               ("/v1/pods"%string, podV1RequestHandler);
               ("/v1/networkutils-env-settings"%string, networkEnvV1RequestHandler);
               ("/v1/ipamd-env-settings"%string, ipamdEnvV1RequestHandler)].

Definition defaultHandler (paths : list string) : Handler (DSt W) := λ _,
  mret (HOk (default "" (json_Marshal (mkRootResponse paths)))).

(** The two multiplexers: the inner one with all endpoints, and the outer one that
    logs every request. *)
Definition introspection_mux : HM (ServeMux (DSt W)) :=
  fns ← on_world (range serverFunctions);
  serveMux ← mux_Handle "/" (defaultHandler fns.*1) ∅;
  fns ← on_world (range serverFunctions);
  serveMux ← fold_loop (λ m '(key, fn), mux_Handle key fn m) serveMux fns;
  mux_Handle "/" (LoggingHandler (mux_ServeHTTP serveMux)) ∅.

Definition setupIntrospectionServer : HM (Server (DSt W)) :=
  loggingServeMux ← introspection_mux;
  let addr := match LookupEnv introspectionBindAddress with
              | Some addr => addr
              | None => defaultIntrospectionBindAddress
              end in
  mret (mkServer addr (mux_ServeHTTP loggingServeMux) (5 * Second) (5 * Second)).

(** [promhttp.Handler()] is a library's. *)
Definition setupMetricsServer (promhttp_Handler : Handler (DSt W)) : HM (Server (DSt W)) :=
  serveMux ← mux_Handle "/metrics" promhttp_Handler ∅;
  mret (mkServer (":" +:+ pretty metricsPort) (mux_ServeHTTP serveMux) (5 * Second) (5 * Second)).

(** Listening again and again with a growing pause: [ListenAndServe] returns only
    with an error.  [tries] bounds the calls of one [RetryWithBackoff], and [turns]
    the turns of the endless loop around it. *)
Context `{!Rand W}.

Definition serve_backoff : SimpleBackoff := NewSimpleBackoff Second Minute (fconst 1 5) (of_Z 2).

Abbreviation BM := (M (W * SimpleBackoff)).

Definition serve_Duration : BM Z := λ '(w, sb),
  match Duration sb w with
  | (Ret (d, sb'), w') => (Ret d, (w', sb'))
  | (Panic why, w') => (Panic why, (w', sb))
  | (NoFuel, w') => (NoFuel, (w', sb))
  end.
Definition serve_world {A} (m : M W A) : BM A := zoom fst (λ w s, (w, s.2)) m.

Definition listen_turn (tries : nat) (addr : string) : M W (option anyError) := λ w,
  let '(r, s) := RetryWithBackoff serve_Duration (λ d, serve_world (time_Sleep d)) tries
                   (err ← serve_world (call (ListenAndServe addr)); mret (Some (PlainError err))) (w, serve_backoff) in
  (r, s.1).

Fixpoint listen_forever (turns tries : nat) (addr : string) : M W unit :=
  match turns with
  | O => nofuel
  | S turns => _ ← listen_turn tries addr; listen_forever turns tries addr
  end.

Definition ServeIntrospection (turns tries : nat) : HM unit :=
  if disableIntrospection then mret tt
  else server ← setupIntrospectionServer; on_world (listen_forever turns tries (srv_Addr server)).

Definition ServeMetrics (promhttp_Handler : Handler (DSt W)) (turns tries : nat) : HM unit :=
  if disableMetrics then mret tt
  else server ← setupMetricsServer promhttp_Handler; on_world (listen_forever turns tries (srv_Addr server)).

End handlers.
