(* ===== verification/IntrospectProps.v ===== *)
(** * Theorems about the HTTP endpoints

    What a client reads of the introspection endpoints: where a request goes, that
    every answer is JSON of a fixed type, and that the answers read back as the
    state of the daemon. *)
From S2P Require Import Prelude GoStd Json GoTime DataStore DataStoreInv DataStoreSpec DataStoreProps Interfaces Ipamd EniConfig Netlink NetworkUtils Float64 Utils Introspect.

Open Scope Z_scope.

(** ** The values read back *)

(** The members of an object that was written. *)
Lemma obj_Some l j : obj l = Some j → ∃ k, j = JObj k ∧ Forall2 (λ x y, x.1 = y.1 ∧ x.2 = Some y.2) l k.
Proof.
  intros (k & Hk%mapM_Some & ->)%fmap_Some_1. exists k. split; [done|].
  eapply Forall2_impl; [exact Hk|]. by intros [a o] [b y] (z & Hz & [= <- <-])%fmap_Some_1.
Qed.

#[local] Arguments toJson : simpl never.
#[local] Arguments fromJson : simpl never.

(** [obj_inv H]: the members of the object written in [H], one hypothesis each;
    those of base types are computed. *)
Ltac obj_inv H :=
  apply obj_Some in H as (? & -> & H);
  repeat (let Hm := fresh "Hm" in let He := fresh "He" in
    apply Forall2_cons_inv_l in H as ([? ?] & ? & [He Hm] & H & ->); simpl in He, Hm; subst;
    try (injection Hm as <-));
  apply Forall2_nil_inv_l in H as ->.

Lemma from_base :
  (∀ s : string, fromJson (JStr s) = Some s) ∧ (∀ b : bool, fromJson (JBool b) = Some b) ∧
  (∀ n : Z, fromJson (JNum n) = Some n).
Proof. done. Qed.

(** [obj_read]: the members of an object are looked up. *)
Ltac obj_read :=
  unfold field; simpl;
  rewrite ?(proj1 from_base), ?(proj1 (proj2 from_base)), ?(proj2 (proj2 from_base)); simpl.

(** [obj_typed x]: the type of the member [x] of an object. *)
Ltac obj_typed x :=
  match goal with Hm : toJson x = Some _ |- _ =>
    let Ht := fresh in pose proof (typed x _ Hm) as Ht; simpl in Ht |- *; rewrite Ht
  end.

Section values.
Context {loc : Location} {nil : NilGroups}.

#[global] Instance AddressInfo_MarshalOk : MarshalOk AddressInfo.
Proof.
  split; intros [a b t] j [Hu Hz] H; simpl in Hu, Hz; cbn [toJson AddressInfo_Marshal] in H; obj_inv H.
  - simpl. rewrite Hu. by erewrite time_json_ok.
  - unfold fromJson, AddressInfo_Marshal. obj_read. by erewrite time_round.
Qed.
#[global] Instance AddressInfo_Typed : Typed AddressInfo.
Proof.
  refine {| jtype_of := TRec [("Address", TStr); ("Assigned", TBool); ("UnassignedTime", TStr)]%string |}.
  intros [a b t] j H. cbn [toJson AddressInfo_Marshal] in H. obj_inv H. unfold time_toJson in *.
  by case_bool_decide; simplify_eq.
Defined.

#[global] Instance ENIIPPool_MarshalOk : MarshalOk ENIIPPool.
Proof.
  split; intros [c u p i d n a] j (Hi & Ha) H; simpl in Hi, Ha; cbn [toJson ENIIPPool_Marshal] in H;
    obj_inv H.
  - simpl. rewrite Hi. by erewrite (toJson_ok a).
  - unfold fromJson, ENIIPPool_Marshal. obj_read. by erewrite (fromJson_toJson a).
Qed.
#[global] Instance ENIIPPool_Typed : Typed ENIIPPool.
Proof.
  refine {| jtype_of := TRec [("IsPrimary", TBool); ("ID", TStr); ("DeviceNumber", TNum);
    ("AssignedIPv4Addresses", TNum); ("IPv4Addresses", TMap (jtype_of AddressInfo))]%string |}.
  intros [c u p i d n a] j H. cbn [toJson ENIIPPool_Marshal] in H. obj_inv H. by obj_typed a.
Defined.

#[global] Instance ENIInfos_MarshalOk : MarshalOk ENIInfos.
Proof.
  split; intros [t a p] j Hp H; simpl in Hp; cbn [toJson ENIInfos_Marshal] in H; obj_inv H.
  - simpl. by erewrite (toJson_ok p).
  - unfold fromJson, ENIInfos_Marshal. obj_read. by erewrite (fromJson_toJson p).
Qed.
#[global] Instance ENIInfos_Typed : Typed ENIInfos.
Proof.
  refine {| jtype_of := TRec [("TotalIPs", TNum); ("AssignedIPs", TNum);
    ("ENIIPPools", TMap (jtype_of ENIIPPool))]%string |}.
  intros [t a p] j H. cbn [toJson ENIInfos_Marshal] in H. obj_inv H. by obj_typed p.
Defined.

#[global] Instance PodIPInfo_MarshalOk : MarshalOk PodIPInfo.
Proof.
  split; intros [i d] j Hi H; simpl in Hi; cbn [toJson PodIPInfo_Marshal] in H; obj_inv H; [simpl; by rewrite Hi|done].
Qed.
#[global] Instance PodIPInfo_Typed : Typed PodIPInfo.
Proof.
  refine {| jtype_of := TRec [("IP", TStr); ("DeviceNumber", TNum)]%string |}.
  intros [i d] j H. cbn [toJson PodIPInfo_Marshal] in H. by obj_inv H.
Defined.

Lemma slice_ok {A} `{!Marshal A} `{!MarshalOk A} b (l : list A) j :
  good l → slice_toJson b l = Some j → json_ok j = true ∧ slice_fromJson j = Some (view l).
Proof.
  intros Hg Hj. destruct l as [|x l]; [simpl in Hj; simplify_eq; by destruct b|].
  split; [by apply (toJson_ok (x :: l))|]. pose proof (fromJson_toJson (x :: l) j Hg Hj) as Hf. by destruct j.
Qed.

#[global] Instance ENIConfigSpec_MarshalOk : MarshalOk ENIConfigSpec.
Proof.
  split; intros [g n] j [Hg Hn] H; cbn [toJson ENIConfigSpec_Marshal] in H; obj_inv H; simpl in Hg, Hn;
    match goal with Hs : slice_toJson _ _ = Some _ |- _ => apply slice_ok in Hs as [H1 H2]; [|done] end.
  - simpl. by rewrite H1, Hn.
  - unfold fromJson, ENIConfigSpec_Marshal. obj_read. by rewrite H2.
Qed.
#[global] Instance ENIConfigSpec_Typed : Typed ENIConfigSpec.
Proof.
  refine {| jtype_of := TRec [("securityGroups", TOpt (TArr TStr)); ("subnet", TStr)]%string |}.
  intros [g n] j H. cbn [toJson ENIConfigSpec_Marshal] in H. obj_inv H. cbn [SecurityGroups] in *.
  match goal with Hs : slice_toJson ?b _ = Some ?v |- _ => rename Hs into Hv; rename v into y; destruct b end;
    (destruct g as [|x g]; [by injection Hv as <-|pose proof (typed (x :: g) y Hv) as Ht]);
    simpl in *; by destruct y; rewrite ?Ht.
Defined.

#[global] Instance ENIConfigInfo_MarshalOk : MarshalOk ENIConfigInfo.
Proof.
  split; intros [e m a d] j (He & Hm & Ha & Hd) H; simpl in He, Hm, Ha, Hd;
    cbn [toJson ENIConfigInfo_Marshal] in H; obj_inv H.
  - simpl. erewrite (toJson_ok e) by done. by rewrite Hm, Ha, Hd.
  - unfold fromJson, ENIConfigInfo_Marshal. obj_read. by erewrite (fromJson_toJson e).
Qed.
#[global] Instance ENIConfigInfo_Typed : Typed ENIConfigInfo.
Proof.
  refine {| jtype_of := TRec [("ENI", TMap (jtype_of ENIConfigSpec)); ("MyENI", TStr);
    ("EniConfigAnnotationDef", TStr); ("EniConfigLabelDef", TStr)]%string |}.
  intros [e m a d] j H. cbn [toJson ENIConfigInfo_Marshal] in H. obj_inv H. by obj_typed e.
Defined.

#[global] Instance json_MarshalOk_any : MarshalOk json.
Proof. split; by intros a j Hg [= <-]. Qed.

#[global] Instance rootResponse_MarshalOk : MarshalOk rootResponse.
Proof.
  split; intros [c] j Hc H; simpl in Hc; cbn [toJson rootResponse_Marshal] in H; obj_inv H.
  - simpl. by erewrite (toJson_ok c).
  - unfold fromJson, rootResponse_Marshal. obj_read. by erewrite (fromJson_toJson c).
Qed.
#[global] Instance rootResponse_Typed : Typed rootResponse.
Proof.
  refine {| jtype_of := TRec [("AvailableCommands", TArr TStr)]%string |}.
  intros [c] j H. cbn [toJson rootResponse_Marshal] in H. obj_inv H. by obj_typed c.
Defined.

End values.

(** ** Paths *)

Lemma get_app_last (c : string) x : String.get (String.length (c +:+ String x "") - 1) (c +:+ String x "") = Some x.
Proof.
  induction c as [|y c IH]; [done|]. rewrite string_app_cons. simpl. rewrite Nat.sub_0_r.
  rewrite string_length_app in *. simpl in *. destruct (String.length c + 1)%nat as [|n] eqn:Hn; [lia|].
  simpl in *. by rewrite Nat.sub_0_r in IH.
Qed.

Lemma ends_slash_app c : ends_slash (c +:+ "/") = true.
Proof. unfold ends_slash. by rewrite get_app_last. Qed.

Lemma app_slash_root c : (c +:+ "/" = "/")%string → c = ""%string.
Proof. destruct c as [|x c]; [done|]. rewrite string_app_cons. intros [= _ H]. by destruct c. Qed.

Lemma string_app_nil_inv (a b : string) : (a +:+ b = "")%string → b = ""%string.
Proof. by destruct a. Qed.

Lemma prefix_root s : String.prefix "/" (String "/"%char s) = true.
Proof. simpl. by destruct s. Qed.

Lemma cleanPath_rooted p : String.prefix "/" (cleanPath p) = true.
Proof.
  unfold cleanPath. destruct (path_elements p) as [|e l]; [done|].
  destruct (ends_slash p); apply prefix_root.
Qed.

(** ** Multiplexers whose only pattern for a subtree is the root *)

Section mux.
Context {S : Type}.
Implicit Types (m : ServeMux S) (h : Handler S).

Definition root_only m : Prop := ∀ k, is_Some (m !! k) → ends_slash k = true → k = "/"%string.

Lemma no_slash_redirect m host path : root_only m → shouldRedirect m host path = false.
Proof.
  intros Hm. unfold shouldRedirect. destruct (existsb _ _); [done|]. case_bool_decide as Hp; [done|].
  destruct (existsb _ _) eqn:He; [|done]. apply existsb_exists in He as (c & Hin & Hc%bool_decide_eq_true).
  specialize (Hm _ Hc (ends_slash_app c)). apply app_slash_root in Hm. subst c.
  destruct Hin as [H|[H|[]]]; [done|]. by apply string_app_nil_inv in H.
Qed.

Lemma longest_root path h l :
  String.prefix "/" path = true → ("/"%string, h) ∈ l → NoDup l.*1 →
  (∀ x, x ∈ l → ends_slash x.1 = true → x.1 = "/"%string) →
  foldr (longer path) None l = Some ("/"%string, h).
Proof.
  intros Hp. assert (∀ l : list (string * Handler S), (∀ x, x ∈ l → ends_slash x.1 = true → False) → foldr (longer path) None l = None) as Hnone.
  { induction l0 as [|x l0 IH]; intros H; [done|]. simpl. rewrite IH by (intros y Hy; apply H; set_solver).
    unfold longer. destruct (ends_slash x.1) eqn:Ex; [|done]. exfalso. apply (H x); [set_solver|done]. }
  induction l as [|[k h'] l IH]; intros Hin Hnd Hs; [by apply not_elem_of_nil in Hin|].
  simpl in Hnd. apply NoDup_cons in Hnd as [Hk Hnd]. apply elem_of_cons in Hin as [[= <- <-]|Hin]; simpl.
  - rewrite Hnone.
    + unfold longer. simpl. by rewrite Hp.
    + intros x Hx He. apply Hk. rewrite <-(Hs x) by (done || set_solver). by apply list_elem_of_fmap_2.
  - rewrite IH by (done || intros; apply Hs; set_solver). unfold longer. simpl.
    destruct (ends_slash k) eqn:Ek; [|done]. apply (Hs (k, h')) in Ek; [|set_solver]. simpl in Ek. subst k.
    exfalso. apply Hk. by apply (list_elem_of_fmap_2 fst _ _ Hin).
Qed.

Lemma mux_match_root m path h :
  root_only m → m !! "/"%string = Some h → String.prefix "/" path = true →
  mux_match m path = Some (default h (m !! path)).
Proof.
  intros Hr Hm Hp. unfold mux_match. destruct (m !! path) as [h'|] eqn:Hpath; [done|].
  rewrite (longest_root path h); [done|done|by apply elem_of_map_to_list|apply NoDup_fst_map_to_list|].
  intros [k x] Hx%elem_of_map_to_list. by apply Hr.
Qed.

(** A request of a client for a path. *)
Definition plain (r : Request) : Prop := r_RequestURI r ≠ "*"%string ∧ r_Method r ≠ "CONNECT"%string.

(** What such a multiplexer does with it. *)
Lemma mux_serves m h r :
  root_only m → m !! "/"%string = Some h → plain r →
  mux_ServeHTTP m r =
    (if bool_decide (cleanPath (r_Path r) = r_Path r) then default h (m !! r_Path r) r
     else mret (HMoved (cleanPath (r_Path r)))).
Proof.
  intros Hr Hm [Hu Hc]. unfold mux_ServeHTTP. rewrite !(bool_decide_false (_ = _)) by done. simpl.
  rewrite no_slash_redirect by done. destruct (bool_decide (cleanPath _ = _)) eqn:He.
  - apply bool_decide_eq_true in He. rewrite bool_decide_false by naive_solver. rewrite He.
    unfold mux_dispatch. by rewrite (mux_match_root m _ h) by (done || rewrite <-He; apply cleanPath_rooted).
  - apply bool_decide_eq_false in He. by rewrite bool_decide_true.
Qed.

End mux.

(** ** The server *)

Section server.
Context {W : Type} `{!World W} `{!WorldOk W} `{!Others W, !Endpoint W}.
Context {env : Environ} {loc : Location} {nil : NilGroups}.
Implicit Types s : DSt W.

Definition commands : list string :=
  ["/v1/enis"; "/v1/eni-configs"; "/v1/pods"; "/v1/networkutils-env-settings"; "/v1/ipamd-env-settings"]%string.


(** Registering handlers for different patterns one after the other. *)
Lemma wp_handle_all E (l : list (string * Handler (DSt W))) m (Q : ServeMux (DSt W) → DSt W → Prop) s :
  NoDup l.*1 → (∀ k, k ∈ l.*1 → m !! k = None) → Q (list_to_map l ∪ m) s →
  wp E (fold_loop (λ m '(key, fn), mux_Handle key fn m) m l) Q s.
Proof.
  revert m. induction l as [|[k h] l IH]; intros m Hnd Hm HQ; simpl.
  { rewrite list_to_map_nil, map_empty_union in HQ. by wp_steps. }
  simpl in Hnd. apply NoDup_cons in Hnd as [Hk Hnd]. apply wp_bind. unfold mux_Handle.
  rewrite Hm by set_solver. wp_steps. apply IH; [done| |].
  - intros k' Hk'. rewrite lookup_insert_ne by (intros ->; done). apply Hm. set_solver.
  - rewrite list_to_map_cons in HQ. rewrite <-insert_union_r; [|by apply not_elem_of_list_to_map_1].
    by rewrite <-insert_union_l in HQ.
Qed.

Lemma serverFunctions_keys : (map_to_list (serverFunctions (W:=W))).*1 ≡ₚ commands.
Proof. unfold serverFunctions. rewrite map_to_list_to_map; [done|]. simpl. by apply (bool_decide_unpack _). Qed.

Definition inner_mux (paths : list string) : ServeMux (DSt W) :=
  <["/"%string := defaultHandler paths]> serverFunctions.

Lemma inner_root_only paths : root_only (inner_mux paths).
Proof.
  unfold root_only, inner_mux. intros k [h [[<- _]|[_ Hk]]%lookup_insert_Some]; [done|]. intros He. exfalso.
  apply elem_of_map_to_list, (list_elem_of_fmap_2 fst) in Hk. rewrite serverFunctions_keys in Hk. unfold commands in Hk. simpl in Hk.
  repeat (apply elem_of_cons in Hk as [->|Hk]; [done|]). by apply not_elem_of_nil in Hk.
Qed.

Lemma wp_introspection_mux s :
  wp False introspection_mux
    (λ m s', ∃ paths, paths ≡ₚ commands ∧ d_ds s' = d_ds s ∧
       m = {["/"%string := LoggingHandler (mux_ServeHTTP (inner_mux paths))]}) s.
Proof.
  destruct s as [ds p w]. unfold introspection_mux. apply wp_bind, wp_zoom, wp_range. intros l w1 Hl _.
  apply wp_bind. unfold mux_Handle at 1. rewrite lookup_empty. apply wp_ret, wp_bind, wp_zoom, wp_range. intros l2 w2 Hl2 _.
  apply wp_bind, wp_handle_all.
  - rewrite Hl2. apply NoDup_fst_map_to_list.
  - intros k Hk. rewrite Hl2, serverFunctions_keys in Hk. unfold commands in Hk. simpl in Hk.
    repeat (apply elem_of_cons in Hk as [->|Hk]; [done|]). by apply not_elem_of_nil in Hk.
  - assert (list_to_map l2 = serverFunctions (W:=W)) as ->.
    { rewrite <-(list_to_map_to_list serverFunctions). apply list_to_map_proper; [|done].
      rewrite Hl2. apply NoDup_fst_map_to_list. }
    rewrite insert_empty, map_union_comm by (by apply map_disjoint_singleton_r_2).
    rewrite <-insert_union_singleton_l. unfold mux_Handle. rewrite lookup_empty. apply wp_ret.
    exists l.*1. split; [by rewrite Hl, serverFunctions_keys|]. split; [done|]. by rewrite insert_empty.
Qed.

(** What the server does with a request. *)
Definition routed (paths : list string) (r : Request) : M (DSt W) response :=
  if bool_decide (cleanPath (r_Path r) = r_Path r) then
    default (defaultHandler paths) (serverFunctions !! r_Path r) r
  else mret (HMoved (cleanPath (r_Path r))).

Definition is_server (srv : Server (DSt W)) (paths : list string) : Prop :=
  paths ≡ₚ commands ∧
  srv_Handler srv = mux_ServeHTTP {["/"%string := LoggingHandler (mux_ServeHTTP (inner_mux paths))]}.

Lemma is_server_routes srv paths r : is_server srv paths → plain r → srv_Handler srv r = routed paths r.
Proof.
  intros [_ ->] Hr. erewrite mux_serves; [|intros k [? [<- _]%lookup_singleton_Some]; done|by apply lookup_singleton_eq|done].
  unfold routed. case_bool_decide as Hc; [|done].
  assert (default (LoggingHandler (mux_ServeHTTP (inner_mux paths)))
    (({["/"%string := LoggingHandler (mux_ServeHTTP (inner_mux paths))]} : ServeMux (DSt W)) !! r_Path r) =
    LoggingHandler (mux_ServeHTTP (inner_mux paths))) as ->.
  { destruct (decide (r_Path r = "/"%string)) as [->|Hne]; [by rewrite lookup_singleton_eq|by rewrite lookup_singleton_ne]. }
  unfold LoggingHandler. erewrite mux_serves; [|apply inner_root_only|by apply lookup_insert_eq|done].
  rewrite bool_decide_true by done. unfold inner_mux.
  destruct (decide (r_Path r = "/"%string)) as [->|Hne].
  - rewrite lookup_insert_eq. done.
  - by rewrite lookup_insert_ne.
Qed.

Lemma setup_is_server s : wp False setupIntrospectionServer (λ srv s', d_ds s' = d_ds s ∧ ∃ paths, is_server srv paths) s.
Proof.
  unfold setupIntrospectionServer. apply wp_bind. eapply wp_mono; [apply wp_introspection_mux|].
  intros m s' (paths & Hp & Hd & ->). wp_steps. split; [done|]. by exists paths.
Qed.

(** *** The ENIs *)

(** No ENI leaves the store. *)
Definition keeps_enis (c : ds_call) : Prop :=
  match c with CRemoveENI _ | CRemoveUnused _ => False | _ => True end.

Lemma ds_outcome_enis c t0 t1 x r y id :
  keeps_enis c → ds_outcome c t0 t1 x r y → is_Some (eniIPPools x.1 !! id) → is_Some (eniIPPools y.1 !! id).
Proof.
  intros Hc Ho Hid. destruct c; simpl in Hc, Ho; try done;
    repeat destruct Ho as (? & Ho); inversion Ho; subst; simpl in *; try done; apply lookup_insert_is_Some'; by right.
Qed.

(** What became of the entries [pools] of the store by the time they are printed:
    the structures are copies, the maps of addresses those of the store. *)
Definition seen_pools (pools : gmap string ENIIPPool) (ds : DataStore) (kept : Prop)
    (seen : gmap string (ENIIPPool * bool)) : Prop :=
  ∀ id, match pools !! id with
        | None => seen !! id = None
        | Some e => ∃ a b, seen !! id = Some (set_addrs a e, b) ∧ (kept → b = true) ∧
                      (b = true → ∃ e', eniIPPools ds !! id = Some e' ∧ a = IPv4Addresses e')
        end.

Lemma follow_calls_seen pools cs kept view s :
  ds_wf (d_ds s) → (kept → Forall keeps_enis cs) → seen_pools pools (d_ds s) kept view →
  wp False (fold_loop follow_call view cs) (λ view s', seen_pools pools (d_ds s') kept view) s.
Proof.
  revert view s. induction cs as [|c cs IH]; intros view s Hwf Hk Hseen; [by wp_steps|]. cbn [fold_loop].
  apply wp_bind. unfold follow_call. apply wp_bind.
  destruct (ds_exec_total c s Hwf) as (r & s1 & Hex). unfold wp at 1. rewrite Hex.
  destruct (ds_exec_ret _ _ _ _ Hwf Hex) as (Ho & Hwf1 & _).
  apply wp_bind, wp_gets, wp_ret. apply IH; [done|intros Hkept; by apply Hk in Hkept as [_ ?]%Forall_cons|].
  intros id. specialize (Hseen id). rewrite map_lookup_imap.
  destruct (pools !! id) as [e|]; [|by rewrite Hseen]. destruct Hseen as (a & b & -> & Hb & Ha). simpl.
  destruct b; [|by exists a, false]. destruct (Ha eq_refl) as (e0 & He0 & _). simpl.
  destruct (eniIPPools (d_ds s1) !! id) as [e'|] eqn:He'.
  - exists (IPv4Addresses e'), true. by split_and!; [done|done|eauto].
  - exists a, false. split_and!; [done| |done]. intros Hkept. apply Hk in Hkept as [Hc _]%Forall_cons. exfalso.
    destruct (ds_outcome_enis _ _ _ _ _ _ id Hc Ho) as [? Hs]; [simpl; by rewrite He0|]. simpl in Hs. congruence.
Qed.

(** The release times that can be printed. *)
Definition printable_time (t : Z) : Prop := 0 ≤ Year (offset_of t) t < 10000.
Definition printable (pools : gmap string ENIIPPool) : Prop :=
  map_Forall (λ _ e, map_Forall (λ _ a, printable_time (UnassignedTime a)) (IPv4Addresses e)) pools.

Lemma map_toJson_total {A} `{!Marshal A} (m : gmap string A) :
  map_Forall (λ _ v, is_Some (toJson v)) m → is_Some (toJson m).
Proof.
  intros Hm. unfold toJson at 1, gmap_Marshal. apply fmap_is_Some, mapM_is_Some_2, Forall_forall.
  intros [k v] Hkv%elem_of_sorted_entries. apply fmap_is_Some. by apply (Hm k v).
Qed.

Lemma infos_toJson_total i : printable (ENIIPPools i) → is_Some (toJson i).
Proof.
  intros Hp. assert (is_Some (toJson (ENIIPPools i))) as [j Hj].
  { apply map_toJson_total. intros id e He. specialize (Hp id e He).
    assert (is_Some (toJson (IPv4Addresses e))) as [j Hj].
    { apply map_toJson_total. intros ip a Ha. specialize (Hp ip a Ha). unfold toJson, AddressInfo_Marshal, time_toJson.
      simpl. rewrite bool_decide_true by done. by eexists. }
    unfold toJson, ENIIPPool_Marshal. rewrite Hj. by eexists. }
  unfold toJson, ENIInfos_Marshal. rewrite Hj. by eexists.
Qed.

Lemma wp_write_json {A} `{!Marshal A} (a : A) (Q : response → DSt W → Prop) s :
  (∀ body, json_Marshal a = Some body → Q (HOk body) s) →
  (toJson a = None → Q InternalServerError s) → wp False (write_json (json_Marshal a)) Q s.
Proof.
  intros H1 H2. unfold write_json, json_Marshal in *. destruct (toJson a) as [j|]; simpl in *; apply wp_ret; eauto.
Qed.

(** The ENIs [infos] as they are printed: [ds] is the store at the request and
    [ds'] when the answer is written. *)
Definition infos_between (ds ds' : DataStore) (kept : Prop) (infos : ENIInfos) : Prop :=
  TotalIPs infos = total ds ∧ AssignedIPs infos = assigned ds ∧
  ∀ id, match eniIPPools ds !! id with
        | None => ENIIPPools infos !! id = None
        | Some e => ∃ a, ENIIPPools infos !! id = Some (set_addrs a e) ∧
                      (kept → IPv4Addresses <$> eniIPPools ds' !! id = Some a)
        end.

Lemma eni_infos_between s :
  ds_wf (d_ds s) → let cs := (w_calls (d_world s)).1 in
  wp False eni_infos_seen (λ infos s', infos_between (d_ds s) (d_ds s') (Forall keeps_enis cs) infos ∧
    (cs = [] → d_ds s' = d_ds s)) s.
Proof.
  destruct s as [ds p w]. simpl. intros Hwf. unfold eni_infos_seen, GetENIInfos, get_ds.
  apply wp_bind, wp_bind, wp_gets, wp_ret, wp_bind, wp_zoom. unfold wp at 1.
  destruct (w_calls w) as [cs w'] eqn:Hcs. simpl. rewrite Hcs. simpl. apply wp_bind.
  assert (wp False (fold_loop follow_call ((λ e, (e, true)) <$> eniIPPools ds) cs)
    (λ _ s', cs = [] → d_ds s' = ds) (mkDSt ds p w')) as Hnil.
  { destruct cs as [|c cs]; [by wp_steps|]. eapply wp_mono; [apply (follow_calls_seen (eniIPPools ds) _ False); [done|done|]|done].
    intros id. rewrite lookup_fmap. destruct (eniIPPools ds !! id) as [e|] eqn:He; [|done].
    exists (IPv4Addresses e), true. split; [by destruct e|]. simpl. by rewrite He; eauto. }
  eapply wp_mono; [apply wp_and; [apply (follow_calls_seen (eniIPPools ds) _ (Forall keeps_enis cs)); [done|done|]|exact Hnil]|].
  { intros id. rewrite lookup_fmap. destruct (eniIPPools ds !! id) as [e|] eqn:He; [|done].
    exists (IPv4Addresses e), true. split; [by destruct e|]. split; [done|]. simpl. rewrite He. eauto. }
  intros view s' [Hview Hds]. apply wp_ret. split; [|done]. split; [done|]. split; [done|]. intros id.
  specialize (Hview id). simpl. rewrite lookup_fmap. destruct (eniIPPools ds !! id) as [e|]; [|by rewrite Hview].
  destruct Hview as (a & b & -> & Hb & Ha). exists a. split; [done|]. intros Hk.
  destruct (Ha (Hb Hk)) as (e' & -> & ->). done.
Qed.

(** C27: what a client reads back from the answer of /v1/enis.  If the strings of the
    store are UTF-8 ([good]) the body parses to a document of the store: the counters
    and the exported fields of every ENI as they were at the request, and its
    addresses, times included, as they are when the answer is written, provided no
    ENI was removed in between.  So it is exactly the store when no other goroutine
    used the store meanwhile, and otherwise may mix two states of it (see
    [enis_answer_torn]).  The daemon answers with an error only when a release time
    is outside of the years 0 to 9999. *)
Theorem enis_read_back srv (s0 s1 s : DSt W) r :
  s0 ⊢ setupIntrospectionServer ⇓ srv ⊣ s1 → plain r → r_Path r = "/v1/enis"%string → ds_wf (d_ds s) →
  let cs := (w_calls (d_world s)).1 in
  wp False (srv_Handler srv r)
    (λ resp s', (cs = [] → d_ds s' = d_ds s) ∧
       ∃ infos, infos_between (d_ds s) (d_ds s') (Forall keeps_enis cs) infos ∧
         match resp with
         | HOk body => good infos → json_Unmarshal body = Some (view infos)
         | HError code _ => code = 500 ∧ ¬ printable (ENIIPPools infos)
         | HMoved _ => False
         end) s.
Proof.
  intros Hsrv Hr Hp Hwf cs. destruct (wp_elim _ _ _ _ _ _ (setup_is_server s0) Hsrv) as (_ & paths & His).
  rewrite (is_server_routes _ _ _ His Hr). unfold routed. rewrite Hp. rewrite bool_decide_true by done.
  apply wp_bind. eapply wp_mono; [by apply eni_infos_between|]. intros infos s' [Hi Hds].
  apply wp_write_json; (split; [done|]; exists infos; split; [done|]).
  - intros Hg. by apply marshal_round.
  - split; [done|]. intros [j Hj]%infos_toJson_total. congruence.
Qed.

(** *** The pods *)

(** [GetPodInfos] visits the pods in any order; the last one with a key wins. *)
Lemma pod_infos_fold E (l : list (PodKey * PodIPInfo)) m (Q : gmap string PodIPInfo → DSt W → Prop) s :
  Q (foldl (λ m x, <[podInfoKey x.1 := x.2]> m) m l) s →
  wp E (fold_loop (λ m '(k, i), mret (<[podInfoKey k := i]> m)) m l) Q s.
Proof. revert m. induction l as [|[k i] l IH]; intros m HQ; [by wp_steps|]. apply wp_bind, wp_ret. by apply IH. Qed.

(** The key of a pod names it, when its name and namespace have no underscore (as in
    Kubernetes). *)
Fixpoint no_underscore (s : string) : bool :=
  match s with EmptyString => true | String c s => negb (bool_decide (c = "_"%char)) && no_underscore s end.

Lemma underscore_inj a a' b b' :
  no_underscore a = true → no_underscore a' = true → (a +:+ "_" +:+ b = a' +:+ "_" +:+ b')%string → a = a' ∧ b = b'.
Proof.
  revert a'. induction a as [|c a IH]; intros [|c' a'] Ha Ha' Heq; simpl in Ha, Ha'.
  - by injection Heq.
  - rewrite string_app_cons in Heq. injection Heq as <- _. by rewrite bool_decide_true in Ha'.
  - rewrite string_app_cons in Heq. injection Heq as -> _. by rewrite bool_decide_true in Ha.
  - rewrite !string_app_cons in Heq. injection Heq as -> Heq. apply andb_true_iff in Ha as [_ Ha].
    apply andb_true_iff in Ha' as [_ Ha']. by destruct (IH a' Ha Ha' Heq) as [-> ->].
Qed.

Definition kube_name (k : PodKey) : Prop := no_underscore (pk_name k) = true ∧ no_underscore (pk_namespace k) = true.

Lemma podInfoKey_inj k k' : kube_name k → kube_name k' → podInfoKey k = podInfoKey k' → k = k'.
Proof.
  destruct k as [n ns c], k' as [n' ns' c']. unfold podInfoKey, kube_name. simpl. intros [Hn Hs] [Hn' Hs'] Heq.
  apply underscore_inj in Heq as [-> Heq]; [|done..]. by apply underscore_inj in Heq as [-> ->].
Qed.

Lemma foldl_pods (l : list (PodKey * PodIPInfo)) (m : gmap string PodIPInfo) k i :
  Forall (λ x, kube_name x.1) l → NoDup l.*1 → (k, i) ∈ l →
  foldl (λ m x, <[podInfoKey x.1 := x.2]> m) m l !! podInfoKey k = Some i.
Proof.
  intros HF. revert m. induction l as [|[k' i'] l IH] using rev_ind; intros m Hnd Hin; [by apply not_elem_of_nil in Hin|].
  apply Forall_app in HF as [HF Hk']. rewrite fmap_app in Hnd. apply NoDup_app in Hnd as (Hnd & Hdis & _).
  rewrite foldl_app. simpl. apply elem_of_app in Hin as [Hin|[= <- <-]%list_elem_of_singleton]; [|by rewrite lookup_insert_eq].
  rewrite lookup_insert_ne; [by apply IH|]. intros Heq. apply Forall_cons in Hk' as [Hk' _].
  rewrite Forall_forall in HF. pose proof (HF (k, i) Hin) as Hk. simpl in *.
  apply podInfoKey_inj in Heq as ->; [|done..]. apply (Hdis k); [by apply (list_elem_of_fmap_2 fst _ (k, i))|set_solver].
Qed.

Lemma foldl_pods_only (l : list (PodKey * PodIPInfo)) (m : gmap string PodIPInfo) key i :
  foldl (λ m x, <[podInfoKey x.1 := x.2]> m) m l !! key = Some i →
  m !! key = Some i ∨ ∃ k, podInfoKey k = key ∧ (k, i) ∈ l.
Proof.
  revert m. induction l as [|[k' i'] l IH]; intros m H; [by left|]. simpl in H.
  apply IH in H as [[[<- <-]|[_ H]]%lookup_insert_Some|(k & ? & ?)]; [right|by left|right].
  - exists k'. split; [done|]. by left.
  - exists k. split; [done|]. by right.
Qed.

(** the answer of /v1/pods reads back as the pods of the store: when pods have
    names as in Kubernetes, the client finds under the key of every pod its address
    and device number, and nothing else; the daemon never answers with an error and
    changes nothing. *)
Theorem pods_read_back srv (s0 s1 s : DSt W) r :
  s0 ⊢ setupIntrospectionServer ⇓ srv ⊣ s1 → plain r → r_Path r = "/v1/pods"%string →
  map_Forall (λ k i, kube_name k ∧ utf8_valid (podInfoKey k) = true ∧ utf8_valid (IP i) = true) (podsIP (d_ds s)) →
  wp False (srv_Handler srv r)
    (λ resp s', d_ds s' = d_ds s ∧
       ∃ body pods, resp = HOk body ∧ json_Unmarshal body = Some pods ∧
         (∀ k i, podsIP (d_ds s) !! k = Some i → (pods : gmap string PodIPInfo) !! podInfoKey k = Some i) ∧
         (∀ key i, pods !! key = Some i → ∃ k, podInfoKey k = key ∧ podsIP (d_ds s) !! k = Some i)) s.
Proof.
  intros Hsrv Hr Hp Hnames. destruct (wp_elim _ _ _ _ _ _ (setup_is_server s0) Hsrv) as (_ & paths & His).
  rewrite (is_server_routes _ _ _ His Hr). unfold routed. rewrite Hp. rewrite bool_decide_true by done.
  destruct s as [ds p w]. apply wp_bind. unfold GetPodInfos, get_ds. apply wp_bind, wp_gets, wp_bind, wp_zoom, wp_range.
  intros l w' Hl _. apply pod_infos_fold. simpl in *. set (pods := foldl _ _ _).
  assert (NoDup l.*1) as Hnd by (rewrite Hl; apply NoDup_fst_map_to_list).
  assert (∀ k i, (k, i) ∈ l ↔ podsIP ds !! k = Some i) as Hin by (intros; rewrite Hl; apply elem_of_map_to_list).
  assert (∀ key i, pods !! key = Some i → ∃ k, podInfoKey k = key ∧ podsIP ds !! k = Some i) as Hback.
  { intros key i [H|(k & ? & ?)]%foldl_pods_only; [by rewrite lookup_empty in H|]. exists k. by rewrite <-Hin. }
  assert (good pods) as Hg by (intros key i (k & <- & (_ & ? & ?)%Hnames)%Hback; by split).
  apply wp_write_json.
  - intros body Hb. split; [done|]. exists body, pods. split; [done|]. split; [|split; [|done]].
    + rewrite (marshal_round pods body Hg Hb). simpl. by rewrite map_fmap_id.
    + intros k i Hk. apply foldl_pods; [|done|by apply Hin]. apply Forall_forall. intros [k' i'] Hk'%Hin. apply (Hnames _ _ Hk').
  - intros Hnone. exfalso. assert (is_Some (toJson pods)) as [j Hj]; [|congruence]. apply map_toJson_total.
    intros key i _. by eexists.
Qed.

(** *** Types *)

(** The settings: objects with a fixed set of members. *)
Definition ipamd_type : jtype :=
  TRec [(envCustomNetworkCfg, TBool); (envWarmENITarget, TNum); (envWarmIPTarget, TNum)].
Definition network_type : jtype :=
  TRec [(envNodePortSupport, TBool); (envConnmark, TNum); (envExcludeSNATCIDRs, TOpt (TArr TStr));
        (envExternalSNAT, TBool); (envRandomizeSNAT, TNum)].

Lemma map_json_typed (m : gmap string json) t body :
  has_type t (JObj ((λ kv, (sanitize kv.1, json_clean kv.2)) <$> sorted_entries m)) = true →
  json_Marshal m = Some body → body_typed t body.
Proof.
  intros Ht (j & Hj & ->)%fmap_Some_1. exists (json_clean j). split; [apply json_read_clean|].
  unfold toJson, gmap_Marshal in Hj. apply fmap_Some_1 in Hj as (l & Hl & ->). rewrite <-Ht. simpl. do 2 f_equal.
  clear Ht. apply mapM_Some in Hl. induction Hl as [|[a b] [c d] l l' Hx Hl IH]; [done|].
  unfold toJson, json_Marshal_any in Hx. simpl in Hx. injection Hx as <- <-. csimpl. by rewrite IH.
Qed.

Lemma ipamd_typed body : json_Marshal ipamd_GetConfigForDebug = Some body → body_typed ipamd_type body.
Proof.
  apply map_json_typed. unfold ipamd_GetConfigForDebug.
  generalize getWarmIPTarget getWarmENITarget UseCustomNetworkCfg. intros a b c. vm_compute. done.
Qed.

Lemma network_typed body : json_Marshal networkutils_GetConfigForDebug = Some body → body_typed network_type body.
Proof.
  apply map_json_typed. unfold networkutils_GetConfigForDebug.
  generalize useExternalSNAT nodePortSupportEnabled getConnmark (snat_number typeOfSNAT). intros a b c d.
  assert (∃ x, match getExcludeSNATCIDRs with [] => JNull | l => JArr (JStr <$> l) end = x ∧
    has_type (TOpt (TArr TStr)) (json_clean x) = true) as (x & -> & Hx).
  { eexists. split; [done|]. destruct getExcludeSNATCIDRs as [|y l]; [done|]. simpl.
    induction l as [|z l IH]; [done|]. exact IH. }
  transitivity (has_type network_type (JObj [(envNodePortSupport, JBool b); (envConnmark, JNum c);
    (envExcludeSNATCIDRs, json_clean x); (envExternalSNAT, JBool a); (envRandomizeSNAT, JNum d)])).
  - reflexivity.
  - unfold network_type. cbn [has_type]. rewrite !bool_decide_true by done. cbn [has_type] in Hx. by rewrite Hx.
Qed.

Definition endpoint_type (path : string) : jtype :=
  if bool_decide (path = "/v1/enis"%string) then jtype_of ENIInfos
  else if bool_decide (path = "/v1/eni-configs"%string) then jtype_of ENIConfigInfo
  else if bool_decide (path = "/v1/pods"%string) then jtype_of (gmap string PodIPInfo)
  else if bool_decide (path = "/v1/networkutils-env-settings"%string) then network_type
  else if bool_decide (path = "/v1/ipamd-env-settings"%string) then ipamd_type
  else jtype_of rootResponse.

(** The handlers, by path. *)
Lemma serverFunctions_cases path h :
  serverFunctions (W:=W) !! path = Some h →
  (path = "/v1/enis"%string ∧ h = eniV1RequestHandler) ∨
  (path = "/v1/eni-configs"%string ∧ h = eniConfigRequestHandler) ∨
  (path = "/v1/pods"%string ∧ h = podV1RequestHandler) ∨
  (path = "/v1/networkutils-env-settings"%string ∧ h = networkEnvV1RequestHandler) ∨
  (path = "/v1/ipamd-env-settings"%string ∧ h = ipamdEnvV1RequestHandler).
Proof.
  intros Hin%elem_of_list_to_map_2. rewrite !elem_of_cons in Hin.
  destruct Hin as [[= -> ->]|[[= -> ->]|[[= -> ->]|[[= -> ->]|[[= -> ->]|Hin]]]]]; [tauto..|].
  by apply not_elem_of_nil in Hin.
Qed.

(** What the server answers: JSON of the type of the path, a known error or a
    redirection to the clean path. *)
Definition well_typed (r : Request) (resp : response) : Prop :=
  match resp with
  | HOk body => body_typed (endpoint_type (r_Path r)) body
  | HError code _ => code = 500
  | HMoved p => p = cleanPath (r_Path r) ∧ p ≠ r_Path r
  end.

Lemma write_typed {A} `{!Marshal A} `{!Typed A} (a : A) r s :
  endpoint_type (r_Path r) = jtype_of A →
  wp False (write_json (json_Marshal a)) (λ resp _, well_typed r resp) s.
Proof.
  intros Ht. apply wp_write_json; [|done]. intros body Hb. simpl. rewrite Ht. by eapply marshal_typed.
Qed.

(** C28: every answer of the introspection server is well typed: the body of an answer
    200 is JSON (whatever bytes are in the strings of the store) with the members
    and types that belong to the path; otherwise the answer is the error 500 or a
    redirection to the clean form of the path. *)
Theorem responses_well_typed srv (s0 s1 s : DSt W) r :
  s0 ⊢ setupIntrospectionServer ⇓ srv ⊣ s1 → plain r → ds_wf (d_ds s) →
  (∀ w : W, (eniConfig_Getter w).1 ≠ None) →
  wp False (srv_Handler srv r) (λ resp _, well_typed r resp) s.
Proof.
  intros Hsrv Hr Hwf Hget. destruct (wp_elim _ _ _ _ _ _ (setup_is_server s0) Hsrv) as (_ & paths & His).
  rewrite (is_server_routes _ _ _ His Hr). unfold routed. case_bool_decide as Hc; [|apply wp_ret; done].
  destruct (serverFunctions !! r_Path r) as [h|] eqn:Hh; simpl.
  - apply serverFunctions_cases in Hh as [[Hp ->]|[[Hp ->]|[[Hp ->]|[[Hp ->]|[Hp ->]]]]].
    + apply wp_bind. eapply wp_mono; [by apply eni_infos_between|]. intros infos s' _.
      apply write_typed. by rewrite Hp.
    + apply wp_bind, wp_zoom. unfold wp, call. specialize (Hget (d_world s)).
      destruct (eniConfig_Getter (d_world s)) as [[info|] w']; [|done]. apply write_typed. by rewrite Hp.
    + apply wp_bind. unfold GetPodInfos, get_ds. apply wp_bind, wp_gets, wp_bind, wp_zoom, wp_range.
      intros l w' _ _. apply pod_infos_fold, write_typed. by rewrite Hp.
    + apply wp_write_json; [|done]. intros body Hb. simpl. rewrite Hp. by apply network_typed.
    + apply wp_write_json; [|done]. intros body Hb. simpl. rewrite Hp. by apply ipamd_typed.
  - apply wp_ret. simpl. destruct (json_Marshal (mkRootResponse paths)) as [body|] eqn:Hb.
    + simpl. apply marshal_typed in Hb. unfold endpoint_type.
      repeat (rewrite bool_decide_false by (intros Hp; by rewrite Hp in Hh)). exact Hb.
    + exfalso. unfold json_Marshal, toJson, rootResponse_Marshal in Hb. simpl in Hb.
      assert (is_Some (toJson paths)) as [j Hj]; [|by rewrite Hj in Hb].
      unfold toJson, list_Marshal. apply fmap_is_Some, mapM_is_Some_2, Forall_true. by eexists.
Qed.

End server.

(** ** A daemon with two ENIs *)

Section concrete.
#[local] Instance test_env : Environ := {| environ := {["WARM_IP_TARGET"%string := "3"%string]} |}.
#[local] Instance test_zone : Location := {| zone_offset _ := 19800 |}.
#[local] Instance test_nil : NilGroups := {| nilGroups _ := true |}.
#[local] Instance test_endpoint : Endpoint TestWorld := {|
  eniConfig_Getter w := (Some (mkENIConfigInfo {["a"%string := mkENIConfigSpec [] "subnet-1"]} "a" "x" "y"), w);
  ListenAndServe _ w := (Some (EStr "address already in use"), w);
|}.

(** Other goroutines that make the calls [cs]. *)
Definition others_do (cs : list ds_call) : Others TestWorld := {| w_calls w := (cs, w) |}.

Definition get (path : string) : Request := mkRequest "GET" "localhost" path path.

(** The server of a daemon, started in [test_state]. *)
Definition test_server (o : Others TestWorld) : Server (DSt TestWorld) :=
  match setupIntrospectionServer (W:=TestWorld) test_state with
  | (Ret srv, _) => srv
  | _ => mkServer "" (λ _, mret NotFound) 0 0
  end.
Lemma test_server_runs (o : Others TestWorld) :
  ∃ srv s1, test_state ⊢ setupIntrospectionServer (W:=TestWorld) ⇓ srv ⊣ s1.
Proof. destruct (wp_run _ _ _ (setup_is_server (W:=TestWorld) test_state)) as (srv & s1 & H & _). eauto. Qed.

Lemma test_wf : ds_wf (d_ds test_state).
Proof. apply (ds_reach_inv _ _ test_reach), ds_inv_new. done. Qed.

Lemma plain_get path : path ≠ "*"%string → plain (get path).
Proof. done. Qed.

Lemma enis_read_back_witness :
  ∃ srv s1, @setupIntrospectionServer TestWorld _ (others_do []) _ _ _ _ test_state = (Ret srv, s1) ∧
    ds_wf (d_ds test_state) ∧
    wp False (srv_Handler srv (get "/v1/enis"))
      (λ resp s', d_ds s' = d_ds test_state ∧
         ∃ infos, infos_between (d_ds test_state) (d_ds s') (Forall keeps_enis []) infos ∧
           match resp with
           | HOk body => good infos → json_Unmarshal body = Some (view infos)
           | HError code _ => code = 500 ∧ ¬ printable (ENIIPPools infos)
           | HMoved _ => False
           end) test_state.
Proof.
  destruct (test_server_runs (others_do [])) as (srv & s1 & Hsrv). exists srv, s1.
  split; [exact Hsrv|]. split; [apply test_wf|].
  pose proof (@enis_read_back TestWorld _ _ (others_do []) _ _ _ _ _ test_state s1 test_state (get "/v1/enis")
    Hsrv ltac:(by apply plain_get) eq_refl test_wf) as H. cbv zeta in H.
  eapply wp_mono; [exact H|]. intros resp s' [Hds Hi]. split; [by apply Hds|exact Hi].
Defined.

Lemma pods_read_back_witness :
  ∃ srv s1, @setupIntrospectionServer TestWorld _ (others_do []) _ _ _ _ test_state = (Ret srv, s1) ∧
    wp False (srv_Handler srv (get "/v1/pods"))
      (λ resp s', ∃ body pods, resp = HOk body ∧ json_Unmarshal body = Some pods ∧
         ∀ k i, podsIP (d_ds test_state) !! k = Some i → (pods : gmap string PodIPInfo) !! podInfoKey k = Some i)
      test_state.
Proof.
  destruct (test_server_runs (others_do [])) as (srv & s1 & Hsrv). exists srv, s1.
  split; [exact Hsrv|].
  eapply wp_mono; [apply (@pods_read_back TestWorld _ _ (others_do []) _ _ _ _ _ test_state s1 test_state (get "/v1/pods") Hsrv)|].
  - by apply plain_get.
  - reflexivity.
  - apply map_Forall_to_list. vm_compute map_to_list. repeat constructor.
  - intros resp s' (_ & body & pods & ? & ? & ? & _). eauto.
Defined.

Lemma responses_well_typed_witness :
  ∃ srv s1, @setupIntrospectionServer TestWorld _ (others_do []) _ _ _ _ test_state = (Ret srv, s1) ∧
    ds_wf (d_ds test_state) ∧
    wp False (srv_Handler srv (get "/v1/pods")) (λ resp _, well_typed (get "/v1/pods") resp) test_state.
Proof.
  destruct (test_server_runs (others_do [])) as (srv & s1 & Hsrv). exists srv, s1.
  split; [exact Hsrv|]. split; [apply test_wf|].
  apply (@responses_well_typed TestWorld _ _ (others_do []) _ _ _ _ _ test_state s1 test_state _ Hsrv); [|apply test_wf|done].
  by apply plain_get.
Defined.

(** The answers of the server, computed. *)
Definition answer (o : Others TestWorld) (path : string) : res response :=
  (srv_Handler (test_server o) (get path) test_state).1.

Example endpoints_ex :
  answer (others_do []) "/v1/ipamd-env-settings" =
    Ret (HOk (json_encode (JObj [(envCustomNetworkCfg, JBool false); (envWarmENITarget, JNum 1); (envWarmIPTarget, JNum 3)]))) ∧
  answer (others_do []) "/v1/../v1/pods" = Ret (HMoved "/v1/pods") ∧
  answer (others_do []) "/v1/pods" =
    Ret (HOk (json_encode (JObj [("p1_default_c"%string,
      JObj [("IP"%string, JStr "10.0.1.2"); ("DeviceNumber"%string, JNum 1)])]))).
Proof. vm_compute. done. Qed.

(** The addresses of an ENI that are marked as assigned. *)
Definition marked (e : ENIIPPool) : Z := len (filter (λ x, Assigned x.2 = true) (IPv4Addresses e)).

(** The answer of /v1/enis need not be a state the store was ever in: when a pod gets
    its address between [GetENIInfos] and [json.Marshal], the counter of an ENI
    disagrees with its addresses, while it agrees in every state of the store. *)
Theorem enis_answer_torn :
  match answer (others_do [CAssign (test_pod "p2")]) "/v1/enis" with
  | Ret (HOk body) =>
      ∃ infos id e, json_Unmarshal body = Some infos ∧ ENIIPPools infos !! id = Some e ∧
        AssignedIPv4Addresses e ≠ marked e
  | _ => False
  end.
Proof.
  assert (match answer (others_do [CAssign (test_pod "p2")]) "/v1/enis" with
          | Ret (HOk body) =>
              match json_Unmarshal body with
              | Some infos => existsb (λ x, bool_decide (AssignedIPv4Addresses x.2 ≠ marked x.2)) (map_to_list (ENIIPPools infos))
              | None => false
              end
          | _ => false
          end = true) as H by (vm_compute; done).
  destruct (answer _ _) as [[body| |]| |]; try done. destruct (json_Unmarshal body) as [infos|]; [|done].
  apply existsb_exists in H as ([id e] & Hin%list_elem_of_In%elem_of_map_to_list & He%bool_decide_eq_true). eauto 6.
Qed.

End concrete.
