(* ===== verification/Publisher.v ===== *)
(** * Publishing metrics: pkg/publisher/publisher.go

    The queue of data points is a Go slice, and what [push] sends depends on its
    capacity, so slices are modelled with their backing array.  CloudWatch is
    outside the repository ([CloudWatch]); the growth of a slice by [append] is
    the runtime's ([Growth]). *)
From S2P Require Import Prelude GoStd Float64.

Open Scope nat_scope.

Definition cloudwatchMetricNamespace : string := "Kubernetes".
Definition clusterIDDimension : string := "CLUSTER_ID".
Definition localMetricDataSize : nat := 100.
Definition maxDataPoints : nat := 20.

(** ** Slices of pointers

    [arr] is the backing array from the first element on, so that its length is
    the capacity; [None] is a nil pointer. *)
Record slice (A : Type) := mkSlice { arr : list (option A); s_len : nat }.
Arguments mkSlice {A}.
Arguments arr {A}.
Arguments s_len {A}.

Definition cap {A} (s : slice A) : nat := length (arr s).
Definition make {A} (n : nat) : slice A := mkSlice (replicate n None) 0.

(** [s[:n]] may reach into the capacity; [s[n:]] may not pass the length. *)
Definition slice_to {S A} (s : slice A) (n : nat) : M S (slice A) :=
  if bool_decide (n ≤ cap s) then mret (mkSlice (arr s) n) else panic "slice bounds out of range".
Definition slice_from {A} (s : slice A) (n : nat) : slice A := mkSlice (drop n (arr s)) (s_len s - n).
Definition elements {A} (s : slice A) : list (option A) := take (s_len s) (arr s).

(** The capacity that [append] chooses when the array is full. *)
Class Growth : Type := { growcap : nat → nat; growcap_gt : ∀ n, n < growcap n }.

Definition append_one `{!Growth} {A} (s : slice A) (x : A) : slice A :=
  if bool_decide (s_len s < cap s) then mkSlice (<[s_len s := Some x]> (arr s)) (S (s_len s))
  else mkSlice (arr s ++ Some x :: replicate (growcap (cap s) - S (cap s)) None) (S (s_len s)).

(** ** The publisher *)

(** [cloudwatch.StatisticSet] and [cloudwatch.MetricDatum]: what the sources set
    of them. *)
Record StatisticSet := mkStatisticSet {
  Maximum : float64;
  Minimum : float64;
  SampleCount : float64;
  Sum : float64;
}.

Record MetricDatum := mkMetricDatum {
  MetricName : string;
  Unit : option string;
  Value : option float64;
  StatisticValues : option StatisticSet;
  Dimensions : list (string * string);
}.

Definition set_Dimensions (dims : list (string * string)) (d : MetricDatum) : MetricDatum :=
  mkMetricDatum (MetricName d) (Unit d) (Value d) (StatisticValues d) dims.

Record cloudWatchPublisher := mkPublisher { clusterID : string; localMetricData : slice MetricDatum }.

Class CloudWatch (W : Type) : Type := {
  PutMetricData : string → list (option MetricDatum) → ext W (option error);
}.

Record PubSt (W : Type) := mkPubSt { p_pub : cloudWatchPublisher; p_world : W }.
Arguments mkPubSt {W}.
Arguments p_pub {W}.
Arguments p_world {W}.

(** The publisher [New] makes, once the cluster's name is known. *)
Definition new_publisher (clusterID : string) : cloudWatchPublisher := mkPublisher clusterID (make localMetricDataSize).

(** [EC2Wrapper.GetClusterTag] of pkg/ec2wrapper: [DescribeTags] filters the tags
    of the instance by their key. *)
Class Tags (W : Type) : Type := {
  DescribeTags : list (string * list string) → ext W (list (option string) + error);
}.

Definition resourceID : string := "resource-id".
Definition resourceKey : string := "key".

Definition GetClusterTag {W} `{!Tags W} (instanceID tagKey : string) : M W (string * option error) :=
  results ← call (DescribeTags [(resourceID, [instanceID]); (resourceKey, [tagKey])]);
  match results with
  | inr e => mret (""%string, Some (EWrap e "GetClusterTag: Unable to obtain EC2 instance tags"))
  | inl [] => mret (""%string, Some (EStr ("GetClusterTag: No tag matching key: " +:+ tagKey)))
  | inl (v :: _) => mret (default ""%string v, None)
  end.

(** The cluster's name: its tag CLUSTER_ID, else its tag Name, else a default. *)
Definition no_tag (r : string * option error) : bool := negb (is_nil r.2) || bool_decide (r.1 = ""%string).

Definition cluster_name {W} `{!Tags W} (instanceID : string) : M W string :=
  id ← GetClusterTag instanceID "CLUSTER_ID";
  if no_tag id then
    name ← GetClusterTag instanceID "Name";
    if no_tag name then mret "k8s-cluster"%string else mret name.1
  else mret id.1.

(** The sessions of the AWS SDK and the instance metadata: an identity document gives
    the id of the instance and its region. *)
Class Metadata (W : Type) : Type := {
  NewSession : ext W (option error);
  GetInstanceIdentityDocument : ext W (string * string + error);
  Region : ext W (string + error);
}.

(** [session.Must(session.NewSession())]. *)
Definition session_Must {W} `{!Metadata W} : M W unit :=
  err ← call NewSession;
  match err with Some _ => panic "session.Must" | None => mret tt end.

(** [ec2wrapper.NewMetricsClient]: the id of the instance. *)
Definition NewMetricsClient {W} `{!Metadata W} : M W (string + error) :=
  session_Must ;;
  doc ← call GetInstanceIdentityDocument;
  match doc with
  | inr err => mret (inr err)
  | inl (instanceID, _) => mret (inl instanceID)
  end.

Definition New {W} `{!Metadata W, !Tags W} : M W (cloudWatchPublisher + error) :=
  session_Must ;;
  c ← NewMetricsClient;
  match c with
  | inr err => mret (inr (EWrap err "publisher: unable to obtain EC2 service client"))
  | inl instanceID =>
      clusterID ← cluster_name instanceID;
      region ← call Region;
      match region with
      | inr err => mret (inr (EWrap err "publisher: Unable to obtain region"))
      | inl _ => mret (inl (new_publisher clusterID))
      end
  end.

Definition min (x y : nat) : nat := if bool_decide (x < y) then x else y.

Section publisher.
Context {W : Type} `{!CloudWatch W, !Growth}.

Abbreviation PM := (M (PubSt W)).

Definition getCloudWatchMetricDatumDimensions (p : cloudWatchPublisher) : list (string * string) :=
  [(clusterIDDimension, clusterID p)].

Definition Publish (metricDataPoints : list MetricDatum) : PM unit :=
  modify (λ s, mkPubSt
    (mkPublisher (clusterID (p_pub s))
       (foldl (λ sl d, append_one sl (set_Dimensions (getCloudWatchMetricDatumDimensions (p_pub s)) d))
          (localMetricData (p_pub s)) metricDataPoints))
    (p_world s)).

(** [send]: the error is only logged by [push]. *)
Definition send (batch : list (option MetricDatum)) : PM unit :=
  _ ← zoom p_world (λ w s, mkPubSt (p_pub s) w) (call (PutMetricData cloudwatchMetricNamespace batch));
  mret tt.

(** The loop of [push]; a turn takes at least one element. *)
Fixpoint push_loop (fuel : nat) (metricData : slice MetricDatum) : PM unit :=
  match fuel with
  | O => nofuel
  | S fuel =>
      if bool_decide (0 < s_len metricData) then
        batch ← slice_to metricData maxDataPoints;
        send (elements batch) ;;
        let index := min maxDataPoints (s_len metricData) in
        push_loop fuel (slice_from metricData index)
      else mret tt
  end.

Definition push (metricData : slice MetricDatum) : PM unit := push_loop (S (s_len metricData)) metricData.

Definition pushLocal : PM unit :=
  data ← gets (localMetricData ∘ p_pub);
  modify (λ s, mkPubSt (mkPublisher (clusterID (p_pub s)) (make localMetricDataSize)) (p_world s)) ;;
  push data.

(** What wakes [monitor]: its ticker, or that the context was cancelled ([Stop]). *)
Inductive event : Type := Tick | Done.

Fixpoint monitor (events : list event) : PM unit :=
  match events with
  | [] => mret tt
  | Tick :: events => pushLocal ;; monitor events
  | Done :: _ => mret tt
  end.

(** ** Theorems *)

(** A slice as [append] builds it: the elements are not nil, what follows them in
    the array is. *)
Definition filled {A} (l : list A) (s : slice A) : Prop :=
  s_len s = length l ∧ arr s = (Some <$> l) ++ replicate (cap s - length l) None ∧ length l ≤ cap s.

Lemma filled_make {A} n : filled (A:=A) [] (make n).
Proof. unfold filled, make, cap. simpl. rewrite length_replicate, Nat.sub_0_r. split_and!; [done|done|lia]. Qed.

Lemma filled_append {A} l (s : slice A) x : filled l s → filled (l ++ [x]) (append_one s x).
Proof.
  intros (Hl & Ha & Hc). unfold filled, append_one, cap in *. rewrite Hl. case_bool_decide as Hlt; simpl.
  - rewrite length_insert, length_app. simpl. split_and!; [lia| |lia]. rewrite Ha at 1. rewrite fmap_app.
    assert (length (arr s) - length l = S (length (arr s) - (length l + 1))) as -> by lia. simpl.
    rewrite insert_app_r_alt by (rewrite length_fmap; lia). rewrite length_fmap, Nat.sub_diag. simpl.
    by rewrite <-app_assoc.
  - assert (length (arr s) = length l) as Hlen by lia. pose proof (growcap_gt (length (arr s))) as Hg.
    rewrite !length_app. simpl. rewrite length_replicate, Hlen in *. split_and!; [lia| |lia].
    rewrite Ha at 1. rewrite Nat.sub_diag, app_nil_r, fmap_app. simpl. rewrite <-app_assoc. simpl.
    do 3 f_equal. lia.
Qed.

(** The batches of 20 for data [l], the last one filled up with nil. *)
Fixpoint batches (fuel : nat) (l : list (option MetricDatum)) : list (list (option MetricDatum)) :=
  match fuel, l with
  | S fuel, _ :: _ =>
      let b := take maxDataPoints l in
      (b ++ replicate (maxDataPoints - length b) None) :: batches fuel (drop maxDataPoints l)
  | _, _ => []
  end.

(** How much capacity the data need: the next multiple of 20. *)
Definition needed (n : nat) : nat := (n + 19) / 20 * 20.

Lemma needed_step n : 0 < n → needed n = 20 + needed (n - 20).
Proof. unfold needed. intros Hn. pose proof (Nat.div_mod (n + 19) 20). pose proof (Nat.mod_upper_bound (n + 19) 20).
  pose proof (Nat.div_mod (n - 20 + 19) 20). pose proof (Nat.mod_upper_bound (n - 20 + 19) 20). nia.
Qed.

Lemma filled_drop {A} l (s : slice A) :
  filled l s → filled (drop 20 l) (slice_from s (min 20 (s_len s))) ∧
  (20 ≤ cap s → take 20 (arr s) = (Some <$> take 20 l) ++ replicate (20 - length (take 20 l)) None).
Proof.
  intros (Hl & Ha & Hc). unfold filled, slice_from, cap in *. simpl.
  assert (min 20 (s_len s) = Nat.min 20 (length l)) as -> by (unfold min; case_bool_decide; lia).
  split.
  - rewrite !length_drop. split_and!; [lia| |lia]. rewrite Ha at 1. rewrite drop_app_le by (rewrite length_fmap; lia).
    rewrite fmap_drop. replace (drop (Nat.min 20 (length l)) (Some <$> l)) with (drop 20 (Some <$> l)).
    { f_equal. f_equal. lia. }
    destruct (decide (20 ≤ length l)); [by rewrite Nat.min_l by lia|].
    by rewrite !drop_ge by (rewrite length_fmap; lia).
  - intros H20. rewrite Ha, take_app, length_fmap, <-fmap_take, take_replicate, length_take. do 2 f_equal. lia.
Qed.

Lemma batches_cons n l :
  l ≠ [] →
  batches (S n) (Some <$> l) =
  ((Some <$> take 20 l) ++ replicate (20 - length (take 20 l)) None) :: batches n (Some <$> drop 20 l).
Proof.
  intros Hl.
  assert (∀ l', l' ≠ [] → batches (S n) l' =
    (take maxDataPoints l' ++ replicate (maxDataPoints - length (take maxDataPoints l')) None)
      :: batches n (drop maxDataPoints l')) as Hb by (by intros []).
  rewrite Hb by (by destruct l). unfold maxDataPoints. by rewrite <-fmap_take, <-fmap_drop, length_fmap.
Qed.

Lemma push_loop_batches n l s (st : PubSt W) :
  length l ≤ n → filled l s → needed (length l) ≤ cap s →
  push_loop (S n) s st = for_loop send (batches n (Some <$> l)) st.
Proof.
  revert l s st. induction n as [|n IH]; intros l s st Hn Hf Hc.
  - destruct l; simpl in Hn; [|lia]. destruct Hf as (Hl & _). simpl. by rewrite Hl.
  - destruct l as [|x l'] eqn:El.
    { destruct Hf as (Hl & _). cbn [push_loop]. by rewrite Hl. }
    rewrite <-El in *. assert (0 < length l) as H0 by (subst; simpl; lia). clear El x l'.
    rewrite (needed_step (length l)) in Hc by done.
    destruct (filled_drop l s Hf) as [Hd Ht]. specialize (Ht ltac:(lia)).
    rewrite batches_cons by (intros ->; simpl in H0; lia). rewrite <-Ht.
    remember (S n) as m eqn:Hm. cbn [push_loop]. destruct Hf as (Hl & Ha & Hcap).
    rewrite bool_decide_eq_true_2 by lia. unfold slice_to, maxDataPoints. rewrite bool_decide_eq_true_2 by lia.
    cbn [for_loop]. unfold mbind, M_bind, mret, M_ret. unfold elements. simpl.
    destruct (send (take 20 (arr s)) st) as [[[]| |] st']; [|done|done]. subst m. apply IH.
    + rewrite length_drop. lia.
    + done.
    + rewrite length_drop. unfold slice_from, cap in *. simpl. rewrite length_drop, Hl.
      unfold min. case_bool_decide; [lia|]. assert (needed (length l - 20) = 0) as ->; [|lia].
      replace (length l - 20) with 0 by lia. done.
Qed.

Lemma batches_join n l :
  length l ≤ n →
  mjoin (batches n (Some <$> l)) = (Some <$> l) ++ replicate (needed (length l) - length l) None ∧
  Forall (λ b, length b = 20) (batches n (Some <$> l)).
Proof.
  revert l. induction n as [|n IH]; intros l Hn; [by destruct l; simpl in Hn; [|lia]|].
  destruct (decide (l = [])) as [->|Hne]; [done|].
  assert (0 < length l) as H0 by (destruct l; [done|simpl; lia]).
  rewrite batches_cons by done. destruct (IH (drop 20 l)) as [Hj Hb]; [rewrite length_drop; lia|]. split.
  - simpl. change (mjoin _) with (mjoin (batches n (Some <$> drop 20 l))). rewrite Hj.
    rewrite length_drop, (needed_step (length l)), length_take by done.
    destruct (decide (length l ≤ 20)).
    + rewrite (Nat.min_r 20) by lia. rewrite (take_ge l), (drop_ge l) by lia.
      replace (length l - 20) with 0 by lia. rewrite fmap_nil, app_nil_l.
      change (needed 0 - 0) with 0. simpl. rewrite app_nil_r. do 2 f_equal.
    + rewrite (Nat.min_l 20) by lia. rewrite Nat.sub_diag. simpl replicate at 1.
      rewrite app_nil_r, app_assoc, <-fmap_app, take_drop. do 2 f_equal. lia.
  - constructor; [|done]. rewrite length_app, length_fmap, length_replicate, !length_take. lia.
Qed.

(** [push] sends every data point exactly once and in order, in requests of 20,
    provided the slice's capacity reaches the next multiple of 20; the last request
    is filled up with nil entries ([MetricData[:20]] reaches into the capacity). *)
Theorem push_sends_batches (l : list MetricDatum) (s : slice MetricDatum) (st : PubSt W) :
  filled l s → needed (length l) ≤ cap s →
  push s st = for_loop send (batches (length l) (Some <$> l)) st ∧
  mjoin (batches (length l) (Some <$> l)) = (Some <$> l) ++ replicate (needed (length l) - length l) None ∧
  Forall (λ b, length b = 20) (batches (length l) (Some <$> l)).
Proof.
  intros Hf Hc. destruct Hf as (Hl & Ha & Hcap). split; [|by apply batches_join].
  unfold push. rewrite Hl. by apply push_loop_batches.
Qed.

(** When the array ends before the next multiple of 20, the last request panics. *)
Theorem push_short_capacity_panics (s : slice MetricDatum) (st : PubSt W) :
  0 < s_len s → cap s < 20 → push s st = (Panic "slice bounds out of range", st).
Proof.
  intros Hl Hc. unfold push. cbn [push_loop]. rewrite bool_decide_eq_true_2 by done.
  unfold slice_to, maxDataPoints. by rewrite bool_decide_eq_false_2 by lia.
Qed.

(** ** The publisher as a queue

    The calls of the helper and the ticks of [monitor], in any order. *)
Inductive pub_op : Type :=
| OpPublish (l : list MetricDatum)
| OpTick.

Definition exec_op (o : pub_op) : PM unit :=
  match o with
  | OpPublish l => Publish l
  | OpTick => monitor [Tick]
  end.

(** A queue of data points: a tick sends it in requests of 20. *)
Definition queue_step (dims : list (string * string)) (q : list MetricDatum) (o : pub_op) :
    list (list (option MetricDatum)) * list MetricDatum :=
  match o with
  | OpPublish l => ([], q ++ (set_Dimensions dims <$> l))
  | OpTick => (batches (length q) (Some <$> q), [])
  end.

Fixpoint queue_run (dims : list (string * string)) (q : list MetricDatum) (ops : list pub_op) :
    list (list (option MetricDatum)) * list MetricDatum :=
  match ops with
  | [] => ([], q)
  | o :: ops =>
      let '(sent, q) := queue_step dims q o in
      let '(rest, q) := queue_run dims q ops in (sent ++ rest, q)
  end.

(** The queue is never longer than the slice was made for. *)
Fixpoint roomy (dims : list (string * string)) (q : list MetricDatum) (ops : list pub_op) : Prop :=
  length q ≤ localMetricDataSize ∧
  match ops with [] => True | o :: ops => roomy dims (queue_step dims q o).2 ops end.

(** The requests a world has got. *)
Definition put (b : list (option MetricDatum)) : M W unit :=
  _ ← call (PutMetricData cloudwatchMetricNamespace b); mret tt.

Definition holds (id : string) (q : list MetricDatum) (p : cloudWatchPublisher) : Prop :=
  clusterID p = id ∧ filled q (localMetricData p) ∧ localMetricDataSize ≤ cap (localMetricData p).

Lemma send_put b p (w : W) : send b (mkPubSt p w) = let '(r, w') := put b w in (r, mkPubSt p w').
Proof.
  unfold send, put, mbind, M_bind, zoom. simpl. by destruct (call _ w) as [[] ?].
Qed.

Lemma sends_put bs p (w : W) :
  for_loop send bs (mkPubSt p w) = let '(r, w') := for_loop put bs w in (r, mkPubSt p w').
Proof.
  revert w. induction bs as [|b bs IH]; intros w; [done|]. cbn [for_loop]. unfold mbind, M_bind.
  rewrite send_put. destruct (put b w) as [[[]| |] w1]; [apply IH|done..].
Qed.

Lemma append_one_cap {A} (s : slice A) x : cap s ≤ cap (append_one s x).
Proof.
  unfold append_one, cap. case_bool_decide; simpl; [by rewrite length_insert|].
  pose proof (growcap_gt (length (arr s))). rewrite !length_app. lia.
Qed.

Lemma filled_appends {A} (l q : list A) (s : slice A) :
  filled q s → filled (q ++ l) (foldl append_one s l) ∧ cap s ≤ cap (foldl append_one s l).
Proof.
  revert q s. induction l as [|x l IH]; intros q s Hf; simpl; [by rewrite app_nil_r|].
  destruct (IH (q ++ [x]) (append_one s x)) as [H1 H2]; [by apply filled_append|].
  rewrite <-app_assoc in H1. split; [done|]. pose proof (append_one_cap s x). lia.
Qed.

Lemma needed_room n : n ≤ localMetricDataSize → needed n ≤ localMetricDataSize.
Proof.
  unfold needed, localMetricDataSize. intros Hn.
  pose proof (Nat.Div0.div_le_mono (n + 19) 119 20 ltac:(lia)) as Hd. change (119 / 20) with 5 in Hd. lia.
Qed.

Lemma exec_op_queue id dims q o p (w : W) :
  dims = [(clusterIDDimension, id)] → holds id q p → length q ≤ localMetricDataSize →
  ∃ p', holds id (queue_step dims q o).2 p' ∧
    exec_op o (mkPubSt p w) = let '(r, w') := for_loop put (queue_step dims q o).1 w in (r, mkPubSt p' w').
Proof.
  intros -> (Hid & Hf & Hc) Hq. destruct o as [l|]; simpl.
  - eexists. split; [|reflexivity]. simpl. unfold getCloudWatchMetricDatumDimensions. rewrite Hid.
    assert (∀ s, foldl (λ sl d, append_one sl (set_Dimensions [(clusterIDDimension, id)] d)) s l =
      foldl append_one s (set_Dimensions [(clusterIDDimension, id)] <$> l)) as ->.
    { induction l as [|x l IH]; intros s; simpl; [done|apply IH]. }
    destruct (filled_appends (set_Dimensions [(clusterIDDimension, id)] <$> l) q _ Hf). split_and!; [done..|]. simpl. lia.
  - exists (mkPublisher id (make localMetricDataSize)). split.
    { split_and!; [done|apply filled_make|by vm_compute; lia]. }
    unfold mbind, M_bind, pushLocal, gets, modify. simpl. unfold mbind, M_bind. simpl. rewrite Hid.
    unfold push. destruct Hf as (Hl & Ha & Hcap). rewrite Hl.
    rewrite (push_loop_batches (length q) q) by (done || (pose proof (needed_room (length q) Hq); lia)).
    rewrite sends_put. by destruct (for_loop put _ w) as [[[]| |] w'].
Qed.

(** C36: the publisher with its Go slices is a queue of data points: for every sequence
    of calls of [Publish] and ticks of [monitor] in which no more than 100 points
    wait at a time ([roomy]; with more, the slice of 20 can go beyond the capacity and
    panic, see [push_short_capacity_panics]), over a client of CloudWatch that always
    returns, nothing panics, the requests CloudWatch gets are those of the queue, in
    order, with 20 entries each: every point once, with the dimension of the cluster,
    and the last request of a tick filled up with nil entries; what waits is what the
    queue holds. *)
Theorem publisher_refines_queue id ops (w : W) (dims := [(clusterIDDimension, id)]) :
  roomy dims [] ops → (∀ n b (w : W), (PutMetricData n b w).1 ≠ None) →
  ∃ p w', for_loop exec_op ops (mkPubSt (new_publisher id) w) = (Ret tt, mkPubSt p w') ∧
    for_loop put (queue_run dims [] ops).1 w = (Ret tt, w') ∧ holds id (queue_run dims [] ops).2 p.
Proof.
  intros Hroom Ha.
  assert (∀ bs (w : W), ∃ w', for_loop put bs w = (Ret tt, w')) as Hput.
  { induction bs as [|b bs IH]; intros w1; cbn [for_loop]; [eauto|]. unfold mbind, M_bind, put at 1, call.
    specialize (Ha cloudwatchMetricNamespace b w1). unfold mbind, M_bind.
    destruct (PutMetricData _ b w1) as [[o|] w2]; [|done]. simpl. apply IH. }
  assert (∀ q p (w : W), holds id q p → roomy dims q ops →
    ∃ p' w', for_loop exec_op ops (mkPubSt p w) = (Ret tt, mkPubSt p' w') ∧
      for_loop put (queue_run dims q ops).1 w = (Ret tt, w') ∧ holds id (queue_run dims q ops).2 p') as Hrun.
  2: { apply Hrun; [|done]. split_and!; [done|apply filled_make|by vm_compute; lia]. }
  clear Hroom w. induction ops as [|o ops IH]; intros q p w Hp [Hq Hroom]; [by exists p, w|].
  destruct (exec_op_queue id dims q o p w eq_refl Hp Hq) as (p1 & Hp1 & Hex).
  cbn [for_loop queue_run]. unfold mbind at 1, M_bind. rewrite Hex.
  destruct (queue_step dims q o) as [sent q1]. simpl in *.
  destruct (Hput sent w) as [w1 Hw1]. rewrite Hw1.
  destruct (IH q1 p1 w1 Hp1 Hroom) as (p2 & w2 & H1 & H2 & H3).
  destruct (queue_run dims q1 ops) as [rest q2]. simpl in *. exists p2, w2. split_and!; [done| |done].
  clear -Hw1 H2. revert w Hw1. induction sent as [|b sent IH]; intros w Hw; simpl in *; [by injection Hw as ->|].
  unfold mbind, M_bind in *. destruct (put b w) as [[[]| |] w3]; [by apply IH|done..].
Qed.

End publisher.

(** *** Witnesses *)

#[local] Instance double : Growth.
Proof. refine {| growcap n := S (2 * n) |}. intros n. lia. Defined.

#[local] Instance Test_CloudWatch : CloudWatch (list (list (option MetricDatum))) := {
  PutMetricData _ b w := (Some None, w ++ [b]);
}.

Definition data_ex : list MetricDatum := (λ i, mkMetricDatum "m" None (Some (of_Z (Z.of_nat i))) None []) <$> seq 0 25.
Definition slice_ex : slice MetricDatum := mkSlice ((Some <$> data_ex) ++ replicate 75 None) 25.

Lemma push_sends_batches_witness :
  push slice_ex (mkPubSt (new_publisher "c") []) = for_loop send (batches 25 (Some <$> data_ex)) (mkPubSt (new_publisher "c") []) ∧
  mjoin (batches 25 (Some <$> data_ex)) = (Some <$> data_ex) ++ replicate 15 None ∧
  Forall (λ b, length b = 20) (batches 25 (Some <$> data_ex)).
Proof.
  apply (push_sends_batches data_ex slice_ex (mkPubSt (new_publisher "c") [])).
  - split_and!; [reflexivity|reflexivity|vm_compute; lia].
  - vm_compute. lia.
Defined.

Lemma publisher_refines_queue_witness :
  ∃ p w', for_loop exec_op [OpPublish data_ex; OpTick; OpPublish (take 2 data_ex)] (mkPubSt (new_publisher "c") []) =
      (Ret tt, mkPubSt p w') ∧
    for_loop put (queue_run [(clusterIDDimension, "c"%string)] [] [OpPublish data_ex; OpTick; OpPublish (take 2 data_ex)]).1 [] =
      (Ret tt, w') ∧
    holds "c" (queue_run [(clusterIDDimension, "c"%string)] [] [OpPublish data_ex; OpTick; OpPublish (take 2 data_ex)]).2 p.
Proof.
  apply (publisher_refines_queue "c" [OpPublish data_ex; OpTick; OpPublish (take 2 data_ex)] []).
  - vm_compute. repeat split; lia.
  - intros n b w. discriminate.
Defined.

(** It sends 25 points in two requests, the second filled up with nil entries. *)
Example publisher_ex :
  length <$> p_world (for_loop exec_op [OpPublish data_ex; OpTick] (mkPubSt (new_publisher "c") [])).2 = [20; 20].
Proof. vm_compute. reflexivity. Qed.
