(* ===== verification/Metrics.v ===== *)
(** * Aggregating metrics: cni-metrics-helper/metrics/{metrics,cni_metrics}.go

    The helper polls the metrics of every CNI pod, aggregates them and gives them
    to the publisher.  The aggregate of an action lives behind the pointers
    [data] and [bucket] of the table [InterestingCNIMetrics], which every poll
    shares.  An action owns its [dataPoints] and [bucketPoints]; the buckets are
    pointers into a store of their own, because [lastBucket] is set to the same
    slice of pointers as [curBucket].  The text parser of prometheus and the pods
    are outside the repository. *)
From S2P Require Import Prelude GoStd Float64 Netlink Interfaces K8sDiscovery Publisher.

Open Scope Z_scope.

(** ** The metrics of prometheus (client_model)

    A getter of a field that is not set gives 0. *)
Inductive MetricType : Type :=
| MetricType_COUNTER
| MetricType_GAUGE
| MetricType_SUMMARY
| MetricType_UNTYPED
| MetricType_HISTOGRAM.

Record Metric := mkMetric {
  m_Label : list (string * string);
  m_Gauge : option float64;
  m_Counter : option float64;
  m_Quantile : list (float64 * float64);
  m_Bucket : list (float64 * Z);
}.

Definition GetGaugeValue (m : Metric) : float64 := default fzero (m_Gauge m).
Definition GetCounterValue (m : Metric) : float64 := default fzero (m_Counter m).

Record MetricFamily := mkMetricFamily {
  mf_Name : string;
  mf_Type : MetricType;
  mf_Metric : list Metric;
}.

(** ** The table of interesting metrics *)

Record dataPoints := mkDataPoints { lastSingleDataPoint : float64; curSingleDataPoint : float64 }.

(** The object behind a [*bucketPoint], and the pointers to it. *)
Record bucketPoint := mkBucketPoint { CumulativeCount : float64; UpperBound : float64 }.
Abbreviation loc := nat.

(** A nil [lastBucket] is [None]. *)
Record bucketPoints := mkBucketPoints { lastBucket : option (list loc); curBucket : list loc }.

Record metricsAction := mkMetricsAction {
  cwMetricName : string;
  matchFunc : Metric → bool;
  actionFunc : float64 → float64 → float64;
  data : option dataPoints;
  bucket : option bucketPoints;
  logToFile : bool;
}.

Record metricsConvert := mkMetricsConvert { actions : list metricsAction }.

Definition set_data (d : dataPoints) (a : metricsAction) : metricsAction :=
  mkMetricsAction (cwMetricName a) (matchFunc a) (actionFunc a) (Some d) (bucket a) (logToFile a).
Definition set_bucket (b : bucketPoints) (a : metricsAction) : metricsAction :=
  mkMetricsAction (cwMetricName a) (matchFunc a) (actionFunc a) (data a) (Some b) (logToFile a).
Definition set_cur (v : float64) (d : dataPoints) : dataPoints := mkDataPoints (lastSingleDataPoint d) v.

Definition matchAny (metric : Metric) : bool := true.

(** The functions work on a pointer to the aggregate: here from its value to the
    new one. *)
Definition metricsAdd (aggregatedValue sampleValue : float64) : float64 := fadd aggregatedValue sampleValue.
Definition metricsMax (aggregatedValue sampleValue : float64) : float64 :=
  if flt aggregatedValue sampleValue then sampleValue else aggregatedValue.

(** An entry of [InterestingCNIMetrics]: each has one action. *)
Definition cni_metric (name : string) (act : float64 → float64 → float64) (log : bool) : metricsConvert :=
  mkMetricsConvert [mkMetricsAction name matchAny act (Some (mkDataPoints fzero fzero)) None log].

Definition InterestingCNIMetrics : gmap string metricsConvert := list_to_map [
  ("awscni_assigned_ip_addresses", cni_metric "assignIPAddresses" metricsAdd false);
  ("awscni_total_ip_addresses", cni_metric "totalIPAddresses" metricsAdd false);
  ("awscni_eni_allocated", cni_metric "eniAllocated" metricsAdd false);
  ("awscni_eni_max", cni_metric "eniMaxAvailable" metricsAdd false);
  ("awscni_ip_max", cni_metric "maxIPAddresses" metricsAdd false);
  ("awscni_aws_api_latency_ms", cni_metric "awsAPILatency" metricsMax true);
  ("awscni_aws_api_error_count", cni_metric "awsAPIErr" metricsAdd true);
  ("awscni_aws_utils_error_count", cni_metric "awsUtilErr" metricsAdd true);
  ("awscni_ipamd_error_count", cni_metric "ipamdErr" metricsAdd true);
  ("awscni_ipamd_action_inprogress", cni_metric "ipamdActionInProgress" metricsAdd true);
  ("awscni_reconcile_count", cni_metric "reconcileCount" metricsAdd true);
  ("awscni_add_ip_req_count", cni_metric "addReqCount" metricsAdd true);
  ("awscni_del_ip_req_count", cni_metric "delReqCount" metricsAdd true)]%string.

(** ** The interface of a target, and the services behind it *)

Class MetricsTarget (W : Type) : Type := {
  grabMetricsFromTarget : string → ext W (string + error);
  getTargetList : ext W (list string);
  submitCloudWatch : bool;
}.

Class TextParser : Type := {
  TextToMetricFamilies : string → gmap string MetricFamily + error;
}.

(** [cw.Publish] of one data point. *)
Class PublisherAPI (W : Type) : Type := { cw_Publish : MetricDatum → ext W unit }.

(** The table, the store of the buckets with the next unused pointer, and the
    world. *)
Record MetSt (W : Type) := mkMetSt {
  t_metrics : gmap string metricsConvert;
  t_heap : gmap loc bucketPoint;
  t_next : loc;
  t_world : W;
}.
Arguments mkMetSt {W}.
Arguments t_metrics {W}.
Arguments t_heap {W}.
Arguments t_next {W}.
Arguments t_world {W}.

Section metrics.
Context {W : Type} `{!World W, !MetricsTarget W, !TextParser, !PublisherAPI W}.

Abbreviation TM := (M (MetSt W)).

Definition tworld {A} (m : M W A) : TM A :=
  zoom t_world (λ w s, mkMetSt (t_metrics s) (t_heap s) (t_next s) w) m.
Definition set_metrics (m : gmap string metricsConvert) (s : MetSt W) : MetSt W :=
  mkMetSt m (t_heap s) (t_next s) (t_world s).
Definition set_heap (h : gmap loc bucketPoint) (s : MetSt W) : MetSt W :=
  mkMetSt (t_metrics s) h (t_next s) (t_world s).

(** Dereferencing, assigning through a pointer, and [new]. *)
Definition load (l : loc) : TM bucketPoint :=
  h ← gets t_heap;
  match h !! l with
  | Some b => mret b
  | None => panic "nil pointer dereference"
  end.
Definition count (l : loc) : TM float64 := b ← load l; mret (CumulativeCount b).
Definition set_count (l : loc) (v : float64) : TM unit :=
  b ← load l;
  modify (λ s, set_heap (<[l := mkBucketPoint v (UpperBound b)]> (t_heap s)) s).
Definition alloc (b : bucketPoint) : TM loc :=
  l ← gets t_next;
  modify (λ s, mkMetSt (t_metrics s) (<[l := b]> (t_heap s)) (S l) (t_world s)) ;;
  mret l.

Definition deref {A B} (p : option A) (f : A → TM B) : TM B :=
  match p with
  | Some a => f a
  | None => panic "nil pointer dereference"
  end.

(** [act.actionFunc(&act.data.curSingleDataPoint, v)]. *)
Definition apply_data (v : float64) (act : metricsAction) : TM metricsAction :=
  deref (data act) (λ d, mret (set_data (set_cur (actionFunc act (curSingleDataPoint d) v) d) act)).

Definition processGauge (metric : Metric) (act : metricsAction) : TM metricsAction :=
  apply_data (GetGaugeValue metric) act.

Definition processCounter (metric : Metric) (act : metricsAction) : TM metricsAction :=
  apply_data (GetCounterValue metric) act.

(** The value of the last quantile that is 0.99, or 0. *)
Definition p99 (quantiles : list (float64 * float64)) : float64 :=
  foldl (λ v q, if feq q.1 (fconst 99 100) then q.2 else v) fzero quantiles.

Definition processPercentile (metric : Metric) (act : metricsAction) : TM metricsAction :=
  apply_data (p99 (m_Quantile metric)) act.

(** The inner loop of [processHistogram]: [Some tt] when a bucket was found. *)
Definition find_bucket (act : metricsAction) (upperBound : float64) (count : Z) (l : loc) : TM (option unit) :=
  b ← load l;
  if feq upperBound (UpperBound b) then
    set_count l (actionFunc act (CumulativeCount b) (of_Z count)) ;; mret (Some tt)
  else mret None.

Definition process_bucket (act : metricsAction) (bk : float64 * Z) : TM metricsAction :=
  deref (bucket act) (λ bs,
    existingBucket ← find_loop (find_bucket act bk.1 bk.2) (curBucket bs);
    match existingBucket with
    | Some _ => mret act
    | None =>
        newBucket ← alloc (mkBucketPoint (of_Z bk.2) bk.1);
        mret (set_bucket (mkBucketPoints (lastBucket bs) (curBucket bs ++ [newBucket])) act)
    end).

Definition processHistogram (metric : Metric) (act : metricsAction) : TM metricsAction :=
  fold_loop process_bucket act (m_Bucket metric).

(** ** After the metrics of a family are aggregated *)

Record counter_state := mkCounterState {
  resetDetected : bool;
  noPreviousDataPoint : bool;
  noCurrentDataPoint : bool;
}.

Definition is_zero (x : float64) : bool := feq x fzero.

(** One turn of the loop of [postProcessingCounter]. *)
Definition post_counter (st : counter_state) (d : dataPoints) : counter_state * dataPoints :=
  let currentTotal := curSingleDataPoint d in
  let reset := flt (curSingleDataPoint d) (lastSingleDataPoint d) in
  let cur := if reset then curSingleDataPoint d else fsub (curSingleDataPoint d) (lastSingleDataPoint d) in
  (mkCounterState (resetDetected st || reset)
     (noPreviousDataPoint st && is_zero (lastSingleDataPoint d))
     (noCurrentDataPoint st && is_zero cur),
   mkDataPoints currentTotal cur).

Fixpoint counter_loop (st : counter_state) (acts : list metricsAction) : TM (counter_state * list metricsAction) :=
  match acts with
  | [] => mret (st, [])
  | act :: acts =>
      deref (data act) (λ d,
        let '(st, d) := post_counter st d in
        '(st, acts) ← counter_loop st acts;
        mret (st, set_data d act :: acts))
  end.

Definition postProcessingCounter (convert : metricsConvert) : TM (bool * metricsConvert) :=
  '(st, acts) ← counter_loop (mkCounterState false true true) (actions convert);
  mret (resetDetected st || (noPreviousDataPoint st && negb (noCurrentDataPoint st)), mkMetricsConvert acts).

Definition index {A} (l : list A) (i : nat) : TM A :=
  match l !! i with
  | Some x => mret x
  | None => panic "index out of range"
  end.

(** Delta against the previous value of a bucket: whether there was a reset. *)
Definition delta_last (cur : loc) (last : list loc) (i : nat) : TM bool :=
  l ← index last i;
  currentTotal ← count cur;
  before ← count l;
  reset ← (if fle before currentTotal then set_count cur (fsub currentTotal before) ;; mret false else mret true);
  set_count l currentTotal ;;
  mret reset.

(** Position [p] of the loop of [postProcessingHistogram] over the buckets. *)
Definition post_bucket (bs : bucketPoints) (reset : bool) (p : nat) : TM bool :=
  cur ← index (curBucket bs) p;
  prev ← index (curBucket bs) (p - 1);
  c ← count cur;
  q ← count prev;
  set_count cur (fsub c q) ;;
  match lastBucket bs with
  | None => mret reset
  | Some last => r ← delta_last cur last p; mret (reset || r)
  end.

(** One action; [noLastBucket] is the second flag. *)
Definition post_histogram (flags : bool * bool) (act : metricsAction) : TM (bool * bool * metricsAction) :=
  deref (bucket act) (λ bs,
    let numOfBuckets := length (curBucket bs) in
    if bool_decide (numOfBuckets = 0%nat) then mret (flags, act)
    else
      reset ← fold_loop (post_bucket bs) flags.1 (reverse (seq 1 (numOfBuckets - 1)));
      match lastBucket bs with
      | None => mret (reset, flags.2, set_bucket (mkBucketPoints (Some (curBucket bs)) (curBucket bs)) act)
      | Some last =>
          cur ← index (curBucket bs) 0;
          r ← delta_last cur last 0;
          mret (reset || r, false, act)
      end).

Fixpoint histogram_loop (flags : bool * bool) (acts : list metricsAction) :
    TM (bool * bool * list metricsAction) :=
  match acts with
  | [] => mret (flags, [])
  | act :: acts =>
      '(flags, act) ← post_histogram flags act;
      '(flags, acts) ← histogram_loop flags acts;
      mret (flags, act :: acts)
  end.

Definition postProcessingHistogram (convert : metricsConvert) : TM (bool * metricsConvert) :=
  '(flags, acts) ← histogram_loop (false, true) (actions convert);
  mret (flags.1 || flags.2, mkMetricsConvert acts).

(** ** Families *)

Fixpoint map_loop {A B} (f : A → TM B) (l : list A) : TM (list B) :=
  match l with
  | [] => mret []
  | x :: l => y ← f x; ys ← map_loop f l; mret (y :: ys)
  end.

Definition process_action (mType : MetricType) (metric : Metric) (act : metricsAction) : TM metricsAction :=
  if matchFunc act metric then
    match mType with
    | MetricType_GAUGE => processGauge metric act
    | MetricType_HISTOGRAM => processHistogram metric act
    | MetricType_COUNTER => processCounter metric act
    | MetricType_SUMMARY => processPercentile metric act
    | MetricType_UNTYPED => mret act
    end
  else mret act.

Definition processMetric (family : MetricFamily) (convert : metricsConvert) : TM (bool * metricsConvert) :=
  acts ← fold_loop (λ acts metric, map_loop (process_action (mf_Type family) metric) acts)
           (actions convert) (mf_Metric family);
  match mf_Type family with
  | MetricType_COUNTER => postProcessingCounter (mkMetricsConvert acts)
  | MetricType_HISTOGRAM => postProcessingHistogram (mkMetricsConvert acts)
  | _ => mret (false, mkMetricsConvert acts)
  end.

Definition filterMetrics (originalMetrics : gmap string MetricFamily)
    (interestingMetrics : gmap string metricsConvert) : gmap string MetricFamily :=
  filter (λ x, is_Some (interestingMetrics !! x.1)) originalMetrics.

(** Every action of the table is reset, in any order. *)
Definition reset_action (act : metricsAction) : metricsAction :=
  mkMetricsAction (cwMetricName act) (matchFunc act) (actionFunc act)
    (set_cur fzero <$> data act)
    ((λ bs, mkBucketPoints (lastBucket bs) []) <$> bucket act) (logToFile act).

Definition resetMetrics : TM unit :=
  modify (λ s, set_metrics ((λ c, mkMetricsConvert (reset_action <$> actions c)) <$> t_metrics s) s).

(** One family of a target; the entry of the table is the one of the family's
    own name, and a missing one has no actions. *)
Definition aggregate_family (reset : bool) (x : string * MetricFamily) : TM bool :=
  let family := x.2 in
  m ← gets t_metrics;
  let convert := default (mkMetricsConvert []) (m !! mf_Name family) in
  '(curReset, convert) ← processMetric family convert;
  modify (λ s, set_metrics
    (match t_metrics s !! mf_Name family with
     | Some _ => <[mf_Name family := convert]> (t_metrics s)
     | None => t_metrics s
     end) s) ;;
  mret (reset || curReset).

(** The loop over the targets: the families of the last one that answered, and
    whether a reset was detected. *)
Fixpoint target_loop (families : gmap string MetricFamily) (reset : bool) (targetList : list string) :
    TM (gmap string MetricFamily * bool + error) :=
  match targetList with
  | [] => mret (inl (families, reset))
  | target :: targetList =>
      rawOutput ← tworld (call (grabMetricsFromTarget target));
      match rawOutput with
      | inr _ => target_loop families reset targetList
      | inl raw =>
          match TextToMetricFamilies raw with
          | inr e => mret (inr e)
          | inl origFamilies =>
              interestingMetrics ← gets t_metrics;
              let families := filterMetrics origFamilies interestingMetrics in
              l ← tworld (range families);
              reset ← fold_loop aggregate_family reset l;
              target_loop families reset targetList
          end
      end
  end.

(** The result: the families, whether a reset was detected, and the error. *)
Definition metricsListGrabAggregateConvert : TM (gmap string MetricFamily * bool * option error) :=
  resetMetrics ;;
  targetList ← tworld (call getTargetList);
  r ← target_loop ∅ false targetList;
  match r with
  | inr e => mret (∅, true, Some e)
  | inl (families, reset) =>
      mret (families, if bool_decide (1 < length targetList)%nat then false else reset, None)
  end.

(** ** Publishing *)

Definition StandardUnitCount : string := "Count".

Definition publish (d : MetricDatum) : TM unit := tworld (call (cw_Publish d)).

(** One bucket of [produceHistogram]; [prevUpperBound] is the bound before it. *)
Definition produce_bucket (name : string) (prevUpperBound : float64) (l : loc) : TM float64 :=
  b ← load l;
  let mid := fadd (fdiv (fsub (UpperBound b) prevUpperBound) (of_Z 2)) prevUpperBound in
  let mid := if feq mid (UpperBound b) then fadd prevUpperBound (fdiv prevUpperBound (of_Z 2)) else mid in
  (if is_zero (CumulativeCount b) then mret tt
   else publish (mkMetricDatum name None None
          (Some (mkStatisticSet mid mid (CumulativeCount b) (fmul mid (CumulativeCount b)))) [])) ;;
  mret (UpperBound b).

Definition produceHistogram (act : metricsAction) : TM unit :=
  deref (bucket act) (λ bs,
    _ ← fold_loop (produce_bucket (cwMetricName act)) fzero (curBucket bs);
    mret tt).

(** The data point of a counter, gauge or summary. *)
Definition value_datum (act : metricsAction) (v : float64) : MetricDatum :=
  mkMetricDatum (cwMetricName act) (Some StandardUnitCount) (Some v) None [].

Definition produce_action (mType : MetricType) (act : metricsAction) : TM unit :=
  match mType with
  | MetricType_COUNTER | MetricType_GAUGE | MetricType_SUMMARY =>
      deref (data act) (λ d,
        if submitCloudWatch then publish (value_datum act (curSingleDataPoint d)) else mret tt)
  | MetricType_HISTOGRAM => if submitCloudWatch then produceHistogram act else mret tt
  | MetricType_UNTYPED => mret tt
  end.

Definition produceCloudWatchMetrics (families : gmap string MetricFamily) : TM unit :=
  l ← tworld (range families);
  for_loop (λ x,
    m ← gets t_metrics;
    let convertMetrics := default (mkMetricsConvert []) (m !! x.1) in
    for_loop (produce_action (mf_Type x.2)) (actions convertMetrics)) l.

(** A detected reset or an error is only logged; with an error there are no
    families. *)
Definition Handler : TM unit :=
  '(families, _, _) ← metricsListGrabAggregateConvert;
  produceCloudWatchMetrics families.

End metrics.

(** ** The CNI pods as the target: cni_metrics.go *)

(** The port where the pods serve their metrics, and the API server's proxy. *)
Definition metricsPort : Z := 61678.

Class PodProxy (W : Type) : Type := {
  proxy_Raw : string → string → string → ext W (string + error);
}.

(** [getMetricsFromPod]: namespace, name with port, and path. *)
Definition getMetricsFromPod {W} `{!PodProxy W} (podName namespace : string) (port : Z) : ext W (string + error) :=
  proxy_Raw namespace (podName +:+ ":" +:+ Itoa port)%string "metrics".

(** [CNIMetricsTarget]: the controller's list of CNI pods, and their metrics. *)
Definition CNIMetricsNew {W} `{!World W, !PodProxy W} (submitCW : bool) : MetricsTarget (K8sSt W) := {|
  grabMetricsFromTarget cniPod s :=
    let '(r, w) := getMetricsFromPod cniPod NamespaceSystem metricsPort (k_world s) in
    (r, mkK8sSt (k_ctrl s) w);
  getTargetList s :=
    match GetCNIPods s with
    | (Ret pods, s') => (Some pods, s')
    | (_, s') => (None, s')
    end;
  submitCloudWatch := submitCW;
|}.
