(* ===== verification/MetricsProps.v ===== *)
(** * Theorems about the aggregation of metrics

    What a poll leaves in the table, as a function of what the pods answer; from
    it the totals of gauges and the increments of counters, with floating point
    arithmetic that is exact below 2^53, and the data points that are published. *)
From S2P Require Import Prelude GoStd Float64 Netlink Interfaces K8sDiscovery Publisher Metrics.

Open Scope Z_scope.

(** ** One family

    The value that a metric contributes, by the type of its family. *)
Definition sample (t : MetricType) (m : Metric) : option float64 :=
  match t with
  | MetricType_GAUGE => Some (GetGaugeValue m)
  | MetricType_COUNTER => Some (GetCounterValue m)
  | MetricType_SUMMARY => Some (p99 (m_Quantile m))
  | _ => None
  end.

Definition feed (t : MetricType) (act : metricsAction) (m : Metric) : metricsAction :=
  if matchFunc act m then
    match sample t m, data act with
    | Some v, Some d => set_data (set_cur (actionFunc act (curSingleDataPoint d) v) d) act
    | _, _ => act
    end
  else act.

(** The data of a counter after the delta. *)
Definition post_data (d : dataPoints) : dataPoints := (post_counter (mkCounterState false true true) d).2.
Definition post_act (a : metricsAction) : metricsAction :=
  match data a with Some d => set_data (post_data d) a | None => a end.

Definition family_action (fam : MetricFamily) (a : metricsAction) : metricsAction :=
  let a := foldl (feed (mf_Type fam)) a (mf_Metric fam) in
  match mf_Type fam with MetricType_COUNTER => post_act a | _ => a end.

(** Whether [postProcessingCounter] reports a reset for actions with these data. *)
Definition counter_reset (ds : list dataPoints) : bool :=
  existsb (λ d, flt (curSingleDataPoint d) (lastSingleDataPoint d)) ds ||
  (forallb (λ d, is_zero (lastSingleDataPoint d)) ds &&
   negb (forallb (λ d, is_zero (curSingleDataPoint (post_data d))) ds)).

Definition has_data (a : metricsAction) : Prop := is_Some (data a).
Definition plain (fam : MetricFamily) : Prop := mf_Type fam ≠ MetricType_HISTOGRAM.

Lemma feed_has_data t a m : has_data a → has_data (feed t a m).
Proof. unfold feed, has_data. intros [d Hd]. rewrite Hd. destruct (matchFunc a m), (sample t m); simpl; eauto. Qed.

Lemma feeds_has_data t a ms : has_data a → has_data (foldl (feed t) a ms).
Proof. revert a. induction ms as [|m ms IH]; intros a Ha; simpl; [done|]. by apply IH, feed_has_data. Qed.

Lemma family_has_data fam a : has_data a → has_data (family_action fam a).
Proof.
  intros Ha. unfold family_action. pose proof (feeds_has_data (mf_Type fam) a (mf_Metric fam) Ha) as H.
  destruct (mf_Type fam); try done. unfold post_act, has_data. destruct H as [d ->]. simpl. eauto.
Qed.

#[export] Hint Resolve feed_has_data feeds_has_data family_has_data : metrics.

Section family.
Context {W : Type} `{!World W, !MetricsTarget W, !TextParser, !PublisherAPI W}.
Implicit Types s : MetSt W.

Lemma process_action_pure t m a s : t ≠ MetricType_HISTOGRAM → has_data a →
  process_action t m a s = (Ret (feed t a m), s).
Proof.
  intros Ht [d Hd]. unfold process_action, feed, processGauge, processCounter, processPercentile, apply_data.
  destruct (matchFunc a m); [|done]. rewrite Hd. by destruct t.
Qed.

Lemma map_loop_pure t m acts s : t ≠ MetricType_HISTOGRAM → Forall has_data acts →
  map_loop (process_action t m) acts s = (Ret ((λ a, feed t a m) <$> acts), s).
Proof.
  intros Ht. induction 1 as [|a acts Ha Hacts IH]; [done|]. cbn [map_loop].
  rewrite (run_bind _ _ _ _ _ (process_action_pure t m a s Ht Ha)). by rewrite (run_bind _ _ _ _ _ IH).
Qed.

Lemma fold_loop_pure t ms acts s : t ≠ MetricType_HISTOGRAM → Forall has_data acts →
  fold_loop (λ acts m, map_loop (process_action t m) acts) acts ms s =
  (Ret ((λ a, foldl (feed t) a ms) <$> acts), s).
Proof.
  intros Ht. revert acts. induction ms as [|m ms IH]; intros acts Hacts; simpl.
  - by rewrite list_fmap_id.
  - rewrite (run_bind _ _ _ _ _ (map_loop_pure t m acts s Ht Hacts)). rewrite IH.
    + by rewrite <-list_fmap_compose.
    + apply Forall_fmap. eapply Forall_impl; [done|]. simpl. eauto with metrics.
Qed.

Lemma counter_loop_pure st acts ds s : data <$> acts = Some <$> ds →
  counter_loop st acts s =
  (Ret (mkCounterState
          (resetDetected st || existsb (λ d, flt (curSingleDataPoint d) (lastSingleDataPoint d)) ds)
          (noPreviousDataPoint st && forallb (λ d, is_zero (lastSingleDataPoint d)) ds)
          (noCurrentDataPoint st && forallb (λ d, is_zero (curSingleDataPoint (post_data d))) ds),
        post_act <$> acts), s).
Proof.
  revert st ds. induction acts as [|a acts IH]; intros st [|d ds] Hd; try done.
  - simpl. rewrite !orb_false_r, !andb_true_r. by destruct st.
  - injection Hd as Hda Hds. cbn [counter_loop]. unfold deref. rewrite Hda. unfold mbind, M_bind. unfold post_counter at 1. rewrite (IH _ ds) by done. simpl.
    rewrite !orb_assoc, !andb_assoc. unfold post_act at 2. by rewrite Hda.
Qed.

Lemma has_data_list acts : Forall has_data acts → ∃ ds, data <$> acts = Some <$> ds.
Proof.
  induction 1 as [|a acts [d Hd] _ [ds IH]]; [by exists []|]. exists (d :: ds). rewrite !fmap_cons. by rewrite Hd, IH.
Qed.

(** [processMetric] of a family that is not a histogram. *)
Lemma processMetric_pure fam acts s : plain fam → Forall has_data acts →
  ∃ reset, processMetric fam (mkMetricsConvert acts) s =
    (Ret (reset, mkMetricsConvert (family_action fam <$> acts)), s) ∧
    (mf_Type fam = MetricType_COUNTER → ∀ ds,
       data ∘ (λ a, foldl (feed (mf_Type fam)) a (mf_Metric fam)) <$> acts = Some <$> ds →
       reset = counter_reset ds).
Proof.
  intros Hp Hacts. unfold processMetric. cbn [actions].
  rewrite (run_bind _ _ _ _ _ (fold_loop_pure _ (mf_Metric fam) acts s Hp Hacts)).
  unfold family_action, plain in *. destruct (mf_Type fam) eqn:Ht; try done; try (by eexists).
  set (acts' := (λ a, _) <$> acts).
  assert (Forall has_data acts') as Hacts'.
  { apply Forall_fmap. eapply Forall_impl; [exact Hacts|]. simpl. eauto with metrics. }
  destruct (has_data_list _ Hacts') as [ds Hds]. unfold postProcessingCounter. cbn [actions].
  rewrite (run_bind _ _ _ _ _ (counter_loop_pure _ _ _ s Hds)). eexists. split.
  - unfold acts'. by rewrite <-list_fmap_compose.
  - intros _ ds' Hds'. rewrite list_fmap_compose in Hds'. fold acts' in Hds'. rewrite Hds in Hds'.
    apply (inj (fmap Some)) in Hds' as ->. done.
Qed.

End family.

(** ** Sums

    A value that is a whole number of less than 53 bits, the value of a metric in
    a family of a type, and the exact sum of such values. *)
Definition whole (v : float64) : Prop := ∃ z, 0 ≤ z < 2 ^ 53 ∧ v = of_Z z.
Definition value (t : MetricType) (m : Metric) : float64 := default fzero (sample t m).
Fixpoint zsum (t : MetricType) (ms : list Metric) : Z :=
  match ms with
  | [] => 0
  | m :: ms => to_int64 (value t m) + zsum t ms
  end.
Definition matching (a : metricsAction) (ms : list Metric) : list Metric := filter (λ m, matchFunc a m = true) ms.

(** The action with another current value. *)
Definition with_cur (v : float64) (a : metricsAction) : metricsAction :=
  match data a with Some d => set_data (set_cur v d) a | None => a end.

Lemma zsum_app t ms ms' : zsum t (ms ++ ms') = zsum t ms + zsum t ms'.
Proof. induction ms as [|m ms IH]; simpl; lia. Qed.

Lemma zsum_nonneg t ms : Forall (whole ∘ value t) ms → 0 ≤ zsum t ms.
Proof.
  induction 1 as [|m ms (z & Hz & Heq) _ IH]; simpl; [done|]. simpl in Heq. rewrite Heq, to_int64_exact; lia.
Qed.

Lemma matching_whole t a ms : Forall (whole ∘ value t) ms → Forall (whole ∘ value t) (matching a ms).
Proof. intros H. apply Forall_forall. intros m Hm. apply list_elem_of_filter in Hm as [_ Hm]. by eapply Forall_forall in H. Qed.

Definition adds (t : MetricType) : Prop :=
  match t with MetricType_GAUGE | MetricType_COUNTER | MetricType_SUMMARY => True | _ => False end.

(** Adding whole numbers is exact while the sum is below 2^53. *)
Lemma feeds_add t a d z ms :
  adds t → actionFunc a = metricsAdd → data a = Some d → curSingleDataPoint d = of_Z z → 0 ≤ z →
  Forall (whole ∘ value t) ms → z + zsum t (matching a ms) < 2 ^ 53 →
  foldl (feed t) a ms = with_cur (of_Z (z + zsum t (matching a ms))) a.
Proof.
  intros Ht Hadd. revert a d z Hadd. induction ms as [|m ms IH]; intros a d z Hadd Hd Hz Hpos Hms Hsum; simpl.
  { unfold with_cur. rewrite Hd. rewrite Z.add_0_r, <-Hz. by destruct a, d; simpl in *; subst. }
  apply Forall_cons in Hms as [(x & Hx & Hval) Hms]. simpl in Hval.
  assert (sample t m = Some (value t m)) as Hs by (unfold value; by destruct t).
  unfold matching in Hsum |- *. rewrite filter_cons in Hsum |- *. unfold feed at 2. rewrite Hs, Hd, Hval, Hadd, Hz.
  pose proof (zsum_nonneg t (matching a ms) (matching_whole _ _ _ Hms)) as Hnn. unfold matching in Hnn.
  destruct (decide (matchFunc a m = true)) as [Hm|Hm].
  - rewrite Hm. simpl zsum in Hsum |- *. rewrite Hval, to_int64_exact in Hsum |- * by lia.
    rewrite (IH _ (set_cur (of_Z (z + x)) d) (z + x)); unfold matching in *; simpl in *;
      try done; try lia; rewrite ?fadd_exact by lia; unfold metricsAdd; rewrite ?fadd_exact by lia; try done.
    unfold with_cur. rewrite Hd. simpl. unfold set_data, set_cur. simpl. do 3 f_equal. f_equal. lia.
  - apply not_true_is_false in Hm. rewrite Hm. by apply (IH a d).
Qed.

(** ** A poll *)

(** What a family does to an entry of the table. *)
Definition fam_step (fam : option MetricFamily) (c : metricsConvert) : metricsConvert :=
  match fam with
  | Some fam => mkMetricsConvert (family_action fam <$> actions c)
  | None => c
  end.

Definition table_ok (m : gmap string metricsConvert) : Prop :=
  ∀ k c, m !! k = Some c → Forall has_data (actions c).

(** The families of a pod are named as they are listed, and none that is
    interesting is a histogram. *)
Definition families_ok (m : gmap string metricsConvert) (fams : gmap string MetricFamily) : Prop :=
  ∀ k fam, fams !! k = Some fam → is_Some (m !! k) → mf_Name fam = k ∧ plain fam.

Definition reset_convert (c : metricsConvert) : metricsConvert := mkMetricsConvert (reset_action <$> actions c).

Lemma fam_step_ok fam c : Forall has_data (actions c) → Forall has_data (actions (fam_step fam c)).
Proof.
  intros Hc. destruct fam as [fam|]; [|done]. simpl. apply Forall_fmap. eapply Forall_impl; [done|].
  simpl. eauto with metrics.
Qed.

Lemma reset_ok m : table_ok m → table_ok (reset_convert <$> m).
Proof.
  intros Hm k c. rewrite lookup_fmap_Some. intros (c' & <- & Hc). simpl. apply Forall_fmap.
  eapply Forall_impl; [by eapply Hm|]. intros a [d Hd]. unfold has_data. simpl. rewrite Hd. simpl. eauto.
Qed.

(** The family listed under a name. *)
Definition listed (l : list (string * MetricFamily)) (k : string) : option MetricFamily :=
  (list_to_map l : gmap string MetricFamily) !! k.

Section poll.
Context {W : Type} `{!World W} `{!WorldOk W} `{!MetricsTarget W, !TextParser, !PublisherAPI W}.
Implicit Types s : MetSt W.

(** Only the table differs, and by the function [f] on the entries. *)
Definition updated (f : string → metricsConvert → metricsConvert) s s' : Prop :=
  t_heap s' = t_heap s ∧ t_next s' = t_next s ∧ ∀ k, t_metrics s' !! k = f k <$> t_metrics s !! k.

Lemma updated_ok f s s' : updated f s s' → table_ok (t_metrics s) →
  (∀ k c, Forall has_data (actions c) → Forall has_data (actions (f k c))) → table_ok (t_metrics s').
Proof.
  intros (_ & _ & Hu) Hok Hf k c. rewrite Hu, fmap_Some. intros (c' & Hc & ->). eauto.
Qed.

Lemma aggregate_spec l reset s :
  NoDup l.*1 → table_ok (t_metrics s) →
  (∀ k fam, (k, fam) ∈ l → mf_Name fam = k ∧ plain fam) →
  wp False (fold_loop aggregate_family reset l)
    (λ _ s', t_world s' = t_world s ∧ updated (λ k, fam_step (listed l k)) s s') s.
Proof.
  intros Hnd Hok Hl.
  apply (wp_fold_loop _ _ _ _ (λ dn _ s', t_world s' = t_world s ∧
    updated (λ k, fam_step (listed dn k)) s s')).
  - split; [done|]. split_and!; [done..|]. intros k. unfold listed. simpl. rewrite lookup_empty. simpl. by destruct (_ !! k).
  - intros dn [k fam] rest b s' Heq [Hw Hu].
    destruct (Hl k fam) as [Hname Hplain]; [set_solver|].
    assert (k ∉ dn.*1) as Hk.
    { rewrite Heq, fmap_app, fmap_cons in Hnd. apply NoDup_app in Hnd as (_ & Hnd & _).
      intros Hin. apply (Hnd _ Hin). simpl. left. }
    assert (listed dn k = None) as Hnone by by apply not_elem_of_list_to_map_1.
    pose proof (updated_ok _ _ _ Hu Hok (λ _ _, fam_step_ok _ _)) as Hok'.
    assert (∀ k', listed (dn ++ [(k, fam)]) k' = if decide (k' = k) then Some fam else listed dn k') as Hlook.
    { intros k'. unfold listed in *. rewrite list_to_map_app, lookup_union. simpl. destruct (decide (k' = k)) as [->|].
      - rewrite Hnone. simplify_map_eq. done.
      - rewrite lookup_insert_ne, lookup_empty by done. by rewrite right_id_L by apply _. }
    unfold aggregate_family. simpl. wp_steps. rewrite Hname.
    pose proof Hu as (Hh & Hn & Hm). specialize (Hm k). rewrite Hnone in Hm.
    destruct (t_metrics s !! k) as [[acts]|] eqn:Hc; simpl in Hm; rewrite Hm; cbn [default from_option]; unfold id.
    + destruct (processMetric_pure fam acts s' Hplain) as (r & Hrun & _); [by apply (Hok' k _ Hm)|].
      unfold wp at 1. rewrite Hrun. wp_steps. rewrite Hm.
      split; [done|]. split_and!; [done..|]. intros k'. cbn [t_metrics set_metrics]. rewrite Hlook.
      destruct (decide (k' = k)) as [->|]; [by rewrite lookup_insert_eq, Hc|].
      rewrite lookup_insert_ne by done. apply Hu.
    + destruct (processMetric_pure fam [] s' Hplain) as (r & Hrun & _); [constructor|].
      unfold wp at 1. rewrite Hrun. wp_steps. rewrite Hm.
      split; [done|]. split_and!; [done..|]. intros k'. cbn [t_metrics set_metrics]. rewrite Hlook.
      destruct (decide (k' = k)) as [->|]; [by rewrite Hm, Hc|]. apply Hu.
  - done.
Qed.

(** ** The targets

    [reply] is what each target answers: nothing ([None]), or a text that parses
    to these families. *)
Definition answers_with (reply : string → option (gmap string MetricFamily)) (targets : list string) : Prop :=
  ∀ t (w : W), t ∈ targets →
  match reply t with
  | None => ∃ e w', grabMetricsFromTarget t w = (Some (inr e), w')
  | Some fams => ∃ raw w', grabMetricsFromTarget t w = (Some (inl raw), w') ∧ TextToMetricFamilies raw = inl fams
  end.

Lemma filterMetrics_lookup fams m k :
  filterMetrics fams m !! k = match m !! k with Some _ => fams !! k | None => None end.
Proof.
  unfold filterMetrics. apply option_eq. intros fam. rewrite map_lookup_filter_Some. simpl.
  destruct (m !! k); split; naive_solver.
Qed.

Lemma filterMetrics_dom fams f s s' :
  updated f s s' → filterMetrics fams (t_metrics s') = filterMetrics fams (t_metrics s).
Proof.
  intros (_ & _ & Hu). apply map_eq. intros k. rewrite !filterMetrics_lookup, Hu.
  by destruct (t_metrics s !! k).
Qed.

Lemma updated_trans f g s s' s'' :
  updated f s s' → updated g s' s'' → updated (λ k, g k ∘ f k) s s''.
Proof.
  intros (H1 & H2 & H3) (H4 & H5 & H6). split_and!; [congruence..|]. intros k.
  by rewrite H6, H3, option_fmap_compose.
Qed.

Context (reply : string → option (gmap string MetricFamily)).

(** The family [k] of a target, the entry [k] after a poll, and the families of
    the last target that answered. *)
Definition family_of (k t : string) : option MetricFamily := reply t ≫= lookup k.
Definition polled (targets : list string) (k : string) (c : metricsConvert) : metricsConvert :=
  foldl (λ c t, fam_step (family_of k t) c) c targets.
Definition last_families (m : gmap string metricsConvert) (fams : gmap string MetricFamily) (targets : list string) :
    gmap string MetricFamily :=
  foldl (λ f t, match reply t with Some fams => filterMetrics fams m | None => f end) fams targets.

Lemma last_families_dom f s s' fams targets :
  updated f s s' → last_families (t_metrics s') fams targets = last_families (t_metrics s) fams targets.
Proof.
  intros Hu. revert fams. unfold last_families. induction targets as [|t ts IH]; intros fams; simpl; [done|].
  rewrite IH. destruct (reply t); [|done]. by rewrite (filterMetrics_dom _ _ _ _ Hu).
Qed.

Lemma families_ok_dom f s s' fams :
  updated f s s' → families_ok (t_metrics s) fams → families_ok (t_metrics s') fams.
Proof.
  intros (_ & _ & Hu) Hok k fam Hf. rewrite Hu, fmap_is_Some. by apply Hok.
Qed.

Lemma listed_perm l (fams : gmap string MetricFamily) k :
  l ≡ₚ map_to_list fams → listed l k = fams !! k ∧ NoDup l.*1.
Proof.
  intros Hl. assert (NoDup l.*1) as Hnd by (rewrite Hl; apply NoDup_fst_map_to_list).
  split; [|done]. unfold listed. by rewrite (list_to_map_proper _ _ Hnd Hl), list_to_map_to_list.
Qed.

Lemma target_loop_spec targets fams reset s :
  answers_with reply targets → table_ok (t_metrics s) →
  (∀ t fams, t ∈ targets → reply t = Some fams → families_ok (t_metrics s) fams) →
  wp False (target_loop fams reset targets)
    (λ r s', (∃ b, r = inl (last_families (t_metrics s) fams targets, b)) ∧ updated (polled targets) s s') s.
Proof.
  revert fams reset s. induction targets as [|t ts IH]; intros fams reset s Hans Hok Hfams; simpl.
  { apply wp_ret. split; [by exists reset|]. split_and!; [done..|]. intros k. by destruct (_ !! k). }
  assert (answers_with reply ts) as Hans' by (intros ???; apply Hans; by right).
  apply wp_bind, wp_zoom. specialize (Hans t (t_world s) ltac:(left)). unfold polled, family_of. simpl.
  destruct (reply t) as [fs|] eqn:Ht; simpl.
  - destruct Hans as (raw & w' & Hgrab & Hparse). unfold wp at 1, call. rewrite Hgrab, Hparse.
    apply wp_bind, wp_gets, wp_bind, wp_zoom, wp_range. cbn [t_metrics].
    intros l w'' Hl _. set (ff := filterMetrics fs (t_metrics s)) in *.
    assert (∀ k, listed l k = ff !! k) as Hlist by (intros k; by apply listed_perm).
    assert (families_ok (t_metrics s) fs) as Hfs by (apply (Hfams t); [left|done]).
    apply wp_bind. eapply wp_mono.
    { apply aggregate_spec; [by eapply (listed_perm l ff)|done|]. cbn [t_metrics].
      intros k fam Hin. rewrite Hl in Hin. apply elem_of_map_to_list in Hin. unfold ff in Hin.
      rewrite filterMetrics_lookup in Hin. destruct (t_metrics s !! k) eqn:?; [|done]. apply Hfs; [done|eauto]. }
    intros b s1 [_ Hu]. assert (updated (λ k, fam_step (fs !! k)) s s1) as Hu1.
    { destruct Hu as (? & ? & Hu). split_and!; [done..|]. intros k. rewrite Hu, Hlist. cbn [t_metrics].
      unfold ff. rewrite filterMetrics_lookup. by destruct (t_metrics s !! k). }
    eapply wp_mono; [apply IH; [done|by eapply updated_ok; [..|intros; apply fam_step_ok]|]|].
    + intros t' fs' Hin Hr. eapply families_ok_dom; [done|]. apply (Hfams t'); [by right|done].
    + intros r s2 [[b' ->] Hu2]. split; [exists b'; do 2 f_equal; by eapply last_families_dom|].
      pose proof (updated_trans _ _ _ _ _ Hu1 Hu2) as Hu3. done.
  - destruct Hans as (e & w' & Hgrab). unfold wp at 1, call. rewrite Hgrab.
    eapply wp_mono; [apply IH; [done..|]|done]. intros t' fs' Hin. apply Hfams. by right.
Qed.

(** A poll: the table is reset, and every entry gets the families of all the
    targets in turn. *)
Lemma poll_spec targets s w1 :
  getTargetList (t_world s) = (Some targets, w1) → answers_with reply targets → table_ok (t_metrics s) →
  (∀ t fams, t ∈ targets → reply t = Some fams → families_ok (t_metrics s) fams) →
  wp False metricsListGrabAggregateConvert
    (λ r s', r.1.1 = last_families (t_metrics s) ∅ targets ∧ r.2 = None ∧
       ((1 < length targets)%nat → r.1.2 = false) ∧
       updated (λ k c, polled targets k (reset_convert c)) s s') s.
Proof.
  intros Hlist Hans Hok Hfams. unfold metricsListGrabAggregateConvert, resetMetrics.
  apply wp_bind, wp_modify, wp_bind, wp_zoom. cbn [t_world set_metrics]. unfold wp at 1, call. rewrite Hlist.
  set (s1 := mkMetSt _ _ _ w1).
  assert (updated (λ _, reset_convert) s s1) as Hu1.
  { split_and!; [done..|]. intros k. simpl. by rewrite lookup_fmap. }
  apply wp_bind. eapply wp_mono.
  { apply target_loop_spec; [done|by apply reset_ok|]. intros t fs Hin Hr.
    by eapply families_ok_dom, (Hfams t). }
  intros r s2 [[b ->] Hu2]. apply wp_ret. simpl. split_and!.
  - apply (last_families_dom _ _ _ _ _ Hu1).
  - done.
  - intros. by rewrite bool_decide_true.
  - apply (updated_trans _ _ _ _ _ Hu1 Hu2).
Qed.

(** *** Gauges and counters *)

(** The metrics of an entry that an action looks at, of all targets. *)
Definition samples (k : string) (a : metricsAction) (targets : list string) : list Metric :=
  targets ≫= λ t, match family_of k t with Some fam => matching a (mf_Metric fam) | None => [] end.

Definition polled_act (k : string) (targets : list string) (a : metricsAction) : metricsAction :=
  foldl (λ a t, match family_of k t with Some fam => family_action fam a | None => a end) a targets.

Lemma polled_actions k targets c : actions (polled targets k c) = polled_act k targets <$> actions c.
Proof.
  revert c. unfold polled, polled_act. induction targets as [|t ts IH]; intros c; simpl.
  - by rewrite list_fmap_id.
  - rewrite IH. unfold fam_step. destruct (family_of k t); simpl; [|done]. by rewrite <-list_fmap_compose.
Qed.

(** Every family [k] of a target has the type [t] and whole values. *)
Definition sums_up (t : MetricType) (k : string) (targets : list string) : Prop :=
  ∀ x fam, x ∈ targets → family_of k x = Some fam →
    mf_Type fam = t ∧ Forall (whole ∘ value t) (mf_Metric fam).

Lemma polled_act_cons k x xs a :
  polled_act k (x :: xs) a =
  polled_act k xs (match family_of k x with Some fam => family_action fam a | None => a end).
Proof. done. Qed.

Lemma samples_cons k a x xs :
  samples k a (x :: xs) =
  (match family_of k x with Some fam => matching a (mf_Metric fam) | None => [] end) ++ samples k a xs.
Proof. done. Qed.

Lemma samples_nonneg t k a targets : sums_up t k targets → 0 ≤ zsum t (samples k a targets).
Proof.
  intros Hs. induction targets as [|x xs IH]; [done|]. rewrite samples_cons, zsum_app.
  assert (0 ≤ zsum t (samples k a xs)) by (apply IH; intros y fam Hy; apply Hs; by right).
  destruct (family_of k x) as [fam|] eqn:Hf; [|simpl; lia].
  destruct (Hs x fam ltac:(left) Hf) as [_ Hw].
  pose proof (zsum_nonneg t _ (matching_whole _ a _ Hw)). lia.
Qed.

Lemma samples_set_data k d a xs : samples k (set_data d a) xs = samples k a xs.
Proof. done. Qed.

Lemma with_cur_set v d d' a : data a = Some d → lastSingleDataPoint d' = lastSingleDataPoint d →
  with_cur v (set_data d' a) = with_cur v a.
Proof. intros Hd Hl. unfold with_cur. rewrite Hd. simpl. unfold set_cur. by rewrite Hl. Qed.

Lemma polled_gauge k targets a d z :
  sums_up MetricType_GAUGE k targets → actionFunc a = metricsAdd → data a = Some d →
  curSingleDataPoint d = of_Z z → 0 ≤ z → z + zsum MetricType_GAUGE (samples k a targets) < 2 ^ 53 →
  polled_act k targets a = with_cur (of_Z (z + zsum MetricType_GAUGE (samples k a targets))) a.
Proof.
  revert a d z. induction targets as [|x xs IH]; intros a d z Hs Hadd Hd Hz Hpos Hsum.
  { unfold with_cur. rewrite Hd. simpl. rewrite Z.add_0_r, <-Hz. by destruct a, d; simpl in *; subst. }
  rewrite samples_cons, zsum_app in Hsum |- *.
  assert (sums_up MetricType_GAUGE k xs) as Hs' by (intros y fam Hy; apply Hs; by right).
  pose proof (samples_nonneg _ k a xs Hs') as Hnn. rewrite polled_act_cons.
  destruct (family_of k x) as [fam|] eqn:Hf; [|by apply (IH a d z)].
  destruct (Hs x fam ltac:(left) Hf) as [Ht Hw]. unfold family_action. rewrite Ht.
  pose proof (zsum_nonneg _ _ (matching_whole _ a _ Hw)) as Hnn'.
  rewrite (feeds_add _ a d z) by (done || lia). set (z' := z + zsum _ (matching a _)) in *.
  unfold with_cur at 1. rewrite Hd.
  rewrite (IH _ (set_cur (of_Z z') d) z'); rewrite ?samples_set_data; try done; [|lia..].
  rewrite (with_cur_set _ d) by done. do 2 f_equal. lia.
Qed.

(** C34: a gauge is the total over all pods: after a poll in which the targets answer
    anything, in whatever order the families are visited, the current value of
    an adding action is exactly the sum of the samples it matches in the answers
    (those of targets that cannot be reached are left out), as long as the
    samples are whole and their sum is below 2^53. *)
Theorem gauges_are_totals targets k c s w1 :
  getTargetList (t_world s) = (Some targets, w1) → answers_with reply targets → table_ok (t_metrics s) →
  (∀ t fams, t ∈ targets → reply t = Some fams → families_ok (t_metrics s) fams) →
  t_metrics s !! k = Some c → Forall (λ a, actionFunc a = metricsAdd) (actions c) →
  sums_up MetricType_GAUGE k targets →
  (∀ a, a ∈ actions c → zsum MetricType_GAUGE (samples k a targets) < 2 ^ 53) →
  wp False metricsListGrabAggregateConvert
    (λ r s', r.2 = None ∧
       actions <$> t_metrics s' !! k =
       Some ((λ a, with_cur (of_Z (zsum MetricType_GAUGE (samples k a targets))) (reset_action a)) <$> actions c)) s.
Proof.
  intros Hl Ha Hok Hf Hc Hadd Hs Hsum. eapply wp_mono; [by eapply poll_spec|].
  intros r s' (_ & Herr & _ & _ & _ & Hu). split; [done|]. rewrite Hu, Hc. simpl. f_equal.
  rewrite polled_actions. simpl. rewrite <-list_fmap_compose. apply list_fmap_ext. intros i a Hi. simpl.
  apply list_elem_of_lookup_2 in Hi.
  eapply Forall_forall in Hadd; [|done]. assert (has_data a) as [d Hd] by (by eapply Forall_forall; [by eapply Hok|]).
  change (samples k a targets) with (samples k (reset_action a) targets).
  rewrite (polled_gauge k targets (reset_action a) (set_cur fzero d) 0); simpl; rewrite ?Hd; try done.
  by apply (Hsum a Hi).
Qed.

(** C35: with one target a counter is published as its increase: after a poll the
    last value of an adding action is the total of the counter, and its current
    value the total less the total of the poll before, or the whole total when
    the counter has become smaller because the pod was restarted. *)
Theorem counters_are_increments target fam k c s w1 :
  getTargetList (t_world s) = (Some [target], w1) → answers_with reply [target] → table_ok (t_metrics s) →
  (∀ fams, reply target = Some fams → families_ok (t_metrics s) fams) →
  t_metrics s !! k = Some c → Forall (λ a, actionFunc a = metricsAdd) (actions c) →
  family_of k target = Some fam → mf_Type fam = MetricType_COUNTER →
  Forall (whole ∘ value MetricType_COUNTER) (mf_Metric fam) →
  (∀ a, a ∈ actions c → zsum MetricType_COUNTER (matching a (mf_Metric fam)) < 2 ^ 53 ∧
     ∃ d, data a = Some d ∧ whole (lastSingleDataPoint d)) →
  wp False metricsListGrabAggregateConvert
    (λ r s', r.2 = None ∧ ∃ acts, actions <$> t_metrics s' !! k = Some acts ∧
       ∀ i a, actions c !! i = Some a → ∃ a' d d',
         acts !! i = Some a' ∧ data a = Some d ∧ data a' = Some d' ∧
         let total := zsum MetricType_COUNTER (matching a (mf_Metric fam)) in
         let before := to_int64 (lastSingleDataPoint d) in
         lastSingleDataPoint d' = of_Z total ∧
         curSingleDataPoint d' = of_Z (if decide (total < before) then total else total - before)) s.
Proof.
  intros Hl Ha Hok Hf Hc Hadd Hfam Ht Hw Hacts.
  eapply wp_mono; [eapply poll_spec; try done|].
  { intros t fs Hin. apply list_elem_of_singleton in Hin as ->. apply Hf. }
  intros r s' (_ & Herr & _ & _ & _ & Hu). split; [done|]. rewrite Hu, Hc. cbn [fmap option_fmap option_map].
  exists (polled_act k [target] <$> actions (reset_convert c)). split; [f_equal; apply polled_actions|].
  intros i a Hi.
  pose proof (list_elem_of_lookup_2 _ _ _ Hi) as Hin. destruct (Hacts a Hin) as [Hsum (d & Hd & l & Hlr & Hlast)].
  eapply Forall_forall in Hadd; [|done].
  cbn [reset_convert actions]. rewrite !list_lookup_fmap, Hi. simpl. unfold polled_act. simpl. rewrite Hfam.
  unfold family_action. rewrite Ht.
  change (matching a) with (matching (reset_action a)) in *.
  pose proof (zsum_nonneg _ _ (matching_whole _ (reset_action a) _ Hw)) as Hnn.
  rewrite (feeds_add _ (reset_action a) (set_cur fzero d) 0); simpl; rewrite ?Hd; try done.
  unfold with_cur. simpl. rewrite Hd. simpl. unfold post_act. simpl. do 3 eexists.
  split; [done|]. split; [done|]. split; [done|]. simpl. split; [done|].
  rewrite Hlast, to_int64_exact, flt_exact by lia. case_bool_decide; [by rewrite decide_True|].
  rewrite decide_False by done. apply fsub_exact; lia.
Qed.

End poll.

(** ** Publishing *)

(** [published]: the data points a publisher has been given so far, in a world
    where only [cw_Publish] adds to them. *)
Class PublishOk (W : Type) `{!World W, !MetricsTarget W, !PublisherAPI W} (published : W → list MetricDatum) : Prop := {
  publish_adds : ∀ d w, ∃ w', cw_Publish d w = (Some tt, w') ∧ published w' = published w ++ [d];
  range_publishes : ∀ A (l : list A) w, published (w_range l w).2 = published w;
  grab_publishes : ∀ t w, published (grabMetricsFromTarget t w).2 = published w;
  list_publishes : ∀ w, published (getTargetList w).2 = published w;
}.

(** What is published for a family, given the table. *)
Definition produced (m : gmap string metricsConvert) (x : string * MetricFamily) : list MetricDatum :=
  match mf_Type x.2 with
  | MetricType_UNTYPED | MetricType_HISTOGRAM => []
  | _ => (λ a, value_datum a (from_option curSingleDataPoint fzero (data a))) <$>
           actions (default (mkMetricsConvert []) (m !! x.1))
  end.

Section publish.
Context {W : Type} `{!World W} `{!WorldOk W} `{!MetricsTarget W, !TextParser, !PublisherAPI W}.
Context (published : W → list MetricDatum) `{!PublishOk W published}.
Implicit Types s : MetSt W.

Definition same_published : relation (MetSt W) := λ s s', published (t_world s') = published (t_world s).

#[local] Instance same_published_preorder : PreOrder same_published.
Proof. split; [by intros s|]. intros s1 s2 s3. unfold same_published. congruence. Qed.

Lemma keeps_tworld {A} (m : M W A) : (∀ w, published (m w).2 = published w) → keeps same_published (tworld m).
Proof. intros Hm s. unfold tworld, zoom, same_published. specialize (Hm (t_world s)). by destruct (m (t_world s)). Qed.

Lemma keeps_range {K A} `{Countable K} (m : gmap K A) : keeps same_published (tworld (range m)).
Proof.
  apply keeps_tworld. intros w. unfold range, range_list. pose proof (range_publishes _ (map_to_list m) w) as Hr.
  by destruct (w_range _ w).
Qed.

Lemma keeps_call {A} (f : ext W A) : (∀ w, published (f w).2 = published w) → keeps same_published (tworld (call f)).
Proof. intros Hf. apply keeps_tworld. intros w. unfold call. specialize (Hf w). by destruct (f w) as [[]]. Qed.

Lemma keeps_modify (f : MetSt W → MetSt W) : (∀ s, t_world (f s) = t_world s) → keeps same_published (modify f).
Proof. intros Hf s. unfold same_published. simpl. by rewrite Hf. Qed.

#[local] Hint Resolve keeps_range keeps_modify : keeps.

Ltac keeps_published := intros; repeat (keeps_steps; try (apply keeps_modify; done)).

Lemma keeps_deref {A B} (p : option A) (f : A → M (MetSt W) B) :
  (∀ a, keeps same_published (f a)) → keeps same_published (deref p f).
Proof. intros Hf. destruct p; simpl; [apply Hf|apply keeps_panic; apply _]. Qed.

Lemma keeps_load l : keeps same_published (load l).
Proof. unfold load. keeps_published. Qed.
#[local] Hint Resolve keeps_load : keeps.

Lemma keeps_cells l v b : keeps same_published (count l) ∧ keeps same_published (set_count l v) ∧ keeps same_published (alloc b).
Proof. unfold count, set_count, alloc. split_and!; keeps_published. Qed.

Lemma keeps_index {A} (l : list A) i : keeps same_published (index l i).
Proof. unfold index. keeps_published. Qed.

#[local] Hint Extern 1 (keeps _ (count _)) => apply (keeps_cells _ fzero (mkBucketPoint fzero fzero)) : keeps.
#[local] Hint Extern 1 (keeps _ (set_count _ _)) => apply (keeps_cells _ _ (mkBucketPoint fzero fzero)) : keeps.
#[local] Hint Extern 1 (keeps _ (alloc _)) => apply (keeps_cells 0 fzero) : keeps.
#[local] Hint Resolve keeps_index : keeps.

Lemma keeps_process_action t m a : keeps same_published (process_action t m a).
Proof.
  unfold process_action, processGauge, processCounter, processPercentile, apply_data, processHistogram,
    process_bucket, find_bucket.
  destruct (matchFunc a m); [|keeps_published]. destruct t; try (apply keeps_deref; intros); keeps_published.
  apply keeps_deref. keeps_published.
Qed.

Lemma keeps_map_loop {A B} (f : A → M (MetSt W) B) l :
  (∀ x, keeps same_published (f x)) → keeps same_published (map_loop f l).
Proof. intros Hf. induction l; simpl; keeps_published. Qed.

Lemma keeps_counter_loop st acts : keeps same_published (counter_loop st acts).
Proof.
  revert st. induction acts as [|a acts IH]; intros st; simpl; [keeps_published|].
  apply keeps_deref. intros d. destruct (post_counter st d). keeps_published.
Qed.

Lemma keeps_post_histogram flags a : keeps same_published (post_histogram flags a).
Proof. unfold post_histogram, post_bucket, delta_last. apply keeps_deref. keeps_published. Qed.

Lemma keeps_histogram_loop flags acts : keeps same_published (histogram_loop flags acts).
Proof.
  revert flags. induction acts as [|a acts IH]; intros flags; simpl; [keeps_published|].
  apply keeps_bind; [apply _|apply keeps_post_histogram|]. keeps_published.
Qed.

#[local] Hint Resolve keeps_process_action keeps_map_loop keeps_counter_loop keeps_histogram_loop : keeps.

Lemma keeps_processMetric fam c : keeps same_published (processMetric fam c).
Proof. unfold processMetric, postProcessingCounter, postProcessingHistogram. keeps_published. Qed.
#[local] Hint Resolve keeps_processMetric : keeps.

Lemma keeps_target_loop fams reset targets : keeps same_published (target_loop fams reset targets).
Proof.
  revert fams reset. induction targets as [|t ts IH]; intros fams reset; simpl; [keeps_published|].
  apply keeps_bind; [apply _|apply keeps_call; apply grab_publishes|]. unfold aggregate_family. keeps_published.
Qed.

Lemma keeps_poll : keeps same_published metricsListGrabAggregateConvert.
Proof.
  unfold metricsListGrabAggregateConvert, resetMetrics.
  apply keeps_bind; [apply _|by apply keeps_modify|]. intros _.
  apply keeps_bind; [apply _|apply keeps_call; apply list_publishes|]. intros l.
  apply keeps_bind; [apply _|apply keeps_target_loop|]. keeps_published.
Qed.

Context (Hsubmit : submitCloudWatch (W:=W) = true).

(** [s'] is [s] with these data points published. *)
Definition published_more (ds : list MetricDatum) s s' : Prop :=
  t_metrics s' = t_metrics s ∧ published (t_world s') = published (t_world s) ++ ds.

Lemma produce_action_spec t a s :
  t ≠ MetricType_HISTOGRAM → has_data a →
  wp False (produce_action t a)
    (λ _ s', published_more (match t with
       | MetricType_UNTYPED | MetricType_HISTOGRAM => []
       | _ => [value_datum a (from_option curSingleDataPoint fzero (data a))]
       end) s s') s.
Proof.
  intros Ht [d Hd]. unfold produce_action, deref. rewrite Hd, Hsubmit.
  assert (∀ x, wp False (publish x) (λ _ s', published_more [x] s s') s) as Hpub.
  { intros x. unfold publish. apply wp_zoom. destruct (publish_adds x (t_world s)) as (w' & Hw & Hp).
    unfold wp, call. rewrite Hw. by split. }
  destruct t; try done; try apply Hpub. apply wp_ret. split; [done|]. by rewrite app_nil_r.
Qed.

Lemma produce_actions_spec t acts s :
  t ≠ MetricType_HISTOGRAM → Forall has_data acts →
  wp False (for_loop (produce_action t) acts)
    (λ _ s', published_more (match t with
       | MetricType_UNTYPED | MetricType_HISTOGRAM => []
       | _ => (λ a, value_datum a (from_option curSingleDataPoint fzero (data a))) <$> acts
       end) s s') s.
Proof.
  intros Ht Hacts. revert s. induction Hacts as [|a acts Ha _ IH]; intros s; cbn [for_loop].
  - apply wp_ret. split; [done|]. by destruct t; rewrite app_nil_r.
  - apply wp_bind. eapply wp_mono; [by apply produce_action_spec|]. intros [] s1 [Hm1 Hp1].
    eapply wp_mono; [apply IH|]. intros [] s2 [Hm2 Hp2]. split; [congruence|]. rewrite Hp2, Hp1, <-app_assoc.
    by destruct t.
Qed.

Lemma produce_spec (fams : gmap string MetricFamily) s :
  table_ok (t_metrics s) → (∀ k fam, fams !! k = Some fam → plain fam) →
  wp False (produceCloudWatchMetrics fams)
    (λ _ s', t_metrics s' = t_metrics s ∧
       published (t_world s') ≡ₚ published (t_world s) ++ (map_to_list fams ≫= produced (t_metrics s))) s.
Proof.
  intros Hok Hp. unfold produceCloudWatchMetrics. apply wp_bind.
  eapply wp_mono; [apply (wp_keeps _ same_published _ (λ l s', l ≡ₚ map_to_list fams ∧ t_metrics s' = t_metrics s));
    [apply keeps_range|apply wp_zoom, wp_range; by intros]|].
  intros l s1 [[Hl Hm] Hpub]. unfold same_published in Hpub.
  eapply (wp_for_loop _ _ _ (λ dn s', published_more (dn ≫= produced (t_metrics s)) s s')).
  - split; [done|]. simpl. by rewrite app_nil_r.
  - intros dn [k fam] rest s' Heq [Hm' Hp']. apply wp_bind, wp_gets. rewrite Hm'. cbn [fst snd].
    assert (plain fam) as Hplain.
    { apply (Hp k). apply elem_of_map_to_list. rewrite <-Hl, Heq. set_solver. }
    eapply wp_mono; [apply produce_actions_spec; [done|]|].
    { destruct (t_metrics s !! k) eqn:Hk; [by eapply Hok|constructor]. }
    intros [] s2 [Hm2 Hp2]. split; [congruence|]. rewrite Hp2, Hp', bind_app, <-app_assoc. do 2 f_equal.
    simpl. rewrite app_nil_r. unfold produced. simpl. by destruct (mf_Type fam).
  - intros s' [Hm' Hp']. split; [done|]. rewrite Hp'. by rewrite Hl.
Qed.

Lemma polled_ok reply targets k c :
  Forall has_data (actions c) → Forall has_data (actions (polled reply targets k (reset_convert c))).
Proof.
  intros Hc. rewrite polled_actions. simpl. apply Forall_fmap, Forall_fmap.
  eapply Forall_impl; [exact Hc|]. intros a [d Hd]. simpl.
  assert (∀ a, has_data a → has_data (polled_act reply k targets a)) as Hpa.
  { clear. unfold polled_act. induction targets as [|t ts IH]; intros a Ha; simpl; [done|]. apply IH.
    destruct (family_of reply k t); eauto with metrics. }
  apply Hpa. unfold has_data. simpl. rewrite Hd. simpl. eauto.
Qed.

Lemma last_families_plain reply targets (m : gmap string metricsConvert) f0 k fam :
  (∀ t fams, t ∈ targets → reply t = Some fams → families_ok m fams) →
  (∀ k fam, f0 !! k = Some fam → plain fam) →
  last_families reply m f0 targets !! k = Some fam → plain fam.
Proof.
  unfold last_families. revert f0. induction targets as [|t ts IH]; intros f0 Hf H0; simpl; [apply H0|].
  apply IH; [intros t' fs Hin; apply Hf; by right|]. intros k' fam' Hk.
  destruct (reply t) as [fs|] eqn:Ht; [|by eapply H0].
  rewrite filterMetrics_lookup in Hk. destruct (m !! k') eqn:Hs; [|done].
  destruct (Hf t fs ltac:(left) Ht k' fam' Hk) as [_ Hpl]; [by rewrite Hs|done].
Qed.

(** [Handler] publishes what it aggregated: after a run in which the targets
    answer anything, for every family of the last target that answered the
    publisher has been given exactly one data point per action, with the value
    that the poll left in the table, and nothing else. *)
Theorem handler_publishes reply targets s w1 :
  getTargetList (t_world s) = (Some targets, w1) → answers_with reply targets → table_ok (t_metrics s) →
  (∀ t fams, t ∈ targets → reply t = Some fams → families_ok (t_metrics s) fams) →
  wp False Handler
    (λ _ s', (∀ k, t_metrics s' !! k = (λ c, polled reply targets k (reset_convert c)) <$> t_metrics s !! k) ∧
       published (t_world s') ≡ₚ
       published (t_world s) ++ (map_to_list (last_families reply (t_metrics s) ∅ targets) ≫= produced (t_metrics s'))) s.
Proof.
  intros Hl Ha Hok Hf. unfold Handler. apply wp_bind.
  eapply wp_mono; [apply wp_keeps; [apply keeps_poll|by eapply poll_spec]|].
  intros [[fams b] err] s1 [(Hfams & _ & _ & Hu) Hpub]. simpl in Hfams. unfold same_published in Hpub.
  eapply wp_mono; [apply produce_spec|].
  - eapply updated_ok; [done..|]. intros k c. apply polled_ok.
  - intros k fam. subst fams. apply last_families_plain; [done|]. intros ??. by rewrite lookup_empty.
  - intros [] s2 [Hm Hp]. rewrite Hm. split; [apply Hu|]. by rewrite Hp, Hpub, Hfams.
Qed.

End publish.

(** ** Witnesses: pods named after the text they serve, one of them gone *)

Record Helper := mkHelper { h_pods : list string; h_published : list MetricDatum }.

#[global] Instance Helper_World : World Helper := {
  w_now w := (0, w);
  w_sleep _ w := w;
  w_range A l w := (reverse l, w);
}.
#[global] Instance Helper_ok : WorldOk Helper.
Proof. split; intros; simpl; try done. by rewrite reverse_Permutation. Qed.

#[local] Instance Helper_target : MetricsTarget Helper := {
  grabMetricsFromTarget t w := (Some (if bool_decide (t = "gone"%string) then inr (EStr "no answer") else inl t), w);
  getTargetList w := (Some (h_pods w), w);
  submitCloudWatch := true;
}.
#[local] Instance Helper_publisher : PublisherAPI Helper := {
  cw_Publish d w := (Some tt, mkHelper (h_pods w) (h_published w ++ [d]));
}.
#[local] Instance Helper_publish_ok : PublishOk Helper h_published.
Proof. split; [|done..]. intros d w. by eexists. Qed.

Definition gauge_of (z : Z) : Metric := mkMetric [] (Some (of_Z z)) None [] [].
Definition counter_of (z : Z) : Metric := mkMetric [] None (Some (of_Z z)) [] [].

(** A node with so many addresses, assigned addresses per label, and requests. *)
Definition node_families (total : Z) (inprogress : list Z) (requests : Z) : gmap string MetricFamily :=
  list_to_map [
    ("awscni_total_ip_addresses",
      mkMetricFamily "awscni_total_ip_addresses" MetricType_GAUGE [gauge_of total]);
    ("awscni_ipamd_action_inprogress",
      mkMetricFamily "awscni_ipamd_action_inprogress" MetricType_GAUGE (gauge_of <$> inprogress));
    ("awscni_add_ip_req_count",
      mkMetricFamily "awscni_add_ip_req_count" MetricType_COUNTER [counter_of requests]);
    ("go_goroutines", mkMetricFamily "go_goroutines" MetricType_GAUGE [gauge_of 8])]%string.

Definition replies (t : string) : option (gmap string MetricFamily) :=
  if bool_decide (t = "gone"%string) then None
  else if bool_decide (t = "later"%string) then Some (node_families 14 [] 12)
  else if bool_decide (t = "b"%string) then Some (node_families 29 [1] 5)
  else Some (node_families 14 [1; 2] 5).

#[local] Instance Helper_parser : TextParser := {
  TextToMetricFamilies raw := match replies raw with Some fams => inl fams | None => inr (EStr "parse error") end;
}.

Definition helper (pods : list string) (m : gmap string metricsConvert) : MetSt Helper :=
  mkMetSt m ∅ 0 (mkHelper pods []).
Definition helper_start (pods : list string) : MetSt Helper := helper pods InterestingCNIMetrics.

(** The data points published so far, the values as whole numbers. *)
Definition shown (s : MetSt Helper) : list (string * option Z) :=
  (λ d, (MetricName d, to_int64 <$> Value d)) <$> h_published (t_world s).

Lemma helper_answers targets : answers_with (W:=Helper) replies targets.
Proof.
  intros t w _. simpl. unfold replies. case_bool_decide as Hgone.
  - by do 2 eexists.
  - destruct (bool_decide (t = "later"%string)) eqn:H1; [|destruct (bool_decide (t = "b"%string)) eqn:H2];
      do 2 eexists; (split; [done|]); simpl; unfold replies; by rewrite bool_decide_false, ?H1, ?H2.
Qed.

(** Every entry of a table, as a test. *)
Definition table_okb (m : gmap string metricsConvert) : bool :=
  forallb (λ x, forallb (λ a, bool_decide (is_Some (data a))) (actions x.2)) (map_to_list m).
Definition families_okb (fams : gmap string MetricFamily) : bool :=
  forallb (λ x, bool_decide (mf_Name x.2 = x.1) &&
    match mf_Type x.2 with MetricType_HISTOGRAM => false | _ => true end) (map_to_list fams).

Lemma table_okb_spec m : table_okb m = true → table_ok m.
Proof.
  unfold table_okb. rewrite forallb_forall. intros Hm k c Hk. apply Forall_forall. intros a Ha.
  specialize (Hm (k, c)). simpl in Hm. rewrite forallb_forall in Hm.
  eapply bool_decide_eq_true_1, Hm; [|by apply list_elem_of_In]. by apply list_elem_of_In, elem_of_map_to_list.
Qed.

Lemma families_okb_spec m fams : families_okb fams = true → families_ok m fams.
Proof.
  unfold families_okb. rewrite forallb_forall. intros Hf k fam Hk _. specialize (Hf (k, fam)). simpl in Hf.
  rewrite andb_true_iff, bool_decide_eq_true in Hf. destruct Hf as [Hn Ht]; [by apply list_elem_of_In, elem_of_map_to_list|].
  split; [done|]. unfold plain. by destruct (mf_Type fam).
Qed.

Lemma replies_ok m t fams : replies t = Some fams → families_ok m fams.
Proof.
  unfold replies. intros H. apply families_okb_spec. repeat case_bool_decide; simplify_eq; vm_compute; reflexivity.
Qed.

Lemma whole_of z : bool_decide (0 ≤ z < 2 ^ 53) = true → whole (of_Z z).
Proof. intros H%bool_decide_eq_true_1. by exists z. Qed.

Lemma gauges_are_totals_witness :
  wp False metricsListGrabAggregateConvert
    (λ r s', r.2 = None ∧
       (λ a, to_int64 (from_option curSingleDataPoint fzero (data a))) <$>
         from_option actions [] (t_metrics s' !! "awscni_total_ip_addresses"%string) = [43])
    (helper_start ["a"; "gone"; "b"]%string).
Proof.
  eapply wp_mono;
    [eapply (gauges_are_totals replies ["a"; "gone"; "b"]%string "awscni_total_ip_addresses"
               (cni_metric "totalIPAddresses" metricsAdd false))|].
  - reflexivity.
  - apply helper_answers.
  - apply table_okb_spec. vm_compute. reflexivity.
  - intros t fams _. apply replies_ok.
  - vm_compute. reflexivity.
  - by repeat constructor.
  - intros t fam Hin Hf. rewrite !elem_of_cons in Hin. destruct Hin as [-> | [-> | [-> | []%elem_of_nil]]];
      vm_compute in Hf; simplify_eq; (split; [done|]); constructor; try constructor;
      [apply (whole_of 14)|apply (whole_of 29)]; reflexivity.
  - intros a ->%list_elem_of_singleton. vm_compute. reflexivity.
  - intros r s' [Hr Ht]. split; [done|]. destruct (t_metrics s' !! _) as [c|]; [|done]. simpl in *.
    apply (inj Some) in Ht. rewrite Ht. vm_compute. reflexivity.
Defined.

(** The entry of the counter after a poll that saw 5 requests. *)
Definition counted_five : metricsConvert :=
  mkMetricsConvert [mkMetricsAction "addReqCount" matchAny metricsAdd
    (Some (mkDataPoints (of_Z 5) (of_Z 5))) None true].

Lemma counters_are_increments_witness :
  wp False metricsListGrabAggregateConvert
    (λ r s', r.2 = None ∧ ∃ acts, actions <$> t_metrics s' !! "awscni_add_ip_req_count"%string = Some acts ∧
       ∃ a' d', acts !! 0%nat = Some a' ∧ data a' = Some d' ∧ curSingleDataPoint d' = of_Z 7)
    (helper ["later"]%string (<["awscni_add_ip_req_count"%string := counted_five]> InterestingCNIMetrics)).
Proof.
  eapply wp_mono;
    [eapply (counters_are_increments replies "later"
               (mkMetricFamily "awscni_add_ip_req_count" MetricType_COUNTER [counter_of 12])
               "awscni_add_ip_req_count" counted_five)|].
  - reflexivity.
  - apply helper_answers.
  - apply table_okb_spec. vm_compute. reflexivity.
  - intros fams. apply replies_ok.
  - apply lookup_insert_eq.
  - by repeat constructor.
  - vm_compute. reflexivity.
  - reflexivity.
  - constructor; [|constructor]. apply (whole_of 12). reflexivity.
  - intros a ->%list_elem_of_singleton. split; [vm_compute; reflexivity|]. eexists. split; [reflexivity|].
    apply (whole_of 5). reflexivity.
  - intros r s' [Hr (acts & Hacts & Hall)]. split; [done|]. exists acts. split; [done|].
    destruct (Hall 0%nat _ eq_refl) as (a' & d & d' & Ha' & Hd & Hd' & _ & Hcur). exists a', d'.
    split; [done|]. split; [done|]. rewrite Hcur. simpl in Hd. apply (inj Some) in Hd as <-. vm_compute. reflexivity.
Defined.

Lemma handler_publishes_witness :
  wp False Handler
    (λ _ s', h_published (t_world s') ≡ₚ
       map_to_list (last_families replies InterestingCNIMetrics ∅ ["a"; "b"]%string) ≫= produced (t_metrics s'))
    (helper_start ["a"; "b"]%string).
Proof.
  eapply wp_mono;
    [eapply (handler_publishes h_published) with (reply := replies) (targets := ["a"; "b"]%string)|].
  - reflexivity.
  - reflexivity.
  - apply helper_answers.
  - apply table_okb_spec. vm_compute. reflexivity.
  - intros t fams _. apply replies_ok.
  - intros [] s' [_ Hp]. exact Hp.
Defined.

(** ** Two pods

    The delta of a counter is taken after every pod, not after all of them.  With
    two pods whose counters stand still at 5 and 5, every poll publishes 5. *)
Theorem counters_of_two_pods :
  let s1 := (Handler (helper_start ["a"; "b"]%string)).2 in
  let s2 := (Handler s1).2 in
  filter (λ x, x.1 = "addReqCount"%string) (shown s1) = [("addReqCount"%string, Some 5)] ∧
  filter (λ x, x.1 = "addReqCount"%string) (shown s2) =
    [("addReqCount"%string, Some 5); ("addReqCount"%string, Some 5)] ∧
  filter (λ x, x.1 = "totalIPAddresses"%string) (shown s1) = [("totalIPAddresses"%string, Some 43)].
Proof. vm_compute. split_and!; reflexivity. Qed.

(** ** A histogram

    Two polls of one pod: the cumulative counts 2, 5, 9 and then 3, 7, 12 of the
    buckets up to 1, 2 and 4 become the increments 1, 1 and 1.  The first poll
    leaves [lastBucket] and [curBucket] the same pointers. *)
Definition histogram_of (counts : list Z) : MetricFamily :=
  mkMetricFamily "h" MetricType_HISTOGRAM
    [mkMetric [] None None [] (zip_with (λ b c, (of_Z b, c)) [1; 2; 4] counts)].

Definition histogram_action : metricsAction :=
  mkMetricsAction "h" matchAny metricsAdd None (Some (mkBucketPoints None [])) false.

Definition counts_of (s : MetSt Helper) (bs : option (list loc)) : list Z :=
  (λ l, from_option (to_int64 ∘ CumulativeCount) (-1) (t_heap s !! l)) <$> default [] bs.

Definition two_polls (first second : list Z) : M (MetSt Helper) (bool * metricsConvert) :=
  '(_, c) ← processMetric (histogram_of first) (mkMetricsConvert [histogram_action]);
  processMetric (histogram_of second) (reset_convert c).

Example histogram_two_polls :
  match two_polls [2; 5; 9] [3; 7; 12] (helper_start []) with
  | (Ret (reset, c), s) =>
      reset = false ∧
      (λ a, counts_of s (curBucket <$> bucket a)) <$> actions c = [[1; 1; 1]] ∧
      (λ a, counts_of s (bucket a ≫= lastBucket)) <$> actions c = [[3; 4; 5]]
  | _ => False
  end.
Proof. vm_compute. split_and!; reflexivity. Qed.

(** A pod that shows fewer buckets first makes the next poll panic. *)
Example histogram_new_bucket_panics :
  (two_polls [2; 5] [3; 7; 12] (helper_start [])).1 = Panic "index out of range".
Proof. vm_compute. reflexivity. Qed.
