(* ===== verification/MetricsHelper.v ===== *)
(** * The metrics helper's entry point: cni-metrics-helper/cni-metrics-helper.go

    Whether metrics go to CloudWatch, the start-up with its exit codes, and the loop
    that polls the CNI pods every 30 seconds.  The helper keeps the controller of pod
    discovery and the publisher, which stays nil without CloudWatch; both move on
    while the helper waits for its next tick ([Background]).  The flags are parsed by
    a library ([flag] is the value of --cloudwatch). *)
From S2P Require Import Prelude GoStd Float64 Netlink Interfaces K8sDiscovery Publisher Metrics.

Open Scope Z_scope.

Definition pullInterval : Z := 30 * Second.

(** [options.submitCW]. *)
Definition submitCW `{!Environ} (flag : bool) : bool :=
  match LookupEnv "USE_CLOUDWATCH" with
  | None => flag
  | Some v =>
      let s := if bool_decide (v = "yes"%string) || bool_decide (v = "true"%string) then true else flag in
      if bool_decide (v = "no"%string) || bool_decide (v = "false"%string) then false else s
  end.

Record HelpSt (W : Type) := mkHelpSt {
  hs_ctrl : Controller;
  hs_cw : option cloudWatchPublisher;
  hs_world : W;
}.
Arguments mkHelpSt {W}.
Arguments hs_ctrl {W}.
Arguments hs_cw {W}.
Arguments hs_world {W}.

Inductive helper_goroutine : Type :=
| Helper_DiscoverK8SPods
| Helper_cw_Start.

Class HelperOS (W : Type) : Type := {
  helper_CreateKubeClient : ext W (option error);
  helper_go : helper_goroutine → ext W unit;
}.

(** What pod discovery and the publisher's monitor do while the helper sleeps. *)
Class Background (W : Type) : Type := {
  bg_helper : HelpSt W → HelpSt W;
}.

Section helper.
Context {W : Type} `{!World W, !PodProxy W, !TextParser, !Growth, !HelperOS W, !Metadata W, !Tags W, !Background W}.
Context {env : Environ}.

Definition set_hs_world (w : W) (s : HelpSt W) : HelpSt W := mkHelpSt (hs_ctrl s) (hs_cw s) w.

#[global] Instance HelpSt_World : World (HelpSt W) := {
  w_now s := let '(t, w) := w_now (hs_world s) in (t, set_hs_world w s);
  w_sleep d s := bg_helper (set_hs_world (w_sleep d (hs_world s)) s);
  w_range A l s := let '(l', w) := w_range l (hs_world s) in (l', set_hs_world w s);
}.

(** [metrics.CNIMetricsNew(kubeClient, cw, discoverController, submitCW)]. *)
Definition helper_target (submit : bool) : MetricsTarget (HelpSt W) :=
  let T := CNIMetricsNew submit in {|
  grabMetricsFromTarget t s :=
    let '(r, k) := grabMetricsFromTarget (MetricsTarget:=T) t (mkK8sSt (hs_ctrl s) (hs_world s)) in
    (r, mkHelpSt (k_ctrl k) (hs_cw s) (k_world k));
  getTargetList s :=
    let '(r, k) := getTargetList (MetricsTarget:=T) (mkK8sSt (hs_ctrl s) (hs_world s)) in
    (r, mkHelpSt (k_ctrl k) (hs_cw s) (k_world k));
  submitCloudWatch := submit;
|}.

(** [cw.Publish]: without CloudWatch [cw] is nil. *)
#[global] Instance HelpSt_Publisher : PublisherAPI (HelpSt W) := {
  cw_Publish d s :=
    match hs_cw s with
    | None => (None, s)
    | Some p =>
        let '(_, q) := Publish [d] (mkPubSt p (hs_world s)) in
        (Some tt, mkHelpSt (hs_ctrl s) (Some (p_pub q)) (p_world q))
    end;
}.

Abbreviation TM := (M (MetSt (HelpSt W))).

Definition on_world {A} (m : M W A) : TM A := tworld (zoom hs_world set_hs_world m).

(** The loop over [time.Tick], for the first ticks. *)
Fixpoint metric_loop {P : PublisherAPI (HelpSt W)} (submit : bool) (ticks : nat) : TM unit :=
  match ticks with
  | O => mret tt
  | S ticks =>
      tworld (time_Sleep pullInterval) ;;
      (let _ := helper_target submit in Handler) ;;
      metric_loop submit ticks
  end.

(** The exit code, or [None] while the helper runs. *)
Definition helper_main (flag : bool) (ticks : nat) : TM (option Z) :=
  let submit := submitCW flag in
  err ← on_world (call helper_CreateKubeClient);
  match err with
  | Some _ => mret (Some 1)
  | None =>
      modify (λ s, mkMetSt (t_metrics s) (t_heap s) (t_next s) (mkHelpSt NewController None (hs_world (t_world s)))) ;;
      on_world (call (helper_go Helper_DiscoverK8SPods)) ;;
      if submit then
        cw ← on_world New;
        match cw with
        | inr _ => mret (Some 1)
        | inl p =>
            tworld (modify (λ s, mkHelpSt (hs_ctrl s) (Some p) (hs_world s))) ;;
            on_world (call (helper_go Helper_cw_Start)) ;;
            metric_loop true ticks ;; mret None
        end
      else metric_loop false ticks ;; mret None
  end.

(** ** The nil publisher *)

Lemma handler_off (P P' : PublisherAPI (HelpSt W)) (s : MetSt (HelpSt W)) :
  (let _ := helper_target false in Handler (PublisherAPI0:=P)) s =
  (let _ := helper_target false in Handler (PublisherAPI0:=P')) s.
Proof. reflexivity. Qed.

(** Without CloudWatch the nil publisher is never called: polling is the same whatever
    a publisher would do. *)
Theorem off_never_publishes (P P' : PublisherAPI (HelpSt W)) ticks (s : MetSt (HelpSt W)) :
  metric_loop (P:=P) false ticks s = metric_loop (P:=P') false ticks s.
Proof.
  revert s. induction ticks as [|ticks IH]; intros s; [done|]. cbn [metric_loop]. unfold mbind, M_bind.
  destruct (tworld _ s) as [[[]| |] s1]; [|done..].
  pose proof (handler_off P P' s1) as E. cbn zeta in E |- *. rewrite E. clear E.
  destruct (Handler s1) as [[[]| |] s2]; [apply IH|done..].
Qed.

(** The value of USE_CLOUDWATCH wins over the flag when it is one of the four words. *)
Lemma submitCW_spec flag :
  submitCW flag =
    match LookupEnv "USE_CLOUDWATCH" with
    | Some v => if decide (v ∈ ["no"; "false"]%string) then false
                else if decide (v ∈ ["yes"; "true"]%string) then true else flag
    | None => flag
    end.
Proof.
  unfold submitCW. destruct (LookupEnv _) as [v|]; [|done]. repeat (case_bool_decide || case_decide); set_solver.
Qed.

End helper.
