(* ===== verification/Main.v ===== *)
(** * The daemon's entry point: main.go, and RunRPCHandler of ipamd/rpc_handler.go

    The start-up sequence: connect to the API server, initialise ipamd, start the
    goroutines, install the plugin and its configuration on the host (which marks
    the node as ready), serve RPC.  Files are reached through the operations of
    [os] and [io] that the source uses; [go f()] is the start of a goroutine. *)
From S2P Require Import Prelude GoStd DataStore DataStoreSpec Interfaces Ipamd IpamdInv IpamdFrame IpamdQuiet IpamdProps Netlink.

Open Scope Z_scope.

(** ** Files, goroutines and connections *)

Class FileSystem (W : Type) : Type := {
  File : Type;
  os_Open : string → ext W (File + error);
  os_Create : string → ext W (File + error);
  file_Close : File → ext W (option error);
  io_Copy : File → File → ext W (option error);
  file_Sync : File → ext W (option error);
  os_Stat_Mode : string → ext W (Z + error);
  os_Chmod : string → Z → ext W (option error);
}.

(** The goroutines [_main] starts. *)
Inductive goroutine : Type :=
| DiscoverK8SPods
| ENIConfigController_Start
| Go_StartNodeIPPoolManager
| ServeMetrics
| ServeIntrospection.

Class Process (W : Type) : Type := {
  CreateKubeClient : ext W (option error);
  go : goroutine → ext W unit;
  net_Listen : string → ext W (option error);
  grpc_Serve : ext W (option error);
}.

Definition ipamdgRPCaddress : string := "127.0.0.1:50051".

Section main.
Context {W : Type} `{!World W, !AwsAPIs W, !NetworkAPIs W, !K8SAPIs W, !ENIConfigAPI W, !Requests W}.
Context {env : Environ} `{!FileSystem W, !Process W}.

(** [copyFileContents] between opening both files and closing them. *)
Definition copy_body (in_ out : File) (src dst : string) : M W (option error) :=
  check (call (io_Copy out in_)) id (
  check (call (file_Sync out)) id (
  check_val (call (os_Stat_Mode src)) id (λ mode,
  check (call (os_Chmod dst mode)) id (mret None)))).

(** The deferred calls run in reverse order.  The one for [out] assigns the error
    of [Close] to the local variable [err] when that is nil, but the value to be
    returned has been fixed by then: the result has no name. *)
Definition copyFileContents (src dst : string) : M W (option error) :=
  check_val (call (os_Open src)) id (λ in_,
    r ← call (os_Create dst);
    match r with
    | inr err => _ ← call (file_Close in_); mret (Some err)
    | inl out =>
        err ← copy_body in_ out src dst;
        _ ← call (file_Close out);
        _ ← call (file_Close in_);
        mret err
    end).

Definition RunRPCHandler : M W (option error) :=
  check (call (net_Listen ipamdgRPCaddress)) (wrapped "ipamd: failed to listen to gRPC port") (
  check (call grpc_Serve) (wrapped "ipamd: failed to start server on gPRC port") (mret None)).

(** [_main] from the installation of the plugin on. *)
Definition install_and_serve : M W Z :=
  err ← copyFileContents "/app/aws-cni" "/host/opt/cni/bin/aws-cni";
  match err with
  | Some _ => mret 1
  | None =>
      err ← copyFileContents "/app/10-aws.conflist" "/host/etc/cni/net.d/10-aws.conflist";
      match err with
      | Some _ => mret 1
      | None =>
          err ← RunRPCHandler;
          match err with Some _ => mret 1 | None => mret 0 end
      end
  end.

(** [_main] up to the initialisation of ipamd: the clients, the first goroutines,
    and [ipamd.New], in which [awsutils_New] is the construction of the AWS client.
    An error is one after which the daemon ends. *)
Definition start_up (awsutils_New : ext W (option error)) : M (IpamSt W) (option error) :=
  err ← world (call CreateKubeClient);
  match err with
  | Some e => mret (Some e)
  | None =>
      world (call (go DiscoverK8SPods)) ;;
      (if UseCustomNetworkCfg then world (call (go ENIConfigController_Start)) else mret tt) ;;
      New awsutils_New
  end.

(** The exit code of the daemon. *)
Definition main_ (awsutils_New : ext W (option error)) : M (IpamSt W) Z :=
  err ← start_up awsutils_New;
  match err with
  | Some _ => mret 1
  | None =>
      world (call (go Go_StartNodeIPPoolManager)) ;;
      world (call (go ServeMetrics)) ;;
      world (call (go ServeIntrospection)) ;;
      world install_and_serve
  end.

End main.

(** ** Theorems *)

Section files.
Context {W : Type} `{!FileSystem W} (file : W → string → option (string * Z)) (path : File → string).

(** What the source relies on of files: their contents and modes.  A call that
    fails may leave the file it writes in any state, and no other. *)
Class FilesOk : Prop := {
  open_ok : ∀ p (w w' : W) r, os_Open p w = (Some r, w') →
    file w' = file w ∧ match r with inl h => path h = p ∧ is_Some (file w p) | inr _ => True end;
  create_ok : ∀ p (w w' : W) r, os_Create p w = (Some r, w') →
    (∀ q, q ≠ p → file w' q = file w q) ∧
    match r with inl h => path h = p ∧ ∃ m, file w' p = Some (""%string, m) | inr _ => True end;
  copy_ok : ∀ out i (w w' : W) r, io_Copy out i w = (Some r, w') →
    (∀ q, q ≠ path out → file w' q = file w q) ∧
    (r = None → ∀ c m d n, file w (path i) = Some (c, m) → file w (path out) = Some (d, n) →
       file w' (path out) = Some ((d +:+ c)%string, n));
  sync_ok : ∀ h (w w' : W) r, file_Sync h w = (Some r, w') → file w' = file w;
  stat_ok : ∀ p (w w' : W) r, os_Stat_Mode p w = (Some r, w') →
    file w' = file w ∧ match r with inl m => snd <$> file w p = Some m | inr _ => True end;
  chmod_ok : ∀ p m (w w' : W) r, os_Chmod p m w = (Some r, w') →
    (∀ q, q ≠ p → file w' q = file w q) ∧
    (r = None → ∀ c n, file w p = Some (c, n) → file w' p = Some (c, m));
  close_ok : ∀ h (w w' : W) r, file_Close h w = (Some r, w') →
    (∀ q, q ≠ path h → file w' q = file w q) ∧ (r = None → file w' = file w);
}.

Context `{!FilesOk}.

(** The calls of [copyFileContents] return. *)
Definition files_answer : Prop :=
  (∀ p (w : W), (os_Open p w).1 ≠ None) ∧ (∀ p (w : W), (os_Create p w).1 ≠ None) ∧
  (∀ o i (w : W), (io_Copy o i w).1 ≠ None) ∧ (∀ h (w : W), (file_Sync h w).1 ≠ None) ∧
  (∀ p (w : W), (os_Stat_Mode p w).1 ≠ None) ∧ (∀ p m (w : W), (os_Chmod p m w).1 ≠ None) ∧
  (∀ h (w : W), (file_Close h w).1 ≠ None).

Lemma wp_answered {A} (f : ext W A) (Q : A → W → Prop) w :
  (f w).1 ≠ None → (∀ a w', f w = (Some a, w') → Q a w') → wp False (call f) Q w.
Proof. unfold wp, call. destruct (f w) as [[a|] w']; eauto. Qed.

(** The copy itself. *)
Lemma copy_body_spec in_ out src dst (w : W) f c m :
  files_answer → path in_ = src → path out = dst → src ≠ dst →
  (∀ q, q ≠ dst → file w q = f q) → f src = Some (c, m) → (∃ n, file w dst = Some (""%string, n)) →
  wp False (copy_body in_ out src dst)
    (λ o w', (∀ q, q ≠ dst → file w' q = f q) ∧ (o = None → file w' dst = Some (c, m))) w.
Proof.
  intros (_ & _ & Ac & As & At & Am & _) Hin Hout Hne Hoth Hsrc [n Hdst]. unfold copy_body.
  apply wp_check, wp_answered; [apply Ac|]. intros r1 w1 H1. destruct (copy_ok _ _ _ _ _ H1) as [Ho1 Hc1].
  rewrite Hout, Hin in *.
  assert (∀ q, q ≠ dst → file w1 q = f q) as Hf1 by (intros; rewrite Ho1 by done; by apply Hoth).
  destruct r1 as [e|]; [by split|].
  assert (file w1 dst = Some (c, n)) as Hd1 by (apply (Hc1 eq_refl c m ""%string n); [by rewrite Hoth|done]).
  apply wp_check, wp_answered; [apply As|]. intros r2 w2 H2. apply sync_ok in H2. rewrite <-H2 in Hf1, Hd1.
  destruct r2 as [e|]; [by split|].
  apply wp_check_val, wp_answered; [apply At|]. intros r3 w3 H3. apply stat_ok in H3 as [H3 Hm3].
  rewrite <-H3 in Hf1, Hd1. destruct r3 as [mode|e]; [|by split].
  apply wp_check, wp_answered; [apply Am|]. intros r4 w4 H4. destruct (chmod_ok _ _ _ _ _ H4) as [Ho4 Hc4].
  assert (∀ q, q ≠ dst → file w4 q = f q) as Hf4 by (intros; rewrite Ho4 by done; by apply Hf1).
  destruct r4 as [e|]; [by split|]. wp_steps. split; [done|]. intros _.
  rewrite (Hc4 eq_refl c n) by done. rewrite <-H3, Hf1, Hsrc in Hm3 by done. simpl in Hm3. congruence.
Qed.

(** [copyFileContents] copies: it returns, changes no file but the destination, and
    when it reports no error (and closing the files does not fail) the destination
    has the contents and the mode of the source. *)
Lemma copy_spec src dst (w : W) :
  files_answer → src ≠ dst →
  wp False (copyFileContents src dst)
    (λ o w', (∀ q, q ≠ dst → q ≠ src → file w' q = file w q) ∧
       ((∀ h w, (file_Close h w).1 = Some None) → file w' src = file w src ∧
          (o = None → file w' dst = file w src))) w.
Proof.
  intros Ans Hne. pose proof Ans as (Ao & Acr & _ & _ & _ & _ & Acl). unfold copyFileContents.
  apply wp_check_val, wp_answered; [apply Ao|]. intros r w1 H1. apply open_ok in H1 as [H1 Hin].
  destruct r as [in_|e]; [|by rewrite H1]. destruct Hin as [Hp [[c m] Hsrc]].
  assert (∀ h w w' r, file_Close h w = (Some r, w') → (∀ h w, (file_Close h w).1 = Some None) → file w' = file w) as Hcl.
  { intros h v v' r Hc Hok. apply (close_ok _ _ _ _ Hc). specialize (Hok h v). rewrite Hc in Hok. by injection Hok. }
  apply wp_bind, wp_answered; [apply Acr|]. intros r2 w2 H2. apply create_ok in H2 as [Ho2 Hout]. rewrite H1 in Ho2.
  destruct r2 as [out|e].
  2: { apply wp_bind, wp_answered; [apply Acl|]. intros r3 w3 H3. wp_steps.
       destruct (close_ok _ _ _ _ H3) as [Ho3 _]. split.
       - intros q Hq Hqs. rewrite Ho3 by congruence. by apply Ho2.
       - intros Hok. rewrite (Hcl _ _ _ _ H3 Hok). split; [by apply Ho2|done]. }
  destruct Hout as [Hpo Hempty]. apply wp_bind.
  eapply wp_mono; [by apply (copy_body_spec in_ out src dst w2 (file w) c m)|].
  intros o w3 [Hf3 Hd3]. apply wp_bind, wp_answered; [apply Acl|]. intros r4 w4 H4.
  apply wp_bind, wp_answered; [apply Acl|]. intros r5 w5 H5. wp_steps.
  destruct (close_ok _ _ _ _ H4) as [Ho4 _]. destruct (close_ok _ _ _ _ H5) as [Ho5 _]. split.
  - intros q Hq Hqs. rewrite Ho5, Ho4 by congruence. by apply Hf3.
  - intros Hok. rewrite (Hcl _ _ _ _ H5 Hok), (Hcl _ _ _ _ H4 Hok). split; [by apply Hf3|].
    intros Ho. rewrite Hsrc. by apply Hd3.
Qed.

End files.

(** *** The start-up sequence *)

Section startup.
Context {W : Type} `{!World W, !AwsAPIs W, !NetworkAPIs W, !K8SAPIs W, !ENIConfigAPI W, !Requests W}.
Context {env : Environ} `{!FileSystem W, !Process W}.
Context (file : W → string → option (string * Z)) (path : File → string) `{!FilesOk file path}.

Definition bin_src : string := "/app/aws-cni".
Definition bin_dst : string := "/host/opt/cni/bin/aws-cni".
Definition conf_src : string := "/app/10-aws.conflist".
Definition conf_dst : string := "/host/etc/cni/net.d/10-aws.conflist".

(** The files of the plugin: nothing but [copyFileContents] touches them.  Of
    other files nothing is said; [SetupHostNetwork], for one, writes below
    /proc/sys. *)
Definition plugin_files : list string := [bin_src; bin_dst; conf_src; conf_dst].
Definition same_files (w w' : W) : Prop := Forall (λ q, file w' q = file w q) plugin_files.

#[global] Instance same_files_pre : PreOrder same_files.
Proof.
  unfold same_files. split; [by intros w; apply Forall_true|]. intros a b c.
  rewrite !Forall_forall. intros H1 H2 q Hq. rewrite H2, H1; done.
Qed.

Context `{!ServiceFrame same_files} (awsutils_New : ext W (option error)).

Record process_frame : Prop := {
  kube_files : ∀ w : W, same_files w (CreateKubeClient w).2;
  go_files : ∀ g (w : W), same_files w (go g w).2;
  listen_files : ∀ a (w : W), same_files w (net_Listen a w).2;
  serve_files : ∀ w : W, same_files w (grpc_Serve w).2;
  new_files : ∀ w : W, same_files w (awsutils_New w).2;
}.

Context (frame : process_frame) (answers : files_answer (W:=W)).

Lemma call_keeps {A} (f : ext W A) : (∀ w, same_files w (f w).2) → keeps same_files (call f).
Proof. intros Hf w. specialize (Hf w). unfold call. by destruct (f w) as [[] ?]. Qed.

Lemma kept {A} (m : M (IpamSt W) A) s a s' :
  keeps (on_i same_files) m → s ⊢ m ⇓ a ⊣ s' → same_files (i_world s) (i_world s').
Proof. intros Hm Hr. specialize (Hm s). by rewrite Hr in Hm. Qed.

Lemma world_inv {A} (m : M W A) (s s' : IpamSt W) a :
  s ⊢ world m ⇓ a ⊣ s' → i_world s ⊢ m ⇓ a ⊣ i_world s'.
Proof.
  unfold world, zoom. destruct (m (i_world s)) as [r w']. intros [= -> <-]. by destruct s.
Qed.

Lemma go_frame g : keeps (on_i same_files) (world (call (go g))).
Proof. apply world_frame, call_keeps. apply (go_files frame). Qed.

Lemma rpc_frame : keeps same_files RunRPCHandler.
Proof.
  unfold RunRPCHandler, check. apply keeps_bind; [apply _|apply call_keeps, (listen_files frame)|].
  intros [e|]; [apply keeps_ret, _|]. apply keeps_bind; [apply _|apply call_keeps, (serve_files frame)|].
  intros [e|]; apply keeps_ret, _.
Qed.

(** What installing the plugin does to its files, and what the exit code says. *)
Lemma install_spec (w w' : W) code :
  w ⊢ install_and_serve ⇓ code ⊣ w' → (∀ h w, (file_Close h w).1 = Some None) →
  (code = 0 ∨ code = 1) ∧ (∀ q, q ∈ [bin_src; conf_src] → file w' q = file w q) ∧
  (code = 0 → file w' bin_dst = file w bin_src ∧ file w' conf_dst = file w conf_src).
Proof.
  intros Hrun Hclose. unfold install_and_serve in Hrun.
  apply run_bind_inv in Hrun as (e1 & w1 & H1 & Hrun).
  destruct (wp_elim _ _ _ _ _ _ (copy_spec file path bin_src bin_dst w answers ltac:(done)) H1) as [Ho1 Hc1].
  destruct (Hc1 Hclose) as [Hs1 Hd1].
  assert (∀ q, q ≠ bin_dst → file w1 q = file w q) as Hq1
    by (intros q Hq; destruct (decide (q = bin_src)) as [->|]; [done|by apply Ho1]).
  assert (∀ q, q ∈ [bin_src; conf_src] → q ≠ bin_dst ∧ q ≠ conf_dst) as Hsrc.
  { intros q. rewrite !elem_of_cons, elem_of_nil. by intros [->|[->|[]]]. }
  destruct e1 as [e1|];
    [injection Hrun as <- <-; split; [by right|]; split; [intros q [? _]%Hsrc; by apply Hq1|done]|].
  apply run_bind_inv in Hrun as (e2 & w2 & H2 & Hrun).
  destruct (wp_elim _ _ _ _ _ _ (copy_spec file path conf_src conf_dst w1 answers ltac:(done)) H2) as [Ho2 Hc2].
  destruct (Hc2 Hclose) as [Hs2 Hd2].
  assert (∀ q, q ≠ conf_dst → file w2 q = file w1 q) as Hq2
    by (intros q Hq; destruct (decide (q = conf_src)) as [->|]; [done|by apply Ho2]).
  assert (∀ q, q ∈ [bin_src; conf_src] → file w2 q = file w q) as Hq
    by (intros q [? ?]%Hsrc; rewrite Hq2 by done; by apply Hq1).
  destruct e2 as [e2|]; [injection Hrun as <- <-; split; [by right|]; by split|].
  apply run_bind_inv in Hrun as (e3 & w3 & H3 & Hrun). pose proof (rpc_frame w2) as Hf.
  rewrite H3 in Hf. unfold same_files, plugin_files in Hf. simpl in Hf.
  rewrite !Forall_cons in Hf. destruct Hf as (Hf1 & Hf2 & Hf3 & Hf4 & _).
  assert (file w2 bin_dst = file w bin_src) as Hbin by (rewrite Hq2, (Hd1 eq_refl); done).
  assert (file w2 conf_dst = file w conf_src) as Hconf by (rewrite (Hd2 eq_refl); by apply Hq1).
  assert (∀ q, q ∈ [bin_src; conf_src] → file w3 q = file w q) as Hq3.
  { intros q Hin. rewrite <-(Hq q Hin). revert Hin. rewrite !elem_of_cons, elem_of_nil. by intros [->|[->|[]]]. }
  destruct e3 as [e3|]; injection Hrun as <- <-; (split; [by (left + right)|]); split; try done.
  intros _. by rewrite Hf2, Hf4.
Qed.

Lemma start_up_frame : keeps (on_i same_files) (start_up awsutils_New).
Proof.
  unfold start_up. apply keeps_bind; [apply _|apply world_frame, call_keeps, (kube_files frame)|].
  intros [e|]; [apply keeps_ret, _|]. apply keeps_bind; [apply _|apply go_frame|]. intros _.
  apply keeps_bind; [apply _|destruct UseCustomNetworkCfg; [apply go_frame|apply keeps_ret, _]|]. intros _.
  apply New_frame; [apply _|apply (new_files frame)].
Qed.

(** C40: the node is marked ready only when the daemon is up, and then completely.
    Whenever [_main] returns, the exit code is 0 or 1, the sources of the plugin
    and of its configuration are as they were, and the installed files either are
    as they were, too, or this very run has first come through [start_up], with
    ipamd initialised without an error and nothing installed by then; with exit
    code 0 both installed files are exact copies, mode included.  Closing a file
    is taken never to fail (its error is lost, see [close_error_lost]), and nothing
    but [copyFileContents] to touch the four files. *)
Theorem ready_after_init (s s' : IpamSt W) code :
  (∀ h (w : W), (file_Close h w).1 = Some None) → s ⊢ main_ awsutils_New ⇓ code ⊣ s' →
  (code = 0 ∨ code = 1) ∧
  (∀ q, q ∈ [bin_src; conf_src] → file (i_world s') q = file (i_world s) q) ∧
  (same_files (i_world s) (i_world s') ∨
   ∃ s1, s ⊢ start_up awsutils_New ⇓ None ⊣ s1 ∧ same_files (i_world s) (i_world s1)) ∧
  (code = 0 → file (i_world s') bin_dst = file (i_world s) bin_src ∧
              file (i_world s') conf_dst = file (i_world s) conf_src).
Proof.
  intros Hclose Hrun. unfold main_ in Hrun.
  apply run_bind_inv in Hrun as (e1 & s1 & H1 & Hrun). pose proof (kept _ _ _ _ start_up_frame H1) as Hk1.
  assert (∀ w w', same_files w w' → ∀ q, q ∈ plugin_files → file w' q = file w q) as Hat.
  { intros w w' Hw. by apply Forall_forall. }
  assert (∀ q, q ∈ [bin_src; conf_src] → q ∈ plugin_files) as Hsub
    by (intros q; unfold plugin_files; rewrite !elem_of_cons, elem_of_nil; tauto).
  destruct e1 as [e1|].
  { injection Hrun as <- <-. split; [by right|]. split; [by eauto|]. split; [by left|done]. }
  apply run_bind_inv in Hrun as (u5 & s5 & H5 & Hrun). apply (kept _ _ _ _ (go_frame _)) in H5.
  apply run_bind_inv in Hrun as (u6 & s6 & H6 & Hrun). apply (kept _ _ _ _ (go_frame _)) in H6.
  apply run_bind_inv in Hrun as (u7 & s7 & H7 & Hrun). apply (kept _ _ _ _ (go_frame _)) in H7.
  apply world_inv, install_spec in Hrun as (Hcode & Hq & Hok); [|done].
  assert (same_files (i_world s) (i_world s7)) as Hs7 by (repeat (etransitivity; [eassumption|]); done).
  split; [done|]. split; [intros q Hin; rewrite Hq by done; apply (Hat _ _ Hs7); by apply Hsub|].
  split; [right; by exists s1|]. intros Hc. destruct (Hok Hc) as [-> ->].
  split; apply (Hat _ _ Hs7); unfold plugin_files; rewrite !elem_of_cons; tauto.
Qed.

End startup.

(** ** A host with files *)

Record Host := mkHost { h_node : Node false; h_files : gmap string (string * Z) }.

Definition lift {A} (f : ext (Node false) A) : ext Host A := λ w,
  let '(o, n) := f (h_node w) in (o, mkHost n (h_files w)).

#[local] Instance Host_World : World Host := {
  w_now w := let '(t, n) := w_now (h_node w) in (t, mkHost n (h_files w));
  w_sleep d w := mkHost (w_sleep d (h_node w)) (h_files w);
  w_range A l w := let '(l', n) := w_range l (h_node w) in (l', mkHost n (h_files w));
}.
#[local] Instance Host_Aws : AwsAPIs Host := {
  AllocENI b l s := lift (AllocENI b l s);
  FreeENI id := lift (FreeENI id);
  GetAttachedENIs := lift GetAttachedENIs;
  DescribeENI id := lift (DescribeENI id);
  AllocIPAddresses id n := lift (AllocIPAddresses id n);
  DeallocIPAddresses id l := lift (DeallocIPAddresses id l);
  GetVPCIPv4CIDR := lift GetVPCIPv4CIDR;
  GetVPCIPv4CIDRs := lift GetVPCIPv4CIDRs;
  GetLocalIPv4 := lift GetLocalIPv4;
  GetPrimaryENI := lift GetPrimaryENI;
  GetENIipLimit := lift GetENIipLimit;
  GetENILimit := lift GetENILimit;
  GetPrimaryENImac := lift GetPrimaryENImac;
}.
#[local] Instance Host_Network : NetworkAPIs Host := {
  Rule := unit;
  SetupHostNetwork n l m a := lift (SetupHostNetwork n l m a);
  SetupENINetwork i m t c := lift (SetupENINetwork i m t c);
  UseExternalSNAT := lift UseExternalSNAT;
  GetExcludeSNATCIDRs := lift GetExcludeSNATCIDRs;
  GetRuleList := lift GetRuleList;
  UpdateRuleListBySrc r a l b := lift (UpdateRuleListBySrc r a l b);
}.
#[local] Instance Host_K8S : K8SAPIs Host := { K8SGetLocalPodIPs := lift K8SGetLocalPodIPs }.
#[local] Instance Host_ENIConfig : ENIConfigAPI Host := { MyENIConfig := lift MyENIConfig }.
#[local] Instance Host_Requests : Requests Host := { w_rpcs w := ([], w) }.

Definition host_file (w : Host) (p : string) : option (string * Z) := h_files w !! p.
Definition put_file (p : string) (f : string * Z) (w : Host) : Host := mkHost (h_node w) (<[p := f]> (h_files w)).

(** Closing a file fails when [broken]. *)
Definition host_fs (broken : bool) : FileSystem Host := {|
  File := string;
  os_Open p w := (Some (if bool_decide (is_Some (host_file w p)) then inl p else inr (EStr "no such file")), w);
  os_Create p w := (Some (inl p), put_file p (""%string, 420) w);
  file_Close p w :=
    if broken then (Some (Some (EStr "disk quota exceeded")), mkHost (h_node w) (delete p (h_files w)))
    else (Some None, w);
  io_Copy out i w :=
    (Some None, match host_file w i, host_file w out with
                | Some (c, _), Some (d, n) => put_file out ((d +:+ c)%string, n) w
                | _, _ => w
                end);
  file_Sync _ w := (Some None, w);
  os_Stat_Mode p w := (Some (match host_file w p with Some f => inl f.2 | None => inr (EStr "no such file") end), w);
  os_Chmod p m w := (Some None, match host_file w p with Some f => put_file p (f.1, m) w | None => w end);
|}.
#[local] Existing Instance host_fs.

#[local] Instance Host_Process : Process Host := {
  CreateKubeClient w := (Some None, w);
  go _ w := (Some tt, w);
  net_Listen _ w := (Some None, w);
  grpc_Serve w := (Some None, w);
}.

Lemma put_file_other p f w q : q ≠ p → host_file (put_file p f w) q = host_file w q.
Proof. intros Hq. unfold host_file. simpl. by rewrite lookup_insert_ne. Qed.

Lemma host_fs_ok broken : FilesOk (FileSystem0:=host_fs broken) host_file (λ p : string, p).
Proof.
  split; simpl.
  - intros p w w' r [= <- <-]. split; [done|]. by case_bool_decide.
  - intros p w w' r [= <- <-]. split; [intros; by apply put_file_other|]. split; [done|]. exists 420.
    unfold host_file. simpl. apply lookup_insert_eq.
  - intros out i w w' r [= <- <-]. destruct (host_file w i) as [[c m]|] eqn:Hi; [|done].
    destruct (host_file w out) as [[d n]|] eqn:Ho; [|done]. split; [intros; by apply put_file_other|].
    intros _ c' m' d' n' [= <- <-] [= <- <-]. unfold host_file. simpl. apply lookup_insert_eq.
  - by intros h w w' r [= _ <-].
  - intros p w w' r [= <- <-]. split; [done|]. by destruct (host_file w p).
  - intros p m w w' r [= <- <-]. destruct (host_file w p) as [f|] eqn:Hf; [|done].
    split; [intros; by apply put_file_other|]. intros _ c n [= ->]. unfold host_file. simpl. apply lookup_insert_eq.
  - intros h w w' r. destruct broken; intros [= <- <-]; [|done]. split; [|done]. intros q Hq.
    unfold host_file. simpl. by rewrite lookup_delete_ne.
Qed.

#[local] Instance Host_frame : ServiceFrame (same_files host_file).
Proof.
  split; [split; [split; [apply _|..]|..]|]; try (intros; by apply Forall_true).
  intros A f w []; by apply Forall_true.
Qed.

Lemma host_answers broken : files_answer (FileSystem0:=host_fs broken).
Proof. split_and!; intros; simpl; try done. by destruct broken. Qed.

(** A host before the installation, with two pods running. *)
Definition host_env : Environ := {| environ := ∅ |}.
Definition aws_New : ext Host (option error) := λ w, (Some None, w).
Definition host_start : IpamSt Host :=
  mkIpamSt zeroContext ∅
    (mkHost test_node {["/app/aws-cni" := ("plugin", 493); "/app/10-aws.conflist" := ("config", 420)]}%string).

Lemma host_process_frame : process_frame host_file aws_New.
Proof. split; intros; by apply Forall_true. Qed.

Lemma ready_after_init_witness :
  let r := main_ (env:=host_env) (FileSystem0:=host_fs false) aws_New host_start in
  r.1 = Ret 0 ∧ host_file (i_world r.2) bin_dst = Some ("plugin"%string, 493) ∧
  host_file (i_world r.2) conf_dst = host_file (i_world host_start) conf_src.
Proof.
  cbn zeta.
  assert ((main_ (env:=host_env) (FileSystem0:=host_fs false) aws_New host_start).1 = Ret 0) as Hr
    by (vm_compute; reflexivity).
  destruct (main_ (env:=host_env) (FileSystem0:=host_fs false) aws_New host_start) as [r s'] eqn:Hrun.
  simpl in Hr |- *. subst r. split; [reflexivity|].
  destruct (@ready_after_init Host _ _ _ _ _ _ host_env (host_fs false) _ host_file (λ p, p) (host_fs_ok false) _
    aws_New host_process_frame (host_answers false) host_start s' 0 ltac:(reflexivity) Hrun) as (_ & _ & _ & H0).
  exact (H0 eq_refl).
Defined.

(** An error of closing the copy is lost: [copyFileContents] reports success
    although the destination is gone. *)
Theorem close_error_lost :
  (copyFileContents (FileSystem0:=host_fs true) bin_src bin_dst (i_world host_start)).1 = Ret None ∧
  host_file (copyFileContents (FileSystem0:=host_fs true) bin_src bin_dst (i_world host_start)).2 bin_dst = None.
Proof. vm_compute. done. Qed.
